(* ===== verification/_CoqProject ===== *)
-Q . S2P
Prelude.v
Task.v
TaskQueue.v
CLib.v
FreeList.v
PhMem.v
Paging.v
Vmm.v
SpinLock.v
RingBuffer.v
Algorithm.v
Strings.v
Printf.v
Heap.v
HeapInv.v
HeapFree.v
Event.v
EventCore.v
EventInv.v
EventSpec.v
EventWait.v
Sched.v
SchedInv.v
SchedSwitch.v
Semaphore.v
Mutex.v
PeLoader.v
KList.v
InterruptQueue.v
HeapVmm.v
Tlb.v
BootMemory.v
AcpiTables.v
Interrupts.v
InterruptInit.v
KMap.v
PciBus.v
