(* ===== verification/Prelude.v ===== *)
(** * SHM DOS64 kernel: a verification library (root file)

    SHM DOS64 is a 64-bit kernel in C++ (kernel/, include/) with a UEFI loader
    (uefi/), an ACPI driver over ACPICA (acpi/) and PCI drivers (pci/, pcidev/).  The
    library models the kernel's core, memory, scheduling and the routines they stand
    on, and proves what makes each part correct.  Where the code does not do what it
    means to, the theorems are about what it does, and a short run (an [Example] or a
    [Demo] lemma) shows the difference.

    ** Parts, files and sources

    - [Prelude] (this file): outcomes of kernel code, machine integers, arrays and
      pointers, the tactics [ostep], [bind_inv] and [zbool].
    - [Task], [TaskQueue] (kernel/Task.h): the task record and [TaskPriorityQueue].
    - [CLib] (include/kclib.h, kernel/CLibImpl.cpp): kmemcpy, kmemset, memmove over a
      byte memory.
    - [Strings] (kernel/CLibImpl.cpp, include/kclib.h): number conversion, string and
      character routines.  [Printf]: kvprintf.  [Algorithm] (include/kalgorithm.h).
    - [FreeList]: lists threaded through a store, shared by [Vmm], [Heap], [KList].
    - [PhMem] (kernel/phmem.cpp): the physical page allocator, with its lock-free stack
      as interleaved atomic steps (Module [LockFree]).
    - [Paging] (kernel/paging.cpp): page tables as memory, the walk of the hardware, and
      the routines that map, unmap and change pages.
    - [Vmm] (kernel/VirtualMemoryManager.cpp): regions of the address space.
    - [Heap], [HeapInv], [HeapFree] (kernel/Heap.cpp): the kernel heap, over the class
      [VmmIface], which states what it needs of the virtual memory manager.
    - [SpinLock] (kernel/SpinLock.cpp): the queued spin lock; [RingBuffer]
      (include/LockFreeRingBuffer.h): both as step relations over atomic operations.
    - [Event], [EventCore], [EventInv], [EventSpec], [EventWait]
      (kernel/EventObject.cpp): events with their wait lists.
    - [Sched], [SchedInv], [SchedSwitch] (kernel/TaskManager.cpp): the scheduler, over
      the tasks and events of [Task] and [Event].
    - [Semaphore] (kernel/Semaphore.cpp): semaphores, as events with hooks of their own.
    - [Mutex] (kernel/kmutex.cpp): the mutex, as interleaved steps of its threads over the
      specification of events.
    - [PeLoader] (kernel/PeLoader.cpp, include/pe64.h): the loader of kernel modules, over
      the memory of [CLib].
    - [InterruptQueue] (kernel/InterruptQueue.cpp): queues between interrupt handlers and
      threads, over the scheduler's state.
    - [BootMemory] (uefi/memory.cpp): the loader's memory map, input of [PhMem].
    - [AcpiTables] (kernel/AcpiTables.cpp): the firmware's tables, in the memory of [CLib].
    - [Interrupts], [InterruptInit] (kernel/ExternalInterrupts.cpp, kernel/idt.cpp): device
      interrupts, from the tables of [AcpiTables], with handlers in lists of [KList].
    - [Tlb] (kernel/paging.cpp): TLB shootdown between CPUs.
    - [HeapVmm]: the instance of the heap's interface by the manager.
    - [KList] (include/klist.h): the list container, over the links of [FreeList].
    - [KMap] (include/kunordered_map.h, include/ContainerAllocator.h): the hash map.
    - [PciBus] (pcidev/PciBus.cpp, pci/IrqRouting.cpp): the search for PCI devices and the
      routing of their interrupts, over [KMap] and [Interrupts].

    The state of a part is a record with the source's members; pointers are addresses
    ([Z]) into stores ([gmap Z _]), arrays are lists, a w-bit integer is a [Z] whose
    wrap-around is written out ([u64], [u32]).  An operation is a function to
    [outcome]; [PANIC] and undefined behaviour (a wild pointer, an index out of range)
    are outcomes of their own.

    ** What the theorems show

    - Queues and lists are right: the heap of tasks (C1, C2), the wait lists of events,
      which refine first-in first-out queues (C31, C32, C34), the list container (C23), interrupt
      queues (C22).
    - The loader gives the kernel exactly the RAM it does not use itself (C5).
    - The kernel reads the firmware's tables as they were written (C20), sets the device
      interrupts up from them, and runs the handlers of a line as installed (C33).
    - Memory is handed out once: physical pages (C6 to C8, under all interleavings for
      the lock-free stack), address ranges (C13 to C15), heap blocks (C28 to C30), and
      the two together (C24).  An allocation of address space whose search gives up
      after g_maxAllocIterations regions takes a larger region whole and loses its rest;
      C13 describes it, C15 and C24 are about histories without one.
    - Page tables translate as asked, and operations leave other pages alone (C9 to C12);
      the tables may hold large pages (the class [LargePages]), as those of the loader do,
      and the theorems are about ranges outside them.  No TLB flush that was asked for is
      lost, but for one named case (C4).
    - Mutual exclusion and progress of the spin lock (C16, C17), first-in first-out
      order of the ring buffer until its 64-bit indices wrap (C18), under all
      interleavings of atomic steps.
    - Copying, searching, conversion and formatting (C3, C19, C21, C26), with round
      trips between numbers and their texts.
    - The search for PCI devices ends and files every device under its class (C27), in a
      hash map that refines an association list up to its first growth.
    - The scheduler picks the right task and loses none (C35, C36), unless it comes to a
      left-over entry of the current task and locks it a second time; semaphores and
      mutexes hand units and ownership to waiters in order, and a mutex has one owner
      (C37 to C39).
    - The module loader writes only to the image it was given, whatever the file holds
      (C25), and relocates it as the table says (C40).

    ** Bounds and fuel

    Loops without a structural measure take fuel.  The fuel is computed from the state
    (the number of tasks, the size of a queue, the length of a format) and the theorems
    prove that it is enough; g_heapMaxIterations is the source's own bound.  The lemmas
    on runs are for any number of steps.  Where a loop can run on for a bad input (the
    relocation blocks of a module), the theorem is for every bound.

    ** Composition

    [Heap] is proved against the class [VmmIface]; [HeapVmm] shows that [Vmm] implements it
    and composes the two, with other users of the manager between the heap's calls; a
    flag of the instance ([kv_lost]) records that a request took the last resort of the
    manager's search.  [PciBus] runs the code of [KMap] and [Interrupts].  [Sched] uses the
    operations of [Task] and [Event]; its invariant contains the relation [Rel] of
    [EventSpec].  [Semaphore] runs the code of [Event] with its hooks; [Mutex] uses the
    specification that C31 shows the code to refine.  [PeLoader] takes the result of the
    virtual memory manager's allocation as a parameter.  Sequentially consistent atomics
    are assumed throughout: the memory orders of std::atomic are not modelled.

    ** Not modelled

    The ACPICA sources (3rdparty/), uefi/efi.h and other declarations of foreign
    interfaces; assembly (entry points, context save and restore, interrupt stubs);
    device registers and port I/O (local APIC, HPET, video; reads of PCI configuration
    space are a parameter of [PciBus]); drivers and the ACPI glue; tests.cpp.  These either only move data to and from
    hardware or call code that is not part of the repository's own logic.  The manifest
    lists every part with its status. *)

From Stdlib Require Export ZArith Lia ZifyNat ZifyBool.
From stdpp Require Export functions base tactics numbers option list fin_maps gmap.

#[export] Set Default Goal Selector "!".

Declare Scope kern_scope.
Delimit Scope kern_scope with kern.
#[global] Open Scope Z_scope.

(** ** Outcomes of kernel code

    [PANIC] stops the machine; dereferencing a pointer outside every live
    object, or indexing an array out of range, is undefined behaviour and is
    kept apart as [Fault]; [NoFuel] is the bound of a model loop running out
    (every theorem that a routine returns rules it out), or a spin that nothing ends. *)
Inductive outcome (A : Type) : Type :=
| Ok (a : A)
| Panic
| Fault
| NoFuel.
Arguments Ok {A} a.
Arguments Panic {A}.
Arguments Fault {A}.
Arguments NoFuel {A}.

#[export] Instance outcome_ret : MRet outcome := @Ok.
#[export] Instance outcome_bind : MBind outcome := fun A B f m =>
  match m with
  | Ok a => f a
  | Panic => Panic
  | Fault => Fault
  | NoFuel => NoFuel
  end.

Lemma bind_Ok {A B} (m : outcome A) (f : A -> outcome B) b :
  m ≫= f = Ok b -> exists a, m = Ok a /\ f a = Ok b.
Proof. destruct m; simpl; try discriminate; eauto. Qed.

Lemma bind_assoc {A B C} (m : outcome A) (f : A -> outcome B) (g : B -> outcome C) :
  (m ≫= f) ≫= g = (a ← m; f a ≫= g).
Proof. by destruct m. Qed.
Lemma bind_ext {A B} (m : outcome A) (f g : A -> outcome B) :
  (forall a, f a = g a) -> m ≫= f = m ≫= g.
Proof. intros E. destruct m; simpl; auto. Qed.
Lemma bind_pair_assoc {A1 A2 B C} (m : outcome (A1 * A2)) (f : A1 -> A2 -> outcome B)
    (g : B -> outcome C) :
  ('(a, b) ← m; f a b ≫= g) = (c ← ('(a, b) ← m; f a b); g c).
Proof. by destruct m as [[??]| | |]. Qed.

(** ** Machine integers: values of [Z] kept in range by explicit wrap-around. *)
Definition u8 (x : Z) : Z := x mod 2 ^ 8.
Definition u16 (x : Z) : Z := x mod 2 ^ 16.
Definition u32 (x : Z) : Z := x mod 2 ^ 32.
Definition u64 (x : Z) : Z := x mod 2 ^ 64.
Definition size_max : Z := 2 ^ 64 - 1.
Definition nullptr : Z := 0.

Lemma u64_small x : 0 <= x < 2 ^ 64 -> u64 x = x.
Proof. apply Z.mod_small. Qed.
Lemma u32_small x : 0 <= x < 2 ^ 32 -> u32 x = x.
Proof. apply Z.mod_small. Qed.
Lemma u64_range x : 0 <= u64 x < 2 ^ 64.
Proof. apply Z.mod_pos_bound. lia. Qed.
Lemma u32_range x : 0 <= u32 x < 2 ^ 32.
Proof. apply Z.mod_pos_bound. lia. Qed.

(** ** Arrays: reads and writes outside the array are undefined behaviour. *)
Definition arr_get {A} (l : list A) (i : nat) : outcome A :=
  match l !! i with Some x => Ok x | None => Fault end.
Definition arr_set {A} (l : list A) (i : nat) (x : A) : outcome (list A) :=
  match l !! i with Some _ => Ok (<[i:=x]> l) | None => Fault end.

(** A pointer dereference in a store of objects indexed by address. *)
Definition deref {A} (m : gmap Z A) (p : Z) : outcome A :=
  match m !! p with Some x => Ok x | None => Fault end.

Lemma arr_get_Some {A} (l : list A) i x : l !! i = Some x -> arr_get l i = Ok x.
Proof. unfold arr_get. by intros ->. Qed.
Lemma arr_set_Some {A} (l : list A) i x y :
  l !! i = Some y -> arr_set l i x = Ok (<[i:=x]> l).
Proof. unfold arr_set. by intros ->. Qed.
Lemma deref_Some {A} (m : gmap Z A) p x : m !! p = Some x -> deref m p = Ok x.
Proof. unfold deref. by intros ->. Qed.

Lemma exists_last_or_nil {A} (l : list A) : l = [] \/ exists l' x, l = l' ++ [x].
Proof. induction l as [|x l _] using rev_ind; eauto. Qed.

Create HintDb kern. Create Rewrite HintDb kern.
#[export] Hint Resolve arr_get_Some arr_set_Some deref_Some : kern.
#[export] Hint Rewrite @arr_get_Some @arr_set_Some @deref_Some using eassumption : kern.

(** Case analysis on the boolean comparisons of a goal or hypothesis. *)
Ltac zbool :=
  repeat match goal with
  | |- context [Z.eqb ?a ?b] => destruct (Z.eqb_spec a b)
  | |- context [Z.ltb ?a ?b] => destruct (Z.ltb_spec a b)
  | |- context [Z.leb ?a ?b] => destruct (Z.leb_spec a b)
  | H : context [Z.eqb ?a ?b] |- _ => destruct (Z.eqb_spec a b)
  | H : context [Z.ltb ?a ?b] |- _ => destruct (Z.ltb_spec a b)
  | H : context [Z.leb ?a ?b] |- _ => destruct (Z.leb_spec a b)
  end.

(** Split a computation [m ≫= f = Ok b] into its parts. *)
Ltac bind_inv H :=
  repeat match type of H with
  | _ ≫= _ = Ok _ =>
      let a := fresh "a" in let E := fresh "E" in
      apply bind_Ok in H as (a & E & H)
  end.

(** Run a computation past the steps whose outcome is known. *)
Ltac ostep := cbn [mbind outcome_bind mret outcome_ret].
Tactic Notation "ostep" "in" hyp(H) := cbn [mbind outcome_bind mret outcome_ret] in H.
