(* ===== verification/Task.v ===== *)
(** * Tasks and the task priority queue (kernel/Task.h)

    [Task] is the scheduler's record of a thread; pointers to tasks are
    addresses in a store [gmap Z Task].  [TaskPriorityQueue] is the binary
    heap ordered by [m_wakeTime] that holds the runnable and the sleeping
    tasks; each queued task records its position in [m_priorityQueueIndex]. *)

From S2P Require Import Prelude.

(** ** Data *)

Inductive TaskState : Type :=
| None_ | Active | PriorityWait | Wait | Sleep | TimedSleep | Terminated.

#[export] Instance TaskState_eq_dec : EqDecision TaskState.
Proof. solve_decision. Defined.

Definition TaskWaitEventsMax : nat := 64.
Definition InvalidIndex : Z := size_max.

Record EventsInfo : Type := mkEventsInfo {
  ei_next : Z;
  ei_prev : Z;
  ei_object : Z
}.

Record Task : Type := mkTask {
  m_stackTop : Z;
  m_threadLocalData : gmap Z Z;
  m_priorityQueueIndex : Z;
  m_realtimeNext : Z;
  m_waitEventsInfo : list EventsInfo;
  m_waitEventCount : nat;
  m_waitEventResult : Z;
  m_needWaitEvents : Z;
  m_state : TaskState;
  m_wakeTime : Z;
  m_kernel : bool;
  m_useFpu : bool;
  m_idle : bool;
  m_desiredMaxWait : Z;
  m_readyForSleep : bool;
  m_pagingManager : Z
}.

Definition set_priorityQueueIndex (i : Z) (t : Task) : Task :=
  mkTask (m_stackTop t) (m_threadLocalData t) i (m_realtimeNext t)
    (m_waitEventsInfo t) (m_waitEventCount t) (m_waitEventResult t)
    (m_needWaitEvents t) (m_state t) (m_wakeTime t) (m_kernel t) (m_useFpu t)
    (m_idle t) (m_desiredMaxWait t) (m_readyForSleep t) (m_pagingManager t).

(** [task->m_priorityQueueIndex = idx] through a pointer. *)
Definition storeIndex (ts : gmap Z Task) (p : Z) (idx : nat) : outcome (gmap Z Task) :=
  t ← deref ts p;
  Ok (<[p := set_priorityQueueIndex (Z.of_nat idx) t]> ts).

(** ** [TaskPriorityQueue] *)
Module TaskPriorityQueue.

Record t : Type := mk {
  m_pointersArray : list Z;
  m_maxSize : nat;
  m_curSize : nat
}.

(** The constructor's array has [maxSize] uninitialised slots: the model takes
    its contents as an argument. *)
Definition create (pointersArray : list Z) (maxSize : nat) : t := mk pointersArray maxSize 0.

Definition empty (q : t) : bool := Nat.eqb (m_curSize q) 0.

Definition minWakeTimeTask (q : t) : outcome Z := arr_get (m_pointersArray q) 0.

Definition compare (ts : gmap Z Task) (a b : Z) : outcome bool :=
  ta ← deref ts a;
  tb ← deref ts b;
  Ok (m_wakeTime ta <? m_wakeTime tb).

Definition kswap (arr : list Z) (i j : nat) : outcome (list Z) :=
  a ← arr_get arr i;
  b ← arr_get arr j;
  arr ← arr_set arr i b;
  arr_set arr j a.

(** The sift-up loop of [push]; it returns the position it stops at. *)
Fixpoint siftUp (fuel : nat) (ts : gmap Z Task) (arr : list Z) (idx : nat)
    : outcome (gmap Z Task * list Z * nat) :=
  match fuel with
  | O => NoFuel
  | S fuel =>
      if Nat.eqb idx 0 then Ok (ts, arr, idx)
      else
        let newIdx := ((idx - 1) / 2)%nat in
        pa ← arr_get arr newIdx;
        pb ← arr_get arr idx;
        lt ← compare ts pa pb;
        if (lt : bool) then Ok (ts, arr, idx)
        else
          arr ← kswap arr newIdx idx;
          p ← arr_get arr idx;
          ts ← storeIndex ts p idx;
          siftUp fuel ts arr newIdx
  end.

Definition push (ts : gmap Z Task) (q : t) (task : Z) : outcome (bool * gmap Z Task * t) :=
  if Nat.eqb (m_curSize q) (m_maxSize q) then Ok (false, ts, q)
  else
    let idx := m_curSize q in
    arr ← arr_set (m_pointersArray q) idx task;
    '(ts, arr, idx) ← siftUp (S idx) ts arr idx;
    p ← arr_get arr idx;
    ts ← storeIndex ts p idx;
    Ok (true, ts, mk arr (m_maxSize q) (S (m_curSize q))).

(** One comparison of the loop of [restore]:
    [if ((child < m_curSize) && compare(a[child], a[minIdx])) minIdx = child]. *)
Definition selectMin (ts : gmap Z Task) (arr : list Z) (curSize child minIdx : nat)
    : outcome nat :=
  if Nat.ltb child curSize then
    pa ← arr_get arr child;
    pb ← arr_get arr minIdx;
    lt ← compare ts pa pb;
    Ok (if (lt : bool) then child else minIdx)
  else Ok minIdx.

Fixpoint restoreLoop (fuel : nat) (ts : gmap Z Task) (arr : list Z) (curSize idx minIdx : nat)
    : outcome (gmap Z Task * list Z) :=
  match fuel with
  | O => NoFuel
  | S fuel =>
      let left := (2 * idx + 1)%nat in
      let right := (left + 1)%nat in
      minIdx ← selectMin ts arr curSize left minIdx;
      minIdx ← selectMin ts arr curSize right minIdx;
      if Nat.eqb minIdx idx then Ok (ts, arr)
      else
        arr ← kswap arr idx minIdx;
        p ← arr_get arr idx;
        ts ← storeIndex ts p idx;
        p ← arr_get arr minIdx;
        ts ← storeIndex ts p minIdx;
        restoreLoop fuel ts arr curSize minIdx minIdx
  end.

(** [restore] starts with [minIdx = 0] whatever [idx] is. *)
Definition restore (ts : gmap Z Task) (arr : list Z) (curSize idx : nat)
    : outcome (gmap Z Task * list Z) :=
  restoreLoop (S (S curSize)) ts arr curSize idx 0.

Definition pop (ts : gmap Z Task) (q : t) : outcome (gmap Z Task * t) :=
  match m_curSize q with
  | O => Fault
  | S n =>
      p ← arr_get (m_pointersArray q) n;
      arr ← arr_set (m_pointersArray q) 0 p;
      '(ts, arr) ← restore ts arr n 0;
      Ok (ts, mk arr (m_maxSize q) n)
  end.

Definition remove (ts : gmap Z Task) (q : t) (task : Z) : outcome (gmap Z Task * t) :=
  tk ← deref ts task;
  let idx := Z.to_nat (m_priorityQueueIndex tk) in
  match m_curSize q with
  | O => Fault
  | S n =>
      lastTask ← arr_get (m_pointersArray q) n;
      arr ← arr_set (m_pointersArray q) idx lastTask;
      ts ← storeIndex ts lastTask idx;
      '(ts, arr) ← restore ts arr n idx;
      Ok (ts, mk arr (m_maxSize q) n)
  end.

(** ** The heap invariant *)

Definition wake (ts : gmap Z Task) (p : Z) : Z := from_option m_wakeTime 0 (ts !! p).

(** The tasks the queue holds. *)
Definition queued (q : t) : list Z := take (m_curSize q) (m_pointersArray q).

Definition live (ts : gmap Z Task) (l : list Z) : Prop := forall p, p ∈ l -> is_Some (ts !! p).

(** [a] is not woken after its child, for every child below [n] but [hole]. *)
Definition heap_but (ts : gmap Z Task) (arr : list Z) (n hole : nat) : Prop :=
  forall i p c, (0 < i < n)%nat -> i <> hole ->
    arr !! ((i - 1) / 2)%nat = Some p -> arr !! i = Some c -> wake ts p <= wake ts c.

(** Every queued task outside the root and [hole] knows its position. *)
Definition indexed_but (ts : gmap Z Task) (arr : list Z) (n hole : nat) : Prop :=
  forall i p tk, (0 < i < n)%nat -> i <> hole -> arr !! i = Some p -> ts !! p = Some tk ->
    m_priorityQueueIndex tk = Z.of_nat i.

Record Inv (ts : gmap Z Task) (q : t) : Prop := mkInv {
  inv_length : length (m_pointersArray q) = m_maxSize q;
  inv_size : (m_curSize q <= m_maxSize q)%nat;
  inv_live : live ts (queued q);
  inv_nodup : NoDup (queued q);
  inv_heap : heap_but ts (m_pointersArray q) (m_curSize q) 0;
  inv_index : indexed_but ts (m_pointersArray q) (m_curSize q) 0
}.

(** The queue changes nothing of a task but its recorded position. *)
Definition frame (ts ts' : gmap Z Task) : Prop :=
  forall p, set_priorityQueueIndex 0 <$> ts !! p = set_priorityQueueIndex 0 <$> ts' !! p.

#[export] Instance frame_equiv : Equivalence frame.
Proof.
  split; [intros ? ?; done | intros ? ? H p; by rewrite H |].
  intros ? ? ? H1 H2 p. by rewrite H1.
Qed.

Lemma frame_is_Some ts ts' p : frame ts ts' -> is_Some (ts !! p) -> is_Some (ts' !! p).
Proof.
  intros H [x Hx]. specialize (H p). rewrite Hx in H.
  destruct (ts' !! p); [eauto | done].
Qed.

#[export] Instance wake_proper : Proper (frame ==> eq ==> eq) wake.
Proof.
  intros ts ts' H p ? <-. unfold wake. specialize (H p).
  destruct (ts !! p), (ts' !! p); simplify_eq/=; congruence.
Qed.

Lemma storeIndex_Ok ts p i :
  is_Some (ts !! p) ->
  exists tk, ts !! p = Some tk /\
    storeIndex ts p i = Ok (<[p := set_priorityQueueIndex (Z.of_nat i) tk]> ts).
Proof. intros [tk E]. exists tk. unfold storeIndex. by rewrite (deref_Some _ _ _ E). Qed.

Lemma frame_storeIndex ts p i tk :
  ts !! p = Some tk -> frame ts (<[p := set_priorityQueueIndex i tk]> ts).
Proof.
  intros E r. destruct (decide (p = r)) as [->|]; simplify_map_eq; by rewrite ?E.
Qed.

Lemma compare_Ok ts a b :
  is_Some (ts !! a) -> is_Some (ts !! b) -> compare ts a b = Ok (wake ts a <? wake ts b).
Proof.
  intros [ta Ea] [tb Eb]. unfold compare, wake, deref. by rewrite Ea, Eb.
Qed.

(** ** Array exchanges *)
Lemma lookup_swap (arr : list Z) i j a b k :
  arr !! i = Some a -> arr !! j = Some b ->
  <[j:=a]> (<[i:=b]> arr) !! k =
    if decide (k = j) then Some a else if decide (k = i) then Some b else arr !! k.
Proof.
  intros Hi Hj. pose proof (lookup_lt_Some _ _ _ Hi). pose proof (lookup_lt_Some _ _ _ Hj).
  repeat case_decide; subst.
  - apply list_lookup_insert_eq. by rewrite length_insert.
  - rewrite list_lookup_insert_ne by done. by apply list_lookup_insert_eq.
  - by rewrite !list_lookup_insert_ne.
Qed.

Lemma kswap_Ok arr i j a b :
  arr !! i = Some a -> arr !! j = Some b -> kswap arr i j = Ok (<[j:=a]> (<[i:=b]> arr)).
Proof.
  intros Hi Hj. unfold kswap, arr_get, arr_set. rewrite Hi, Hj. simpl.
  pose proof (lookup_lt_Some _ _ _ Hj) as Hlt.
  destruct (lookup_lt_is_Some_2 (<[i:=b]> arr) j) as [x ->]; [by rewrite length_insert | done].
Qed.

Lemma insert_Permutation (l : list Z) i a b :
  l !! i = Some a -> a :: <[i:=b]> l ≡ₚ b :: l.
Proof.
  revert i. induction l as [|c l IH]; intros [|i] E; simplify_eq/=.
  - apply Permutation_swap.
  - rewrite Permutation_swap, (IH _ E). apply Permutation_swap.
Qed.

Lemma swap_Permutation (l : list Z) i j a b :
  l !! i = Some a -> l !! j = Some b -> <[j:=a]> (<[i:=b]> l) ≡ₚ l.
Proof.
  intros Hi Hj. apply (Permutation_cons_inv (a := b)).
  rewrite insert_Permutation.
  - by apply insert_Permutation.
  - destruct (decide (i = j)) as [->|].
    + apply list_lookup_insert_eq. by eapply lookup_lt_Some.
    + by rewrite list_lookup_insert_ne.
Qed.

Lemma take_swap_Permutation (l : list Z) n i j a b :
  (i < n)%nat -> (j < n)%nat -> l !! i = Some a -> l !! j = Some b ->
  take n (<[j:=a]> (<[i:=b]> l)) ≡ₚ take n l.
Proof.
  intros Hi Hj Ei Ej. rewrite !take_insert_lt by done.
  apply swap_Permutation; by rewrite lookup_take_lt.
Qed.

Lemma queued_lookup (arr : list Z) n i :
  (i < n <= length arr)%nat -> exists p, arr !! i = Some p /\ p ∈ take n arr.
Proof.
  intros H. destruct (lookup_lt_is_Some_2 arr i) as [p E]; [lia|].
  exists p. split; [done|]. apply list_elem_of_lookup. exists i. rewrite lookup_take_lt; [done|lia].
Qed.

#[local] Ltac Zify.zify_post_hook ::= Z.div_mod_to_equations.

(** Two positions of a duplicate-free prefix that hold the same task agree. *)
Lemma take_NoDup_inj (arr : list Z) n i j p :
  NoDup (take n arr) -> (i < n)%nat -> (j < n)%nat ->
  arr !! i = Some p -> arr !! j = Some p -> i = j.
Proof.
  intros Hnd Hi Hj Ei Ej.
  eapply NoDup_lookup; [done | |]; rewrite lookup_take_lt; done.
Qed.

Lemma live_frame ts ts' l l' : frame ts ts' -> l ≡ₚ l' -> live ts l -> live ts' l'.
Proof. intros Hf Hp Hl p Hin. eapply frame_is_Some; [done|]. apply Hl. by rewrite Hp. Qed.

(** Moving a task from its parent's position: what one exchange of the sift-up
    loop does to the heap order and to the recorded positions. *)
Section SiftUpStep.
Context (ts : gmap Z Task) (arr : list Z) (n idx : nat) (pa pb : Z) (tk : Task).
Let newIdx := ((idx - 1) / 2)%nat.
Let arr' := <[idx:=pa]> (<[newIdx:=pb]> arr).
Let ts' := <[pa := set_priorityQueueIndex (Z.of_nat idx) tk]> ts.
Context (Hidx : (0 < idx < n)%nat) (Hlen : (n <= length arr)%nat).
Context (Ha : arr !! newIdx = Some pa) (Hb : arr !! idx = Some pb).
Context (Hpa : ts !! pa = Some tk) (Hle : wake ts pb <= wake ts pa).
Context (Hheap : heap_but ts arr n idx).

Let Hfr : frame ts ts' := frame_storeIndex ts pa (Z.of_nat idx) tk Hpa.

Lemma siftUp_step_heap :
  (forall i p c, (0 < i < n)%nat -> ((i - 1) / 2)%nat = idx -> arr !! newIdx = Some p ->
     arr !! i = Some c -> wake ts p <= wake ts c) ->
  heap_but ts' arr' n newIdx.
Proof.
  intros Hch i p c Hi Hne. unfold arr'. rewrite !(lookup_swap _ _ _ pa pb) by done.
  rewrite <- !(wake_proper _ _ Hfr _ _ eq_refl). intros Ep Ec.
  destruct (decide (i = newIdx)); [lia|].
  destruct (decide (i = idx)) as [->|].
  - rewrite decide_False in Ep by (subst newIdx; lia).
    rewrite decide_True in Ep by done. by simplify_eq.
  - destruct (decide ((i - 1) / 2 = idx)%nat) as [E|E]; simplify_eq.
    + by eapply (Hch i).
    + destruct (decide ((i - 1) / 2 = newIdx)%nat) as [E2|E2]; simplify_eq.
      * etrans; [exact Hle|]. eapply (Hheap i); eauto. by rewrite E2.
      * by eapply (Hheap i).
Qed.

Lemma siftUp_step_child i p c :
  (0 < newIdx)%nat -> (0 < i < n)%nat -> ((i - 1) / 2)%nat = newIdx ->
  arr' !! ((newIdx - 1) / 2)%nat = Some p -> arr' !! i = Some c -> wake ts' p <= wake ts' c.
Proof.
  intros Hn Hi Hpar. unfold arr'. rewrite !(lookup_swap _ _ _ pa pb) by done.
  rewrite <- !(wake_proper _ _ Hfr _ _ eq_refl). intros Ep Ec.
  rewrite !decide_False in Ep by (subst newIdx; lia).
  assert (Hg : wake ts p <= wake ts pa).
  { eapply (Hheap newIdx); eauto; subst newIdx; lia. }
  destruct (decide (i = idx)); [by simplify_eq|].
  destruct (decide (i = newIdx)); [lia|].
  etrans; [exact Hg|]. eapply (Hheap i); eauto. by rewrite Hpar.
Qed.

Lemma siftUp_step_indexed :
  NoDup (take n arr) -> indexed_but ts arr n idx -> indexed_but ts' arr' n newIdx.
Proof.
  intros Hnd Hix i p tk' Hi Hne. unfold arr', ts'. rewrite (lookup_swap _ _ _ pa pb) by done.
  destruct (decide (i = idx)) as [->|Hii].
  - intros ? ?. by simplify_map_eq.
  - rewrite decide_False by done. intros Ep. rewrite lookup_insert_ne; [by eapply Hix|].
    intros ->. apply Hne. eapply (take_NoDup_inj arr n); eauto; subst newIdx; lia.
Qed.
End SiftUpStep.

Lemma siftUp_spec fuel : forall ts arr idx n,
  (idx < fuel)%nat -> (idx < n <= length arr)%nat ->
  live ts (take n arr) -> NoDup (take n arr) -> heap_but ts arr n idx ->
  (forall i p c, (0 < idx)%nat -> (0 < i < n)%nat -> ((i - 1) / 2)%nat = idx ->
     arr !! ((idx - 1) / 2)%nat = Some p -> arr !! i = Some c -> wake ts p <= wake ts c) ->
  indexed_but ts arr n idx ->
  exists ts' arr' idx', siftUp fuel ts arr idx = Ok (ts', arr', idx') /\
    frame ts ts' /\ length arr' = length arr /\ take n arr' ≡ₚ take n arr /\
    heap_but ts' arr' n 0 /\ indexed_but ts' arr' n idx' /\ (idx' < n)%nat.
Proof.
  induction fuel as [|fuel IH]; intros ts arr idx n Hf Hn Hl Hnd Hh Hc Hix; [lia|].
  cbn [siftUp]. destruct (Nat.eqb_spec idx 0) as [->|Hz].
  { exists ts, arr, 0%nat. repeat split; try done; lia. }
  destruct (queued_lookup arr n ((idx - 1) / 2)) as (pa & Ea & Ia); [lia|].
  destruct (queued_lookup arr n idx) as (pb & Eb & Ib); [lia|].
  rewrite (arr_get_Some _ _ _ Ea), (arr_get_Some _ _ _ Eb). ostep.
  rewrite (compare_Ok ts pa pb) by auto. ostep.
  destruct (Z.ltb_spec (wake ts pa) (wake ts pb)) as [Hlt|Hge].
  - exists ts, arr, idx. repeat split; try done; [|lia].
    intros i p c Hi _ Ep Ec. destruct (decide (i = idx)) as [->|]; [|by eapply Hh].
    simplify_eq. lia.
  - rewrite (kswap_Ok _ _ _ _ _ Ea Eb). ostep.
    assert (Hlk := lookup_swap _ _ _ _ _ idx Ea Eb). rewrite decide_True in Hlk by done.
    rewrite (arr_get_Some _ _ _ Hlk). ostep.
    destruct (storeIndex_Ok ts pa idx (Hl _ Ia)) as (tk & Etk & ->). ostep.
    assert (Hp : take n (<[idx:=pa]> (<[((idx - 1) / 2)%nat:=pb]> arr)) ≡ₚ take n arr)
      by (apply take_swap_Permutation; auto; lia).
    edestruct (IH (<[pa:=set_priorityQueueIndex (Z.of_nat idx) tk]> ts)
                  (<[idx:=pa]> (<[((idx - 1) / 2)%nat:=pb]> arr)) ((idx - 1) / 2)%nat n)
      as (ts' & arr' & idx' & -> & Hfr & Hlen & Hpm & Hrest).
    + lia.
    + rewrite !length_insert. lia.
    + eapply live_frame; [by apply frame_storeIndex | by symmetry | done].
    + by rewrite Hp.
    + eapply (siftUp_step_heap ts arr n idx pa pb tk); try done; try lia.
      intros. eapply Hc; eauto; lia.
    + intros i p c. intros. eapply (siftUp_step_child ts arr n idx pa pb tk); eauto; lia.
    + eapply (siftUp_step_indexed ts arr n idx pa pb tk); try done; lia.
    + exists ts', arr', idx'. split; [done|]. split; [etrans; [by apply frame_storeIndex | done]|].
      rewrite Hlen, !length_insert, Hpm. done.
Qed.

(** ** Sifting down *)

(** The heap order holds below [n] except between [hole] and its children. *)
Definition heap_down (ts : gmap Z Task) (arr : list Z) (n hole : nat) : Prop :=
  (forall i p c, (0 < i < n)%nat -> ((i - 1) / 2)%nat <> hole ->
     arr !! ((i - 1) / 2)%nat = Some p -> arr !! i = Some c -> wake ts p <= wake ts c) /\
  (forall i p c, (0 < hole)%nat -> (0 < i < n)%nat -> ((i - 1) / 2)%nat = hole ->
     arr !! ((hole - 1) / 2)%nat = Some p -> arr !! i = Some c -> wake ts p <= wake ts c).

Lemma selectMin_spec ts arr n child m pm :
  live ts (take n arr) -> (m < n <= length arr)%nat -> arr !! m = Some pm ->
  exists m' pm', selectMin ts arr n child m = Ok m' /\ arr !! m' = Some pm' /\
    (m' < n)%nat /\ wake ts pm' <= wake ts pm /\
    (m' = m \/ (m' = child /\ wake ts pm' < wake ts pm)) /\
    (forall pc, (child < n)%nat -> arr !! child = Some pc -> wake ts pm' <= wake ts pc).
Proof.
  intros Hl Hm Em. unfold selectMin. destruct (Nat.ltb_spec child n) as [Hc|Hc].
  - destruct (queued_lookup arr n child) as (pc & Ec & Ic); [lia|].
    destruct (queued_lookup arr n m) as (pm' & Em' & Im); [lia|]. simplify_eq.
    rewrite (arr_get_Some _ _ _ Ec), (arr_get_Some _ _ _ Em). ostep.
    rewrite compare_Ok by auto. ostep.
    destruct (Z.ltb_spec (wake ts pc) (wake ts pm)) as [Hlt|Hge].
    + exists child, pc. split_and!; [done|done|lia|lia|by right|].
      intros ? _ E. by simplify_eq.
    + exists m, pm. split_and!; [done|done|lia|lia|by left|].
      intros ? _ E. by simplify_eq.
  - exists m, pm. split_and!; [done|done|lia|lia|by left|lia].
Qed.

(** One exchange of the sift-down loop moves the hole from [idx] to its
    smaller child [m]. *)
Lemma restore_step_heap ts arr n idx m a b :
  (idx < n)%nat -> (m < n <= length arr)%nat -> (0 < m)%nat -> ((m - 1) / 2)%nat = idx ->
  arr !! idx = Some a -> arr !! m = Some b -> wake ts b < wake ts a ->
  (forall i c, (0 < i < n)%nat -> ((i - 1) / 2)%nat = idx -> arr !! i = Some c ->
     wake ts b <= wake ts c) ->
  heap_down ts arr n idx -> heap_down ts (<[m:=a]> (<[idx:=b]> arr)) n m.
Proof.
  intros Hi Hm Hm0 Hpar Ea Eb Hlt Hmin [H1 H2]. split.
  - intros i p c Hin Hne. rewrite !(lookup_swap _ _ _ _ _ _ Ea Eb).
    rewrite (decide_False (P := ((i - 1) / 2)%nat = m)) by done.
    destruct (decide (i = m)) as [->|Him].
    { rewrite decide_True by done. intros. simplify_eq. lia. }
    destruct (decide (((i - 1) / 2)%nat = idx)) as [E|E].
    { rewrite decide_False by lia. intros. simplify_eq. by eapply (Hmin i). }
    destruct (decide (i = idx)) as [->|].
    + intros. simplify_eq. eapply (H2 m); eauto; lia.
    + intros. by eapply (H1 i).
  - intros i p c _ Hin Hc. rewrite !(lookup_swap _ _ _ _ _ _ Ea Eb), Hpar.
    rewrite decide_False by lia. rewrite decide_True by done.
    rewrite !decide_False by lia. intros. simplify_eq.
    eapply (H1 i); eauto; first [lia | by rewrite Hc].
Qed.

(** Recording both positions after an exchange keeps every position right. *)
Lemma swap_indexed ts arr n i j a b ta tb :
  NoDup (take n arr) -> (i < n)%nat -> (j < n)%nat -> i <> j ->
  arr !! i = Some a -> arr !! j = Some b -> ts !! a = Some ta -> ts !! b = Some tb ->
  indexed_but ts arr n 0 ->
  indexed_but (<[a := set_priorityQueueIndex (Z.of_nat j) ta]>
                (<[b := set_priorityQueueIndex (Z.of_nat i) tb]> ts))
              (<[j:=a]> (<[i:=b]> arr)) n 0.
Proof.
  intros Hnd Hi Hj Hij Ei Ej Ea Eb Hix k p tk Hk Hk0.
  assert (Hab : a <> b) by (intros ->; apply Hij; by eapply (take_NoDup_inj arr n)).
  rewrite (lookup_swap _ _ _ _ _ _ Ei Ej). intros Ep Et.
  destruct (decide (k = j)) as [->|]; [by simplify_map_eq|].
  destruct (decide (k = i)) as [->|]; [by simplify_map_eq|].
  assert (p <> a) by (intros ->; pose proof (take_NoDup_inj arr n k i a Hnd ltac:(lia) Hi Ep Ei); lia).
  assert (p <> b) by (intros ->; pose proof (take_NoDup_inj arr n k j b Hnd ltac:(lia) Hj Ep Ej); lia).
  simplify_map_eq. by eapply Hix.
Qed.

Lemma heap_down_done ts arr n idx :
  (forall i c p, (0 < i < n)%nat -> ((i - 1) / 2)%nat = idx -> arr !! i = Some c ->
     arr !! idx = Some p -> wake ts p <= wake ts c) ->
  heap_down ts arr n idx -> heap_but ts arr n 0.
Proof.
  intros Hc [H1 _] i p c Hi _ Ep Ec.
  destruct (decide (((i - 1) / 2)%nat = idx)) as [E|E]; [subst; by eapply Hc | by eapply H1].
Qed.

Lemma heap_down_frame ts ts' arr n i :
  frame ts ts' -> heap_down ts arr n i -> heap_down ts' arr n i.
Proof.
  intros Hf [H1 H2]. split; intros; rewrite <- !(wake_proper _ _ Hf _ _ eq_refl); eauto.
Qed.

Lemma restoreLoop_spec fuel : forall ts arr n idx,
  (n - idx < fuel)%nat -> (idx < n <= length arr)%nat ->
  live ts (take n arr) -> NoDup (take n arr) -> heap_down ts arr n idx ->
  indexed_but ts arr n 0 ->
  exists ts' arr', restoreLoop fuel ts arr n idx idx = Ok (ts', arr') /\
    frame ts ts' /\ length arr' = length arr /\ take n arr' ≡ₚ take n arr /\
    heap_but ts' arr' n 0 /\ indexed_but ts' arr' n 0.
Proof.
  induction fuel as [|fuel IH]; intros ts arr n idx Hf Hn Hl Hnd Hh Hix; [lia|].
  destruct (queued_lookup arr n idx) as (a & Ea & Ia); [lia|].
  destruct (selectMin_spec ts arr n (2 * idx + 1) idx a)
    as (m1 & p1 & E1 & L1 & B1 & Le1 & Or1 & C1); [done|lia|done|].
  destruct (selectMin_spec ts arr n (2 * idx + 1 + 1) m1 p1)
    as (m & b & E2 & Eb & B2 & Le2 & Or2 & C2); [done|lia|done|].
  cbn [restoreLoop]. rewrite E1. ostep. rewrite E2. ostep.
  assert (Hmin : forall i c, (0 < i < n)%nat -> ((i - 1) / 2)%nat = idx -> arr !! i = Some c ->
     wake ts b <= wake ts c).
  { intros i c Hi Hp Ec. assert (i = 2 * idx + 1 \/ i = 2 * idx + 1 + 1)%nat as [->| ->] by lia.
    - etrans; [exact Le2|]. apply C1; [lia|done].
    - apply C2; [lia|done]. }
  destruct (Nat.eqb_spec m idx) as [->|Hne].
  { exists ts, arr. split_and!; try done. eapply heap_down_done; [|done].
    intros. simplify_eq. by eapply Hmin. }
  assert (Hm : (0 < m)%nat /\ ((m - 1) / 2)%nat = idx) by lia.
  assert (Hlt : wake ts b < wake ts a) by (destruct Or1 as [->|[-> ?]], Or2 as [->|[-> ?]]; simplify_eq; lia).
  rewrite (kswap_Ok _ _ _ _ _ Ea Eb). ostep.
  assert (Hlk := fun k => lookup_swap _ _ _ _ _ k Ea Eb).
  assert (Hp : take n (<[m:=a]> (<[idx:=b]> arr)) ≡ₚ take n arr)
    by (apply take_swap_Permutation; auto; lia).
  erewrite (arr_get_Some _ idx) by (rewrite Hlk, decide_False, decide_True by done; reflexivity). ostep.
  destruct (storeIndex_Ok ts b idx) as (tb & Etb & ->);
    [apply Hl; destruct (queued_lookup arr n m) as (? & ? & ?); [lia|by simplify_eq]|]. ostep.
  erewrite (arr_get_Some _ m) by (rewrite Hlk, decide_True by done; reflexivity). ostep.
  assert (Hab : a <> b) by (intros ->; lia).
  destruct (Hl _ Ia) as [ta Eta].
  unfold storeIndex. rewrite (deref_Some _ a ta) by (by rewrite lookup_insert_ne). ostep.
  set (ts1 := <[a:=_]> _). assert (Hfr : frame ts ts1).
  { etrans; [by apply (frame_storeIndex ts b (Z.of_nat idx))|].
    apply frame_storeIndex. by rewrite lookup_insert_ne. }
  edestruct (IH ts1 (<[m:=a]> (<[idx:=b]> arr)) n m) as (ts' & arr' & -> & Hf' & Hlen & Hpm & Hrest).
  - lia.
  - rewrite !length_insert. lia.
  - eapply live_frame; [done | by symmetry | done].
  - by rewrite Hp.
  - eapply heap_down_frame; [done|]. eapply restore_step_heap; eauto; lia.
  - eapply swap_indexed; eauto; lia.
  - exists ts', arr'. split; [done|]. split; [by etrans|].
    rewrite Hlen, !length_insert, Hpm. done.
Qed.

(** The root of the heap is woken first. *)
Lemma heap_root_min ts arr n r : forall i p,
  heap_but ts arr n 0 -> arr !! 0%nat = Some r -> (i < n <= length arr)%nat ->
  arr !! i = Some p -> wake ts r <= wake ts p.
Proof.
  intros i. induction (lt_wf i) as [i _ IH]. intros p Hh Er Hi Ep.
  destruct (decide (i = 0%nat)) as [->|]; [by simplify_eq|].
  destruct (queued_lookup arr n ((i - 1) / 2)) as (c & Ec & _); [lia|].
  etrans; [eapply (IH ((i - 1) / 2)%nat); eauto; lia | eapply (Hh i); eauto; lia].
Qed.

Lemma take_insert_S (arr : list Z) n x :
  (n < length arr)%nat -> take (S n) (<[n:=x]> arr) = take n arr ++ [x].
Proof.
  intros. rewrite (take_S_r _ _ x) by (by apply list_lookup_insert_eq).
  by rewrite take_insert_ge by lia.
Qed.

Lemma indexed_but_store ts arr n k p tk :
  NoDup (take n arr) -> (k < n)%nat -> arr !! k = Some p -> ts !! p = Some tk ->
  indexed_but ts arr n k ->
  indexed_but (<[p := set_priorityQueueIndex (Z.of_nat k) tk]> ts) arr n 0.
Proof.
  intros Hnd Hk Ep Et Hix i p' tk' Hi _ Ei.
  destruct (decide (i = k)) as [->|]; [intros; by simplify_map_eq|].
  rewrite lookup_insert_ne; [by eapply Hix|].
  intros ->. pose proof (take_NoDup_inj arr n i k p' Hnd ltac:(lia) Hk Ei Ep). lia.
Qed.

Lemma heap_but_frame ts ts' arr n i :
  frame ts ts' -> heap_but ts arr n i -> heap_but ts' arr n i.
Proof.
  intros Hf H j p c. rewrite <- !(wake_proper _ _ Hf _ _ eq_refl). apply H.
Qed.

(** C1: [TaskPriorityQueue::push] of a task that is not queued yet, on a queue
    that is not full, returns true and keeps the whole invariant (heap order by
    wake time, no duplicates, recorded positions); the queue then holds exactly
    the old tasks and the new one, and no task field but the recorded position
    changes. *)
Theorem push_correct ts q task :
  Inv ts q -> is_Some (ts !! task) -> task ∉ queued q -> (m_curSize q < m_maxSize q)%nat ->
  exists ts' q', push ts q task = Ok (true, ts', q') /\ Inv ts' q' /\
    queued q' ≡ₚ task :: queued q /\ frame ts ts'.
Proof.
  intros [Hlen Hsz Hl Hnd Hh Hix] Htask Hnew Hlt. unfold queued in *.
  destruct q as [arr mx n]. cbn [m_pointersArray m_maxSize m_curSize] in *.
  assert (Hn : (n < length arr)%nat) by lia.
  assert (Hp : take (S n) (<[n:=task]> arr) ≡ₚ task :: take n arr).
  { rewrite take_insert_S by done. by rewrite Permutation_app_comm. }
  unfold push. cbn [m_pointersArray m_maxSize m_curSize].
  destruct (Nat.eqb_spec n mx); [lia|].
  destruct (lookup_lt_is_Some_2 arr n Hn) as [old Eold].
  rewrite (arr_set_Some _ _ _ _ Eold). ostep.
  assert (Hlk : forall i, i <> n -> <[n:=task]> arr !! i = arr !! i)
    by (intros; by rewrite list_lookup_insert_ne).
  edestruct (siftUp_spec (S n) ts (<[n:=task]> arr) n (S n))
    as (ts1 & arr1 & k & -> & Hf1 & Hlen1 & Hp1 & Hh1 & Hix1 & Hk).
  - lia.
  - rewrite length_insert. lia.
  - intros p. rewrite Hp, elem_of_cons. intros [->|?]; auto.
  - rewrite Hp. by constructor.
  - intros i p c Hi Hin Ep Ec. rewrite Hlk in Ep, Ec by lia. eapply (Hh i); eauto; lia.
  - intros. lia.
  - intros i p tk Hi Hin Ep Et. rewrite Hlk in Ep by done. eapply (Hix i); eauto; lia.
  - ostep. assert (Hnd1 : NoDup (take (S n) arr1)) by (rewrite Hp1, Hp; by constructor).
    assert (Hl1 : live ts1 (take (S n) arr1)).
    { eapply (live_frame ts); [done | by symmetry |].
      intros p. rewrite Hp, elem_of_cons. intros [->|?]; auto. }
    destruct (queued_lookup arr1 (S n) k) as (pk & Epk & Ipk);
      [rewrite Hlen1, length_insert; lia|].
    rewrite (arr_get_Some _ _ _ Epk). ostep.
    destruct (storeIndex_Ok ts1 pk k) as (tk & Etk & ->); [auto|]. ostep.
    assert (Hf2 := frame_storeIndex ts1 pk (Z.of_nat k) tk Etk).
    eexists _, _. split; [done|]. cbn [m_pointersArray m_maxSize m_curSize].
    split; [|split; [by rewrite Hp1, Hp | by etrans]].
    split; unfold queued; cbn [m_pointersArray m_maxSize m_curSize]; try done.
    + by rewrite Hlen1, length_insert.
    + by eapply (live_frame ts1); [| reflexivity |].
    + by eapply (heap_but_frame ts1).
    + by eapply indexed_but_store.
Qed.

(** C2: on a non-empty queue [minWakeTimeTask] is a task with the least wake
    time, and [TaskPriorityQueue::pop] returns, removes exactly that task and
    keeps the invariant; no task field but the recorded position changes. *)
Theorem pop_correct ts q :
  Inv ts q -> (0 < m_curSize q)%nat ->
  exists p ts' q', minWakeTimeTask q = Ok p /\ pop ts q = Ok (ts', q') /\ Inv ts' q' /\
    queued q ≡ₚ p :: queued q' /\ frame ts ts' /\
    (forall r, r ∈ queued q -> wake ts p <= wake ts r).
Proof.
  intros [Hlen Hsz Hl Hnd Hh Hix] Hpos. unfold queued in *.
  destruct q as [arr mx [|n]]; cbn [m_pointersArray m_maxSize m_curSize] in *; [lia|].
  destruct (queued_lookup arr (S n) 0) as (r & Er & Ir); [lia|].
  destruct (queued_lookup arr (S n) n) as (lst & El & Il); [lia|].
  unfold minWakeTimeTask, pop. cbn [m_pointersArray m_maxSize m_curSize].
  rewrite (arr_get_Some _ _ _ Er), (arr_get_Some _ _ _ El). ostep.
  rewrite (arr_set_Some _ _ _ _ Er). ostep.
  assert (Hmin : forall x, x ∈ take (S n) arr -> wake ts r <= wake ts x).
  { intros x [i Ei]%list_elem_of_lookup. apply lookup_take_Some in Ei as [Ei Hi].
    eapply heap_root_min; eauto; lia. }
  assert (Hp : take (S n) arr ≡ₚ r :: take n (<[0%nat:=lst]> arr)).
  { rewrite (take_S_r _ _ _ El). destruct n as [|n].
    - rewrite !take_0. by simplify_eq.
    - rewrite take_insert_lt by lia.
      rewrite (insert_Permutation _ 0 r lst) by (rewrite lookup_take_lt; [done|lia]).
      by rewrite Permutation_app_comm. }
  assert (Hnd1 := Hnd). rewrite Hp, NoDup_cons in Hnd1. destruct Hnd1 as [_ Hnd1].
  assert (Hlk : forall i, i <> 0%nat -> <[0%nat:=lst]> arr !! i = arr !! i)
    by (intros; by rewrite list_lookup_insert_ne).
  assert (Hl1 : live ts (take n (<[0%nat:=lst]> arr)))
    by (intros p Hin; apply Hl; rewrite Hp; by right).
  assert (Hix1 : indexed_but ts (<[0%nat:=lst]> arr) n 0)
    by (intros i p tk Hi Hi0 Ep Et; rewrite Hlk in Ep by done; eapply (Hix i); eauto; lia).
  assert (exists ts' arr', restore ts (<[0%nat:=lst]> arr) n 0 = Ok (ts', arr') /\
    frame ts ts' /\ length arr' = length (<[0%nat:=lst]> arr) /\
    take n arr' ≡ₚ take n (<[0%nat:=lst]> arr) /\
    heap_but ts' arr' n 0 /\ indexed_but ts' arr' n 0)
    as (ts' & arr' & -> & Hf & Hlen' & Hpm & Hh' & Hix').
  { destruct n as [|n].
    { eexists ts, _. split; [reflexivity|]. split_and!; try done. intros ? ? ? ?. lia. }
    apply restoreLoop_spec; try done; [lia | rewrite length_insert; lia |].
    split; [|lia]. intros i p c Hi Hi0 Ep Ec. rewrite Hlk in Ep, Ec by lia.
    eapply (Hh i); eauto; lia. }
  ostep. eexists r, _, _. split; [done|]. split; [reflexivity|].
  cbn [m_pointersArray m_maxSize m_curSize].
  split; [|by rewrite Hp, Hpm].
  split; unfold queued; cbn [m_pointersArray m_maxSize m_curSize].
  - rewrite Hlen', length_insert. done.
  - lia.
  - by eapply live_frame; [..|exact Hl1].
  - by rewrite Hpm.
  - done.
  - done.
Qed.

(** ** Concrete queues *)

Definition demoTask (wakeTime : Z) : Task :=
  mkTask 0 ∅ InvalidIndex nullptr [] 0 0 0 Wait wakeTime true false false 0 false nullptr.
Definition demoTasks : gmap Z Task :=
  list_to_map (map (fun w => (w, demoTask w)) [1; 2; 3; 4; 10; 11; 12; 20]).

Lemma Inv_create ts arr mx : length arr = mx -> Inv ts (create arr mx).
Proof.
  intros Hl. split; unfold queued; simpl; [done | lia | | constructor | |].
  - intros p Hp. by apply elem_of_nil in Hp.
  - intros i p c Hi. lia.
  - intros i p tk Hi. lia.
Qed.

Lemma push_correct_witness :
  exists ts' q', push demoTasks (create (replicate 4 0) 4) 3 = Ok (true, ts', q') /\
    queued q' ≡ₚ [3].
Proof.
  destruct (push_correct demoTasks (create (replicate 4 0) 4) 3) as (ts' & q' & E & _ & Hp & _).
  - by apply Inv_create.
  - by eexists.
  - by intros ?%elem_of_nil.
  - simpl. lia.
  - by exists ts', q'.
Defined.

Definition demoTasks2 : gmap Z Task := <[2 := set_priorityQueueIndex 1 (demoTask 2)]> demoTasks.

Lemma pop_correct_witness :
  exists ts' q', pop demoTasks2 (mk [1; 2; 0; 0] 4 2) = Ok (ts', q') /\ queued q' ≡ₚ [2].
Proof.
  destruct (pop_correct demoTasks2 (mk [1; 2; 0; 0] 4 2)) as (p & ts' & q' & E1 & E2 & _ & Hp & _).
  - split; unfold queued; simpl; [done | lia | | | |].
    + intros p. rewrite !elem_of_cons, elem_of_nil. intros [->|[->|[]]]; by eexists.
    + apply NoDup_ListNoDup. repeat constructor; simpl; lia.
    + intros i p c Hi _. assert (i = 1%nat) as -> by lia. simpl. intros [= <-] [= <-]. by vm_compute.
    + intros i p tk Hi _. assert (i = 1%nat) as -> by lia. intros [= <-] [= <-]. done.
  - simpl. lia.
  - exists ts', q'. split; [done|]. injection E1 as <-. unfold queued in Hp. simpl in Hp.
    by apply Permutation_cons_inv in Hp.
Defined.

(** [remove] sifts from the root whatever the position of the removed task, so
    it can leave a task above one that must be woken first: here the queue
    answers the task of wake time 2 although the task of wake time 1 is in it. *)
Definition removeQueue : t := mk [1; 2; 10; 3; 4; 11; 12; 20] 8 8.
Definition removeTasks : gmap Z Task :=
  list_to_map (map (fun ip => (snd ip, set_priorityQueueIndex (fst ip) (demoTask (snd ip))))
    (zip [0; 1; 2; 3; 4; 5; 6; 7] [1; 2; 10; 3; 4; 11; 12; 20])).

Example remove_breaks_heap :
  exists ts' q', remove removeTasks removeQueue 3 = Ok (ts', q') /\
    queued q' = [2; 1; 10; 20; 4; 11; 12] /\ minWakeTimeTask q' = Ok 2.
Proof. eexists _, _. split; [vm_compute; reflexivity | done]. Qed.

End TaskPriorityQueue.
