(* ===== verification/TaskQueue.v ===== *)
(** * Task queues that share tasks

    A task that was woken before its timeout stays in the queue of timed sleepers while
    it is in the wait queue, and may be queued there again: the recorded positions and
    the absence of duplicates that [Task] proves for one queue do not hold then.  This
    file has what remains: every operation of [TaskPriorityQueue] returns and keeps the
    contents, and the heap order, where it holds, is kept. *)

From S2P Require Import Prelude Task.

Import TaskPriorityQueue.

#[local] Ltac Zify.zify_post_hook ::= Z.div_mod_to_equations.

Record QOk (ts : gmap Z Task) (q : t) : Prop := mkQOk {
  qo_length : length (m_pointersArray q) = m_maxSize q;
  qo_size : (m_curSize q <= m_maxSize q)%nat;
  qo_live : live ts (queued q) }.

(** The heap order of the whole queue. *)
Definition QHeap (ts : gmap Z Task) (q : t) : Prop := heap_but ts (m_pointersArray q) (m_curSize q) 0.

Lemma QOk_frame ts ts' q : frame ts ts' -> QOk ts q -> QOk ts' q.
Proof. intros Hf [? ? Hl]. split; try done. by eapply live_frame; [..|exact Hl]. Qed.
Lemma QHeap_frame ts ts' q : frame ts ts' -> QHeap ts q -> QHeap ts' q.
Proof. apply heap_but_frame. Qed.

Lemma siftUp_loose fuel : forall ts arr idx n,
  (idx < fuel)%nat -> (idx < n <= length arr)%nat -> live ts (take n arr) ->
  exists ts' arr' idx', siftUp fuel ts arr idx = Ok (ts', arr', idx') /\
    frame ts ts' /\ length arr' = length arr /\ take n arr' ≡ₚ take n arr /\ (idx' < n)%nat /\
    (heap_but ts arr n idx ->
     (forall i p c, (0 < idx)%nat -> (0 < i < n)%nat -> ((i - 1) / 2)%nat = idx ->
        arr !! ((idx - 1) / 2)%nat = Some p -> arr !! i = Some c -> wake ts p <= wake ts c) ->
     heap_but ts' arr' n 0).
Proof.
  induction fuel as [|fuel IH]; intros ts arr idx n Hf Hn Hl; [lia|].
  cbn [siftUp]. destruct (Nat.eqb_spec idx 0) as [->|Hz].
  { exists ts, arr, 0%nat. repeat split; try done; lia. }
  destruct (queued_lookup arr n ((idx - 1) / 2)) as (pa & Ea & Ia); [lia|].
  destruct (queued_lookup arr n idx) as (pb & Eb & Ib); [lia|].
  rewrite (arr_get_Some _ _ _ Ea), (arr_get_Some _ _ _ Eb). ostep.
  rewrite (compare_Ok ts pa pb) by auto. ostep.
  destruct (Z.ltb_spec (wake ts pa) (wake ts pb)) as [Hlt|Hge].
  - exists ts, arr, idx. repeat split; try done; [lia|]. intros Hh _.
    intros i p c Hi _ Ep Ec. destruct (decide (i = idx)) as [->|]; [|by eapply Hh].
    simplify_eq. lia.
  - rewrite (kswap_Ok _ _ _ _ _ Ea Eb). ostep.
    assert (Hlk := lookup_swap _ _ _ _ _ idx Ea Eb). rewrite decide_True in Hlk by done.
    rewrite (arr_get_Some _ _ _ Hlk). ostep.
    destruct (storeIndex_Ok ts pa idx (Hl _ Ia)) as (tk & Etk & ->). ostep.
    assert (Hp : take n (<[idx:=pa]> (<[((idx - 1) / 2)%nat:=pb]> arr)) ≡ₚ take n arr)
      by (apply take_swap_Permutation; auto; lia).
    edestruct (IH (<[pa:=set_priorityQueueIndex (Z.of_nat idx) tk]> ts)
                  (<[idx:=pa]> (<[((idx - 1) / 2)%nat:=pb]> arr)) ((idx - 1) / 2)%nat n)
      as (ts' & arr' & idx' & -> & Hfr & Hlen & Hpm & Hi' & Hheap).
    + lia.
    + rewrite !length_insert. lia.
    + eapply live_frame; [by apply frame_storeIndex | by symmetry | done].
    + exists ts', arr', idx'. split; [done|]. split; [etrans; [by apply frame_storeIndex | done]|].
      rewrite Hlen, !length_insert, Hpm. do 3 (split; [done|]). intros Hh Hc. apply Hheap.
      * eapply (siftUp_step_heap ts arr n idx pa pb tk); try done; try lia. intros. eapply Hc; eauto; lia.
      * intros i p c ? ?. eapply (siftUp_step_child ts arr n idx pa pb tk); eauto; lia.
Qed.

Lemma push_loose ts q task : QOk ts q -> is_Some (ts !! task) -> (m_curSize q < m_maxSize q)%nat ->
  exists ts' q', push ts q task = Ok (true, ts', q') /\ QOk ts' q' /\ queued q' ≡ₚ task :: queued q /\
    frame ts ts' /\ m_maxSize q' = m_maxSize q /\ m_curSize q' = S (m_curSize q) /\ (QHeap ts q -> QHeap ts' q').
Proof.
  intros [Hlen Hsz Hl] Htask Hlt. unfold queued, QHeap in *.
  destruct q as [arr mx n]. cbn [m_pointersArray m_maxSize m_curSize] in *.
  assert (Hn : (n < length arr)%nat) by lia.
  assert (Hp : take (S n) (<[n:=task]> arr) ≡ₚ task :: take n arr).
  { rewrite take_insert_S by done. by rewrite Permutation_app_comm. }
  unfold push. cbn [m_pointersArray m_maxSize m_curSize]. destruct (Nat.eqb_spec n mx); [lia|].
  destruct (lookup_lt_is_Some_2 arr n Hn) as [old Eold]. rewrite (arr_set_Some _ _ _ _ Eold). ostep.
  assert (Hl0 : live ts (take (S n) (<[n:=task]> arr))).
  { intros p. rewrite Hp, elem_of_cons. intros [->|?]; auto. }
  destruct (siftUp_loose (S n) ts (<[n:=task]> arr) n (S n))
    as (ts1 & arr1 & k & -> & Hf1 & Hlen1 & Hp1 & Hk & Hh1); [lia | rewrite length_insert; lia | done |].
  ostep. assert (Hl1 : live ts1 (take (S n) arr1)) by (eapply (live_frame ts); [done | by symmetry | done]).
  destruct (queued_lookup arr1 (S n) k) as (pk & Epk & Ipk); [rewrite Hlen1, length_insert; lia|].
  rewrite (arr_get_Some _ _ _ Epk). ostep.
  destruct (storeIndex_Ok ts1 pk k) as (tk & Etk & ->); [auto|]. ostep.
  assert (Hf2 := frame_storeIndex ts1 pk (Z.of_nat k) tk Etk).
  eexists _, _. split; [done|]. cbn [m_pointersArray m_maxSize m_curSize].
  split; [|split; [by rewrite Hp1, Hp | split; [by etrans|]]].
  - split; unfold queued; cbn [m_pointersArray m_maxSize m_curSize]; [by rewrite Hlen1, length_insert | lia |].
    by eapply (live_frame ts1); [| reflexivity |].
  - do 2 (split; [done|]). intros Hh. eapply heap_but_frame; [done|].
    apply Hh1; [|intros; lia]. intros i p c Hi Hin. rewrite !list_lookup_insert_ne by lia. intros ? ?.
    eapply (Hh i); eauto; lia.
Qed.

Lemma restoreLoop_loose fuel : forall ts arr n idx,
  (n - idx < fuel)%nat -> (idx < n <= length arr)%nat -> live ts (take n arr) ->
  exists ts' arr', restoreLoop fuel ts arr n idx idx = Ok (ts', arr') /\
    frame ts ts' /\ length arr' = length arr /\ take n arr' ≡ₚ take n arr /\
    (heap_down ts arr n idx -> heap_but ts' arr' n 0).
Proof.
  induction fuel as [|fuel IH]; intros ts arr n idx Hf Hn Hl; [lia|].
  destruct (queued_lookup arr n idx) as (a & Ea & Ia); [lia|].
  destruct (selectMin_spec ts arr n (2 * idx + 1) idx a)
    as (m1 & p1 & E1 & L1 & B1 & Le1 & Or1 & C1); [done|lia|done|].
  destruct (selectMin_spec ts arr n (2 * idx + 1 + 1) m1 p1)
    as (m & b & E2 & Eb & B2 & Le2 & Or2 & C2); [done|lia|done|].
  cbn [restoreLoop]. rewrite E1. ostep. rewrite E2. ostep.
  assert (Hmin : forall i c, (0 < i < n)%nat -> ((i - 1) / 2)%nat = idx -> arr !! i = Some c ->
     wake ts b <= wake ts c).
  { intros i c Hi Hp Ec. assert (i = 2 * idx + 1 \/ i = 2 * idx + 1 + 1)%nat as [->| ->] by lia.
    - etrans; [exact Le2|]. apply C1; [lia|done].
    - apply C2; [lia|done]. }
  destruct (Nat.eqb_spec m idx) as [->|Hne].
  { exists ts, arr. split_and!; try done. intros Hh. eapply heap_down_done; [|done].
    intros. simplify_eq. by eapply Hmin. }
  assert (Hm : (0 < m)%nat /\ ((m - 1) / 2)%nat = idx) by lia.
  assert (Hlt : wake ts b < wake ts a) by (destruct Or1 as [->|[-> ?]], Or2 as [->|[-> ?]]; simplify_eq; lia).
  rewrite (kswap_Ok _ _ _ _ _ Ea Eb). ostep.
  assert (Hlk := fun k => lookup_swap _ _ _ _ _ k Ea Eb).
  assert (Hp : take n (<[m:=a]> (<[idx:=b]> arr)) ≡ₚ take n arr)
    by (apply take_swap_Permutation; auto; lia).
  erewrite (arr_get_Some _ idx) by (rewrite Hlk, decide_False, decide_True by done; reflexivity). ostep.
  destruct (storeIndex_Ok ts b idx) as (tb & Etb & ->);
    [apply Hl; destruct (queued_lookup arr n m) as (? & ? & ?); [lia|by simplify_eq]|]. ostep.
  erewrite (arr_get_Some _ m) by (rewrite Hlk, decide_True by done; reflexivity). ostep.
  assert (Hab : a <> b) by (intros ->; lia).
  destruct (Hl _ Ia) as [ta Eta].
  unfold storeIndex. rewrite (deref_Some _ a ta) by (by rewrite lookup_insert_ne). ostep.
  set (ts1 := <[a:=_]> _). assert (Hfr : frame ts ts1).
  { etrans; [by apply (frame_storeIndex ts b (Z.of_nat idx))|].
    apply frame_storeIndex. by rewrite lookup_insert_ne. }
  edestruct (IH ts1 (<[m:=a]> (<[idx:=b]> arr)) n m) as (ts' & arr' & -> & Hf' & Hlen & Hpm & Hrest).
  - lia.
  - rewrite !length_insert. lia.
  - eapply live_frame; [done | by symmetry | done].
  - exists ts', arr'. split; [done|]. split; [by etrans|].
    rewrite Hlen, !length_insert, Hpm. do 2 (split; [done|]). intros Hh. apply Hrest.
    eapply heap_down_frame; [done|]. eapply restore_step_heap; eauto; lia.
Qed.

Lemma pop_loose ts q : QOk ts q -> (0 < m_curSize q)%nat ->
  exists p ts' q', minWakeTimeTask q = Ok p /\ pop ts q = Ok (ts', q') /\ QOk ts' q' /\
    queued q ≡ₚ p :: queued q' /\ frame ts ts' /\ m_maxSize q' = m_maxSize q /\
    m_curSize q = S (m_curSize q') /\
    (QHeap ts q -> QHeap ts' q' /\ forall r, r ∈ queued q -> wake ts p <= wake ts r).
Proof.
  intros [Hlen Hsz Hl] Hpos. unfold queued, QHeap in *.
  destruct q as [arr mx [|n]]; cbn [m_pointersArray m_maxSize m_curSize] in *; [lia|].
  destruct (queued_lookup arr (S n) 0) as (r & Er & Ir); [lia|].
  destruct (queued_lookup arr (S n) n) as (lst & El & Il); [lia|].
  unfold minWakeTimeTask, pop. cbn [m_pointersArray m_maxSize m_curSize].
  rewrite (arr_get_Some _ _ _ Er), (arr_get_Some _ _ _ El). ostep.
  rewrite (arr_set_Some _ _ _ _ Er). ostep.
  assert (Hp : take (S n) arr ≡ₚ r :: take n (<[0%nat:=lst]> arr)).
  { rewrite (take_S_r _ _ _ El). destruct n as [|n].
    - rewrite !take_0. by simplify_eq.
    - rewrite take_insert_lt by lia.
      rewrite (insert_Permutation _ 0 r lst) by (rewrite lookup_take_lt; [done|lia]).
      by rewrite Permutation_app_comm. }
  assert (Hl1 : live ts (take n (<[0%nat:=lst]> arr)))
    by (intros p Hin; apply Hl; rewrite Hp; by right).
  assert (exists ts' arr', restore ts (<[0%nat:=lst]> arr) n 0 = Ok (ts', arr') /\
    frame ts ts' /\ length arr' = length (<[0%nat:=lst]> arr) /\
    take n arr' ≡ₚ take n (<[0%nat:=lst]> arr) /\ (heap_but ts arr (S n) 0 -> heap_but ts' arr' n 0))
    as (ts' & arr' & -> & Hf & Hlen' & Hpm & Hh').
  { destruct n as [|n].
    { eexists ts, _. split; [reflexivity|]. split_and!; try done. intros _ ? ? ? ?. lia. }
    destruct (restoreLoop_loose (S (S (S n))) ts (<[0%nat:=lst]> arr) (S n) 0)
      as (ts' & arr' & E & ? & ? & ? & Hh); [lia | rewrite length_insert; lia | done |].
    exists ts', arr'. do 4 (split; [done|]). intros Hh0. apply Hh. split; [|lia].
    intros i p c Hi Hi0 Ep Ec. rewrite list_lookup_insert_ne in Ep, Ec by lia. eapply (Hh0 i); eauto; lia. }
  ostep. eexists r, _, _. split; [done|]. split; [reflexivity|].
  cbn [m_pointersArray m_maxSize m_curSize]. split; [|split; [by rewrite Hp, Hpm|]].
  - split; unfold queued; cbn [m_pointersArray m_maxSize m_curSize]; [by rewrite Hlen', length_insert | lia |].
    by eapply live_frame; [..|exact Hl1].
  - do 3 (split; [done|]). intros Hh. split; [by apply Hh'|].
    intros x [i Ei]%list_elem_of_lookup. apply lookup_take_Some in Ei as [Ei Hi].
    eapply heap_root_min; eauto; lia.
Qed.
