(* ===== verification/CLib.v ===== *)
(** * Memory routines of the kernel C library (include/kclib.h, kernel/CLibImpl.cpp)

    [kmemcpy], [kmemset] and [memmove] work on a byte memory: a function from
    addresses to byte values.  Pointer arithmetic that leaves the address space
    is undefined in the source, so addresses are not wrapped; the machine word
    the fast loops move is kept as a 64-bit little-endian value. *)

From S2P Require Import Prelude.

Definition mem : Type := Z -> Z.

(** Every cell of a memory holds a byte. *)
Definition byte_mem (m : mem) : Prop := forall a, 0 <= m a < 256.

Definition write8 (m : mem) (a v : Z) : mem := fun x => if x =? a then u8 v else m x.

(** A [uintptr_t] access: eight consecutive bytes, least significant first. *)
Fixpoint readLE (n : nat) (m : mem) (a : Z) : Z :=
  match n with
  | O => 0
  | S n => m a + 256 * readLE n m (a + 1)
  end.
Fixpoint writeLE (n : nat) (m : mem) (a v : Z) : mem :=
  match n with
  | O => m
  | S n => writeLE n (write8 m a v) (a + 1) (v / 256)
  end.
Definition read64 (m : mem) (a : Z) : Z := readLE 8 m a.
Definition write64 (m : mem) (a v : Z) : mem := writeLE 8 m a v.

(** ** [kmemcpy] *)

(** [while (n-- > 0) *pb_dst++ = *pb_src++;] *)
Fixpoint copyBytes (n : nat) (dst src : Z) (m : mem) : mem :=
  match n with
  | O => m
  | S n => copyBytes n (dst + 1) (src + 1) (write8 m dst (m src))
  end.

(** [while (p_dst != p_end) *p_dst++ = *p_src++;] on [uintptr_t] *)
Fixpoint copyWords (n : nat) (dst src : Z) (m : mem) : mem :=
  match n with
  | O => m
  | S n => copyWords n (dst + 8) (src + 8) (write64 m dst (read64 m src))
  end.

(** The word loop and the byte tail. *)
Definition copyWordsTail (dst src size : Z) (m : mem) : mem :=
  let words := size / 8 in
  let m := copyWords (Z.to_nat words) dst src m in
  copyBytes (Z.to_nat (Z.land size 7)) (dst + 8 * words) (src + 8 * words) m.

Definition kmemcpy (dst src size : Z) (m : mem) : mem :=
  let rest := Z.land dst 7 in
  if negb (rest =? 0) then
    if size <=? rest then copyBytes (Z.to_nat size) dst src m
    else
      let m := copyBytes (Z.to_nat rest) dst src m in
      copyWordsTail (dst + rest) (src + rest) (size - rest) m
  else copyWordsTail dst src size m.

(** ** [kmemset] *)

Fixpoint setBytes (n : nat) (dst value : Z) (m : mem) : mem :=
  match n with
  | O => m
  | S n => setBytes n (dst + 1) value (write8 m dst value)
  end.

Fixpoint setWords (n : nat) (dst pattern : Z) (m : mem) : mem :=
  match n with
  | O => m
  | S n => setWords n (dst + 8) pattern (write64 m dst pattern)
  end.

(** The pattern the byte loop over [&pattern] builds. *)
Definition memsetPattern (value : Z) : Z := read64 (setBytes 8 0 value (fun _ => 0)) 0.

Definition setWordsTail (dst value size : Z) (m : mem) : mem :=
  let words := size / 8 in
  let m := setWords (Z.to_nat words) dst (memsetPattern value) m in
  setBytes (Z.to_nat (Z.land size 7)) (dst + 8 * words) value m.

Definition kmemset (ptr value size : Z) (m : mem) : mem :=
  let rest := Z.land ptr 7 in
  if negb (rest =? 0) then
    if size <=? rest then setBytes (Z.to_nat size) ptr value m
    else
      let m := setBytes (Z.to_nat rest) ptr value m in
      setWordsTail (ptr + rest) value (size - rest) m
  else setWordsTail ptr value size m.

(** ** [memmove] *)

(** The descending loop: the pointers are decremented before the copy. *)
Fixpoint copyBytesReverse (n : nat) (dstRev srcRev : Z) (m : mem) : mem :=
  match n with
  | O => m
  | S n => copyBytesReverse n (dstRev - 1) (srcRev - 1) (write8 m (dstRev - 1) (m (srcRev - 1)))
  end.

Definition memmove (dst src size : Z) (m : mem) : mem :=
  if dst <=? src then kmemcpy dst src size m
  else if src + size <=? dst then kmemcpy dst src size m
  else copyBytesReverse (Z.to_nat size) (dst + size) (src + size) m.

(** ** What a copy means *)

(** Memory [m] is [m0] with the [k] bytes from [lo] replaced by [f]. *)
Definition patched (m0 : mem) (lo k : Z) (f : Z -> Z) (m : mem) : Prop :=
  forall a, m a = if (lo <=? a) && (a <? lo + k) then f a else m0 a.

Lemma patched_0 m0 lo f : patched m0 lo 0 f m0.
Proof. intros a. zbool; cbn [andb]; try lia; done. Qed.

Lemma write8_same m a v : byte_mem m -> 0 <= v < 256 -> write8 m a v a = v.
Proof. intros _ Hv. unfold write8, u8. rewrite Z.eqb_refl. by apply Z.mod_small. Qed.

Lemma write8_byte m a v : byte_mem m -> byte_mem (write8 m a v).
Proof. intros H x. unfold write8, u8. destruct (x =? a); [apply Z.mod_pos_bound; lia | apply H]. Qed.

(** Writing back what was read copies the bytes, whatever the overlap. *)
Lemma readLE_ext n m m' a :
  (forall x, a <= x < a + Z.of_nat n -> m x = m' x) -> readLE n m a = readLE n m' a.
Proof.
  revert a. induction n as [|n IH]; intros a H; [done|]. cbn [readLE].
  rewrite (H a) by lia. rewrite (IH (a + 1)); [done|]. intros. apply H. lia.
Qed.

Lemma readLE_range n m a : byte_mem m -> 0 <= readLE n m a < 256 ^ Z.of_nat n.
Proof.
  intros Hm. revert a. induction n as [|n IH]; intros a; cbn [readLE]; [lia|].
  specialize (IH (a + 1)). specialize (Hm a).
  rewrite Nat2Z.inj_succ, Z.pow_succ_r by lia. lia.
Qed.

Lemma writeLE_readLE n : forall m m0 dst src, byte_mem m -> byte_mem m0 ->
  patched m dst (Z.of_nat n) (fun a => m0 (src + (a - dst)))
    (writeLE n m dst (readLE n m0 src)).
Proof.
  induction n as [|n IH]; intros m m0 dst src Hm Hm0; [apply patched_0|].
  cbn [readLE writeLE]. pose proof (Hm0 src).
  replace ((m0 src + 256 * readLE n m0 (src + 1)) / 256) with (readLE n m0 (src + 1))
    by (rewrite Z.mul_comm, Z.div_add, Z.div_small; lia).
  intros a. rewrite (IH (write8 m dst _) m0 (dst + 1) (src + 1) (write8_byte _ _ _ Hm) Hm0 a).
  unfold write8, u8. rewrite (Z.mul_comm 256), Z.mod_add, Z.mod_small by lia.
  zbool; cbn [andb]; try lia; f_equal; lia.
Qed.

Lemma writeLE_byte n : forall m a v, byte_mem m -> byte_mem (writeLE n m a v).
Proof. induction n as [|n IH]; intros; cbn [writeLE]; [done|]. by apply IH, write8_byte. Qed.

(** ** Copy loops *)

(** Extending a finished prefix of length [k] by a block of [j] bytes that was
    copied from where [m] still agrees with the original memory. *)
Lemma patched_extend m0 m m' dst src k j :
  0 <= k -> 0 <= j ->
  patched m0 dst k (fun a => m0 (src + (a - dst))) m ->
  patched m (dst + k) j (fun a => m (src + k + (a - (dst + k)))) m' ->
  (dst <= src \/ src + k + j <= dst) ->
  patched m0 dst (k + j) (fun a => m0 (src + (a - dst))) m'.
Proof.
  intros Hk Hj H1 H2 Hsafe a. rewrite H2, !H1. zbool; cbn [andb]; try lia; try done; f_equal; lia.
Qed.

Lemma copyBytes_step m dst src k : byte_mem m ->
  patched m (dst + k) 1 (fun a => m (src + k + (a - (dst + k)))) (write8 m (dst + k) (m (src + k))).
Proof.
  intros Hm a. unfold write8, u8. rewrite (Z.mod_small (m (src + k))) by apply Hm.
  zbool; cbn [andb]; try lia; try done. f_equal. lia.
Qed.

Section CopyLoops.
Context (m0 : mem) (dst src size : Z).
Context (Hsafe : dst <= src \/ src + size <= dst).
Let copied (k : Z) (m : mem) : Prop :=
  byte_mem m /\ patched m0 dst k (fun a => m0 (src + (a - dst))) m.

Lemma copyBytes_done n : forall k m, 0 <= k -> k + Z.of_nat n <= size -> copied k m ->
  copied (k + Z.of_nat n) (copyBytes n (dst + k) (src + k) m).
Proof.
  induction n as [|n IH]; intros k m Hk Hn [Hb Hp]; cbn [copyBytes].
  { by rewrite Z.add_0_r. }
  rewrite <- !Z.add_assoc. replace (k + Z.of_nat (S n)) with (k + 1 + Z.of_nat n) by lia.
  apply IH; [lia | lia | split; [by apply write8_byte|]].
  eapply patched_extend; [lia | lia | done | by apply copyBytes_step | lia].
Qed.

Lemma copyWords_done n : forall k m, 0 <= k -> k + 8 * Z.of_nat n <= size -> copied k m ->
  copied (k + 8 * Z.of_nat n) (copyWords n (dst + k) (src + k) m).
Proof.
  induction n as [|n IH]; intros k m Hk Hn [Hb Hp]; cbn [copyWords].
  { by rewrite Z.add_0_r. }
  rewrite <- !Z.add_assoc. replace (k + 8 * Z.of_nat (S n)) with (k + 8 + 8 * Z.of_nat n) by lia.
  apply IH; [lia | lia | split; [by apply writeLE_byte|]].
  eapply patched_extend; [lia | lia | done | by apply (writeLE_readLE 8) | lia].
Qed.

Lemma copyWordsTail_done k m : 0 <= k <= size -> copied k m ->
  copied size (copyWordsTail (dst + k) (src + k) (size - k) m).
Proof.
  intros Hk Hd. unfold copyWordsTail. set (w := (size - k) / 8).
  assert (Hland : Z.land (size - k) 7 = (size - k) mod 8) by (by rewrite (Z.land_ones _ 3)).
  assert (Hw : 0 <= w /\ size - k = 8 * w + (size - k) mod 8 /\ 0 <= (size - k) mod 8 < 8)
    by (subst w; Z.div_mod_to_equations; lia).
  rewrite Hland, <- !Z.add_assoc.
  replace size with (k + 8 * w + (size - k) mod 8) at 1 by lia.
  replace ((size - k) mod 8) with (Z.of_nat (Z.to_nat ((size - k) mod 8))) at 1 by lia.
  apply copyBytes_done; [lia | lia |].
  replace w with (Z.of_nat (Z.to_nat w)) at 1 by lia.
  apply copyWords_done; [lia | lia | done].
Qed.
End CopyLoops.

Lemma kmemcpy_forward dst src size m :
  byte_mem m -> 0 <= size -> (dst <= src \/ src + size <= dst) ->
  byte_mem (kmemcpy dst src size m) /\
  patched m dst size (fun a => m (src + (a - dst))) (kmemcpy dst src size m).
Proof.
  intros Hm Hs Hsafe. unfold kmemcpy.
  assert (H0 : byte_mem m /\ patched m dst 0 (fun a => m (src + (a - dst))) m)
    by (split; [done | apply patched_0]).
  pose proof (Z.land_nonneg dst 7) as [_ Hr]. specialize (Hr ltac:(lia)).
  destruct (Z.eqb_spec (Z.land dst 7) 0) as [E|E]; cbn [negb].
  - pose proof (copyWordsTail_done m dst src size Hsafe 0 m ltac:(lia) H0) as H.
    by rewrite !Z.add_0_r, Z.sub_0_r in H.
  - destruct (Z.leb_spec size (Z.land dst 7)).
    + pose proof (copyBytes_done m dst src size Hsafe (Z.to_nat size) 0 m ltac:(lia) ltac:(lia) H0) as H'.
      by rewrite !Z.add_0_r, Z.add_0_l, Z2Nat.id in H' by lia.
    + apply copyWordsTail_done; [done | lia |].
      pose proof (copyBytes_done m dst src size Hsafe (Z.to_nat (Z.land dst 7)) 0 m
                    ltac:(lia) ltac:(lia) H0) as H'.
      by rewrite !Z.add_0_r, Z.add_0_l, Z2Nat.id in H' by lia.
Qed.

(** Whatever the overlap, only the destination changes. *)
Definition frame (lo hi : Z) (m m' : mem) : Prop :=
  byte_mem m' /\ forall a, ~ (lo <= a < hi) -> m' a = m a.

Lemma memFrame_refl lo hi m : byte_mem m -> frame lo hi m m.
Proof. by split. Qed.
Lemma memFrame_trans lo hi m m1 m2 : frame lo hi m m1 -> frame lo hi m1 m2 -> frame lo hi m m2.
Proof. intros [_ H1] [Hb H2]. split; [done|]. intros a Ha. by rewrite H2, H1. Qed.
Lemma frame_widen lo hi lo' hi' m m' : frame lo hi m m' -> (lo < hi -> lo' <= lo /\ hi <= hi') -> frame lo' hi' m m'.
Proof. intros [Hb H] Hw. split; [done|]. intros a Ha. apply H. lia. Qed.

Lemma writeLE_frame n : forall m a v, byte_mem m -> frame a (a + Z.of_nat n) m (writeLE n m a v).
Proof.
  induction n as [|n IH]; intros m a v Hm; cbn [writeLE]; [by apply memFrame_refl|].
  eapply memFrame_trans; [|eapply frame_widen; [by apply IH, write8_byte | lia]].
  split; [by apply write8_byte|]. intros x Hx. unfold write8. destruct (Z.eqb_spec x a); [lia | done].
Qed.

Lemma copyBytes_frame n : forall dst src m, byte_mem m -> frame dst (dst + Z.of_nat n) m (copyBytes n dst src m).
Proof.
  induction n as [|n IH]; intros dst src m Hm; cbn [copyBytes]; [by apply memFrame_refl|].
  eapply memFrame_trans; [|eapply frame_widen; [by apply IH, write8_byte | lia]].
  eapply frame_widen; [apply (writeLE_frame 1 m dst (m src) Hm) | lia].
Qed.
Lemma copyWords_frame n : forall dst src m, byte_mem m -> frame dst (dst + 8 * Z.of_nat n) m (copyWords n dst src m).
Proof.
  induction n as [|n IH]; intros dst src m Hm; cbn [copyWords]; [by apply memFrame_refl|].
  eapply memFrame_trans; [|eapply frame_widen; [by apply IH, writeLE_byte | lia]].
  eapply frame_widen; [apply (writeLE_frame 8 m dst (read64 m src) Hm) | lia].
Qed.
Lemma copyWordsTail_frame dst src size m : byte_mem m -> 0 <= size -> frame dst (dst + size) m (copyWordsTail dst src size m).
Proof.
  intros Hm Hs. unfold copyWordsTail. set (w := size / 8).
  assert (Hland : Z.land size 7 = size mod 8) by (by rewrite (Z.land_ones _ 3)).
  assert (Hw : 0 <= w /\ size = 8 * w + size mod 8 /\ 0 <= size mod 8 < 8) by (subst w; Z.div_mod_to_equations; lia).
  assert (H1 : frame dst (dst + size) m (copyWords (Z.to_nat w) dst src m)).
  { eapply frame_widen; [by apply copyWords_frame | lia]. }
  eapply memFrame_trans; [exact H1|]. eapply frame_widen; [apply copyBytes_frame, H1 | lia].
Qed.
Lemma kmemcpy_frame dst src size m : byte_mem m -> 0 <= size -> frame dst (dst + size) m (kmemcpy dst src size m).
Proof.
  intros Hm Hs. unfold kmemcpy. pose proof (Z.land_nonneg dst 7) as [_ Hr]. specialize (Hr ltac:(lia)).
  destruct (Z.eqb_spec (Z.land dst 7) 0) as [E|E]; cbn [negb]; [by apply copyWordsTail_frame|].
  destruct (Z.leb_spec size (Z.land dst 7)).
  - eapply frame_widen; [by apply copyBytes_frame | lia].
  - assert (H1 : frame dst (dst + size) m (copyBytes (Z.to_nat (Z.land dst 7)) dst src m)).
    { eapply frame_widen; [by apply copyBytes_frame | lia]. }
    eapply memFrame_trans; [exact H1|]. eapply frame_widen; [apply copyWordsTail_frame; [apply H1 | lia] | lia].
Qed.

(** C3: [kmemcpy] on ranges the forward order is safe for (disjoint, or the
    destination below the source) copies exactly [size] bytes whatever the
    alignment and the split into bytes and words, and changes nothing else. *)
Theorem kmemcpy_correct dst src size m :
  byte_mem m -> 0 <= size -> (dst <= src \/ src + size <= dst) ->
  forall a, kmemcpy dst src size m a =
    if (dst <=? a) && (a <? dst + size) then m (src + (a - dst)) else m a.
Proof. intros Hm Hs Hsafe. apply kmemcpy_forward; done. Qed.

Lemma kmemcpy_correct_witness :
  let m := fun a => a mod 256 in
  map (kmemcpy 3 20 13 m) [2; 3; 15; 16] = [2; 20; 32; 16].
Proof.
  intros m. pose proof (kmemcpy_correct 3 20 13 m) as H.
  assert (Hb : byte_mem m) by (intros a; apply Z.mod_pos_bound; lia).
  specialize (H Hb ltac:(lia) ltac:(lia)).
  cbn [map]. rewrite !H. reflexivity.
Defined.

(** ** [kmemset] *)

Lemma setBytes_patched n : forall dst v m,
  byte_mem m -> byte_mem (setBytes n dst v m) /\
  patched m dst (Z.of_nat n) (fun _ => u8 v) (setBytes n dst v m).
Proof.
  induction n as [|n IH]; intros dst v m Hm; [split; [done | apply patched_0]|].
  cbn [setBytes]. destruct (IH (dst + 1) v _ (write8_byte m dst v Hm)) as [Hb Hp].
  split; [done|]. intros a. rewrite Hp. unfold write8. zbool; cbn [andb]; try lia; done.
Qed.

Lemma memsetPattern_write m dst v : byte_mem m ->
  byte_mem (write64 m dst (memsetPattern v)) /\
  patched m dst 8 (fun _ => u8 v) (write64 m dst (memsetPattern v)).
Proof.
  intros Hm. split; [by apply writeLE_byte|].
  destruct (setBytes_patched 8 0 v (fun _ => 0)) as [Hb Hp]; [intros ?; lia|].
  intros a. unfold write64, memsetPattern, read64.
  rewrite (writeLE_readLE 8 m _ dst 0 Hm Hb a), Hp. zbool; cbn [andb]; try lia; done.
Qed.

Lemma patched_const_extend m0 m m' lo k j v :
  0 <= k -> 0 <= j -> patched m0 lo k (fun _ => v) m -> patched m (lo + k) j (fun _ => v) m' ->
  patched m0 lo (k + j) (fun _ => v) m'.
Proof. intros Hk Hj H1 H2 a. rewrite H2, H1. zbool; cbn [andb]; try lia; done. Qed.

Lemma setWords_patched n : forall dst v m,
  byte_mem m -> byte_mem (setWords n dst (memsetPattern v) m) /\
  patched m dst (8 * Z.of_nat n) (fun _ => u8 v) (setWords n dst (memsetPattern v) m).
Proof.
  induction n as [|n IH]; intros dst v m Hm; [split; [done | apply patched_0]|].
  cbn [setWords]. destruct (memsetPattern_write m dst v Hm) as [Hb Hp].
  destruct (IH (dst + 8) v _ Hb) as [Hb' Hp']. split; [done|].
  replace (8 * Z.of_nat (S n)) with (8 + 8 * Z.of_nat n) by lia.
  eapply patched_const_extend; [lia | lia | exact Hp | exact Hp'].
Qed.

Lemma setWordsTail_patched dst v size m : 0 <= size -> byte_mem m ->
  byte_mem (setWordsTail dst v size m) /\ patched m dst size (fun _ => u8 v) (setWordsTail dst v size m).
Proof.
  intros Hs Hm. unfold setWordsTail. set (w := size / 8).
  replace (Z.land size 7) with (size mod 8) by (symmetry; by apply (Z.land_ones size 3)).
  assert (Hw : 0 <= w /\ size = 8 * w + size mod 8 /\ 0 <= size mod 8 < 8)
    by (subst w; Z.div_mod_to_equations; lia).
  destruct (setWords_patched (Z.to_nat w) dst v m Hm) as [Hb Hp].
  destruct (setBytes_patched (Z.to_nat (size mod 8)) (dst + 8 * w) v _ Hb) as [Hb' Hp'].
  split; [done|]. rewrite !Z2Nat.id in * by lia.
  replace size with (8 * w + size mod 8) at 1 by lia.
  by eapply patched_const_extend; [lia | lia | ..].
Qed.

Lemma kmemset_patched ptr value size m : byte_mem m -> 0 <= size ->
  byte_mem (kmemset ptr value size m) /\ patched m ptr size (fun _ => u8 value) (kmemset ptr value size m).
Proof.
  intros Hm Hs. unfold kmemset. pose proof (Z.land_nonneg ptr 7) as [_ Hr]. specialize (Hr ltac:(lia)).
  destruct (Z.eqb_spec (Z.land ptr 7) 0) as [E|E]; cbn [negb].
  - by apply setWordsTail_patched.
  - destruct (Z.leb_spec size (Z.land ptr 7)).
    + destruct (setBytes_patched (Z.to_nat size) ptr value m Hm) as [Hb Hp].
      by rewrite Z2Nat.id in Hp by lia.
    + destruct (setBytes_patched (Z.to_nat (Z.land ptr 7)) ptr value m Hm) as [Hb Hp].
      rewrite Z2Nat.id in Hp by lia.
      destruct (setWordsTail_patched (ptr + Z.land ptr 7) value (size - Z.land ptr 7) _ ltac:(lia) Hb) as [Hb' Hp'].
      split; [done|]. replace size with (Z.land ptr 7 + (size - Z.land ptr 7)) at 1 by lia.
      eapply patched_const_extend; [lia | lia | exact Hp | exact Hp'].
Qed.

(** [kmemset] stores the low byte of [value] in exactly the [size] bytes
    from [ptr], whatever the alignment, and changes nothing else. *)
Theorem kmemset_correct ptr value size m :
  byte_mem m -> 0 <= size ->
  forall a, kmemset ptr value size m a =
    if (ptr <=? a) && (a <? ptr + size) then value mod 256 else m a.
Proof. intros Hm Hs. by apply kmemset_patched. Qed.

Lemma kmemset_frame ptr value size m : byte_mem m -> 0 <= size -> frame ptr (ptr + size) m (kmemset ptr value size m).
Proof.
  intros Hm Hs. destruct (kmemset_patched ptr value size m Hm Hs) as [Hb Hp]. split; [done|]. intros a Ha. rewrite Hp.
  zbool; cbn [andb]; lia || done.
Qed.

Lemma kmemset_correct_witness :
  map (kmemset 5 (-1) 12 (fun _ => 7)) [4; 5; 16; 17] = [7; 255; 255; 7].
Proof.
  pose proof (kmemset_correct 5 (-1) 12 (fun _ => 7)) as H.
  specialize (H ltac:(intros a; lia) ltac:(lia)). cbn [map]. rewrite !H. reflexivity.
Defined.

(** ** [memmove] *)

(** The descending loop copies the top [n] bytes of the range. *)
Lemma copyBytesReverse_patched n : forall dst src m, byte_mem m -> src <= dst ->
  patched m (dst - Z.of_nat n) (Z.of_nat n) (fun a => m (src + (a - dst)))
    (copyBytesReverse n dst src m).
Proof.
  induction n as [|n IH]; intros dst src m Hm Hle; [apply patched_0|].
  cbn [copyBytesReverse]. intros a. pose proof (Hm (src - 1)).
  rewrite (IH (dst - 1) (src - 1) _ (write8_byte _ _ _ Hm) ltac:(lia) a).
  unfold write8, u8. rewrite !(Z.mod_small (m (src - 1))) by done.
  zbool; cbn [andb]; try lia; try done; f_equal; lia.
Qed.

(** [memmove] copies the original contents of the source range to the
    destination for every overlap of the two ranges, and changes nothing else. *)
Theorem memmove_correct dst src size m :
  byte_mem m -> 0 <= size ->
  forall a, memmove dst src size m a =
    if (dst <=? a) && (a <? dst + size) then m (src + (a - dst)) else m a.
Proof.
  intros Hm Hs a. unfold memmove.
  destruct (Z.leb_spec dst src); [apply kmemcpy_forward; auto; lia|].
  destruct (Z.leb_spec (src + size) dst); [apply kmemcpy_forward; auto; lia|].
  rewrite (copyBytesReverse_patched (Z.to_nat size) (dst + size) (src + size) m Hm ltac:(lia) a).
  rewrite Z2Nat.id by lia. zbool; cbn [andb]; try lia; try done; f_equal; lia.
Qed.

Lemma memmove_correct_witness :
  map (memmove 12 10 8 (fun a => a mod 256)) [11; 12; 19; 20] = [11; 10; 17; 20].
Proof.
  pose proof (memmove_correct 12 10 8 (fun a => a mod 256)) as H.
  specialize (H ltac:(intros a; apply Z.mod_pos_bound; lia) ltac:(lia)).
  cbn [map]. rewrite !H. reflexivity.
Defined.
