(* ===== verification/FreeList.v ===== *)
(** * Intrusive free lists

    The virtual memory manager and the heap keep their free regions in the same
    structure: a table of doubly linked lists, one per power of two, whose nodes
    are linked through two fields of the region header.  This file models the
    two list operations both use and proves them against lists. *)

From S2P Require Import Prelude.

(** A header with the two link fields. *)
Class Links (A : Type) := {
  lnext : A -> Z;
  lprev : A -> Z;
  set_lnext : A -> Z -> A;
  set_lprev : A -> Z -> A;
  (** the rest of the header *)
  ldata : A -> Z * Z;
  lnext_set_lnext a x : lnext (set_lnext a x) = x;
  lprev_set_lnext a x : lprev (set_lnext a x) = lprev a;
  lnext_set_lprev a x : lnext (set_lprev a x) = lnext a;
  lprev_set_lprev a x : lprev (set_lprev a x) = x;
  ldata_set_lnext a x : ldata (set_lnext a x) = ldata a;
  ldata_set_lprev a x : ldata (set_lprev a x) = ldata a
}.

Create Rewrite HintDb links.
#[export] Hint Rewrite @lnext_set_lnext @lprev_set_lnext @lnext_set_lprev @lprev_set_lprev
  @ldata_set_lnext @ldata_set_lprev : links.

(** [bsr]: the index of the highest bit set; undefined on 0. *)
Definition cpuLastOneBitIndex (value : Z) : outcome nat :=
  if value =? 0 then Fault else Ok (Z.to_nat (Z.log2 value)).

Section Ops.
Context {A : Type} `{Links A}.

(** [region->next = hdr; if (hdr != nullptr) hdr->prev = region;] the caller
    stores [region] as the new head. *)
Definition pushFront (m : gmap Z A) (hdr region : Z) : outcome (gmap Z A) :=
  r ← deref m region;
  let m := <[region := set_lnext r hdr]> m in
  if hdr =? nullptr then Ok m
  else
    h ← deref m hdr;
    Ok (<[hdr := set_lprev h region]> m).

(** Remove [region] from the list with the given head; the new head comes back. *)
Definition unlink (m : gmap Z A) (head region : Z) : outcome (gmap Z A * Z) :=
  r ← deref m region;
  if region =? head then Ok (m, lnext r)
  else
    let rNext := lnext r in
    p ← deref m (lprev r);
    let m := <[lprev r := set_lnext p rNext]> m in
    if rNext =? nullptr then Ok (m, head)
    else
      n ← deref m rNext;
      Ok (<[rNext := set_lprev n (lprev r)]> m, head).

(** ** Lists in memory *)

(** The nodes [l] are linked from [h] on; [prev] is the node before, if any: the
    back link of the first node of a list is never read. *)
Fixpoint seg (m : gmap Z A) (prev : option Z) (h : Z) (l : list Z) : Prop :=
  match l with
  | [] => h = nullptr
  | p :: l =>
      h = p /\ p <> nullptr /\
      exists n, m !! p = Some n /\ (forall q, prev = Some q -> lprev n = q) /\ seg m (Some p) (lnext n) l
  end.

(** Nodes that are not in [l] are untouched, and no node loses its data. *)
Definition frame (l : list Z) (m m' : gmap Z A) : Prop :=
  (forall q, q ∉ l -> m' !! q = m !! q) /\
  (forall q, ldata <$> m' !! q = ldata <$> m !! q).

Lemma frame_refl l m : frame l m m.
Proof. by split. Qed.

Lemma frame_insert l m p n n' :
  p ∈ l -> m !! p = Some n -> ldata n' = ldata n -> frame l m (<[p := n']> m).
Proof.
  intros Hp Hn Hd. split; intros q.
  - intros Hq. apply lookup_insert_ne. by intros ->.
  - destruct (decide (q = p)) as [->|]; [|by rewrite lookup_insert_ne].
    rewrite lookup_insert_eq, Hn. cbn. by rewrite Hd.
Qed.

Lemma frame_trans l m1 m2 m3 : frame l m1 m2 -> frame l m2 m3 -> frame l m1 m3.
Proof.
  intros [H1 H2] [H3 H4]. split; intros q; [intros Hq|].
  - by rewrite H3, H1.
  - by rewrite H4, H2.
Qed.

Lemma frame_weaken l l' m m' : frame l m m' -> l ⊆ l' -> frame l' m m'.
Proof. intros [H1 H2] Hs. split; [|done]. intros q Hq. apply H1. set_solver. Qed.

Lemma seg_ext m m' l : forall prev h,
  (forall q, q ∈ l -> m' !! q = m !! q) -> seg m prev h l -> seg m' prev h l.
Proof.
  induction l as [|p l IH]; intros prev h Hq; cbn; [done|].
  intros (-> & Hp & n & Hn & Hpr & Hs). split_and!; [done..|]. exists n.
  rewrite (Hq p) by (by left). split_and!; [done..|]. apply IH; [|done]. intros q ?. apply Hq. by right.
Qed.

Lemma seg_frame l m m' prev h l' : frame l m m' -> l ## l' -> seg m prev h l' -> seg m' prev h l'.
Proof. intros [Hf _] Hd. apply seg_ext. intros q Hq. apply Hf. set_solver. Qed.

Lemma seg_nonnull m prev h l p : seg m prev h l -> p ∈ l -> p <> nullptr /\ is_Some (m !! p).
Proof.
  revert prev h. induction l as [|q l IH]; intros prev h; cbn; [by intros _ ?%elem_of_nil|].
  intros (-> & Hq & n & Hn & _ & Hs) [->|Hin]%elem_of_cons; [by rewrite Hn | eauto].
Qed.

Lemma seg_head m prev h l : seg m prev h l -> h <> nullptr -> exists l', l = h :: l'.
Proof. destruct l as [|p l]; cbn; [done|]. intros (-> & _) _. by exists l. Qed.

(** The new first node of a list gets any back link. *)
Lemma seg_set_prev m prev prev' h l n x :
  seg m prev h l -> m !! h = Some n -> NoDup l -> (forall q, prev' = Some q -> x = q) ->
  l <> [] -> seg (<[h := set_lprev n x]> m) prev' h l.
Proof.
  destruct l as [|p l]; [done|]. cbn. intros (-> & Hp & n' & Hn & _ & Hs) Hh [Hpl _]%NoDup_cons Hx _.
  assert (n' = n) as -> by congruence. split_and!; [done..|]. exists (set_lprev n x).
  rewrite lookup_insert_eq. split_and!; [done | |]; autorewrite with links; [done|].
  eapply seg_ext; [|done]. intros q Hq. apply lookup_insert_ne. by intros ->.
Qed.

Lemma pushFront_spec m h l p n :
  seg m None h l -> NoDup l -> p ∉ l -> p <> nullptr -> m !! p = Some n ->
  exists m', pushFront m h p = Ok m' /\ seg m' None p (p :: l) /\ frame (p :: l) m m'.
Proof.
  intros Hs Hnd Hp Hp0 Hn. unfold pushFront. rewrite (deref_Some _ _ _ Hn). ostep.
  set (m1 := <[p := set_lnext n h]> m).
  assert (Hf1 : frame (p :: l) m m1).
  { eapply frame_insert; [by left | done | by autorewrite with links]. }
  assert (Hs1 : seg m1 None h l).
  { eapply seg_ext; [|done]. intros q Hq. apply lookup_insert_ne. by intros ->. }
  assert (Hn1 : m1 !! p = Some (set_lnext n h)) by apply lookup_insert_eq.
  destruct (Z.eqb_spec h nullptr) as [->|Hh].
  - exists m1. split; [done|]. split; [|done]. destruct l as [|q l]; [|cbn in Hs; naive_solver].
    cbn. split_and!; [done..|]. exists (set_lnext n nullptr). autorewrite with links. done.
  - destruct (seg_head _ _ _ _ Hs1 Hh) as (l' & ->).
    assert (exists nh, m1 !! h = Some nh) as [nh Hnh] by (cbn in Hs1; naive_solver).
    rewrite (deref_Some _ _ _ Hnh). ostep. eexists. split; [done|]. split.
    + split; [done|]. split; [done|]. exists (set_lnext n h). rewrite lookup_insert_ne by set_solver.
      split_and!; [done | done |]. autorewrite with links.
      eapply seg_set_prev; eauto. by intros q [= ->].
    + eapply frame_trans; [done|]. eapply frame_insert; [set_solver | done | by autorewrite with links].
Qed.

(** Unlinking a node in the middle joins its neighbours. *)
Lemma unlink_mid m prev h l1 q p l2 n :
  seg m prev h (l1 ++ q :: p :: l2) -> NoDup (l1 ++ q :: p :: l2) -> m !! p = Some n ->
  exists m1 nq, m !! q = Some nq /\ lprev n = q /\ m1 = <[q := set_lnext nq (lnext n)]> m /\
    (forall m', (forall x, x ∈ l1 ++ [q] -> m' !! x = m1 !! x) ->
       seg m' (Some q) (lnext n) l2 -> seg m' prev h (l1 ++ q :: l2)) /\
    seg m (Some p) (lnext n) l2.
Proof.
  revert prev h. induction l1 as [|a l1 IH]; intros prev h; cbn [app seg].
  - intros (-> & Hq & nq & Hnq & Hpr & _ & Hp & n' & Hn' & Hpp & Hs) Hnd Hn.
    assert (n' = n) as -> by congruence. exists (<[q := set_lnext nq (lnext n)]> m), nq.
    rewrite (Hpp q) by done. split_and!; try done. intros m' Hm' Hs'. split_and!; [done..|].
    exists (set_lnext nq (lnext n)). rewrite (Hm' q) by set_solver. rewrite lookup_insert_eq.
    autorewrite with links. done.
  - intros (-> & Ha & na & Hna & Hpr & Hs) [Hnin Hnd]%NoDup_cons Hn.
    destruct (IH _ _ Hs Hnd Hn) as (m1 & nq & Hnq & Hlp & -> & Hj & Hs2).
    exists (<[q := set_lnext nq (lnext n)]> m), nq. split_and!; try done.
    intros m' Hm' Hs'. split_and!; [done..|]. exists na. rewrite (Hm' a) by set_solver.
    rewrite lookup_insert_ne by set_solver. split_and!; [done..|]. apply Hj; [|done].
    intros x Hx. apply Hm'. set_solver.
Qed.

Lemma seg_any_prev m prev h l : seg m prev h l -> seg m None h l.
Proof. destruct l as [|p l]; [done|]. intros (-> & ? & n & ? & _ & ?). cbn. naive_solver. Qed.

Lemma nodup_parts (l1 : list Z) q p l2 :
  NoDup (l1 ++ q :: p :: l2) -> NoDup l2 /\ l1 ++ [q] ## l2 /\ p ∉ l1 ++ q :: l2.
Proof.
  intros Hnd. apply NoDup_app in Hnd as (_ & Hd & Hnd).
  apply NoDup_cons in Hnd as [Hq Hnd]. apply NoDup_cons in Hnd as [Hp Hnd]. split_and!; [done|set_solver..].
Qed.

Lemma unlink_spec m h l1 p l2 n :
  seg m None h (l1 ++ p :: l2) -> NoDup (l1 ++ p :: l2) -> m !! p = Some n ->
  exists m' h', unlink m h p = Ok (m', h') /\ seg m' None h' (l1 ++ l2) /\
    frame (l1 ++ l2) m m'.
Proof.
  intros Hs Hnd Hn. unfold unlink. rewrite (deref_Some _ _ _ Hn). ostep.
  destruct (exists_last_or_nil l1) as [->|(l1' & q & ->)].
  - cbn [app] in *. destruct Hs as (-> & Hp & n' & Hn' & _ & Hs). rewrite Z.eqb_refl.
    assert (n' = n) as -> by congruence. exists m, (lnext n). split; [done|]. split; [|apply frame_refl].
    by eapply seg_any_prev.
  - rewrite <- (assoc_L (++)) in *. cbn [app] in *.
    destruct (unlink_mid _ _ _ _ _ _ _ _ Hs Hnd Hn) as (m1 & nq & Hnq & Hlp & Em1 & Hj & Hs2).
    assert (Hne : p <> h).
    { intros ->. destruct l1'; cbn in Hs; [destruct Hs as (-> & _)|destruct Hs as (-> & _)];
        apply NoDup_cons in Hnd as [Hnd _]; set_solver. }
    destruct (Z.eqb_spec p h); [done|]. rewrite Hlp, (deref_Some _ _ _ Hnq). ostep. rewrite <- Em1.
    assert (Hf : frame (l1' ++ q :: l2) m m1).
    { rewrite Em1. eapply frame_insert; [set_solver | done | by autorewrite with links]. }
    assert (Hs1 : seg m1 (Some p) (lnext n) l2).
    { eapply seg_ext; [|done]. intros x Hx. rewrite Em1. apply lookup_insert_ne.
      intros <-. apply NoDup_app in Hnd as (_ & _ & Hnd). apply NoDup_cons in Hnd as [Hnd _]. set_solver. }
    destruct (nodup_parts _ _ _ _ Hnd) as (Hnd2 & Hdj & _).
    destruct (Z.eqb_spec (lnext n) nullptr) as [Hz|Hz].
    + exists m1, h. split; [done|]. split; [|done]. apply Hj; [done|]. rewrite Hz in *.
      destruct l2; [done|]. cbn in Hs1. naive_solver.
    + destruct (seg_head _ _ _ _ Hs1 Hz) as (l' & ->).
      assert (exists nn, m1 !! lnext n = Some nn) as [nn Hnn] by (cbn in Hs1; naive_solver).
      rewrite (deref_Some _ _ _ Hnn). ostep. eexists _, h. split; [done|]. split.
      * apply Hj; [intros x Hx; apply lookup_insert_ne; set_solver|].
        eapply seg_set_prev; eauto. by intros ? [= ->].
      * eapply frame_trans; [done|]. eapply frame_insert; [set_solver | done | by autorewrite with links].
Qed.

(** ** The table of lists *)

(** The size class of a region. *)
Definition bucket (n : Z) : nat := Z.to_nat (Z.log2 n).

Lemma bsr_pos n : 0 < n -> cpuLastOneBitIndex n = Ok (bucket n).
Proof. intros Hn. unfold cpuLastOneBitIndex, bucket. destruct (Z.eqb_spec n 0); [lia|done]. Qed.

(** The lists with the one of size class [k] replaced. *)
Definition lsSet (ls : nat -> list Z) (k : nat) (l : list Z) : nat -> list Z :=
  fun j => if decide (j = k) then l else ls j.

(** Changing one list of the table: the lists stay linked if the change stays
    within the nodes [l] that no other list has. *)
Lemma table_step (its its' : gmap Z A) table ls k h' l l' :
  (k < length table)%nat -> (forall j h, table !! j = Some h -> seg its None h (ls j)) ->
  seg its' None h' l' -> frame l its its' -> (forall j, j <> k -> l ## ls j) ->
  forall j h, <[k := h']> table !! j = Some h -> seg its' None h (lsSet ls k l' j).
Proof.
  intros Hk Hs Hs' Hf Hd j h. unfold lsSet. destruct (decide (j = k)) as [->|Hne].
  - rewrite list_lookup_insert_eq by done. by intros [= <-].
  - rewrite list_lookup_insert_ne by done. intros Hj. eapply seg_frame; [done | by apply Hd | by apply Hs].
Qed.

Lemma frame_dom l (its its' : gmap Z A) q : frame l its its' -> is_Some (its' !! q) <-> is_Some (its !! q).
Proof.
  intros [_ Hf]. specialize (Hf q). destruct (its' !! q), (its !! q); cbn in Hf; try done;
    split; intros; by try (eapply mk_is_Some).
Qed.

(** A link of a listed node stays in the list. *)
Lemma seg_next m l : forall prev h p n, seg m prev h l -> p ∈ l -> m !! p = Some n ->
  lnext n = nullptr \/ lnext n ∈ l.
Proof.
  induction l as [|q l IH]; intros prev h p n; cbn; [by intros _ ?%elem_of_nil|].
  intros (-> & Hq & n' & Hn' & _ & Hs) [->|Hin]%elem_of_cons Hn.
  - assert (n' = n) as -> by congruence. destruct l as [|r l]; cbn in Hs; [by left|].
    destruct Hs as (-> & _). right. by right; left.
  - destruct (IH _ _ _ _ Hs Hin Hn); [by left | right; by right].
Qed.

(** The whole table: [fs] is the size of every free region, [ls] the lists, one per
    size class. *)
Record Lists (n : nat) (fs : gmap Z Z) (ls : nat -> list Z) (m : gmap Z A) (table : list Z) : Prop := {
  t_len : length table = n;
  t_seg : forall k h, table !! k = Some h -> seg m None h (ls k);
  t_nodup : forall k, NoDup (ls k);
  t_mem : forall k p, p ∈ ls k <-> exists sz, fs !! p = Some sz /\ bucket sz = k
}.

(** Only link fields of free regions change. *)
Definition frameF (fs : gmap Z Z) (m m' : gmap Z A) : Prop :=
  (forall q, fs !! q = None -> m' !! q = m !! q) /\
  (forall q, ldata <$> m' !! q = ldata <$> m !! q).

Lemma frame_frameF fs l m m' : frame l m m' -> (forall q, q ∈ l -> is_Some (fs !! q)) -> frameF fs m m'.
Proof.
  intros [H1 H2] Hl. split; [|done]. intros q Hq. apply H1. intros Hin%Hl.
  by rewrite Hq in Hin; destruct Hin.
Qed.

Lemma lists_unique n fs ls m table k k' p : Lists n fs ls m table -> p ∈ ls k -> p ∈ ls k' -> k = k'.
Proof.
  intros HL (sz & E & <-)%(t_mem _ _ _ _ _ HL) (sz' & E' & <-)%(t_mem _ _ _ _ _ HL). congruence.
Qed.

Lemma seg_links m m' l : forall prev h,
  (forall q nd, q ∈ l -> m !! q = Some nd ->
     exists nd', m' !! q = Some nd' /\ lnext nd' = lnext nd /\ lprev nd' = lprev nd) ->
  seg m prev h l -> seg m' prev h l.
Proof.
  induction l as [|p l IH]; intros prev h Hq; cbn; [done|].
  intros (-> & Hp & nd & Hn & Hpr & Hs). split_and!; [done..|].
  destruct (Hq p nd ltac:(by left) Hn) as (nd' & Hn' & E1 & E2). exists nd'.
  rewrite E1, E2. split_and!; [done..|]. apply IH; [|done]. intros q nd0 ?. apply Hq. by right.
Qed.

(** The lists depend on the link fields of the free regions only. *)
Lemma lists_ext n fs ls m m' table : Lists n fs ls m table ->
  (forall q nd, is_Some (fs !! q) -> m !! q = Some nd ->
     exists nd', m' !! q = Some nd' /\ lnext nd' = lnext nd /\ lprev nd' = lprev nd) ->
  Lists n fs ls m' table.
Proof.
  intros [H1 H2 H3 H4] Hx. split; try done. intros k h Hk. eapply seg_links; [|by apply H2].
  intros q nd (sz & Hq & _)%H4 Hn. apply Hx; [by rewrite Hq | done].
Qed.

Lemma lists_delete n fs ls m table p sz : Lists n fs ls m table -> fs !! p = Some sz ->
  (bucket sz < n)%nat ->
  exists head m' head' ls', table !! bucket sz = Some head /\ unlink m head p = Ok (m', head') /\
    Lists n (delete p fs) ls' m' (<[bucket sz := head']> table) /\ frameF (delete p fs) m m'.
Proof.
  intros HL Hp Hk. pose proof HL as [Hlen Hseg Hnd Hmem]. set (k := bucket sz) in *.
  destruct (lookup_lt_is_Some_2 table k ltac:(lia)) as [h Hh].
  assert (Hin : p ∈ ls k) by (apply Hmem; by exists sz).
  destruct (seg_nonnull _ _ _ _ _ (Hseg k h Hh) Hin) as [_ [nd Hnd']].
  apply list_elem_of_split in Hin as (l1 & l2 & El). pose proof (Hnd k) as Hndk. rewrite El in Hndk.
  pose proof (Hseg k h Hh) as Hsk. rewrite El in Hsk.
  destruct (unlink_spec _ _ _ _ _ _ Hsk Hndk Hnd') as (m' & h' & Eu & Hs1 & Hf1).
  apply NoDup_app in Hndk as (Hnd1 & Hnd12 & Hnd2). apply NoDup_cons in Hnd2 as [Hp2 Hnd2].
  assert (Hp12 : p ∉ l1 ++ l2) by (rewrite elem_of_app; intros [Hx|Hx]; [by eapply Hnd12; [|left]|done]).
  assert (Hsub : forall q, q ∈ l1 ++ l2 -> q ∈ ls k) by (intros q; rewrite El; set_solver).
  exists h, m', h', (lsSet ls k (l1 ++ l2)). split_and!; [done | done | | ].
  - split.
    + by rewrite length_insert.
    + eapply (table_step m); eauto; [lia|].
      intros j Hj q Hq%Hsub Hq'. by pose proof (lists_unique _ _ _ _ _ _ _ _ HL Hq Hq').
    + intros j. unfold lsSet. destruct (decide _) as [->|]; [|done]. apply NoDup_app. split_and!; try done.
      intros q Hq Hq'. eapply Hnd12; [done|]. by right.
    + intros j q. unfold lsSet. destruct (decide (q = p)) as [->|Hqp].
      * rewrite lookup_delete_eq. destruct (decide (j = k)) as [->|Hj]; [naive_solver|].
        split; [|naive_solver]. intros (sz' & E' & <-)%Hmem. rewrite Hp in E'. by injection E' as <-.
      * rewrite lookup_delete_ne by done. rewrite <- Hmem. destruct (decide (j = k)) as [->|]; [|done].
        rewrite El. set_solver.
  - eapply frame_frameF; [done|]. intros q Hq. pose proof Hq as (sz' & E' & _)%Hsub%Hmem.
    rewrite lookup_delete_ne; [by rewrite E' | by intros <-].
Qed.

Lemma lists_insert n fs ls m table p sz nd : Lists n fs ls m table -> fs !! p = None ->
  p <> nullptr -> m !! p = Some nd -> (bucket sz < n)%nat ->
  exists head m' ls', table !! bucket sz = Some head /\ pushFront m head p = Ok m' /\
    Lists n (<[p := sz]> fs) ls' m' (<[bucket sz := p]> table) /\ frameF (<[p := sz]> fs) m m'.
Proof.
  intros HL Hp Hp0 Hm Hk. pose proof HL as [Hlen Hseg Hnd Hmem]. set (k := bucket sz) in *.
  destruct (lookup_lt_is_Some_2 table k ltac:(lia)) as [h Hh].
  assert (Hnot : forall j, p ∉ ls j) by (intros j (sz' & E' & _)%Hmem; congruence).
  destruct (pushFront_spec m h (ls k) p nd) as (m' & Ep & Hs2 & Hf2); try done; [by apply Hseg|].
  exists h, m', (lsSet ls k (p :: ls k)). split_and!; [done | done | |].
  - split.
    + by rewrite length_insert.
    + eapply (table_step m); eauto; [lia|].
      intros j Hj q [->|Hq]%elem_of_cons Hq'; [by apply (Hnot j)|].
      by pose proof (lists_unique _ _ _ _ _ _ _ _ HL Hq Hq').
    + intros j. unfold lsSet. destruct (decide _) as [->|]; [by constructor|done].
    + intros j q. unfold lsSet. destruct (decide (q = p)) as [->|Hqp].
      * rewrite lookup_insert_eq. destruct (decide (j = k)) as [->|Hj].
        -- split; [intros _; by exists sz | intros _; by left].
        -- split; [by intros ?%Hnot | intros (? & [= <-] & ?); done].
      * rewrite lookup_insert_ne by done. rewrite <- Hmem. destruct (decide (j = k)) as [->|]; [|done].
        rewrite elem_of_cons. naive_solver.
  - eapply frame_frameF; [done|]. intros q [->|(sz' & E' & _)%Hmem]%elem_of_cons.
    + by rewrite lookup_insert_eq.
    + destruct (decide (q = p)) as [->|]; [by rewrite lookup_insert_eq | by rewrite lookup_insert_ne, E'].
Qed.

End Ops.
