(* ===== verification/PhMem.v ===== *)
(** * The lock-free RAM page allocator (kernel/phmem.cpp, kernel/phmem.h)

    Free pages form a singly linked list through the first word of each page;
    the list head and an operation counter are updated together by a 128-bit
    compare-and-exchange.  [RamAllocator] is the sequential reading of the
    code, used by the page tables and the virtual memory manager; [LockFree] is
    the interleaving of any number of CPUs inside [allocPagePtr] and
    [freePagePtr], one shared access at a time. *)

From S2P Require Import Prelude.

(** ** Constants and address conversions (include/cpu.h, include/kernel_params.h,
    include/vmem_utils.h) *)
Definition PAGE_SIZE : Z := 4096.
Definition PAGE_MASK : Z := 0xFFF.
Definition PAGE_SHIFT : Z := 12.
Definition RAM_VIRTUAL_BASE : Z := 0xFFFF800000000000.
Definition KERNEL_VIRTUAL_BASE : Z := 0xFFFFFF8000000000.

Definition physToVirtualInt (addr : Z) : Z := u64 (addr + RAM_VIRTUAL_BASE).
Definition virtualToPhysInt (ptr : Z) : Z := u64 (ptr - RAM_VIRTUAL_BASE).
Definition isRamMappingPtr (ptr : Z) : bool :=
  (RAM_VIRTUAL_BASE <=? ptr) && (ptr <? KERNEL_VIRTUAL_BASE).

Lemma virtualToPhys_physToVirtual a : 0 <= a < 2 ^ 64 -> virtualToPhysInt (physToVirtualInt a) = a.
Proof.
  intros H. unfold virtualToPhysInt, physToVirtualInt, u64.
  rewrite Zminus_mod_idemp_l. replace (a + RAM_VIRTUAL_BASE - RAM_VIRTUAL_BASE) with a by lia.
  by apply Z.mod_small.
Qed.

(** ** RAM as 64-bit words, by virtual address *)
Definition wmem : Type := Z -> Z.
Definition wset (m : wmem) (a v : Z) : wmem := fun x => if x =? a then v else m x.

(** [kmemset(p, 0, PAGE_SIZE)] *)
Definition zeroPage (m : wmem) (p : Z) : wmem :=
  fun x => if (p <=? x) && (x <? p + PAGE_SIZE) then 0 else m x.

(** The address of [g_endList], the end marker of the free list. *)
Class EndList := m_pEndList : Z.

Module RamAllocator.

Record t : Type := mk {
  m_head : Z;
  m_refCnt : Z;
  m_avaibleRamSize : Z;
  m_maxRamAddr : Z
}.

Section Ops.
Context {endList : EndList}.

(** *** Constructor *)

(** [while (--pageCnt > 0) { nextPtr = ptr + PAGE_SIZE / sizeof(ptr); *ptr = nextPtr; ptr = nextPtr; }] *)
Fixpoint linkPages (n : nat) (ptr : Z) (m : wmem) : Z * wmem :=
  match n with
  | O => (ptr, m)
  | S n => let nextPtr := ptr + PAGE_SIZE in linkPages n nextPtr (wset m ptr nextPtr)
  end.

Definition initRegion (region : Z * Z) (st : wmem * t) : wmem * t :=
  let '(rstart, rend) := region in
  let '(m, a) := st in
  let startPtr := physToVirtualInt rstart in
  let regSize := u64 (rend - rstart) in
  let maxAddr := Z.max (m_maxRamAddr a) rend in
  let avail := u64 (m_avaibleRamSize a + regSize) in
  let pageCnt := regSize / PAGE_SIZE in
  if pageCnt =? 0 then (m, mk (m_head a) (m_refCnt a) avail maxAddr)
  else
    let '(ptr, m) := linkPages (Z.to_nat (pageCnt - 1)) startPtr m in
    (wset m ptr (m_head a), mk startPtr (m_refCnt a) avail maxAddr).

Definition construct (regions : list (Z * Z)) (m : wmem) : wmem * t :=
  foldl (fun st r => initRegion r st) (m, mk m_pEndList 0 0 0) regions.

(** *** Operations, run without interference *)

Definition allocPagePtr (memzero : bool) (m : wmem) (a : t) : outcome (Z * wmem * t) :=
  if m_head a =? m_pEndList then Panic
  else
    let ret := m_head a in
    let a := mk (m ret) (u64 (m_refCnt a + 1)) (m_avaibleRamSize a) (m_maxRamAddr a) in
    Ok (ret, if memzero then zeroPage m ret else m, a).

Definition freePagePtr (addr : Z) (m : wmem) (a : t) : wmem * t :=
  (wset m addr (m_head a),
   mk addr (u64 (m_refCnt a + 1)) (m_avaibleRamSize a) (m_maxRamAddr a)).

Definition allocPage (memzero : bool) (m : wmem) (a : t) : outcome (Z * wmem * t) :=
  '(p, m, a) ← allocPagePtr memzero m a;
  Ok (virtualToPhysInt p, m, a).

Definition freePage (addr : Z) (m : wmem) (a : t) : wmem * t :=
  freePagePtr (physToVirtualInt addr) m a.

(** *** The free list *)

(** [l] lists the pages linked from [h] to the end marker. *)
Fixpoint chain (m : wmem) (h : Z) (l : list Z) : Prop :=
  match l with
  | [] => h = m_pEndList
  | p :: l => h = p /\ p <> m_pEndList /\ chain m (m p) l
  end.

(** The allocator in state [a] over memory [m] holds exactly the free pages [l]. *)
Definition FreePages (m : wmem) (a : t) (l : list Z) : Prop :=
  chain m (m_head a) l /\ NoDup l /\ (forall p, p ∈ l -> p mod PAGE_SIZE = 0).

Lemma chain_ext m m' h l : (forall p, p ∈ l -> m p = m' p) -> chain m h l -> chain m' h l.
Proof.
  revert h. induction l as [|p l IH]; intros h H Hc; [done|].
  destruct Hc as (-> & Hp & Hc). split; [done|]. split; [done|].
  rewrite <- (H p) by (by left). apply IH; [|done]. intros q Hq. apply H. by right.
Qed.

Lemma chain_wset m h l p v : p ∉ l -> chain m h l -> chain (wset m p v) h l.
Proof.
  intros Hp. apply chain_ext. intros q Hq. unfold wset.
  destruct (Z.eqb_spec q p) as [->|]; [done|done].
Qed.

Lemma chain_hd m p l : chain m p l -> p <> m_pEndList -> exists l', l = p :: l'.
Proof. destruct l as [|q l]; simpl; [done|]. intros (-> & ? & ?) _. by exists l. Qed.

(** The pages of [n] consecutive page frames starting at [ptr]. *)
Definition pagesFrom (ptr : Z) (n : nat) : list Z :=
  map (fun i => ptr + PAGE_SIZE * Z.of_nat i) (seq 0 n).

Lemma pagesFrom_S ptr n : pagesFrom ptr (S n) = ptr :: pagesFrom (ptr + PAGE_SIZE) n.
Proof.
  unfold pagesFrom. cbn [seq map]. f_equal; [lia|]. rewrite <- seq_shift, map_map.
  apply map_ext. intros. lia.
Qed.

Lemma elem_of_pagesFrom ptr n p :
  p ∈ pagesFrom ptr n <-> exists i, (i < n)%nat /\ p = ptr + PAGE_SIZE * Z.of_nat i.
Proof.
  unfold pagesFrom. rewrite list_elem_of_In, in_map_iff. setoid_rewrite in_seq. split.
  - intros (i & <- & ?). exists i. split; [lia|done].
  - intros (i & ? & ->). exists i. split; [done|lia].
Qed.

Lemma NoDup_pagesFrom ptr n : NoDup (pagesFrom ptr n).
Proof.
  revert ptr. induction n as [|n IH]; intros ptr; [constructor|].
  rewrite pagesFrom_S. constructor; [|apply IH].
  rewrite elem_of_pagesFrom. unfold PAGE_SIZE. intros (i & _ & H). lia.
Qed.

(** The linking loop writes nothing below its start. *)
Lemma linkPages_below n : forall ptr m last m' q,
  linkPages n ptr m = (last, m') -> q < ptr -> last <> q /\ m' q = m q.
Proof.
  induction n as [|n IH]; intros ptr m last m' q E Hlt; cbn [linkPages] in E.
  - injection E as <- <-. split; [lia|done].
  - destruct (IH _ _ _ _ q E) as [? ->]; [unfold PAGE_SIZE; lia|]. split; [done|].
    unfold wset. destruct (Z.eqb_spec q ptr); [lia|done].
Qed.

(** The linking loop chains its pages in front of what the last word gets. *)
Lemma linkPages_chain n : forall ptr m last m' h l,
  linkPages n ptr m = (last, m') ->
  (forall p, p ∈ pagesFrom ptr (S n) -> p <> m_pEndList /\ p ∉ l) ->
  chain m h l ->
  chain (wset m' last h) ptr (pagesFrom ptr (S n) ++ l).
Proof.
  induction n as [|n IH]; intros ptr m last m' h l E Hfresh Hc;
    rewrite pagesFrom_S in Hfresh |- *; cbn [app chain];
    (destruct (Hfresh ptr) as [Hne Hnl]; [by left|]); split_and!; try done.
  - injection E as <- <-. unfold wset at 2. rewrite Z.eqb_refl. by apply chain_wset.
  - cbn [linkPages] in E.
    destruct (linkPages_below _ _ _ _ _ ptr E) as [Hlast Hval]; [unfold PAGE_SIZE; lia|].
    unfold wset at 2. destruct (Z.eqb_spec ptr last); [done|].
    rewrite Hval. unfold wset at 2. rewrite Z.eqb_refl. eapply IH; [done| |].
    + intros p Hp. apply Hfresh. by right.
    + by apply chain_wset.
Qed.

(** The page frames of a region, as the virtual addresses of its pages. *)
Definition regionPages (r : Z * Z) : list Z :=
  pagesFrom (physToVirtualInt r.1) (Z.to_nat ((r.2 - r.1) / PAGE_SIZE)).
Definition allPages (regions : list (Z * Z)) : list Z :=
  foldl (fun acc r => regionPages r ++ acc) [] regions.

(** Page-aligned region bounds inside the RAM window. *)
Definition region_ok (r : Z * Z) : Prop :=
  0 <= r.1 <= r.2 /\ r.2 <= KERNEL_VIRTUAL_BASE - RAM_VIRTUAL_BASE /\ r.1 mod PAGE_SIZE = 0.

Lemma regionPages_aligned r p : region_ok r -> p ∈ regionPages r -> p mod PAGE_SIZE = 0.
Proof.
  intros (H1 & H2 & H3). unfold regionPages. rewrite elem_of_pagesFrom.
  intros (i & _ & ->). unfold physToVirtualInt. rewrite u64_small.
  - rewrite Z.mul_comm, Z.mod_add, Z.add_mod, H3 by done. done.
  - unfold RAM_VIRTUAL_BASE, KERNEL_VIRTUAL_BASE in *. lia.
Qed.

Lemma allPages_app l r : allPages (l ++ [r]) = regionPages r ++ allPages l.
Proof. unfold allPages. by rewrite foldl_app. Qed.

Lemma initRegion_chain r m a l m' a' :
  region_ok r -> initRegion r (m, a) = (m', a') -> chain m (m_head a) l ->
  (forall p, p ∈ regionPages r -> p <> m_pEndList /\ p ∉ l) ->
  chain m' (m_head a') (regionPages r ++ l) /\
  m_avaibleRamSize a' = u64 (m_avaibleRamSize a + (r.2 - r.1)).
Proof.
  destruct r as [s e]. intros (H1 & H2 & H3) E Hc Hf. unfold initRegion, regionPages in *.
  cbn [fst snd] in *. rewrite (u64_small (e - s)) in E
    by (unfold RAM_VIRTUAL_BASE, KERNEL_VIRTUAL_BASE in *; lia).
  destruct (Z.eqb_spec ((e - s) / PAGE_SIZE) 0) as [Hz|Hz].
  - injection E as <- <-. by rewrite Hz.
  - assert (Hpos : 0 < (e - s) / PAGE_SIZE).
    { pose proof (Z.div_pos (e - s) PAGE_SIZE). unfold PAGE_SIZE in *. lia. }
    destruct (linkPages _ _ _) as [last m1] eqn:El. injection E as <- <-. split; [|done].
    replace (Z.to_nat ((e - s) / PAGE_SIZE)) with (S (Z.to_nat ((e - s) / PAGE_SIZE - 1))) in * by lia.
    by eapply linkPages_chain.
Qed.

Lemma allPages_aligned regions p :
  Forall region_ok regions -> p ∈ allPages regions -> p mod PAGE_SIZE = 0.
Proof.
  induction regions as [|r l IH] using rev_ind; intros Hok; [by intros ?%elem_of_nil|].
  rewrite allPages_app, elem_of_app. apply Forall_app in Hok as [Hok Hr].
  inversion_clear Hr. intros [?|?]; [by eapply regionPages_aligned | auto].
Qed.

(** C6: the constructor of [RamAllocator] links every whole page frame of every
    RAM region, once each and nothing else, into the free list, and
    [m_avaibleRamSize] is the sum of the region sizes. *)
Theorem construct_correct regions m m' a' :
  Forall region_ok regions -> NoDup (allPages regions) -> m_pEndList ∉ allPages regions ->
  construct regions m = (m', a') ->
  FreePages m' a' (allPages regions) /\
  m_avaibleRamSize a' = u64 (foldl (fun acc r => acc + (r.2 - r.1)) 0 regions).
Proof.
  intros Hok Hnd Hend E. cut (chain m' (m_head a') (allPages regions) /\
    m_avaibleRamSize a' = u64 (foldl (fun acc r => acc + (r.2 - r.1)) 0 regions)).
  { intros [Hc Hs]. split; [split; [done|split; [done|]] | done]. intros p. by apply allPages_aligned. }
  revert m' a' E Hok Hnd Hend. induction regions as [|r l IH] using rev_ind; intros m' a' E Hok Hnd Hend.
  { injection E as <- <-. done. }
  unfold construct in E. rewrite foldl_app in E. cbn [foldl] in E.
  destruct (foldl (fun st r => initRegion r st) _ l) as [m1 a1] eqn:E1. apply Forall_app in Hok as [Hok Hr].
  inversion_clear Hr as [|? ? Hr' _]. rewrite allPages_app in Hnd, Hend |- *.
  rewrite elem_of_app in Hend. apply NoDup_app in Hnd as (Hn1 & Hn2 & Hn3).
  destruct (IH m1 a1) as [Hc Hs]; [done | done | done | by intros ?; apply Hend; right |].
  destruct (initRegion_chain r m1 a1 (allPages l) m' a') as [Hc' Hs']; try done.
  { intros p Hp. split; [intros ->; apply Hend; by left | by apply Hn2]. }
  split; [done|]. rewrite Hs', Hs, foldl_app. cbn [foldl]. unfold u64. by rewrite Zplus_mod_idemp_l.
Qed.

Lemma allocPagePtr_spec memzero m a p l :
  FreePages m a (p :: l) ->
  exists m' a', allocPagePtr memzero m a = Ok (p, m', a') /\ FreePages m' a' l /\
    (memzero = true -> forall x, p <= x < p + PAGE_SIZE -> m' x = 0) /\
    (forall x, ~ (p <= x < p + PAGE_SIZE) -> m' x = m x).
Proof.
  intros ((Hh & Hne & Hc) & Hnd & Hal). unfold allocPagePtr. rewrite Hh.
  destruct (Z.eqb_spec p m_pEndList); [done|]. apply NoDup_cons in Hnd as [Hp Hnd].
  eexists _, _. split; [done|]. split; [|split].
  - split; [|split; [done | intros q Hq; apply Hal; by right]]. cbn [m_head].
    destruct memzero; [|done]. eapply chain_ext; [|done]. intros q Hq. unfold zeroPage.
    assert (q <> p) by (by intros ->).
    assert (Hap := Hal p ltac:(by left)). assert (Haq := Hal q ltac:(by right)).
    zbool; cbn [andb]; try done. unfold PAGE_SIZE in *. Z.div_mod_to_equations. lia.
  - intros -> x Hx. unfold zeroPage. zbool; cbn [andb]; try lia; done.
  - intros x Hx. destruct memzero; [|done]. unfold zeroPage. zbool; cbn [andb]; try lia; done.
Qed.

Lemma freePagePtr_spec m a p l :
  FreePages m a l -> p ∉ l -> p <> m_pEndList -> p mod PAGE_SIZE = 0 ->
  exists m' a', freePagePtr p m a = (m', a') /\ FreePages m' a' (p :: l) /\
    (forall x, x <> p -> m' x = m x).
Proof.
  intros (Hc & Hnd & Hal) Hp Hne Hap. eexists _, _. split; [done|]. split; [split; [|split]|].
  - split; [done|]. split; [done|]. unfold wset at 2. rewrite Z.eqb_refl. by apply chain_wset.
  - by constructor.
  - intros q [->|?]%elem_of_cons; auto.
  - intros x Hx. unfold wset. by destruct (Z.eqb_spec x p).
Qed.

End Ops.

Definition demoEnd : EndList := 0x1000.
Lemma construct_correct_witness :
  exists m' a', @construct demoEnd [(0x3000, 0x5800); (0x9000, 0xA000)] (fun _ => 0) = (m', a') /\
    @FreePages demoEnd m' a' (map physToVirtualInt [0x9000; 0x3000; 0x4000]).
Proof.
  destruct (@construct demoEnd [(0x3000, 0x5800); (0x9000, 0xA000)] (fun _ => 0)) as [m' a'] eqn:E.
  exists m', a'. split; [done|].
  eapply (@construct_correct demoEnd [(0x3000, 0x5800); (0x9000, 0xA000)] (fun _ => 0)); [| | |done].
  - repeat constructor; vm_compute; done.
  - apply (bool_decide_unpack _). by vm_compute.
  - apply (bool_decide_unpack _). by vm_compute.
Defined.

End RamAllocator.

(** ** Concurrent use *)
Module LockFree.
Section Concurrent.
Context {endList : EndList}.

(** Who a page belongs to: the free list, some user of the memory, or the CPU
    that is inside [freePagePtr] with it.  The code keeps no such record; the
    model writes it down to state what the allocator promises. *)
Inductive owner : Type := OFree | OUsed | OFreeing (cpu : nat).

(** Where a CPU is inside the two loops: the values it has loaded so far. *)
Inductive pc : Type :=
| Idle
| AStart                          (* allocPagePtr: top of the loop *)
| AHead (h : Z)                   (* header.m_head loaded *)
| ACnt (h c : Z)                  (* header.m_refCnt loaded *)
| ANext (h c nx : Z)              (* *header.m_head loaded for the exchange *)
| APanic                          (* PANIC(L"No enough memory") *)
| FStart (addr : Z)               (* freePagePtr: top of the loop *)
| FHead (addr h : Z)
| FCnt (addr h c : Z)
| FLinked (addr h c : Z).         (* *addr = header.m_head stored *)

Record state : Type := mkState {
  ram : wmem;
  s_head : Z;
  s_refCnt : Z;
  s_pc : nat -> pc;
  s_owner : gmap Z owner;
  s_ops : nat;                    (* exchanges that succeeded so far *)
  s_seen : nat -> nat             (* [s_ops] when a CPU last loaded the head *)
}.

(** What a CPU does next: call an operation, write a page in use, or perform
    the next access of the operation it is in. *)
Inductive action : Type := CallAlloc | CallFree (addr : Z) | UsePage (addr v : Z) | Run.

Definition upd {A} (f : nat -> A) (i : nat) (x : A) : nat -> A :=
  fun j => if Nat.eqb j i then x else f j.

Definition set_pc (s : state) (cpu : nat) (p : pc) : state :=
  mkState (ram s) (s_head s) (s_refCnt s) (upd (s_pc s) cpu p) (s_owner s) (s_ops s) (s_seen s).
Definition set_seen (s : state) (cpu : nat) : state :=
  mkState (ram s) (s_head s) (s_refCnt s) (s_pc s) (s_owner s) (s_ops s)
    (upd (s_seen s) cpu (s_ops s)).
Definition set_ram (s : state) (a v : Z) : state :=
  mkState (wset (ram s) a v) (s_head s) (s_refCnt s) (s_pc s) (s_owner s) (s_ops s) (s_seen s).
Definition set_owner (s : state) (p : Z) (o : owner) : state :=
  mkState (ram s) (s_head s) (s_refCnt s) (s_pc s) (<[p := o]> (s_owner s)) (s_ops s) (s_seen s).

(** [cpuInterlockedCompareExchange128(&m_header, c + 1, new, {h, c})] *)
Definition cas128 (s : state) (h c new : Z) : option state :=
  if (s_head s =? h) && (s_refCnt s =? c)
  then Some (mkState (ram s) new (u64 (c + 1)) (s_pc s) (s_owner s) (S (s_ops s)) (s_seen s))
  else None.

(** The next access of [allocPagePtr]. *)
Definition execAlloc (cpu : nat) (s : state) : option state :=
  match s_pc s cpu with
  | AStart => Some (set_pc (set_seen s cpu) cpu (AHead (s_head s)))
  | AHead h => Some (set_pc s cpu (ACnt h (s_refCnt s)))
  | ACnt h c =>
      if h =? m_pEndList then Some (set_pc s cpu APanic)
      else Some (set_pc s cpu (ANext h c (ram s h)))
  | ANext h c nx =>
      match cas128 s h c nx with
      | Some s' => Some (set_owner (set_pc s' cpu Idle) h OUsed)
      | None => Some (set_pc s cpu AStart)
      end
  | _ => None
  end.

(** The next access of [freePagePtr]. *)
Definition execFree (cpu : nat) (s : state) : option state :=
  match s_pc s cpu with
  | FStart addr => Some (set_pc (set_seen s cpu) cpu (FHead addr (s_head s)))
  | FHead addr h => Some (set_pc s cpu (FCnt addr h (s_refCnt s)))
  | FCnt addr h c => Some (set_pc (set_ram s addr h) cpu (FLinked addr h c))
  | FLinked addr h c =>
      match cas128 s h c addr with
      | Some s' => Some (set_owner (set_pc s' cpu Idle) addr OFree)
      | None => Some (set_pc s cpu (FStart addr))
      end
  | _ => None
  end.

Definition exec (cpu : nat) (a : action) (s : state) : option state :=
  match a with
  | CallAlloc =>
      match s_pc s cpu with Idle => Some (set_pc s cpu AStart) | _ => None end
  | CallFree addr =>
      match s_pc s cpu, s_owner s !! addr with
      | Idle, Some OUsed => Some (set_owner (set_pc s cpu (FStart addr)) addr (OFreeing cpu))
      | _, _ => None
      end
  | UsePage addr v =>
      match s_owner s !! addr with
      | Some OUsed => Some (set_ram s addr v)
      | _ => None
      end
  | Run =>
      match execAlloc cpu s with Some s' => Some s' | None => execFree cpu s end
  end.

Definition step (s s' : state) : Prop := exists cpu a, exec cpu a s = Some s'.

(** The state the constructor leaves: every page free, every CPU idle. *)
Definition initial (s : state) (pages : list Z) : Prop :=
  RamAllocator.chain (ram s) (s_head s) pages /\ NoDup pages /\ s_refCnt s = 0 /\
  s_ops s = 0%nat /\ (forall cpu, s_pc s cpu = Idle) /\
  (forall p o, s_owner s !! p = Some o -> o = OFree) /\
  (forall p, p ∈ pages <-> s_owner s !! p = Some OFree).

(** *** The invariant *)

(** The operation counter value a CPU loaded, as the number of exchanges that
    had then succeeded. *)
Definition loaded (s : state) (cpu : nat) (h c : Z) (P : Prop) : Prop :=
  exists k, (s_seen s cpu <= k <= s_ops s)%nat /\ c = u64 (Z.of_nat k) /\
    (k = s_ops s -> s_head s = h -> P).

(** Nothing has changed since the head was loaded unless an exchange succeeded. *)
Definition fresh (s : state) (cpu : nat) (h : Z) : Prop :=
  (s_seen s cpu <= s_ops s)%nat /\ (s_seen s cpu = s_ops s -> s_head s = h).

Definition pc_ok (s : state) (cpu : nat) : Prop :=
  match s_pc s cpu with
  | AHead h => fresh s cpu h
  | ACnt h c => fresh s cpu h /\ loaded s cpu h c True
  | ANext h c nx => h <> m_pEndList /\ fresh s cpu h /\ loaded s cpu h c (nx = ram s h)
  | FStart p => s_owner s !! p = Some (OFreeing cpu)
  | FHead p h => s_owner s !! p = Some (OFreeing cpu) /\ fresh s cpu h
  | FCnt p h c => s_owner s !! p = Some (OFreeing cpu) /\ fresh s cpu h /\ loaded s cpu h c True
  | FLinked p h c =>
      s_owner s !! p = Some (OFreeing cpu) /\ ram s p = h /\ fresh s cpu h /\ loaded s cpu h c True
  | _ => True
  end.

Record Inv (pages : list Z) (s : state) : Prop := mkInv {
  inv_chain : exists l, RamAllocator.chain (ram s) (s_head s) l /\ NoDup l /\
                (forall p, p ∈ l <-> s_owner s !! p = Some OFree);
  inv_end : s_owner s !! m_pEndList = None;
  inv_cnt : s_refCnt s = u64 (Z.of_nat (s_ops s));
  inv_pages : forall p, p ∈ pages <-> is_Some (s_owner s !! p);
  inv_pc : forall cpu, pc_ok s cpu
}.

Lemma upd_eq {A} (f : nat -> A) i x : upd f i x i = x.
Proof. unfold upd. by rewrite Nat.eqb_refl. Qed.
Lemma upd_ne {A} (f : nat -> A) i j x : j <> i -> upd f i x j = f j.
Proof. unfold upd. by destruct (Nat.eqb_spec j i). Qed.

(** What a step of [cpu] must leave alone for the other CPUs. *)
Record others_kept (cpu : nat) (s s' : state) : Prop := mkKept {
  kept_pc : forall i, i <> cpu -> s_pc s' i = s_pc s i;
  kept_seen : forall i, i <> cpu -> s_seen s' i = s_seen s i;
  kept_freeing : forall i p, i <> cpu -> s_owner s !! p = Some (OFreeing i) ->
    s_owner s' !! p = Some (OFreeing i) /\ ram s' p = ram s p;
  kept_header : (s_ops s' = s_ops s /\ s_head s' = s_head s /\
      (s_head s <> m_pEndList -> ram s' (s_head s) = ram s (s_head s))) \/
    s_ops s' = S (s_ops s)
}.

Lemma fresh_kept cpu s s' i h :
  others_kept cpu s s' -> i <> cpu -> fresh s i h -> fresh s' i h.
Proof.
  intros [_ Hs _ Hh] Hi [H1 H2]. unfold fresh. rewrite (Hs i Hi).
  destruct Hh as [(-> & -> & _)| ->]; [done|]. split; [lia|]. intros. lia.
Qed.

Lemma loaded_kept cpu s s' i h c (P P' : Prop) :
  others_kept cpu s s' -> i <> cpu ->
  (s_head s' = s_head s -> (s_head s <> m_pEndList -> ram s' (s_head s) = ram s (s_head s)) ->
   s_head s = h -> P -> P') ->
  loaded s i h c P -> loaded s' i h c P'.
Proof.
  intros [_ Hs _ Hh] Hi HP (k & Hk & -> & H). exists k. rewrite (Hs i Hi).
  destruct Hh as [(-> & E & Hr)| ->]; (split; [lia|]); (split; [done|]); [|lia].
  rewrite E. intros E1 E2. auto.
Qed.

Lemma pc_ok_kept cpu s s' i : others_kept cpu s s' -> i <> cpu -> pc_ok s i -> pc_ok s' i.
Proof.
  intros Hk Hi. unfold pc_ok. rewrite (kept_pc _ _ _ Hk i Hi).
  assert (Hfr := fun p => kept_freeing _ _ _ Hk i p Hi).
  assert (Hf := fun h => fresh_kept _ _ _ i h Hk Hi).
  assert (Hl := fun h c => loaded_kept _ _ _ i h c True True Hk Hi ltac:(done)).
  destruct (s_pc s i); try done; try naive_solver.
  intros (H1 & H2 & H3). split_and!; [done | auto |].
  eapply loaded_kept; [done | done | | done]. intros E Hr <- ->. symmetry. auto.
Qed.

(** A CPU other than the one that moved, or that one with a new position. *)
Lemma inv_pc_step cpu s s' :
  others_kept cpu s s' -> (forall i, pc_ok s i) -> pc_ok s' cpu -> forall i, pc_ok s' i.
Proof.
  intros Hk Hall Hc i. destruct (decide (i = cpu)) as [->|Hi]; [done|]. by eapply pc_ok_kept.
Qed.

(** Steps that only move [cpu] on (loads). *)
Lemma Inv_load pages s cpu p :
  Inv pages s -> (pc_ok (set_pc s cpu p) cpu) -> Inv pages (set_pc s cpu p).
Proof.
  intros [Hc He Hn Hp Hpc] Hok. split; try done.
  eapply inv_pc_step; [|exact Hpc|done]. split; cbn; try (by intros; apply upd_ne); try done; auto.
Qed.

Lemma Inv_load_head pages s cpu p :
  Inv pages s -> (pc_ok (set_pc (set_seen s cpu) cpu p) cpu) ->
  Inv pages (set_pc (set_seen s cpu) cpu p).
Proof.
  intros [Hc He Hn Hp Hpc] Hok. split; try done.
  eapply inv_pc_step; [|exact Hpc|done]. split; cbn; try (by intros; apply upd_ne); try done; auto.
Qed.

Lemma fresh_load s cpu p : fresh (set_pc (set_seen s cpu) cpu p) cpu (s_head s).
Proof. split; cbn; rewrite upd_eq; [lia|done]. Qed.

Lemma loaded_load s cpu h p (P : Prop) :
  s_refCnt s = u64 (Z.of_nat (s_ops s)) -> fresh s cpu h -> P ->
  loaded (set_pc s cpu p) cpu h (s_refCnt s) P.
Proof. intros E [Hf _] HP. exists (s_ops s). cbn. split; [lia|]. by split. Qed.

(** An exchange that succeeds saw the counter the allocator has now. *)
Lemma cas128_loaded s s' cpu h c v (P : Prop) :
  Z.of_nat (s_ops s) < 2 ^ 64 -> s_refCnt s = u64 (Z.of_nat (s_ops s)) ->
  loaded s cpu h c P -> cas128 s h c v = Some s' ->
  s_head s = h /\ P /\
  s' = mkState (ram s) v (u64 (Z.of_nat (S (s_ops s)))) (s_pc s) (s_owner s) (S (s_ops s)) (s_seen s).
Proof.
  intros Hb Hcnt (k & Hk & -> & HP). unfold cas128.
  destruct (Z.eqb_spec (s_head s) h) as [Hh|]; [|done].
  destruct (Z.eqb_spec (s_refCnt s) (u64 (Z.of_nat k))) as [Hc|]; [|done]. intros [= <-].
  assert (k = s_ops s) as -> by (rewrite Hcnt, !u64_small in Hc; lia).
  split_and!; [done | by apply HP |]. f_equal. unfold u64. rewrite Zplus_mod_idemp_l. f_equal. lia.
Qed.

Lemma Inv_alloc_cas pages s s1 cpu h c nx :
  Inv pages s -> Z.of_nat (s_ops s) < 2 ^ 64 -> s_pc s cpu = ANext h c nx ->
  cas128 s h c nx = Some s1 ->
  s_owner s !! h = Some OFree /\ Inv pages (set_owner (set_pc s1 cpu Idle) h OUsed).
Proof.
  intros [(l & Hc & Hnd & Hl) He Hn Hp Hpc] Hb Epc Ecas.
  assert (Hok := Hpc cpu). unfold pc_ok in Hok. rewrite Epc in Hok. destruct Hok as (Hne & _ & Hld).
  destruct (cas128_loaded _ _ _ _ _ _ _ Hb Hn Hld Ecas) as (Hh & -> & ->).
  rewrite Hh in Hc. destruct (RamAllocator.chain_hd _ _ _ Hc Hne) as [l' ->].
  destruct Hc as (_ & _ & Hc). apply NoDup_cons in Hnd as [Hh' Hnd].
  assert (Hfree : s_owner s !! h = Some OFree) by (apply Hl; by left).
  split; [done|]. split; cbn.
  - exists l'. split_and!; [done | done |]. intros p. destruct (decide (p = h)) as [->|Hph].
    + rewrite lookup_insert_eq. split; [done|]. intros; discriminate.
    + rewrite lookup_insert_ne, <- Hl, elem_of_cons by done. tauto.
  - rewrite lookup_insert_ne by done. done.
  - done.
  - intros p. rewrite Hp. destruct (decide (p = h)) as [->|];
      [rewrite lookup_insert_eq, Hfree | rewrite lookup_insert_ne by done]; by split; eauto.
  - eapply (inv_pc_step cpu s); [|done|by unfold pc_ok; cbn; rewrite upd_eq].
    split; cbn; try (by intros; apply upd_ne); [done| |by right].
    intros i p _ Hi. split; [|done]. rewrite lookup_insert_ne; [done|].
    intros ->. congruence.
Qed.

Lemma Inv_free_cas pages s s1 cpu p h c :
  Inv pages s -> Z.of_nat (s_ops s) < 2 ^ 64 -> s_pc s cpu = FLinked p h c ->
  cas128 s h c p = Some s1 -> Inv pages (set_owner (set_pc s1 cpu Idle) p OFree).
Proof.
  intros [(l & Hc & Hnd & Hl) He Hn Hp Hpc] Hb Epc Ecas.
  assert (Hok := Hpc cpu). unfold pc_ok in Hok. rewrite Epc in Hok.
  destruct Hok as (Hown & Hram & _ & Hld).
  destruct (cas128_loaded _ _ _ _ _ _ _ Hb Hn Hld Ecas) as (Hh & _ & ->).
  assert (Hpl : p ∉ l) by (rewrite Hl, Hown; intros; discriminate).
  assert (Hpe : p <> m_pEndList) by (intros ->; congruence).
  split; cbn.
  - exists (p :: l). split; [split_and!; [done | done | by rewrite Hram, <- Hh]|].
    split; [by constructor|]. intros q. destruct (decide (q = p)) as [->|Hq].
    + rewrite lookup_insert_eq. split; [done|]. by left.
    + rewrite lookup_insert_ne, <- Hl, elem_of_cons by done. tauto.
  - by rewrite lookup_insert_ne.
  - done.
  - intros q. rewrite Hp. destruct (decide (q = p)) as [->|];
      [rewrite lookup_insert_eq, Hown | rewrite lookup_insert_ne by done]; by split; eauto.
  - eapply (inv_pc_step cpu s); [|done|by unfold pc_ok; cbn; rewrite upd_eq].
    split; cbn; try (by intros; apply upd_ne); [done| |by right].
    intros i q Hi Hq. split; [|done]. rewrite lookup_insert_ne; [done|].
    intros ->. congruence.
Qed.

(** A word written into a page that is not free, by its user or by the CPU that
    frees it. *)
Lemma chain_write s l addr v :
  RamAllocator.chain (ram s) (s_head s) l -> addr ∉ l ->
  RamAllocator.chain (wset (ram s) addr v) (s_head s) l /\
  (s_head s <> m_pEndList -> wset (ram s) addr v (s_head s) = ram s (s_head s)).
Proof.
  intros Hc Hal. split; [by apply RamAllocator.chain_wset|]. intros Hne. unfold wset.
  destruct (Z.eqb_spec (s_head s) addr) as [<-|]; [|done].
  destruct (RamAllocator.chain_hd _ _ _ Hc Hne) as [l' ->]. destruct Hal. by left.
Qed.

Lemma Inv_link pages s cpu addr v p' :
  Inv pages s -> s_owner s !! addr = Some (OFreeing cpu) ->
  pc_ok (set_pc (set_ram s addr v) cpu p') cpu -> Inv pages (set_pc (set_ram s addr v) cpu p').
Proof.
  intros [(l & Hc & Hnd & Hl) He Hn Hp Hpc] Ho Hok.
  assert (Hal : addr ∉ l) by (rewrite Hl; congruence).
  destruct (chain_write s l addr v Hc Hal) as [Hc' Hh].
  split; cbn; try done; [by exists l|].
  eapply (inv_pc_step cpu s); [|done|done].
  split; cbn; try (by intros; apply upd_ne); [done | | by left].
  intros i q Hi Hq. split; [done|]. unfold wset. destruct (Z.eqb_spec q addr); congruence.
Qed.

Lemma Inv_use pages s addr v :
  Inv pages s -> s_owner s !! addr = Some OUsed -> Inv pages (set_ram s addr v).
Proof.
  intros [(l & Hc & Hnd & Hl) He Hn Hp Hpc] Ho.
  assert (Hal : addr ∉ l) by (rewrite Hl; congruence).
  destruct (chain_write s l addr v Hc Hal) as [Hc' Hh].
  split; cbn; try done; [by exists l|].
  intros i. apply (pc_ok_kept (S i) s); [|lia|done]. split; cbn; try done; [|by left].
  intros j q Hj Hq. split; [done|]. unfold wset. destruct (Z.eqb_spec q addr); congruence.
Qed.

Lemma Inv_call_free pages s cpu addr :
  Inv pages s -> s_owner s !! addr = Some OUsed ->
  Inv pages (set_owner (set_pc s cpu (FStart addr)) addr (OFreeing cpu)).
Proof.
  intros [(l & Hc & Hnd & Hl) He Hn Hp Hpc] Ho. split; cbn; try done.
  - exists l. split_and!; try done. intros p. rewrite Hl.
    destruct (decide (p = addr)) as [->|]; [|by rewrite lookup_insert_ne].
    rewrite lookup_insert_eq, Ho. split; discriminate.
  - rewrite lookup_insert_ne; [done|]. intros ->. congruence.
  - intros p. rewrite Hp. destruct (decide (p = addr)) as [->|];
      [rewrite lookup_insert_eq, Ho | rewrite lookup_insert_ne by done]; by split; eauto.
  - eapply (inv_pc_step cpu s); [|done|].
    + split; cbn; try (by intros; apply upd_ne); [done | | by left].
      intros i q Hi Hq. split; [|done]. rewrite lookup_insert_ne; congruence.
    + unfold pc_ok. cbn. rewrite upd_eq. by rewrite lookup_insert_eq.
Qed.

Lemma Inv_execAlloc pages s s' cpu :
  Inv pages s -> Z.of_nat (s_ops s) < 2 ^ 64 -> execAlloc cpu s = Some s' -> Inv pages s'.
Proof.
  intros Hinv Hb E. assert (Hok := inv_pc _ _ Hinv cpu). unfold pc_ok in Hok. unfold execAlloc in E.
  destruct (s_pc s cpu) eqn:Epc; simplify_eq.
  - apply Inv_load_head; [done|]. unfold pc_ok. cbn. rewrite upd_eq. apply fresh_load.
  - apply Inv_load; [done|]. unfold pc_ok. cbn. rewrite upd_eq. split; [done|].
    apply loaded_load; [apply Hinv | done | done].
  - destruct Hok as [Hf (k & Hk & Hc & _)].
    destruct (Z.eqb_spec h m_pEndList); simplify_eq; (apply Inv_load; [done|]);
      unfold pc_ok; cbn; rewrite upd_eq; [done|].
    split_and!; [done | done |]. by exists k.
  - destruct (cas128 s h c nx) eqn:Ecas; simplify_eq.
    + by eapply Inv_alloc_cas.
    + apply Inv_load; [done|]. unfold pc_ok. cbn. by rewrite upd_eq.
Qed.

Lemma Inv_execFree pages s s' cpu :
  Inv pages s -> Z.of_nat (s_ops s) < 2 ^ 64 -> execFree cpu s = Some s' -> Inv pages s'.
Proof.
  intros Hinv Hb E. assert (Hok := inv_pc _ _ Hinv cpu). unfold pc_ok in Hok. unfold execFree in E.
  destruct (s_pc s cpu) eqn:Epc; simplify_eq.
  - apply Inv_load_head; [done|]. unfold pc_ok. cbn. rewrite upd_eq.
    split; [done | apply fresh_load].
  - destruct Hok as [Ho Hf]. apply Inv_load; [done|]. unfold pc_ok. cbn. rewrite upd_eq.
    split_and!; [done | done |]. apply loaded_load; [apply Hinv | done | done].
  - destruct Hok as (Ho & Hf & Hl). apply Inv_link; [done | done |].
    unfold pc_ok. cbn. rewrite upd_eq. unfold wset at 1. by rewrite Z.eqb_refl.
  - destruct (cas128 s h c addr) eqn:Ecas; simplify_eq.
    + by eapply Inv_free_cas.
    + apply Inv_load; [done|]. unfold pc_ok. cbn. rewrite upd_eq. tauto.
Qed.

Lemma Inv_exec pages s s' cpu a :
  Inv pages s -> Z.of_nat (s_ops s) < 2 ^ 64 -> exec cpu a s = Some s' -> Inv pages s'.
Proof.
  intros Hinv Hb E. destruct a; cbn in E.
  - destruct (s_pc s cpu); simplify_eq. apply Inv_load; [done|].
    unfold pc_ok. cbn. by rewrite upd_eq.
  - destruct (s_pc s cpu), (s_owner s !! addr) as [[]|] eqn:Eo; simplify_eq.
    by apply Inv_call_free.
  - destruct (s_owner s !! addr) as [[]|] eqn:Eo; simplify_eq. by apply Inv_use.
  - destruct (execAlloc cpu s) eqn:Ea; simplify_eq; [by eapply Inv_execAlloc | by eapply Inv_execFree].
Qed.

(** *** Reachable states *)

Lemma exec_ops s s' cpu a : exec cpu a s = Some s' -> (s_ops s' <= S (s_ops s))%nat.
Proof.
  unfold exec, execAlloc, execFree, cas128. intros E.
  repeat case_match; simplify_eq; cbn; lia.
Qed.

Lemma Inv_initial s pages : initial s pages -> Inv pages s.
Proof.
  intros (Hc & Hnd & Hn & Ho & Hpc & Hf & Hp). split.
  - exists pages. done.
  - destruct (s_owner s !! m_pEndList) eqn:E; [|done]. rewrite (Hf _ _ E) in E.
    apply Hp in E. clear -Hc E. revert Hc. generalize (s_head s).
    induction pages as [|p l IH]; [by apply elem_of_nil in E|].
    intros h (-> & Hne & Hc). apply elem_of_cons in E as [?|E]; [done | by eapply IH].
  - by rewrite Hn, Ho.
  - intros p. rewrite Hp. split; [by eexists|]. intros [o E]. by rewrite (Hf _ _ E) in E.
  - intros cpu. unfold pc_ok. by rewrite Hpc.
Qed.

Lemma Inv_reachable n s0 s pages :
  initial s0 pages -> nsteps step n s0 s -> Z.of_nat n < 2 ^ 64 ->
  Inv pages s /\ (s_ops s <= n)%nat.
Proof.
  intros Hi Hs. revert s Hs. induction n as [|n IH]; intros s Hs Hn.
  - inversion Hs; subst. split; [by apply Inv_initial|].
    destruct Hi as (_ & _ & _ & -> & _). lia.
  - apply nsteps_inv_r in Hs as (s1 & Hs1 & cpu & a & E).
    destruct (IH s1 Hs1) as [Hinv Ho]; [lia|]. pose proof (exec_ops _ _ _ _ E).
    split; [|lia]. eapply Inv_exec; [done | lia | done].
Qed.

(** C7: in every run of fewer than 2^64 accesses by any number of CPUs, with
    arbitrary writes into pages in use, the free list is at all times a
    well-formed duplicate-free list of exactly the pages that are neither in use
    nor being freed, and no page of RAM is ever lost. *)
Theorem lockfree_list_exact n s0 s pages :
  initial s0 pages -> nsteps step n s0 s -> Z.of_nat n < 2 ^ 64 ->
  (exists l, RamAllocator.chain (ram s) (s_head s) l /\ NoDup l /\
     (forall p, p ∈ l <-> s_owner s !! p = Some OFree)) /\
  (forall p, p ∈ pages <-> is_Some (s_owner s !! p)).
Proof.
  intros Hi Hs Hn. destruct (Inv_reachable _ _ _ _ Hi Hs Hn) as [[Hc _ _ Hp _] _]. by split.
Qed.

(** C8: a page that [allocPagePtr] hands out (its exchange succeeds and the
    CPU leaves the loop) was free at that moment, so no page is given to two
    users; and an exchange that fails means that another operation completed
    since this CPU loaded the list head (lock-freedom). *)
Theorem lockfree_alloc_safe n s0 s s' pages cpu h c nx :
  initial s0 pages -> nsteps step n s0 s -> Z.of_nat n < 2 ^ 64 ->
  s_pc s cpu = ANext h c nx -> exec cpu Run s = Some s' ->
  (s_pc s' cpu = Idle /\ s_owner s !! h = Some OFree /\ s_owner s' !! h = Some OUsed /\
   s_ops s' = S (s_ops s)) \/
  (s_pc s' cpu = AStart /\ s_ops s' = s_ops s /\ (s_seen s cpu < s_ops s)%nat).
Proof.
  intros Hi Hs Hn Epc E. destruct (Inv_reachable _ _ _ _ Hi Hs Hn) as [Hinv Ho].
  cbn in E. unfold execAlloc in E. rewrite Epc in E.
  destruct (cas128 s h c nx) as [s1|] eqn:Ecas; simplify_eq.
  - left. destruct (Inv_alloc_cas pages s s1 cpu h c nx) as [Hfree _]; try done; [lia|].
    unfold cas128 in Ecas. case_match; simplify_eq. cbn. rewrite upd_eq, lookup_insert_eq. done.
  - right. cbn. rewrite upd_eq. split; [done|]. split; [done|].
    assert (Hok := inv_pc _ _ Hinv cpu). unfold pc_ok in Hok. rewrite Epc in Hok.
    destruct Hok as (_ & [Hf1 Hf2] & (k & Hk & -> & _)).
    destruct (decide (s_seen s cpu = s_ops s)) as [Heq|]; [|lia]. exfalso.
    unfold cas128 in Ecas. rewrite (inv_cnt _ _ Hinv) in Ecas.
    replace k with (s_ops s) in Ecas by lia. by rewrite (Hf2 Heq), !Z.eqb_refl in Ecas.
Qed.

End Concurrent.

(** *** A concrete run: two CPUs allocate from a list of two pages; the second
    loses the race, retries and gets the other page. *)
Definition demoState : state :=
  mkState (fun a => if a =? 0x2000 then 0x3000 else RamAllocator.demoEnd) 0x2000 0
    (fun _ => Idle) {[0x2000 := OFree; 0x3000 := OFree]} 0 (fun _ => 0%nat).

Lemma demoState_initial : @initial RamAllocator.demoEnd demoState [0x2000; 0x3000].
Proof.
  split_and!; try done.
  - apply (bool_decide_unpack _). by vm_compute.
  - cbn. intros p o. rewrite lookup_insert_Some, lookup_singleton_Some. naive_solver.
  - cbn. intros p. rewrite lookup_insert_Some, lookup_singleton_Some, !elem_of_cons, elem_of_nil.
    destruct (decide (p = 0x2000)); naive_solver.
Qed.

Fixpoint runs (script : list (nat * action)) (s : state) : option state :=
  match script with
  | [] => Some s
  | (cpu, a) :: rest =>
      match @exec RamAllocator.demoEnd cpu a s with Some s' => runs rest s' | None => None end
  end.

Lemma runs_nsteps script : forall s s', runs script s = Some s' ->
  nsteps (@step RamAllocator.demoEnd) (length script) s s'.
Proof.
  induction script as [|[cpu a] rest IH]; intros s s' E; cbn in E; [simplify_eq; constructor|].
  destruct (exec cpu a s) as [s1|] eqn:E1; [|done]. econstructor; [by exists cpu, a | by apply IH].
Qed.

Definition demoScript : list (nat * action) :=
  [(0%nat, CallAlloc); (1%nat, CallAlloc); (0%nat, Run); (1%nat, Run); (0%nat, Run); (1%nat, Run);
   (0%nat, Run); (1%nat, Run); (0%nat, Run)].

Lemma lockfree_list_exact_witness : exists s,
  runs demoScript demoState = Some s /\
  (forall p, p ∈ [0x2000; 0x3000] <-> is_Some (s_owner s !! p)).
Proof.
  destruct (runs demoScript demoState) as [s|] eqn:E; [|vm_compute in E; discriminate].
  exists s. split; [done|].
  eapply (@lockfree_list_exact RamAllocator.demoEnd (length demoScript));
    [apply demoState_initial | by apply runs_nsteps | vm_compute; done].
Defined.

Lemma lockfree_alloc_safe_witness : exists s s',
  runs demoScript demoState = Some s /\
  @exec RamAllocator.demoEnd 1%nat Run s = Some s' /\ s_pc s' 1%nat = AStart.
Proof.
  destruct (runs demoScript demoState) as [s|] eqn:E; [|vm_compute in E; discriminate].
  assert (Epc : s_pc s 1%nat = ANext 0x2000 0 0x3000) by (vm_compute in E; by simplify_eq).
  destruct (@exec RamAllocator.demoEnd 1%nat Run s) as [s'|] eqn:E2;
    [|vm_compute in E; simplify_eq; vm_compute in E2; discriminate].
  exists s, s'. split; [done|]. split; [done|].
  destruct (@lockfree_alloc_safe RamAllocator.demoEnd (length demoScript) demoState s s'
    [0x2000; 0x3000] 1%nat 0x2000 0 0x3000) as [(_ & Hf & _)|(H & _)];
    [apply demoState_initial | by apply runs_nsteps | vm_compute; done | done | done | | done].
  exfalso. vm_compute in E. by simplify_eq.
Defined.

End LockFree.
