(* ===== verification/Paging.v ===== *)
(** * 4-level page tables (kernel/paging.cpp)

    Page tables live in RAM (the word memory of [PhMem]); a table is the
    virtual address of a page of 512 entries.  [processPages] walks a range of
    virtual pages, creating missing directories, and applies a callback to the
    entry of every page; the public operations are instances of it. *)

From S2P Require Import Prelude PhMem.

Definition CPU_PHYSICAL_ADDRESS_MASK : Z := 0xFFFFFFFFFFFF.
Definition CPU_VIRTUAL_ADDRESS_MASK : Z := 0xFFFFFFFFFFFF.
Definition PAGE_FLAG_PRESENT : Z := 0x001.
Definition PAGE_FLAG_WRITE : Z := 0x002.
Definition PAGE_FLAG_USER : Z := 0x004.
Definition PAGE_FLAG_WT : Z := 0x008.
Definition PAGE_FLAG_CACHE_DISABLE : Z := 0x010.
Definition PAGE_FLAG_SIZE : Z := 0x080.
Definition PAGE_FLAG_GLOBAL : Z := 0x100.
Definition PAGE_FLAG_ALLOCATED : Z := 0x200.
Definition PAGE_FLAG_MEMZERO : Z := 0x400.
Definition PAGE_FLAG_WC : Z := Z.lor PAGE_FLAG_WT PAGE_FLAG_CACHE_DISABLE.
Definition Levels : nat := 4.

(** [entry & (CPU_PHYSICAL_ADDRESS_MASK & ~PAGE_MASK)] *)
Definition entryAddr (entry : Z) : Z :=
  Z.land entry (Z.land CPU_PHYSICAL_ADDRESS_MASK (Z.lnot PAGE_MASK)).

(** What a walk works on: RAM, the page allocator, the [needShootdown]
    out-parameter and the variables the callback captures by reference. *)
Record PState (U : Type) : Type := mkP {
  ram : wmem;
  ra : RamAllocator.t;
  needShootdown : bool;
  env : U
}.
Arguments mkP {U}.
Arguments ram {U}.
Arguments ra {U}.
Arguments needShootdown {U}.
Arguments env {U}.

Definition setRam {U} (st : PState U) (m : wmem) : PState U :=
  mkP m (ra st) (needShootdown st) (env st).
Definition setShootdown {U} (st : PState U) (b : bool) : PState U :=
  mkP (ram st) (ra st) b (env st).

Section Walk.
Context {endList : EndList} {U : Type}.

(** The address of [dir[index]]. *)
Definition entryPtr (dir index : Z) : Z := dir + 8 * index.

Definition accessToChildDir (dir index dirFlags : Z) (st : PState U) : outcome (Z * PState U) :=
  let entry := entryPtr dir index in
  st ← (if ram st entry =? 0 then
          if dirFlags =? 0 then Panic
          else
            '(page, m, a) ← RamAllocator.allocPage true (ram st) (ra st);
            Ok (mkP (wset m entry (Z.lor page dirFlags)) a (needShootdown st) (env st))
        else Ok st);
  Ok (physToVirtualInt (entryAddr (ram st entry)), st).

(** A callback gets the reference [uint64_t& value] as the address of the entry. *)
Context (callback : Z -> PState U -> outcome (PState U)).

(** The body of the loop on the last level. *)
Definition visitEntry (entry : Z) (st : PState U) : outcome (PState U) :=
  let st := if negb (Z.land (ram st entry) PAGE_FLAG_PRESENT =? 0) then setShootdown st true else st in
  callback entry st.

(** [while (pageStart <= pageEnd) { value = dir[pageStart++]; ... }], [n] rounds *)
Fixpoint leafLoop (n : nat) (dir pageStart : Z) (st : PState U) : outcome (PState U) :=
  match n with
  | O => Ok st
  | S n =>
      st ← visitEntry (entryPtr dir pageStart) st;
      leafLoop n dir (pageStart + 1) st
  end.

(** [for (index = ...; index < lastPage; index++)], [n] rounds *)
Fixpoint childLoop (rec : Z -> PState U -> outcome (PState U)) (n : nat) (dir index dirFlags : Z)
    (st : PState U) : outcome (PState U) :=
  match n with
  | O => Ok st
  | S n =>
      '(child, st) ← accessToChildDir dir index dirFlags st;
      st ← rec child st;
      childLoop rec n dir (index + 1) dirFlags st
  end.

(** [k] is [Levels - level]: 0 on the level of page entries, 3 on the root. *)
Fixpoint processPagesLevel (k : nat) (dir pageStart pageEnd dirFlags : Z) (st : PState U)
    : outcome (PState U) :=
  match k with
  | O => leafLoop (Z.to_nat (pageEnd - pageStart + 1)) dir pageStart st
  | S k' =>
      let shift := Z.of_nat k * 9 in
      let size := Z.shiftl 1 shift in
      let mask := size - 1 in
      let firstLimit := Z.land (pageStart + size) (Z.lnot mask) in
      '(child, st) ← accessToChildDir dir (Z.shiftr pageStart shift) dirFlags st;
      if pageEnd <? firstLimit then
        processPagesLevel k' child (Z.land pageStart mask) (Z.land pageEnd mask) dirFlags st
      else
        st ← processPagesLevel k' child (Z.land pageStart mask) mask dirFlags st;
        let lastPage := Z.shiftr (pageEnd + 1) shift in
        let first := Z.shiftr firstLimit shift in
        st ← childLoop (fun child => processPagesLevel k' child 0 mask dirFlags)
               (Z.to_nat (lastPage - first)) dir first dirFlags st;
        if negb (Z.land (pageEnd + 1) mask =? 0) then
          '(child, st) ← accessToChildDir dir lastPage dirFlags st;
          processPagesLevel k' child 0 (Z.land pageEnd mask) dirFlags st
        else Ok st
  end.

(** The [for (shift = ...; shift > PAGE_SHIFT; shift -= 9)] loop of
    [processPage], from the level [k] down, and the access to the entry. *)
Fixpoint processPageLevel (k : nat) (dir virtualBase dirFlags : Z) (st : PState U)
    : outcome (PState U) :=
  match k with
  | O => visitEntry (entryPtr dir (Z.land (Z.shiftr virtualBase PAGE_SHIFT) 0x1FF)) st
  | S k' =>
      '(child, st) ← accessToChildDir dir
          (Z.land (Z.shiftr virtualBase (PAGE_SHIFT + Z.of_nat k * 9)) 0x1FF) dirFlags st;
      processPageLevel k' child virtualBase dirFlags st
  end.

End Walk.

(** ** [PagingManager64] *)

(** A manager: the root table and whether it is the kernel's.  [userProc]
    stands for a manager whose requests above [KERNEL_VIRTUAL_BASE] go to the
    system manager. *)
Record PagingManager64 : Type := mkPaging {
  m_dir256tb : Z;
  m_cr3 : Z;
  m_system : bool
}.

(** The constructor, on the value of CR3. *)
Definition createManager (isSystem : bool) (cr3 : Z) : outcome PagingManager64 :=
  if isSystem then Ok (mkPaging (physToVirtualInt (entryAddr cr3)) cr3 true) else Panic.

(** A TLB flush request: [flushPagesTlb(virtualBase, size, needShootdown)]. *)
Record TlbRequest : Type := mkTlb { tlb_base : Z; tlb_size : Z; tlb_shootdown : bool }.

Section Manager.
Context {endList : EndList}.
(** [PagingManager64::system()] *)
Context (system : PagingManager64).

(** [if (!m_system && (addr >= KERNEL_VIRTUAL_BASE)) return system().f(...)] *)
Definition managerOf (mgr : PagingManager64) (virtualBase : Z) : PagingManager64 :=
  if negb (m_system mgr) && (KERNEL_VIRTUAL_BASE <=? virtualBase) then system else mgr.

(** The result of a request: the walk state and the TLB flush it ends with
    (none when the range is empty). *)
Definition processPagesRun {U} (mgr : PagingManager64) (virtualBase size dirFlags : Z)
    (callback : Z -> PState U -> outcome (PState U)) (st : PState U)
    : outcome (option TlbRequest * PState U) :=
  if size =? 0 then Ok (None, st)
  else
    let mgr := managerOf mgr virtualBase in
    let normalizeVirtualBase := Z.land virtualBase CPU_VIRTUAL_ADDRESS_MASK in
    st ← processPagesLevel callback 3 (m_dir256tb mgr)
           (Z.shiftr normalizeVirtualBase PAGE_SHIFT)
           (u64 (Z.shiftr (u64 (size + normalizeVirtualBase + PAGE_MASK)) PAGE_SHIFT - 1))
           dirFlags (setShootdown st false);
    Ok (Some (mkTlb virtualBase size (needShootdown st)), st).

Definition processPageRun {U} (mgr : PagingManager64) (virtualBase dirFlags : Z)
    (callback : Z -> PState U -> outcome (PState U)) (st : PState U)
    : outcome (option TlbRequest * PState U) :=
  let mgr := managerOf mgr virtualBase in
  st ← processPageLevel callback 3 (m_dir256tb mgr) virtualBase dirFlags (setShootdown st false);
  Ok (Some (mkTlb virtualBase PAGE_SIZE (needShootdown st)), st).

Definition dirFlagsOf (pageFlags : Z) : Z :=
  Z.lor (Z.lor (Z.land pageFlags PAGE_FLAG_USER) PAGE_FLAG_PRESENT) PAGE_FLAG_WRITE.

(** [mapPages]: the lambda captures [physBase] by reference. *)
Definition mapCallback (pageFlags : Z) (entry : Z) (st : PState Z) : outcome (PState Z) :=
  let physBase := env st in
  Ok (mkP (wset (ram st) entry (Z.lor physBase pageFlags)) (ra st) (needShootdown st)
        (u64 (physBase + PAGE_SIZE))).

Definition mapPages (mgr : PagingManager64) (virtualBase physBase size pageFlags : Z)
    (m : wmem) (a : RamAllocator.t) : outcome (option TlbRequest * PState Z) :=
  processPagesRun mgr virtualBase size (dirFlagsOf pageFlags) (mapCallback pageFlags)
    (mkP m a false physBase).

Definition flagsCallback (mask pageFlags : Z) (entry : Z) (st : PState unit) : outcome (PState unit) :=
  let v := Z.land (ram st entry) (u64 (Z.lnot mask)) in
  Ok (setRam st (wset (ram st) entry (Z.lor v pageFlags))).

Definition setPagesFlags (mgr : PagingManager64) (virtualBase size mask pageFlags : Z)
    (m : wmem) (a : RamAllocator.t) : outcome (option TlbRequest * PState unit) :=
  processPagesRun mgr virtualBase size (dirFlagsOf pageFlags) (flagsCallback mask pageFlags)
    (mkP m a false tt).

(** The callback of [freeRamPages] and [freeRamPage]. *)
Definition freeCallback (virtualAllocated : bool) (entry : Z) (st : PState unit)
    : outcome (PState unit) :=
  if negb (Z.land (ram st entry) PAGE_FLAG_PRESENT =? 0) then
    let addr := entryAddr (ram st entry) in
    if negb (addr =? 0) then
      let '(m, a) := RamAllocator.freePage addr (ram st) (ra st) in
      let v := Z.land (m entry) (Z.lxor PAGE_MASK PAGE_FLAG_PRESENT) in
      let v := if virtualAllocated then Z.lor v PAGE_FLAG_ALLOCATED else v in
      Ok (mkP (wset m entry v) a (needShootdown st) (env st))
    else Ok st
  else Ok st.

Definition freeRamPages (mgr : PagingManager64) (virtualBase size : Z) (virtualAllocated : bool)
    (m : wmem) (a : RamAllocator.t) : outcome (option TlbRequest * PState unit) :=
  processPagesRun mgr virtualBase size 0 (freeCallback virtualAllocated) (mkP m a false tt).

Definition freeRamPage (mgr : PagingManager64) (virtualBase : Z) (virtualAllocated : bool)
    (m : wmem) (a : RamAllocator.t) : outcome (option TlbRequest * PState unit) :=
  processPageRun mgr virtualBase 0 (freeCallback virtualAllocated) (mkP m a false tt).

Definition mapPage (mgr : PagingManager64) (virtualBase physBase pageFlags : Z)
    (m : wmem) (a : RamAllocator.t) : outcome (option TlbRequest * PState unit) :=
  let entryValue := Z.lor physBase pageFlags in
  processPageRun mgr virtualBase (dirFlagsOf pageFlags)
    (fun entry st => Ok (setRam st (wset (ram st) entry entryValue))) (mkP m a false tt).

(** [unmapBootPages]: the lower half of the root table is cleared. *)
Definition unmapBootPages (cr3 : Z) (m : wmem) : wmem :=
  let dir512g := physToVirtualInt (entryAddr cr3) in
  fun x => if (dir512g <=? x) && (x <? dir512g + PAGE_SIZE / 2) then 0 else m x.

(** *** Page faults *)

(** The directory walk of [onPageFault]: [None] where it returns false. *)
Fixpoint faultWalk (k : nat) (dir addr : Z) (m : wmem) : outcome (option Z) :=
  match k with
  | O => Ok (Some dir)
  | S k' =>
      let dirValue := m (entryPtr dir (Z.land (Z.shiftr addr (PAGE_SHIFT + Z.of_nat k * 9)) 0x1FF)) in
      let phys := entryAddr dirValue in
      if phys =? 0 then Ok None
      else if negb (Z.land dirValue PAGE_FLAG_SIZE =? 0) then Panic
      else faultWalk k' (physToVirtualInt phys) addr m
  end.

Definition onPageFault (mgr : PagingManager64) (addr errorCode : Z) (m : wmem) (a : RamAllocator.t)
    : outcome (bool * wmem * RamAllocator.t) :=
  if negb (Z.land errorCode 1 =? 0) then Ok (false, m, a)
  else
    r ← faultWalk 3 (m_dir256tb mgr) addr m;
    match r with
    | None => Ok (false, m, a)
    | Some dir =>
        let entry := entryPtr dir (Z.land (Z.shiftr addr PAGE_SHIFT) 0x1FF) in
        let pageValue := m entry in
        if negb (Z.land pageValue PAGE_FLAG_PRESENT =? 0) then Ok (true, m, a)
        else if Z.land pageValue PAGE_FLAG_ALLOCATED =? 0 then Ok (false, m, a)
        else
          '(physPage, m, a) ← RamAllocator.allocPage
             (negb (Z.land pageValue PAGE_FLAG_MEMZERO =? 0)) m a;
          let v := Z.land (m entry) (Z.lxor PAGE_MASK PAGE_FLAG_ALLOCATED) in
          let v := Z.lor v (Z.lor physPage PAGE_FLAG_PRESENT) in
          Ok (true, wset m entry v, a)
    end.

End Manager.

(** ** Address arithmetic *)

(** Pages under one entry of a table on level [k]. *)
Definition span (k : nat) : Z := 2 ^ (Z.of_nat k * 9).

Lemma span_pos k : 0 < span k.
Proof. apply Z.pow_pos_nonneg; lia. Qed.
Lemma span_S k : span (S k) = 512 * span k.
Proof.
  unfold span. replace (Z.of_nat (S k) * 9) with (9 + Z.of_nat k * 9) by lia.
  by rewrite Z.pow_add_r by lia.
Qed.

Lemma shiftl_span k : Z.shiftl 1 (Z.of_nat k * 9) = span k.
Proof. rewrite Z.shiftl_1_l. done. Qed.
Lemma shiftr_span k x : Z.shiftr x (Z.of_nat k * 9) = x / span k.
Proof. apply Z.shiftr_div_pow2. lia. Qed.
Lemma land_span k x : Z.land x (span k - 1) = x mod span k.
Proof. unfold span. rewrite <- Z.land_ones by lia. f_equal. rewrite Z.ones_equiv. lia. Qed.
Lemma land_lnot_span k x : Z.land x (Z.lnot (span k - 1)) = x / span k * span k.
Proof.
  rewrite <- Z.ldiff_land. unfold span.
  replace (2 ^ (Z.of_nat k * 9) - 1) with (Z.ones (Z.of_nat k * 9)) by (rewrite Z.ones_equiv; lia).
  rewrite Z.ldiff_ones_r, Z.shiftl_mul_pow2, Z.shiftr_div_pow2 by lia. done.
Qed.

Lemma chunk_index k i a : 0 <= a < span k -> (i * span k + a) / span k = i.
Proof. intros. rewrite Z.div_add_l, Z.div_small; pose proof (span_pos k); lia. Qed.
Lemma chunk_offset k i a : 0 <= a < span k -> (i * span k + a) mod span k = a.
Proof.
  intros. rewrite Z.add_comm, Z.mod_add, Z.mod_small; pose proof (span_pos k); lia.
Qed.

Lemma entryAddr_flags page flags :
  0 <= page < 2 ^ 48 -> page mod 4096 = 0 -> 0 <= flags < 4096 ->
  entryAddr (Z.lor page flags) = page.
Proof.
  intros Hp Ha Hf. unfold entryAddr.
  change (Z.land CPU_PHYSICAL_ADDRESS_MASK (Z.lnot PAGE_MASK)) with (Z.shiftl (Z.ones 36) 12).
  apply Z.bits_inj'. intros n Hn. rewrite Z.land_spec, Z.lor_spec, Z.shiftl_spec by done.
  destruct (Z.ltb_spec n 12) as [H12|H12].
  - rewrite (Z.testbit_neg_r _ (n - 12)) by lia. rewrite andb_false_r.
    rewrite <- (Z.mod_pow2_bits_low page 12 n) by lia. change (2 ^ 12) with 4096.
    by rewrite Ha, Z.bits_0.
  - rewrite <- (Z.mod_small flags (2 ^ 12)) by lia. rewrite Z.mod_pow2_bits_high by lia.
    rewrite orb_false_r. destruct (Z.ltb_spec n 48).
    + rewrite Z.ones_spec_low by lia. by rewrite andb_true_r.
    + rewrite Z.ones_spec_high by lia. rewrite <- (Z.mod_small page (2 ^ 48)) by lia.
      by rewrite Z.mod_pow2_bits_high by lia.
Qed.

(** ** Well-formed page tables

    [tp] gives every table page its place in the tree: the list of entry
    indices that leads to it from the root.  Since a page has one place, no two
    tables share a child.  A directory entry may map a large page instead of
    leading to a table: the loader maps the RAM window with pages of 1 GB or
    2 MB, the first of them at physical address 0.  [largePages] are the places of
    these entries. *)

Class LargePages := largePages : gset (list Z).

Definition isLarge (entry : Z) : bool := negb (Z.land entry PAGE_FLAG_SIZE =? 0).

(** The flags a new directory may have: they do not make it a large page. *)
Definition dirFlagsOk (fl : Z) : Prop := 0 <= fl < 4096 /\ isLarge fl = false.

(** A page of the RAM window other than its first. *)
Definition ram_page (p : Z) : Prop :=
  RAM_VIRTUAL_BASE < p < KERNEL_VIRTUAL_BASE /\ p mod PAGE_SIZE = 0.

Definition childPtr (entry : Z) : Z := physToVirtualInt (entryAddr entry).

Lemma childPtr_alloc p flags :
  ram_page p -> 0 <= flags < 4096 -> childPtr (Z.lor (virtualToPhysInt p) flags) = p.
Proof.
  unfold ram_page, RAM_VIRTUAL_BASE, KERNEL_VIRTUAL_BASE, PAGE_SIZE. intros [Hr Ha] Hf.
  unfold childPtr, virtualToPhysInt, physToVirtualInt, RAM_VIRTUAL_BASE.
  rewrite (u64_small (p - _)) by lia. rewrite entryAddr_flags; [|lia| |done].
  - rewrite u64_small; lia.
  - rewrite Zminus_mod, Ha. done.
Qed.

Lemma isLarge_alloc p flags : ram_page p -> isLarge flags = false -> isLarge (Z.lor (virtualToPhysInt p) flags) = false.
Proof.
  unfold ram_page, RAM_VIRTUAL_BASE, KERNEL_VIRTUAL_BASE, PAGE_SIZE. intros [Hr Ha]. unfold isLarge. rewrite !negb_false_iff, !Z.eqb_eq.
  intros Hf. rewrite Z.land_lor_distr_l, Hf, Z.lor_0_r. unfold virtualToPhysInt, RAM_VIRTUAL_BASE. rewrite u64_small by lia.
  apply Z.bits_inj'. intros n Hn. rewrite Z.land_spec, Z.bits_0. change PAGE_FLAG_SIZE with (2 ^ 7). rewrite Z.pow2_bits_eqb by lia.
  destruct (Z.eqb_spec 7 n) as [<-|]; [|by rewrite andb_false_r]. rewrite andb_true_r.
  rewrite <- (Z.mod_pow2_bits_low _ 12) by lia. change (2 ^ 12) with 4096. rewrite Zminus_mod, Ha. done.
Qed.

(** [n] pages at least are free. *)
Record PInv {endList : EndList} {lp : LargePages} {U} (tp : gmap Z (list Z)) (n : nat) (st : PState U) : Prop := mkPInv {
  pi_page : forall d path, tp !! d = Some path -> ram_page d /\ (length path <= 3)%nat;
  pi_child : forall d path i, tp !! d = Some path -> (length path < 3)%nat -> 0 <= i < 512 ->
    ram st (entryPtr d i) <> 0 -> isLarge (ram st (entryPtr d i)) = false ->
    tp !! childPtr (ram st (entryPtr d i)) = Some (path ++ [i]);
  pi_large : forall d path i, tp !! d = Some path -> (length path < 3)%nat -> 0 <= i < 512 ->
    path ++ [i] ∉ largePages -> isLarge (ram st (entryPtr d i)) = false;
  pi_free : exists l, RamAllocator.FreePages (ram st) (ra st) l /\
    (n <= length l)%nat /\ (forall p, p ∈ l -> ram_page p /\ tp !! p = None)
}.

(** No directory entry on the way to a page, from a table at [path], is a large page. *)
Fixpoint smallPage {lp : LargePages} (k : nat) (path : list Z) (page : Z) : Prop :=
  match k with
  | O => True
  | S k' => path ++ [page / span k] ∉ largePages /\ smallPage k' (path ++ [page / span k]) (page mod span k)
  end.

(** Directory entries that are set stay as they are. *)
Definition keeps {U} (tp : gmap Z (list Z)) (st st' : PState U) : Prop :=
  forall d path i, tp !! d = Some path -> (length path < 3)%nat -> 0 <= i < 512 ->
    ram st (entryPtr d i) <> 0 -> ram st' (entryPtr d i) = ram st (entryPtr d i).

(** The entry of a page: a word of a table on the last level. *)
Definition leafEntry (tp : gmap Z (list Z)) (entry : Z) : Prop :=
  exists d path i, tp !! d = Some path /\ length path = 3%nat /\ 0 <= i < 512 /\
    entry = entryPtr d i.

(** What [processPages] needs of a callback: called on the entry of a page it
    leaves the directories alone and the tables well-formed. *)
Class CallbackOk {endList : EndList} {lp : LargePages} {U} (callback : Z -> PState U -> outcome (PState U)) : Prop :=
  callback_ok : forall tp n entry st, PInv tp n st -> leafEntry tp entry ->
    exists st', callback entry st = Ok st' /\ PInv tp n st' /\
    (forall d path i, tp !! d = Some path -> (length path < 3)%nat -> 0 <= i < 512 ->
       ram st' (entryPtr d i) = ram st (entryPtr d i)).

(** The value a walk finds for a page: the word of its entry, the directory entry of
    the large page it is part of, 0 where a directory is missing. *)
Fixpoint pageValue (k : nat) (dir page : Z) (m : wmem) : Z :=
  match k with
  | O => m (entryPtr dir page)
  | S k' =>
      let entry := m (entryPtr dir (page / span k)) in
      if entry =? 0 then 0 else if isLarge entry then entry
      else pageValue k' (childPtr entry) (page mod span k) m
  end.

Definition sameValues {U} (tp : gmap Z (list Z)) (st st' : PState U) : Prop :=
  forall d path k q, tp !! d = Some path -> (length path + k = 3)%nat -> 0 <= q < 512 * span k ->
    pageValue k d q (ram st') = pageValue k d q (ram st).

(** Entries of different tables or different indices are different words. *)
Lemma entryPtr_inj d d' i i' :
  d mod PAGE_SIZE = 0 -> d' mod PAGE_SIZE = 0 -> 0 <= i < 512 -> 0 <= i' < 512 ->
  entryPtr d i = entryPtr d' i' -> d = d' /\ i = i'.
Proof.
  unfold entryPtr, PAGE_SIZE. intros H1 H2 Hi Hi' E. Z.div_mod_to_equations. lia.
Qed.

Lemma entryPtr_page d i p :
  d mod PAGE_SIZE = 0 -> p mod PAGE_SIZE = 0 -> 0 <= i < 512 ->
  p <= entryPtr d i < p + PAGE_SIZE -> d = p.
Proof. unfold entryPtr, PAGE_SIZE. intros. Z.div_mod_to_equations. lia. Qed.

Section Access.
Context {endList : EndList} {lp : LargePages} {U : Type}.
Implicit Types (st : PState U) (tp : gmap Z (list Z)).

Lemma keeps_refl tp st : keeps tp st st.
Proof. intros ???????. done. Qed.

Lemma keeps_trans tp tp' st st' st'' :
  tp ⊆ tp' -> keeps tp st st' -> keeps tp' st' st'' -> keeps tp st st''.
Proof.
  intros Hsub H1 H2 d path i Hd Hl Hi Hne.
  rewrite <- (H1 d path i) by done. apply (H2 d path i); try done.
  - by eapply lookup_weaken.
  - by rewrite (H1 d path i).
Qed.

(** An access to a set entry changes nothing. *)
Lemma access_set st dir i fl :
  ram st (entryPtr dir i) <> 0 ->
  accessToChildDir dir i fl st = Ok (childPtr (ram st (entryPtr dir i)), st).
Proof.
  intros H. unfold accessToChildDir. by destruct (Z.eqb_spec (ram st (entryPtr dir i)) 0).
Qed.

(** A write to a word of a table leaves the free list alone. *)
Lemma FreePages_table_write tp (m : wmem) a l d path i v :
  RamAllocator.FreePages m a l -> (forall p, p ∈ l -> ram_page p /\ tp !! p = None) ->
  tp !! d = Some path -> ram_page d -> 0 <= i < 512 ->
  RamAllocator.FreePages (wset m (entryPtr d i) v) a l.
Proof.
  intros (Hc & Hnd & Hal) Hl Hd [_ Had] Hi. split; [|done].
  apply RamAllocator.chain_wset; [|done]. intros Hin. destruct (Hl _ Hin) as [[_ Ha] Hn].
  assert (d = entryPtr d i) as E by (eapply entryPtr_page; eauto; unfold PAGE_SIZE; lia).
  rewrite <- E in Hn. congruence.
Qed.

Lemma PInv_weaken tp n n' st : PInv tp n st -> (n' <= n)%nat -> PInv tp n' st.
Proof.
  intros [H1 H2 HL (l & H3 & H4 & H5)] Hn. split; [done..|]. exists l. split_and!; [done | lia | done].
Qed.

Lemma page_index k p : 0 <= p < 512 * span (S k) -> 0 <= p / span (S k) < 512.
Proof.
  intros Hp. pose proof (span_pos (S k)). split; [apply Z.div_pos; lia|].
  apply Z.div_lt_upper_bound; lia.
Qed.

Lemma page_rest k p : 0 <= p mod span (S k) < 512 * span k.
Proof. rewrite span_S. apply Z.mod_pos_bound. pose proof (span_pos k). lia. Qed.

(** A page of zeros below a directory entry maps nothing. *)
Lemma pageValue_zero k d q (m : wmem) :
  (forall j, 0 <= j < 512 -> m (entryPtr d j) = 0) -> 0 <= q < 512 * span k -> pageValue k d q m = 0.
Proof.
  intros Hz Hq. destruct k as [|k]; cbn [pageValue].
  - apply Hz. unfold span in Hq. cbn in Hq. lia.
  - rewrite Hz by (by apply page_index). done.
Qed.

(** Hanging a page of zeros below an empty directory entry changes no value. *)
Lemma pageValue_newtable tp n st (m' : wmem) dir i p :
  PInv tp n st ->
  ram st (entryPtr dir i) = 0 -> childPtr (m' (entryPtr dir i)) = p -> isLarge (m' (entryPtr dir i)) = false ->
  (forall d ph j, tp !! d = Some ph -> 0 <= j < 512 -> (d, j) <> (dir, i) ->
     m' (entryPtr d j) = ram st (entryPtr d j)) ->
  (forall j, 0 <= j < 512 -> m' (entryPtr p j) = 0) ->
  forall path0, tp !! dir = Some path0 -> (length path0 < 3)%nat ->
  forall k d path q, tp !! d = Some path -> (length path + k = 3)%nat -> 0 <= q < 512 * span k ->
  pageValue k d q m' = pageValue k d q (ram st).
Proof.
  intros Hinv Hz Hc Hsm Ho Hz' path0 Hdir Hl0.
  induction k as [|k IH]; intros d path q Hd Hl Hq; cbn [pageValue].
  - unfold span in Hq. cbn in Hq. eapply Ho; eauto. intros [= -> ->].
    assert (path = path0) by congruence. subst. lia.
  - pose proof (page_index k q Hq) as Hj. pose proof (page_rest k q) as Hr.
    destruct (decide ((d, q / span (S k)) = (dir, i))) as [[= -> <-]|Hne].
    + rewrite Hz, Hsm. cbn. destruct (_ =? 0); [done|]. rewrite Hc. by apply pageValue_zero.
    + rewrite (Ho d path) by done. destruct (Z.eqb_spec (ram st (entryPtr d (q / span (S k)))) 0); [done|].
      destruct (isLarge (ram st (entryPtr d (q / span (S k))))) eqn:El; [done|].
      apply (IH _ (path ++ [q / span (S k)])); [|rewrite length_app; cbn; lia|done].
      eapply pi_child; eauto. lia.
Qed.

Lemma PInv_newtable tp n st dir path i p m a l fl :
  PInv tp n st -> tp !! dir = Some path -> (length path < 3)%nat -> 0 <= i < 512 -> fl <> 0 -> dirFlagsOk fl ->
  ram st (entryPtr dir i) = 0 -> ram_page p -> tp !! p = None ->
  (forall x, p <= x < p + PAGE_SIZE -> m x = 0) ->
  (forall x, ~ (p <= x < p + PAGE_SIZE) -> m x = ram st x) ->
  RamAllocator.FreePages m a l -> (forall q, q ∈ l -> q <> p /\ ram_page q /\ tp !! q = None) ->
  let st' := mkP (wset m (entryPtr dir i) (Z.lor (virtualToPhysInt p) fl)) a
               (needShootdown st) (env st) in
  PInv (<[p := path ++ [i]]> tp) (length l) st' /\ keeps tp st st' /\ sameValues tp st st' /\
  ram st' (entryPtr dir i) <> 0 /\ isLarge (ram st' (entryPtr dir i)) = false /\ childPtr (ram st' (entryPtr dir i)) = p.
Proof.
  intros Hinv Hdir Hlen Hi Hf0 [Hfl Hfs] Hz Hrp Hnp Hm0 Hm1 Hfp Hl st'. pose proof Hinv as [Hpg Hch Hlg _].
  destruct (Hpg _ _ Hdir) as [Hrd _].
  assert (Hv : ram st' (entryPtr dir i) = Z.lor (virtualToPhysInt p) fl)
    by (unfold st', wset; cbn; by rewrite Z.eqb_refl).
  assert (Hcp : childPtr (Z.lor (virtualToPhysInt p) fl) = p) by (apply childPtr_alloc; [done|lia]).
  assert (Hsm : isLarge (Z.lor (virtualToPhysInt p) fl) = false) by (by apply isLarge_alloc).
  assert (Hother : forall d ph j, tp !! d = Some ph -> 0 <= j < 512 -> (d, j) <> (dir, i) ->
    ram st' (entryPtr d j) = ram st (entryPtr d j)).
  { intros d ph j Hd Hj Hne. unfold st', wset. cbn. destruct (Hpg _ _ Hd) as [Hrd' _].
    destruct (Z.eqb_spec (entryPtr d j) (entryPtr dir i)) as [E|_].
    - apply entryPtr_inj in E as [-> ->]; [done | apply Hrd' | apply Hrd | done | done].
    - apply Hm1. intros Hin. apply entryPtr_page in Hin; [|apply Hrd'|apply Hrp|done]. congruence. }
  assert (Hne0 : Z.lor (virtualToPhysInt p) fl <> 0).
  { intros E. apply Z.lor_eq_0_iff in E as [_ E]. lia. }
  assert (Hp0 : forall j, 0 <= j < 512 -> ram st' (entryPtr p j) = 0).
  { intros j Hj. unfold st', wset. cbn.
    destruct (Z.eqb_spec (entryPtr p j) (entryPtr dir i)) as [E|_].
    - apply entryPtr_inj in E as [-> ->]; [congruence | apply Hrp | apply Hrd | done | done].
    - apply Hm0. unfold entryPtr, PAGE_SIZE. lia. }
  split; [split|split; [|split; [|by rewrite Hv]]]; cbn [ram ra].
  - intros d ph. rewrite lookup_insert_Some. intros [[<- <-]|[_ Hd]]; [|eauto].
    split; [done|]. rewrite length_app. cbn. lia.
  - intros d ph j Hd Hl3 Hj. change (wset m _ _ (entryPtr d j)) with (ram st' (entryPtr d j)). intros Hnz Hls.
    destruct (decide (d = p)) as [->|Hdp].
    + exfalso. by apply Hnz, Hp0.
    + rewrite lookup_insert_ne in Hd by done.
      destruct (decide ((d, j) = (dir, i))) as [[= -> ->]|Hne].
      * rewrite Hv, Hcp, lookup_insert_eq. congruence.
      * rewrite (Hother d ph j) in Hnz, Hls |- * by done.
        pose proof (Hch d ph j Hd Hl3 Hj Hnz Hls) as Hc. rewrite lookup_insert_ne; [done|congruence].
  - intros d ph j Hd Hl3 Hj. change (wset m _ _ (entryPtr d j)) with (ram st' (entryPtr d j)). intros Hnl.
    destruct (decide (d = p)) as [->|Hdp]; [by rewrite Hp0|].
    rewrite lookup_insert_ne in Hd by done. destruct (decide ((d, j) = (dir, i))) as [[= -> ->]|Hne].
    + by rewrite Hv.
    + rewrite (Hother d ph j) by done. by eapply Hlg.
  - exists l. split; [|split; [done|]; intros q Hq; destruct (Hl q Hq) as (? & ? & ?); by rewrite lookup_insert_ne].
    eapply (FreePages_table_write tp); eauto. intros q Hq. by destruct (Hl q Hq) as (? & ? & ?).
  - intros d ph j Hd Hl3 Hj Hnz. eapply Hother; eauto. intros [= -> ->]. done.
  - intros d ph k q Hd Hk Hq. eapply (pageValue_newtable tp n st (ram st') dir i p); eauto.
    all: by rewrite Hv.
Qed.

Lemma access_spec tp n st dir path i fl :
  PInv tp n st -> tp !! dir = Some path -> (length path < 3)%nat -> 0 <= i < 512 -> dirFlagsOk fl ->
  path ++ [i] ∉ largePages ->
  (accessToChildDir dir i fl st = Panic /\ (fl = 0 \/ n = 0%nat)) \/
  exists child st' tp', accessToChildDir dir i fl st = Ok (child, st') /\ tp ⊆ tp' /\
    PInv tp' (n - 1) st' /\ keeps tp st st' /\ tp' !! child = Some (path ++ [i]) /\
    ram st' (entryPtr dir i) <> 0 /\ isLarge (ram st' (entryPtr dir i)) = false /\
    childPtr (ram st' (entryPtr dir i)) = child /\ env st' = env st /\ sameValues tp st st'.
Proof.
  intros Hinv Hdir Hlen Hi Hfl Hsm. destruct (Z.eqb_spec (ram st (entryPtr dir i)) 0) as [Hz|Hz].
  2: { pose proof (pi_large _ _ _ Hinv dir path i Hdir Hlen Hi Hsm) as Hs.
       right. eexists _, st, tp. split; [by apply access_set|].
       split_and!; try done; [|by eapply pi_child]. eapply PInv_weaken; [done|lia]. }
  unfold accessToChildDir. rewrite Hz. cbn [Z.eqb].
  destruct (Z.eqb_spec fl 0) as [|Hf0]; [left; auto|].
  destruct (pi_free _ _ _ Hinv) as (l & HF & Hn & Hl).
  destruct l as [|p l].
  { left. split; [|right; cbn in Hn; lia]. destruct HF as (Hc & _). cbn in Hc. unfold RamAllocator.allocPage, RamAllocator.allocPagePtr.
    rewrite Hc, Z.eqb_refl. done. }
  right. destruct (RamAllocator.allocPagePtr_spec true _ _ _ _ HF) as (m & a & E & HF' & H0 & H1).
  unfold RamAllocator.allocPage. rewrite E. ostep.
  destruct (Hl p) as [Hrp Hnp]; [by left|].
  destruct HF as (_ & Hnd & _). apply NoDup_cons in Hnd as [Hpl _].
  destruct (PInv_newtable tp n st dir path i p m a l fl) as (HI & Hk & Hs & Hnz & Hls & Hc); try done; [auto| |].
  { intros q Hq. destruct (Hl q) as [? ?]; [by right|]. split_and!; try done. congruence. }
  eexists p, _, (<[p := path ++ [i]]> tp). split; [f_equal; f_equal; exact Hc|].
  split_and!; try done; [by apply insert_subseteq | | by rewrite lookup_insert_eq].
  eapply PInv_weaken; [done|]. cbn in Hn. lia.
Qed.

End Access.

(** ** Page-by-page reading of a walk *)
Section Equivalence.
Context {endList : EndList} {lp : LargePages} {U : Type}.
Context (callback : Z -> PState U -> outcome (PState U)) {Hcb : CallbackOk callback}.
Context (fl : Z) (Hfl : dirFlagsOk fl).
Implicit Types (st : PState U) (tp : gmap Z (list Z)).

(** Walk from a table on level [k] to the entry of page number [page]. *)
Fixpoint visitPage (k : nat) (dir page : Z) (st : PState U) : outcome (PState U) :=
  match k with
  | O => visitEntry callback (entryPtr dir page) st
  | S k' =>
      '(child, st) ← accessToChildDir dir (page / span k) fl st;
      visitPage k' child (page mod span k) st
  end.

(** Run [f] on [n] consecutive page numbers. *)
Fixpoint forPages (f : Z -> PState U -> outcome (PState U)) (n : nat) (page : Z) (st : PState U)
    : outcome (PState U) :=
  match n with
  | O => Ok st
  | S n => st ← f page st; forPages f n (page + 1) st
  end.

Lemma forPages_app f n1 n2 : forall page st,
  forPages f (n1 + n2) page st =
    (st ← forPages f n1 page st; forPages f n2 (page + Z.of_nat n1) st).
Proof.
  induction n1 as [|n1 IH]; intros page st; cbn [Nat.add forPages].
  - ostep. by rewrite Z.add_0_r.
  - destruct (f page st); ostep; try done. rewrite IH.
    by replace (page + 1 + Z.of_nat n1) with (page + Z.of_nat (S n1)) by lia.
Qed.

(** What a walk over well-formed tables gives back: it stops only for lack of
    a directory it may not or cannot create; [cost] bounds the pages it takes. *)
Definition walked tp n st (cost : nat) (r : outcome (PState U)) : Prop :=
  (r = Panic /\ (fl = 0 \/ (n < cost)%nat)) \/
  exists st' tp', r = Ok st' /\ tp ⊆ tp' /\ PInv tp' (n - cost) st' /\ keeps tp st st'.

Lemma walked_bind tp n st c1 c2 (r : outcome (PState U)) (f : PState U -> outcome (PState U)) :
  walked tp n st c1 r ->
  (forall tp' st', tp ⊆ tp' -> PInv tp' (n - c1) st' -> keeps tp st st' ->
     walked tp' (n - c1) st' c2 (f st')) ->
  walked tp n st (c1 + c2) (r ≫= f).
Proof.
  intros [[-> Hn]|(st1 & tp1 & -> & Hs1 & Hi1 & Hk1)] H2; [left; split; [done|lia]|]. ostep.
  destruct (H2 _ _ Hs1 Hi1 Hk1) as [[-> Hn]|(st2 & tp2 & -> & Hs2 & Hi2 & Hk2)];
    [left; split; [done|lia]|right].
  exists st2, tp2. split_and!; [done | by etrans | | by eapply keeps_trans].
  by replace (n - (c1 + c2))%nat with (n - c1 - c2)%nat by lia.
Qed.

(** The [needShootdown] part of a visit. *)
Definition marked (entry : Z) st : PState U :=
  if negb (Z.land (ram st entry) PAGE_FLAG_PRESENT =? 0) then setShootdown st true else st.
Lemma ram_marked entry st : ram (marked entry st) = ram st.
Proof. unfold marked. by case_match. Qed.
Lemma env_marked entry st : env (marked entry st) = env st.
Proof. unfold marked. by case_match. Qed.
Lemma PInv_marked tp n entry st : PInv tp n st -> PInv tp n (marked entry st).
Proof. intros [H1 H2 HL H3]. unfold marked. by case_match. Qed.

Lemma visitEntry_walked tp n st entry :
  PInv tp n st -> leafEntry tp entry -> walked tp n st 0 (visitEntry callback entry st).
Proof.
  intros Hi Hl. right.
  destruct (Hcb tp n entry (marked entry st) (PInv_marked _ _ _ _ Hi) Hl) as (st' & E & Hi' & Hk).
  exists st', tp. split_and!; [done | done | by rewrite Nat.sub_0_r |].
  intros d path i Hd Hp Hir _. by rewrite (Hk d path i), ram_marked.
Qed.

Lemma visitPage_walked k : forall tp n st dir path page,
  PInv tp n st -> tp !! dir = Some path -> (length path + k = 3)%nat ->
  0 <= page < 512 * span k -> smallPage k path page -> walked tp n st k (visitPage k dir page st).
Proof.
  induction k as [|k IH]; intros tp n st dir path page Hi Hd Hl Hp Hsm; cbn [visitPage].
  - apply visitEntry_walked; [done|]. exists dir, path, page.
    unfold span in Hp. cbn in Hp. split_and!; try done; lia.
  - pose proof (page_index k page Hp) as Hidx. destruct Hsm as [Hsm0 Hsm].
    destruct (access_spec tp n st dir path (page / span (S k)) fl)
      as [[-> Hn]|(child & st1 & tp1 & -> & Hs & Hi1 & Hk & Hc & _)]; try done; [lia|left; split; [done|lia]|].
    ostep.
    destruct (IH tp1 (n - 1)%nat st1 child (path ++ [page / span (S k)]) (page mod span (S k)) Hi1 Hc)
      as [[-> Hn]|(st2 & tp2 & -> & Hs2 & Hi2 & Hk2)]; [|by apply page_rest|done|left; split; [done|lia]|].
    + rewrite length_app. cbn. lia.
    + right. exists st2, tp2. split_and!; [done | by etrans | | by eapply keeps_trans].
      by replace (n - S k)%nat with (n - 1 - k)%nat by lia.
Qed.

(** The pages of a range. *)
Definition smallRange (k : nat) (path : list Z) (page : Z) (m : nat) : Prop :=
  forall q, page <= q < page + Z.of_nat m -> smallPage k path q.
Lemma smallRange_sub k path page m page' m' : smallRange k path page m ->
  page <= page' -> page' + Z.of_nat m' <= page + Z.of_nat m -> smallRange k path page' m'.
Proof. intros H H1 H2 q Hq. apply H. lia. Qed.
(** The range of a child. *)
Lemma smallRange_child k path i a n : 0 <= a -> a + Z.of_nat (S n) <= span (S k) -> smallRange (S k) path (i * span (S k) + a) (S n) ->
  path ++ [i] ∉ largePages /\ smallRange k (path ++ [i]) a (S n).
Proof.
  intros Ha Hn H. split; [pose proof (H (i * span (S k) + a) ltac:(lia)) as [H' _]; by rewrite chunk_index in H' by lia|].
  intros q Hq. destruct (H (i * span (S k) + q) ltac:(lia)) as [_ H']. by rewrite chunk_index, chunk_offset in H' by lia.
Qed.

Lemma forPages_walked k m : forall tp n st dir path page,
  PInv tp n st -> tp !! dir = Some path -> (length path + k = 3)%nat ->
  0 <= page -> page + Z.of_nat m <= 512 * span k -> smallRange k path page m ->
  walked tp n st (m * k) (forPages (visitPage k dir) m page st).
Proof.
  induction m as [|m IH]; intros tp n st dir path page Hi Hd Hl H0 Hn Hsm; cbn [forPages Nat.mul].
  { right. exists st, tp. split_and!; [done | done | by rewrite Nat.sub_0_r | apply keeps_refl]. }
  apply walked_bind; [eapply visitPage_walked; eauto; [lia | apply Hsm; lia]|].
  intros tp' st' Hs Hi' _. eapply IH; eauto; [by eapply lookup_weaken | lia | lia |]. eapply smallRange_sub; [done | lia..].
Qed.

(** Pages that share the child [i] of [dir] can be visited from the child. *)
Lemma forPages_child k n : forall tp n0 st dir path i a,
  PInv tp n0 st -> tp !! dir = Some path -> (length path + S k = 3)%nat -> 0 <= i < 512 ->
  0 <= a -> a + Z.of_nat n <= span (S k) -> ram st (entryPtr dir i) <> 0 -> isLarge (ram st (entryPtr dir i)) = false ->
  smallRange k (path ++ [i]) a n ->
  forPages (visitPage (S k) dir) n (i * span (S k) + a) st =
  forPages (visitPage k (childPtr (ram st (entryPtr dir i)))) n a st.
Proof.
  induction n as [|n IH]; intros tp n0 st dir path i a Hi Hd Hl Hir H0 Hn Hset Hls Hsm; [done|].
  cbn [forPages visitPage]. rewrite chunk_index, chunk_offset by lia.
  rewrite access_set by done. ostep.
  assert (Hw : walked tp n0 st k (visitPage k (childPtr (ram st (entryPtr dir i))) a st)).
  { eapply visitPage_walked; [done | eapply (pi_child tp); eauto; lia | | |].
    - rewrite length_app. cbn. lia.
    - rewrite span_S in Hn. lia.
    - apply Hsm. lia. }
  destruct Hw as [[-> _]|(st' & tp' & -> & Hs & Hi' & Hk)]; ostep; [done|].
  assert (Hkeep := Hk dir path i Hd ltac:(lia) Hir Hset). rewrite <- Hkeep.
  rewrite <- Z.add_assoc. eapply (IH tp'); eauto; try lia.
  - by eapply lookup_weaken.
  - by rewrite Hkeep.
  - eapply smallRange_sub; [done | lia..].
Qed.

(** A chunk of pages under one entry: one access, then the child's pages. *)
Lemma forPages_chunk k n tp n0 st dir path i a :
  PInv tp n0 st -> tp !! dir = Some path -> (length path + S k = 3)%nat -> 0 <= i < 512 ->
  0 <= a -> a + Z.of_nat (S n) <= span (S k) -> smallRange (S k) path (i * span (S k) + a) (S n) ->
  forPages (visitPage (S k) dir) (S n) (i * span (S k) + a) st =
  ('(child, st) ← accessToChildDir dir i fl st; forPages (visitPage k child) (S n) a st).
Proof.
  intros Hi Hd Hl Hir H0 Hn [Hsm0 Hsm]%smallRange_child; [|lia..].
  destruct (access_spec tp n0 st dir path i fl)
    as [[E _]|(child & st1 & tp1 & E & Hs & Hi1 & Hk & Hc & Hnz & Hls & Hcp & _)]; try done; [lia| |].
  - rewrite E. cbn [forPages visitPage]. rewrite chunk_index by lia. by rewrite E.
  - rewrite E. ostep. subst child.
    rewrite <- (forPages_child k (S n) tp1 (n0 - 1)%nat st1 dir path i a); try done; [|by eapply lookup_weaken].
    cbn [forPages visitPage]. rewrite chunk_index by lia. rewrite E, access_set by done. done.
Qed.

(** A walk of a sub-tree visits its pages one after another. *)
Definition level_ok (k : nat) : Prop := forall tp n0 st dir path s e,
  PInv tp n0 st -> tp !! dir = Some path -> (length path + k = 3)%nat ->
  0 <= s <= e -> e < 512 * span k -> smallRange k path s (Z.to_nat (e - s + 1)) ->
  processPagesLevel callback k dir s e fl st =
  forPages (visitPage k dir) (Z.to_nat (e - s + 1)) s st.

Lemma level_chunk k tp n0 st dir path i a b :
  level_ok k -> PInv tp n0 st -> tp !! dir = Some path -> (length path + S k = 3)%nat ->
  0 <= i < 512 -> 0 <= a <= b -> b < span (S k) ->
  smallRange (S k) path (i * span (S k) + a) (Z.to_nat (b - a + 1)) ->
  ('(child, st) ← accessToChildDir dir i fl st; processPagesLevel callback k child a b fl st) =
  forPages (visitPage (S k) dir) (Z.to_nat (b - a + 1)) (i * span (S k) + a) st.
Proof.
  intros Hk Hi Hd Hl Hir Hab Hb.
  replace (Z.to_nat (b - a + 1)) with (S (Z.to_nat (b - a))) by lia. intros Hsm.
  destruct (smallRange_child k path i a (Z.to_nat (b - a)) ltac:(lia) ltac:(lia) Hsm) as [Hsm0 Hsm1].
  rewrite (forPages_chunk k _ tp n0 st dir path) by (try done; lia).
  destruct (access_spec tp n0 st dir path i fl)
    as [[-> _]|(child & st1 & tp1 & -> & Hs & Hi1 & _ & Hc & _)]; try done; [lia|].
  ostep. rewrite (Hk tp1 (n0 - 1)%nat st1 child (path ++ [i])); try done.
  2: { rewrite length_app. cbn. lia. }
  2: { by rewrite <- span_S. }
  2: { by replace (Z.to_nat (b - a + 1)) with (S (Z.to_nat (b - a))) by lia. }
  by replace (Z.to_nat (b - a + 1)) with (S (Z.to_nat (b - a))) by lia.
Qed.

(** Two parts of a walk one after the other. *)
Lemma forPages_then k n1 n2 tp n0 st dir path page (r : PState U -> outcome (PState U)) :
  PInv tp n0 st -> tp !! dir = Some path -> (length path + k = 3)%nat ->
  0 <= page -> page + Z.of_nat n1 <= 512 * span k -> smallRange k path page n1 ->
  (forall tp' n' st', PInv tp' n' st' -> tp' !! dir = Some path ->
     r st' = forPages (visitPage k dir) n2 (page + Z.of_nat n1) st') ->
  (st ← forPages (visitPage k dir) n1 page st; r st) =
  forPages (visitPage k dir) (n1 + n2) page st.
Proof.
  intros Hi Hd Hl H0 Hn Hsm Hr. rewrite forPages_app.
  pose proof (forPages_walked k n1 tp n0 st dir path page Hi Hd Hl H0 Hn Hsm) as Hw.
  destruct Hw as [[-> _]|(st' & tp' & -> & Hs & Hi' & _)]; ostep; [done|]. eapply Hr; [done | by eapply lookup_weaken].
Qed.

Lemma childLoop_pages k n : forall tp n0 st dir path i,
  level_ok k -> PInv tp n0 st -> tp !! dir = Some path -> (length path + S k = 3)%nat ->
  0 <= i -> i + Z.of_nat n <= 512 -> smallRange (S k) path (i * span (S k)) (n * Z.to_nat (span (S k))) ->
  childLoop (fun child => processPagesLevel callback k child 0 (span (S k) - 1) fl) n dir i fl st =
  forPages (visitPage (S k) dir) (n * Z.to_nat (span (S k))) (i * span (S k)) st.
Proof.
  induction n as [|n IH]; intros tp n0 st dir path i Hk Hi Hd Hl H0 Hn Hsm; [done|].
  pose proof (span_pos (S k)). cbn [childLoop Nat.mul] in *.
  assert (Hsm1 : smallRange (S k) path (i * span (S k)) (Z.to_nat (span (S k)))) by (eapply smallRange_sub; [exact Hsm | lia | nia]).
  rewrite bind_pair_assoc.
  rewrite (level_chunk k tp n0 st dir path); try (done || lia).
  2: { rewrite Z.add_0_r. by replace (span (S k) - 1 - 0 + 1) with (span (S k)) by lia. }
  rewrite Z.add_0_r. replace (span (S k) - 1 - 0 + 1) with (span (S k)) by lia.
  eapply forPages_then; try done; [lia | nia |]. intros tp' n' st' Hi' Hd'.
  rewrite (IH tp' n' st' dir path); try (done || lia); [f_equal; lia|].
  eapply smallRange_sub; [exact Hsm | lia |]. generalize (n * Z.to_nat (span (S k)))%nat. intros X. lia.
Qed.

Lemma leafLoop_pages n : forall dir s st,
  leafLoop callback n dir s st = forPages (visitPage 0 dir) n s st.
Proof.
  induction n as [|n IH]; intros dir s st; [done|]. cbn [leafLoop forPages visitPage].
  destruct (visitEntry callback _ st); ostep; [apply IH|done..].
Qed.

(** The whole children after the first one and the part of the last one. *)
Lemma level_tail k tp n0 st dir path i e :
  level_ok k -> PInv tp n0 st -> tp !! dir = Some path -> (length path + S k = 3)%nat ->
  0 <= i -> i * span (S k) <= e < 512 * span (S k) ->
  smallRange (S k) path (i * span (S k)) (Z.to_nat (e + 1 - i * span (S k))) ->
  (st ← childLoop (fun child => processPagesLevel callback k child 0 (span (S k) - 1) fl)
          (Z.to_nat ((e + 1) / span (S k) - i)) dir i fl st;
   if negb ((e + 1) mod span (S k) =? 0) then
     '(child, st) ← accessToChildDir dir ((e + 1) / span (S k)) fl st;
     processPagesLevel callback k child 0 (e mod span (S k)) fl st
   else Ok st) =
  forPages (visitPage (S k) dir) (Z.to_nat (e + 1 - i * span (S k))) (i * span (S k)) st.
Proof.
  intros Hk Hi Hd Hl H0 He Hsm. pose proof (span_pos (S k)) as Hsp. set (sp := span (S k)) in *.
  pose proof (Z.div_mod (e + 1) sp ltac:(lia)) as Ej. pose proof (Z.mod_pos_bound (e + 1) sp Hsp) as Hr.
  set (j := (e + 1) / sp) in *. set (r := (e + 1) mod sp) in *.
  assert (Hj : i <= j <= 512) by (unfold j; split; [apply Z.div_le_lower_bound; nia|];
    apply Z.lt_succ_r, Z.div_lt_upper_bound; lia).
  assert (Epos : i * sp + Z.of_nat (Z.to_nat (j - i) * Z.to_nat sp) = j * sp) by nia.
  assert (Hsm1 : smallRange (S k) path (i * sp) (Z.to_nat (j - i) * Z.to_nat sp)) by (eapply smallRange_sub; [exact Hsm | lia | nia]).
  rewrite (childLoop_pages k _ tp n0 st dir path) by (try done; lia). fold sp.
  replace (Z.to_nat (e + 1 - i * sp)) with (Z.to_nat (j - i) * Z.to_nat sp + Z.to_nat r)%nat by nia.
  eapply forPages_then; try done; [nia | fold sp; nia |]. intros tp2 n2 st2 Hi2 Hd2. rewrite Epos.
  destruct (Z.eqb_spec r 0) as [->|Hr0]; [done|]. cbn [negb].
  pose proof (Z.mod_pos_bound e sp Hsp).
  assert (Em : e mod sp = r - 1) by (symmetry; apply (Z.mod_unique_pos _ _ j); lia).
  rewrite (level_chunk k tp2 n2 st2 dir path j 0 (e mod sp)); try done; [|nia|lia|lia|].
  2: { fold sp. rewrite Z.add_0_r. eapply smallRange_sub; [exact Hsm | nia | nia]. }
  fold sp. rewrite Z.add_0_r, Em. f_equal. lia.
Qed.

Lemma level_pages k : level_ok k.
Proof.
  induction k as [|k IH]; intros tp n0 st dir path s e Hi Hd Hl Hse He Hrng; [apply leafLoop_pages|].
  cbn [processPagesLevel]. cbv zeta. rewrite shiftl_span, !shiftr_span, !land_span, land_lnot_span.
  pose proof (span_pos (S k)) as Hsp. set (sp := span (S k)) in *.
  pose proof (Z.div_mod s sp ltac:(lia)) as Es. pose proof (Z.mod_pos_bound s sp Hsp) as Hsm.
  pose proof (Z.div_mod e sp ltac:(lia)) as Ee. pose proof (Z.mod_pos_bound e sp Hsp) as Hem.
  assert (Hi0 : 0 <= s / sp < 512) by (apply page_index; lia).
  replace (s + sp) with (s + 1 * sp) by lia. rewrite Z.div_add, Z.div_mul by lia.
  assert (Es' : s / sp * sp + s mod sp = s) by lia.
  destruct (Z.ltb_spec e ((s / sp + 1) * sp)) as [Hlt|Hge].
  - assert (e / sp = s / sp) as Eq by (symmetry; apply (Z.div_unique_pos _ _ _ (e - s / sp * sp)); nia).
    rewrite (level_chunk k tp n0 st dir path (s / sp) (s mod sp) (e mod sp)); try done; [|nia|lia|].
    2: { fold sp. rewrite Es'. eapply smallRange_sub; [exact Hrng | lia..]. }
    fold sp. rewrite Es'. f_equal. rewrite Eq in Ee. f_equal. lia.
  - rewrite bind_pair_assoc.
    rewrite (level_chunk k tp n0 st dir path (s / sp) (s mod sp) (sp - 1)); try (done || lia).
    2: { fold sp. rewrite Es'. eapply smallRange_sub; [exact Hrng | lia | nia]. }
    fold sp. rewrite Es'.
    replace (Z.to_nat (e - s + 1)) with (Z.to_nat (sp - 1 - s mod sp + 1) +
      Z.to_nat (e + 1 - (s / sp + 1) * sp))%nat by nia.
    eapply forPages_then; try done; [lia | fold sp; nia | eapply smallRange_sub; [exact Hrng | lia | nia] |]. intros tp1 n1 st1 Hi1 Hd1.
    replace (s + Z.of_nat (Z.to_nat (sp - 1 - s mod sp + 1))) with ((s / sp + 1) * sp) by nia.
    apply (level_tail k tp1 n1 st1 dir path); try done; [lia..|]. fold sp. eapply smallRange_sub; [exact Hrng | lia | nia].
Qed.

End Equivalence.

(** ** Effect of a walk on the page values *)

(** A callback that rewrites the entry from its old word and the captured
    variable, and moves the variable on. *)
Class EntryUpdate {U} (callback : Z -> PState U -> outcome (PState U))
    (F : U -> Z -> Z) (G : U -> U) : Prop :=
  entry_update : forall entry st, callback entry st =
    Ok (mkP (wset (ram st) entry (F (env st) (ram st entry))) (ra st) (needShootdown st) (G (env st))).

#[export] Instance mapCallback_update pageFlags :
  EntryUpdate (mapCallback pageFlags) (fun phys _ => Z.lor phys pageFlags)
    (fun phys => u64 (phys + PAGE_SIZE)).
Proof. intros ??. done. Qed.

#[export] Instance flagsCallback_update mask pageFlags :
  EntryUpdate (flagsCallback mask pageFlags)
    (fun _ v => Z.lor (Z.land v (u64 (Z.lnot mask))) pageFlags) (fun u => u).
Proof. intros ??. done. Qed.

(** The table a page entry belongs to lies below the table the walk starts at. *)
Definition below (tp : gmap Z (list Z)) (path : list Z) (entry : Z) : Prop :=
  exists d px i, tp !! d = Some px /\ length px = 3%nat /\ 0 <= i < 512 /\
    entry = entryPtr d i /\ path `prefix_of` px.

Section Update.
Context {endList : EndList} {lp : LargePages} {U : Type}.
Implicit Types (st : PState U) (tp : gmap Z (list Z)).

Fixpoint pageEntry (k : nat) (dir page : Z) (m : wmem) : option Z :=
  match k with
  | O => Some (entryPtr dir page)
  | S k' =>
      let entry := m (entryPtr dir (page / span k)) in
      if (entry =? 0) || isLarge entry then None else pageEntry k' (childPtr entry) (page mod span k) m
  end.

Lemma pageEntry_below k : forall tp n st dir path page x,
  PInv tp n st -> tp !! dir = Some path -> (length path + k = 3)%nat -> 0 <= page < 512 * span k ->
  pageEntry k dir page (ram st) = Some x -> below tp path x.
Proof.
  induction k as [|k IH]; intros tp n st dir path page x Hi Hd Hl Hp; cbn [pageEntry].
  - intros [= <-]. unfold span in Hp. cbn in Hp. exists dir, path, page. split_and!; try done; lia.
  - pose proof (page_index k page Hp). pose proof (page_rest k page).
    destruct (Z.eqb_spec (ram st (entryPtr dir (page / span (S k)))) 0) as [|Hne]; [done|].
    destruct (isLarge (ram st (entryPtr dir (page / span (S k))))) eqn:Els; [done|]. cbn [orb]. intros E.
    destruct (IH tp n st (childPtr (ram st (entryPtr dir (page / span (S k)))))
      (path ++ [page / span (S k)]) (page mod span (S k)) x) as (d & px & i & H1 & H2 & H3 & H4 & H5); try done.
    + eapply pi_child; eauto. lia.
    + rewrite length_app. cbn. lia.
    + exists d, px, i. split_and!; try (done || lia). by eapply prefix_app_l.
Qed.

(** A write to a page entry does not touch a directory, nor another subtree. *)
Lemma wset_dir tp n st d path i path' x v :
  PInv tp n st -> tp !! d = Some path -> (length path < 3)%nat -> 0 <= i < 512 ->
  below tp path' x -> wset (ram st) x v (entryPtr d i) = ram st (entryPtr d i).
Proof.
  intros Hi Hd Hl Hir (dx & px & ix & H1 & H2 & H3 & -> & _). unfold wset.
  destruct (Z.eqb_spec (entryPtr d i) (entryPtr dx ix)) as [E|]; [|done].
  apply entryPtr_inj in E as [-> ->]; try done; [|eapply pi_page; eauto..].
  assert (px = path) by congruence. subst. lia.
Qed.

Lemma pageValue_outside k : forall tp n st d path q path' x v,
  PInv tp n st -> tp !! d = Some path -> (length path + k = 3)%nat -> 0 <= q < 512 * span k ->
  below tp path' x -> ~ below tp path x ->
  pageValue k d q (wset (ram st) x v) = pageValue k d q (ram st).
Proof.
  induction k as [|k IH]; intros tp n st d path q path' x v Hi Hd Hl Hq Hx Hnx; cbn [pageValue].
  - unfold wset. destruct (Z.eqb_spec (entryPtr d q) x) as [<-|]; [|done]. destruct Hnx.
    unfold span in Hq. cbn in Hq. exists d, path, q. split_and!; try done; lia.
  - pose proof (page_index k q Hq). pose proof (page_rest k q).
    rewrite (wset_dir tp n st d path _ path') by (try done; lia).
    destruct (Z.eqb_spec (ram st (entryPtr d (q / span (S k)))) 0) as [|Hne]; [done|].
    destruct (isLarge (ram st (entryPtr d (q / span (S k))))) eqn:Els; [done|].
    eapply (IH tp n st _ (path ++ [q / span (S k)])); try done.
    + eapply pi_child; eauto. lia.
    + rewrite length_app. cbn. lia.
    + intros (dx & px & ix & ? & ? & ? & ? & Hpre). apply Hnx. exists dx, px, ix. split_and!; try (done || lia).
      by eapply prefix_app_l.
Qed.

(** Writing the entry of [page] sets its value and no other. *)
Lemma pageValue_write k : forall tp n st dir path page x v q,
  PInv tp n st -> tp !! dir = Some path -> (length path + k = 3)%nat ->
  0 <= page < 512 * span k -> 0 <= q < 512 * span k ->
  pageEntry k dir page (ram st) = Some x ->
  pageValue k dir page (ram st) = ram st x /\
  pageValue k dir q (wset (ram st) x v) = if q =? page then v else pageValue k dir q (ram st).
Proof.
  induction k as [|k IH]; intros tp n st dir path page x v q Hi Hd Hl Hp Hq E.
  { cbn in *. injection E as <-. split; [done|]. unfold wset, entryPtr. zbool; lia || done. }
  pose proof (pageEntry_below _ _ _ _ _ _ _ _ Hi Hd Hl Hp E) as Hb.
  pose proof (page_index k q Hq). pose proof (page_index k page Hp).
  pose proof (page_rest k q). pose proof (page_rest k page). pose proof (span_pos (S k)).
  cbn [pageEntry] in E. cbn [pageValue]. rewrite (wset_dir tp n st dir path _ path) by (try done; lia).
  destruct (Z.eqb_spec (ram st (entryPtr dir (page / span (S k)))) 0) as [|Hne]; [done|].
  destruct (isLarge (ram st (entryPtr dir (page / span (S k))))) eqn:Els; [done|]. cbn [orb] in E.
  assert (Hc : tp !! childPtr (ram st (entryPtr dir (page / span (S k)))) = Some (path ++ [page / span (S k)]))
    by (eapply pi_child; eauto; lia).
  assert (Hlc : (length (path ++ [(page / span (S k))%Z]) + k = 3)%nat) by (rewrite length_app; cbn; lia).
  split; [by eapply (IH tp n st _ _ _ x v)|].
  pose proof (Z.div_mod q (span (S k)) ltac:(lia)). pose proof (Z.div_mod page (span (S k)) ltac:(lia)).
  destruct (decide (q / span (S k) = page / span (S k))) as [Eq|Hneq].
  - rewrite Eq in *. destruct (Z.eqb_spec (ram st (entryPtr dir (page / span (S k)))) 0); [done|]. rewrite Els.
    destruct (IH tp n st _ _ (page mod span (S k)) x v (q mod span (S k)) Hi Hc Hlc) as [_ ->]; try done.
    by replace (q mod span (S k) =? page mod span (S k)) with (q =? page) by lia.
  - destruct (Z.eqb_spec q page) as [->|_]; [done|].
    destruct (Z.eqb_spec (ram st (entryPtr dir (q / span (S k)))) 0) as [|Hnq]; [done|].
    destruct (isLarge (ram st (entryPtr dir (q / span (S k))))) eqn:Elq; [done|].
    eapply (pageValue_outside k tp n st _ (path ++ [q / span (S k)])); try done.
    + eapply pi_child; eauto. lia.
    + rewrite length_app. cbn. lia.
    + pose proof (pageEntry_below k tp n st _ _ _ x Hi Hc Hlc ltac:(done) E) as (d1 & p1 & i1 & D1 & L1 & I1 & -> & P1).
      intros (d2 & p2 & i2 & D2 & L2 & I2 & E2 & P2).
      apply entryPtr_inj in E2 as [-> ->]; try done; [|eapply pi_page; eauto..].
      assert (p1 = p2) as -> by congruence. destruct P1 as [r1 ->], P2 as [r2 E2].
      rewrite <- !(assoc_L (++)) in E2. apply app_inv_head in E2. injection E2. lia.
Qed.

End Update.

Section UpdateWalk.
Context {endList : EndList} {lp : LargePages} {U : Type}.
Context (callback : Z -> PState U -> outcome (PState U)) (F : U -> Z -> Z) (G : U -> U).
Context {Hup : EntryUpdate callback F G}.
Implicit Types (st : PState U) (tp : gmap Z (list Z)).

Lemma update_ok : CallbackOk callback.
Proof.
  intros tp n x st Hi Hx. rewrite (entry_update x st). eexists. split; [done|].
  assert (Hb : below tp [] x).
  { destruct Hx as (d & path & i & ? & ? & ? & ->). exists d, path, i.
    split_and!; try (done || lia). apply prefix_nil. }
  assert (Hw : forall d path i, tp !! d = Some path -> (length path < 3)%nat -> 0 <= i < 512 ->
    wset (ram st) x (F (env st) (ram st x)) (entryPtr d i) = ram st (entryPtr d i))
    by (intros; eapply (wset_dir tp n st); eauto).
  split; [|done]. destruct Hi as [H1 H2 HL (l & H3 & H4 & H5)]. split; cbn; [done| | |].
  - intros d path i Hd Hl Hir. rewrite (Hw d path) by done. by apply H2.
  - intros d path i Hd Hl Hir. rewrite (Hw d path) by done. by apply HL.
  - exists l. split; [|done]. destruct Hx as (d & path & i & Hd & ? & ? & ->).
    eapply (FreePages_table_write tp); eauto. eapply H1; eauto.
Qed.

#[local] Existing Instance update_ok.
Context (fl : Z) (Hfl : dirFlagsOk fl).

(** A visit first completes the directories, which changes no value, and then
    runs the callback on the entry of the page. *)
Lemma visitPage_decomp k : forall tp n st dir path page st',
  PInv tp n st -> tp !! dir = Some path -> (length path + k = 3)%nat -> 0 <= page < 512 * span k -> smallPage k path page ->
  visitPage callback fl k dir page st = Ok st' ->
  exists tp1 n1 st1 x, tp ⊆ tp1 /\ PInv tp1 n1 st1 /\ keeps tp st st1 /\ sameValues tp st st1 /\
    env st1 = env st /\ pageEntry k dir page (ram st1) = Some x /\
    visitEntry callback x st1 = Ok st'.
Proof.
  induction k as [|k IH]; intros tp n st dir path page st' Hi Hd Hl Hp Hsm; cbn [visitPage pageEntry].
  { intros E. exists tp, n, st, (entryPtr dir page). split_and!; done || apply keeps_refl. }
  pose proof (page_index k page Hp) as Hidx. pose proof (page_rest k page). destruct Hsm as [Hsm0 Hsm].
  destruct (access_spec tp n st dir path (page / span (S k)) fl)
    as [[-> Hn]|(child & st1 & tp1 & -> & Hs & Hi1 & Hk & Hc & Hnz & Hls & Hcp & He & Hv)]; try done; [lia|].
  ostep. intros E.
  destruct (IH tp1 (n - 1)%nat st1 child (path ++ [page / span (S k)]) (page mod span (S k)) st')
    as (tp2 & n2 & st2 & x & Hs2 & Hi2 & Hk2 & Hv2 & He2 & Hx & E2); try done.
  { rewrite length_app. cbn. lia. }
  exists tp2, n2, st2, x. split_and!; try done.
  - by etrans.
  - by eapply keeps_trans.
  - intros d ph k' q Hd' Hl' Hq. rewrite (Hv2 d ph) by (try done; by eapply lookup_weaken). by eapply Hv.
  - congruence.
  - rewrite (Hk2 dir path) by (done || lia || by eapply lookup_weaken). rewrite Hcp, Hls.
    by destruct (Z.eqb_spec (ram st1 (entryPtr dir (page / span (S k)))) 0).
Qed.

Lemma visitPage_value k tp n st dir path page st' q :
  PInv tp n st -> tp !! dir = Some path -> (length path + k = 3)%nat -> 0 <= page < 512 * span k -> smallPage k path page ->
  visitPage callback fl k dir page st = Ok st' -> 0 <= q < 512 * span k ->
  env st' = G (env st) /\
  pageValue k dir q (ram st') =
    if q =? page then F (env st) (pageValue k dir q (ram st)) else pageValue k dir q (ram st).
Proof.
  intros Hi Hd Hl Hp Hsm E Hq.
  destruct (visitPage_decomp k tp n st dir path page st')
    as (tp1 & n1 & st1 & x & Hs & Hi1 & Hk & Hv & He & Hx & E1); try done.
  assert (Hd1 : tp1 !! dir = Some path) by (by eapply lookup_weaken).
  change (callback x (marked x st1) = Ok st') in E1. rewrite entry_update in E1. injection E1 as <-.
  cbn [env ram]. rewrite ram_marked, env_marked, He. split; [done|].
  destruct (pageValue_write k tp1 n1 st1 dir path page x (F (env st) (ram st1 x)) q) as [E1 ->]; try done.
  rewrite (Hv dir path k q) by done. destruct (Z.eqb_spec q page) as [->|]; [|done].
  by rewrite <- E1, (Hv dir path k page) by done.
Qed.

Lemma forPages_value k m : forall tp n st dir path page st' q,
  PInv tp n st -> tp !! dir = Some path -> (length path + k = 3)%nat ->
  0 <= page -> page + Z.of_nat m <= 512 * span k -> smallRange k path page m -> 0 <= q < 512 * span k ->
  forPages (visitPage callback fl k dir) m page st = Ok st' ->
  pageValue k dir q (ram st') =
    if (page <=? q) && (q <? page + Z.of_nat m)
    then F (Nat.iter (Z.to_nat (q - page)) G (env st)) (pageValue k dir q (ram st))
    else pageValue k dir q (ram st).
Proof.
  induction m as [|m IH]; intros tp n st dir path page st' q Hi Hd Hl H0 Hm Hsm Hq E; cbn [forPages] in E.
  { injection E as <-. destruct ((page <=? q) && _) eqn:Eb; [lia|done]. }
  apply bind_Ok in E as (st1 & E1 & E2).
  assert (Hsp : smallPage k path page) by (apply Hsm; lia).
  destruct (visitPage_value k tp n st dir path page st1 q) as [He Hv1]; try done; [lia|].
  destruct (visitPage_walked callback fl Hfl k tp n st dir path page)
    as [[? _]|(st1' & tp1 & E1' & Hs & Hi1 & _)]; try done; [lia|congruence|].
  assert (st1' = st1) as -> by congruence.
  rewrite (IH tp1 (n - k)%nat st1 dir path (page + 1) st' q)
    by (done || lia || (by eapply lookup_weaken) || (eapply smallRange_sub; [done | lia..])).
  rewrite He, Hv1. destruct (Z.eqb_spec q page) as [->|Hne].
  - rewrite Z.sub_diag. cbn. destruct ((page + 1 <=? page) && _) eqn:Eb; [lia|].
    by destruct ((page <=? page) && _) eqn:Eb'; [|lia].
  - destruct ((page + 1 <=? q) && _) eqn:Eb, ((page <=? q) && _) eqn:Eb'; try lia.
    replace (Z.to_nat (q - page)) with (S (Z.to_nat (q - (page + 1)))) by lia.
    by rewrite Nat.iter_succ_r.
Qed.

End UpdateWalk.

(** ** The public operations *)

(** The number of the page that holds an address, and the place of a page under
    a table of level [k]. *)
Definition pageOf (addr : Z) : Z := Z.shiftr (Z.land addr CPU_VIRTUAL_ADDRESS_MASK) PAGE_SHIFT.
Definition pageUnder (k : nat) (addr : Z) : Z := (addr / 4096) mod (512 * span k).

Lemma pageUnder_range k addr : 0 <= pageUnder k addr < 512 * span k.
Proof. apply Z.mod_pos_bound. pose proof (span_pos k). lia. Qed.

Lemma pageUnder_top addr : pageOf addr = pageUnder 3 addr.
Proof.
  unfold pageOf, pageUnder, PAGE_SHIFT. rewrite Z.shiftr_div_pow2 by lia.
  change CPU_VIRTUAL_ADDRESS_MASK with (Z.ones 48). rewrite Z.land_ones by lia.
  change (2 ^ 48) with (4096 * (512 * span 3)). change (2 ^ 12) with 4096.
  rewrite Z.rem_mul_r by (vm_compute; done). rewrite Z.add_comm, Z.mul_comm, Z.div_add_l by done.
  rewrite (Z.div_small (addr mod 4096)); [lia|]. apply Z.mod_pos_bound. done.
Qed.

Lemma pageUnder_split k addr :
  pageUnder k addr / span k = Z.land (Z.shiftr addr (PAGE_SHIFT + Z.of_nat k * 9)) 0x1FF /\
  pageUnder k addr mod span k = (addr / 4096) mod span k.
Proof.
  pose proof (span_pos k) as Hs. unfold pageUnder. rewrite (Z.mul_comm 512), Z.rem_mul_r by lia.
  pose proof (Z.mod_pos_bound (addr / 4096) (span k) Hs).
  set (r := (addr / 4096) mod span k) in *. set (h := addr / 4096 / span k).
  replace (r + span k * (h mod 512)) with (h mod 512 * span k + r) by lia.
  rewrite chunk_index, chunk_offset by done. split; [|done].
  change 0x1FF with (Z.ones 9). rewrite Z.land_ones by lia. change (2 ^ 9) with 512. f_equal.
  unfold PAGE_SHIFT. rewrite Z.shiftr_div_pow2, Z.pow_add_r by lia.
  unfold h. rewrite Z.div_div by (try done; lia). done.
Qed.

Lemma pageUnder_S k addr : pageUnder (S k) addr mod span (S k) = pageUnder k addr.
Proof. destruct (pageUnder_split (S k) addr) as [_ ->]. by rewrite span_S. Qed.

Lemma pageUnder_0 addr : Z.land (Z.shiftr addr PAGE_SHIFT) 0x1FF = pageUnder 0 addr.
Proof.
  destruct (pageUnder_split 0 addr) as [E _]. cbn [Z.of_nat] in E. rewrite Z.mul_0_l, Z.add_0_r in E.
  rewrite <- E. unfold span. cbn. apply Z.div_1_r.
Qed.

(** [processPage] walks to the page of its address. *)
Lemma processPageLevel_visit {endList : EndList} {U} (callback : Z -> PState U -> outcome (PState U))
    fl k : forall dir addr st,
  processPageLevel callback k dir addr fl st = visitPage callback fl k dir (pageUnder k addr) st.
Proof.
  induction k as [|k IH]; intros dir addr st; cbn [processPageLevel visitPage].
  - by rewrite pageUnder_0.
  - destruct (pageUnder_split (S k) addr) as [-> _]. rewrite pageUnder_S.
    destruct (accessToChildDir _ _ fl st) as [[??]| | |]; ostep; [apply IH|done..].
Qed.

Lemma dirFlagsOf_range pageFlags : dirFlagsOf pageFlags <> 0 /\ dirFlagsOk (dirFlagsOf pageFlags).
Proof.
  unfold dirFlagsOf, PAGE_FLAG_USER, PAGE_FLAG_PRESENT, PAGE_FLAG_WRITE.
  replace (Z.land pageFlags 4) with (Z.land (pageFlags mod 8) 4).
  - pose proof (Z.mod_pos_bound pageFlags 8 ltac:(done)) as H. revert H.
    generalize (pageFlags mod 8). intros x Hx.
    assert (x = 0 \/ x = 1 \/ x = 2 \/ x = 3 \/ x = 4 \/ x = 5 \/ x = 6 \/ x = 7) as E by lia.
    repeat destruct E as [->|E]; subst; vm_compute; repeat split; done.
  - change 8 with (2 ^ 3). rewrite <- Z.land_ones by lia. by rewrite <- Z.land_assoc.
Qed.

(** The pages a request covers: [count] pages from [pageOf virtualBase]. *)
Definition pageCount (virtualBase size : Z) : Z :=
  (size + Z.land virtualBase CPU_VIRTUAL_ADDRESS_MASK + PAGE_MASK) / PAGE_SIZE - pageOf virtualBase.

(** A request: at least one byte, inside the 48-bit address space. *)
Definition requestOk (virtualBase size : Z) : Prop :=
  0 < size /\ size + Z.land virtualBase CPU_VIRTUAL_ADDRESS_MASK <= 2 ^ 48.

Lemma request_range virtualBase size : requestOk virtualBase size ->
  0 <= pageOf virtualBase /\ 0 < pageCount virtualBase size /\
  pageOf virtualBase + pageCount virtualBase size <= 512 * span 3 /\
  u64 (Z.shiftr (u64 (size + Z.land virtualBase CPU_VIRTUAL_ADDRESS_MASK + PAGE_MASK)) PAGE_SHIFT - 1) =
    pageOf virtualBase + pageCount virtualBase size - 1.
Proof.
  unfold requestOk, pageCount, pageOf, PAGE_SHIFT, PAGE_MASK, PAGE_SIZE. intros [H1 H2].
  change CPU_VIRTUAL_ADDRESS_MASK with (Z.ones 48) in *. rewrite Z.land_ones in * by lia.
  pose proof (Z.mod_pos_bound virtualBase (2 ^ 48) ltac:(done)). set (b := virtualBase mod 2 ^ 48) in *.
  rewrite (u64_small (size + b + 4095)) by lia. rewrite !Z.shiftr_div_pow2 by lia. change (2 ^ 12) with 4096.
  change (512 * span 3) with (2 ^ 36). rewrite u64_small; Z.div_mod_to_equations; lia.
Qed.

(** No page of the request is part of a large page. *)
Definition smallRequest {lp : LargePages} (virtualBase size : Z) : Prop :=
  smallRange 3 [] (pageOf virtualBase) (Z.to_nat (pageCount virtualBase size)).

Section Public.
Context {endList : EndList} {lp : LargePages} (system mgr : PagingManager64).

(** What a range request with an entry-rewriting callback does. *)
Lemma processPagesRun_update {U} (callback : Z -> PState U -> outcome (PState U)) F G
    `{!EntryUpdate callback F G} tp n virtualBase size fl st :
  PInv tp n st -> tp !! m_dir256tb (managerOf system mgr virtualBase) = Some [] ->
  requestOk virtualBase size -> smallRequest virtualBase size -> fl <> 0 /\ dirFlagsOk fl ->
  let root := m_dir256tb (managerOf system mgr virtualBase) in
  let first := pageOf virtualBase in
  (processPagesRun system mgr virtualBase size fl callback st = Panic /\ Z.of_nat n < 3 * pageCount virtualBase size) \/
  exists st' tp', processPagesRun system mgr virtualBase size fl callback st =
      Ok (Some (mkTlb virtualBase size (needShootdown st')), st') /\
    tp ⊆ tp' /\ PInv tp' (n - 3 * Z.to_nat (pageCount virtualBase size)) st' /\
    forall q, 0 <= q < 512 * span 3 ->
      pageValue 3 root q (ram st') =
        if (first <=? q) && (q <? first + pageCount virtualBase size)
        then F (Nat.iter (Z.to_nat (q - first)) G (env st)) (pageValue 3 root q (ram st))
        else pageValue 3 root q (ram st).
Proof.
  intros Hi Hroot Hreq Hsm [Hf0 Hfl'] root first. pose proof (request_range _ _ Hreq) as (R1 & R2 & R3 & R4).
  pose proof (update_ok callback F G) as Hok.
  assert (Hi' : PInv tp n (setShootdown st false)) by (by destruct Hi; split).
  set (st0 := setShootdown st false) in *.
  pose proof (level_pages callback fl Hfl' 3 tp n st0 root [] first
    (first + pageCount virtualBase size - 1) Hi' Hroot eq_refl ltac:(lia) ltac:(lia)) as E.
  replace (Z.to_nat (first + pageCount virtualBase size - 1 - first + 1))
    with (Z.to_nat (pageCount virtualBase size)) in E by lia. specialize (E Hsm).
  assert (Erun : processPagesRun system mgr virtualBase size fl callback st =
    (st ← forPages (visitPage callback fl 3 root) (Z.to_nat (pageCount virtualBase size)) first st0;
     Ok (Some (mkTlb virtualBase size (needShootdown st)), st))).
  { rewrite <- E. unfold processPagesRun. destruct (Z.eqb_spec size 0) as [->|_]; [destruct Hreq; lia|].
    cbv zeta. rewrite R4.
    change (Z.shiftr (Z.land virtualBase CPU_VIRTUAL_ADDRESS_MASK) PAGE_SHIFT) with first. done. }
  destruct (forPages_walked callback fl Hfl' 3 (Z.to_nat (pageCount virtualBase size)) tp n st0 root [] first)
    as [[E' [?|?]]|(st' & tp' & E' & Hs & Hi2 & _)]; try done; try lia; [left; split; [by rewrite Erun, E' | lia]|].
  right. exists st', tp'. split; [|split; [done|split]].
  - by rewrite Erun, E'.
  - by replace (3 * Z.to_nat (pageCount virtualBase size))%nat with (Z.to_nat (pageCount virtualBase size) * 3)%nat by lia.
  - intros q Hq.
    pose proof (forPages_value callback F G fl Hfl' 3 (Z.to_nat (pageCount virtualBase size))
      tp n st0 root [] first st' q
      Hi' Hroot eq_refl R1 ltac:(lia) Hsm Hq E') as ->.
    by rewrite Z2Nat.id by lia.
Qed.


Lemma iter_phys i phys : 0 <= phys < 2 ^ 64 ->
  Nat.iter i (fun phys => u64 (phys + PAGE_SIZE)) phys = u64 (phys + Z.of_nat i * PAGE_SIZE).
Proof.
  intros Hp. induction i as [|i IH].
  - cbn. by rewrite Z.add_0_r, u64_small.
  - rewrite Nat.iter_succ, IH. unfold u64. rewrite Zplus_mod_idemp_l. f_equal. lia.
Qed.

(** C10: for a range without large pages, [mapPages] gives every page of the range its
    frame and flags, leaves every other page of the address space, large pages
    included, as it was, and keeps the tables well-formed; it panics only when fewer
    than three frames a page are free for new directories. *)
Theorem mapPages_correct tp n virtualBase physBase size pageFlags m a :
  PInv tp n (mkP m a false physBase) ->
  tp !! m_dir256tb (managerOf system mgr virtualBase) = Some [] ->
  requestOk virtualBase size -> smallRequest virtualBase size -> 0 <= physBase < 2 ^ 64 ->
  let root := m_dir256tb (managerOf system mgr virtualBase) in
  let first := pageOf virtualBase in
  (mapPages system mgr virtualBase physBase size pageFlags m a = Panic /\ Z.of_nat n < 3 * pageCount virtualBase size) \/
  exists st' tp', mapPages system mgr virtualBase physBase size pageFlags m a =
      Ok (Some (mkTlb virtualBase size (needShootdown st')), st') /\
    tp ⊆ tp' /\ PInv tp' (n - 3 * Z.to_nat (pageCount virtualBase size)) st' /\
    forall q, 0 <= q < 2 ^ 36 ->
      pageValue 3 root q (ram st') =
        if (first <=? q) && (q <? first + pageCount virtualBase size)
        then Z.lor (u64 (physBase + (q - first) * PAGE_SIZE)) pageFlags
        else pageValue 3 root q m.
Proof.
  intros Hi Hr Hreq Hsm Hp root first. unfold mapPages.
  destruct (processPagesRun_update (mapCallback pageFlags) _ _ tp n virtualBase size
    (dirFlagsOf pageFlags) (mkP m a false physBase) Hi Hr Hreq Hsm (dirFlagsOf_range _))
    as [?|(st' & tp' & E & Hs & Hi' & Hv)]; [by left|right].
  exists st', tp'. split_and!; [done..|]. intros q Hq. rewrite Hv by done. fold first root.
  destruct ((first <=? q) && _) eqn:Eb; [|done]. cbn [env]. rewrite iter_phys by done.
  by rewrite Z2Nat.id by lia.
Qed.

(** C11: for a range without large pages, [setPagesFlags] replaces the bits of [mask] by
    [pageFlags] in the entry of every page of the range, and in no other, and keeps the
    tables well-formed; it creates missing directories, and panics only when fewer than
    three frames a page are free for them. *)
Theorem setPagesFlags_correct tp n virtualBase size mask pageFlags m a :
  PInv tp n (mkP m a false tt) ->
  tp !! m_dir256tb (managerOf system mgr virtualBase) = Some [] ->
  requestOk virtualBase size -> smallRequest virtualBase size ->
  let root := m_dir256tb (managerOf system mgr virtualBase) in
  let first := pageOf virtualBase in
  (setPagesFlags system mgr virtualBase size mask pageFlags m a = Panic /\ Z.of_nat n < 3 * pageCount virtualBase size) \/
  exists st' tp', setPagesFlags system mgr virtualBase size mask pageFlags m a =
      Ok (Some (mkTlb virtualBase size (needShootdown st')), st') /\
    tp ⊆ tp' /\ PInv tp' (n - 3 * Z.to_nat (pageCount virtualBase size)) st' /\
    forall q, 0 <= q < 2 ^ 36 ->
      pageValue 3 root q (ram st') =
        if (first <=? q) && (q <? first + pageCount virtualBase size)
        then Z.lor (Z.land (pageValue 3 root q m) (u64 (Z.lnot mask))) pageFlags
        else pageValue 3 root q m.
Proof.
  intros Hi Hr Hreq Hsm root first. unfold setPagesFlags.
  destruct (processPagesRun_update (flagsCallback mask pageFlags) _ _ tp n virtualBase size
    (dirFlagsOf pageFlags) (mkP m a false tt) Hi Hr Hreq Hsm (dirFlagsOf_range _))
    as [?|(st' & tp' & E & Hs & Hi' & Hv)]; [by left|right].
  exists st', tp'. split_and!; [done..|]. intros q Hq. by rewrite Hv.
Qed.

(** Memories that agree on the tables. *)
Definition tablesEq (tp : gmap Z (list Z)) (m m' : wmem) : Prop :=
  forall d path i, tp !! d = Some path -> 0 <= i < 512 -> m' (entryPtr d i) = m (entryPtr d i).

Lemma tablesEq_page k : forall tp n (st : PState unit) m' dir path page,
  PInv tp n st -> tablesEq tp (ram st) m' -> tp !! dir = Some path -> (length path + k = 3)%nat ->
  0 <= page < 512 * span k ->
  pageEntry k dir page m' = pageEntry k dir page (ram st) /\
  pageValue k dir page m' = pageValue k dir page (ram st).
Proof.
  induction k as [|k IH]; intros tp n st m' dir path page Hi He Hd Hl Hp; cbn [pageEntry pageValue].
  - split; [done|]. unfold span in Hp. cbn in Hp. eapply He; eauto.
  - pose proof (page_index k page Hp). pose proof (page_rest k page). rewrite (He dir path) by done.
    destruct (Z.eqb_spec (ram st (entryPtr dir (page / span (S k)))) 0) as [|Hne]; [done|].
    destruct (isLarge (ram st (entryPtr dir (page / span (S k))))) eqn:Els; [done|]. cbn [orb].
    eapply (IH tp n st m' _ (path ++ [page / span (S k)])); try done.
    + eapply pi_child; eauto. lia.
    + rewrite length_app. cbn. lia.
Qed.

(** The walk of a fault on a page that is not part of a large page. *)
Lemma faultWalk_spec k : forall tp n (st : PState unit) dir path addr,
  PInv tp n st -> tp !! dir = Some path -> (length path + k = 3)%nat -> smallPage k path (pageUnder k addr) ->
  exists r, faultWalk k dir addr (ram st) = Ok r /\
    pageEntry k dir (pageUnder k addr) (ram st) = (fun d => entryPtr d (pageUnder 0 addr)) <$> r /\
    (r = None -> pageValue k dir (pageUnder k addr) (ram st) = 0).
Proof.
  induction k as [|k IH]; intros tp n st dir path addr Hi Hd Hl Hsm; cbn [faultWalk pageEntry pageValue].
  { by exists (Some dir). }
  pose proof (page_index k _ (pageUnder_range (S k) addr)) as Hidx.
  destruct Hsm as [Hs0 Hsm]. rewrite pageUnder_S in *.
  destruct (pageUnder_split (S k) addr) as [E _]. rewrite <- E.
  set (i := pageUnder (S k) addr / span (S k)) in *. pose proof (pi_large _ _ _ Hi dir path i Hd ltac:(lia) Hidx Hs0) as Hls.
  set (entry := ram st (entryPtr dir i)) in *. rewrite Hls.
  destruct (Z.eqb_spec entry 0) as [->|Hne]; [by exists None|].
  assert (Hc : tp !! childPtr entry = Some (path ++ [i])) by (eapply pi_child; eauto; lia).
  destruct (Z.eqb_spec (entryAddr entry) 0) as [Hz|_].
  { destruct (pi_page _ _ _ Hi _ _ Hc) as [[Hr _] _]. unfold childPtr in Hr. rewrite Hz in Hr.
    vm_compute in Hr. destruct Hr as [Hr _]. done. }
  unfold isLarge in Hls. rewrite Hls. cbn [orb].
  eapply (IH tp n st (childPtr entry) (path ++ [i])); try done. rewrite length_app. cbn. lia.
Qed.

(** The free list is unique. *)
Lemma FreePages_unique m a l l' :
  RamAllocator.FreePages m a l -> RamAllocator.FreePages m a l' -> l = l'.
Proof.
  intros (H & _) (H' & _). revert H H'. generalize (RamAllocator.m_head a).
  revert l'. induction l as [|p l IH]; intros [|p' l'] h; cbn; naive_solver.
Qed.

(** What allocating a page does to the tables: nothing. *)
Lemma alloc_tables tp n (st : PState unit) memzero :
  PInv tp n st -> (0 < n)%nat ->
  exists p m' a', RamAllocator.allocPage memzero (ram st) (ra st) = Ok (virtualToPhysInt p, m', a') /\
    PInv tp (n - 1) (mkP m' a' false tt) /\ tablesEq tp (ram st) m' /\ ram_page p /\ tp !! p = None /\
    (exists l, RamAllocator.FreePages (ram st) (ra st) (p :: l) /\ RamAllocator.FreePages m' a' l) /\
    (memzero = true -> forall x, p <= x < p + PAGE_SIZE -> m' x = 0).
Proof.
  intros Hi Hn. destruct (pi_free _ _ _ Hi) as ([|p l] & HF & Hlen & Hl); [cbn in Hlen; lia|].
  destruct (RamAllocator.allocPagePtr_spec memzero _ _ _ _ HF) as (m & a & E & HF' & H0 & H1).
  destruct (Hl p) as [Hrp Hnp]; [by left|]. exists p, m, a.
  assert (Ht : tablesEq tp (ram st) m).
  { intros d path i Hd Hir. apply H1. intros Hin. destruct (pi_page _ _ _ Hi _ _ Hd) as [[_ Hal] _].
    apply entryPtr_page in Hin; [congruence | done | apply Hrp | done]. }
  split; [unfold RamAllocator.allocPage; by rewrite E|].
  split; [|split; [done|split; [done|split; [done|split; [by exists l|done]]]]].
  destruct Hi as [I1 I2 IL _]. split; cbn; [done| | |].
  - intros d path i Hd Hlp Hir. rewrite (Ht d path) by done. by apply I2.
  - intros d path i Hd Hlp Hir. rewrite (Ht d path) by done. by apply IL.
  - exists l. split_and!; [done | cbn in Hlen; lia |]. intros q Hq. apply Hl. by right.
Qed.

(** C12: page faults outside the large pages.  A protection fault, and a fault on a page
    that is neither present nor reserved, is refused; a page that is present by now needs
    nothing.  A fault on a reserved page ([PAGE_FLAG_ALLOCATED]) takes a frame off the
    free list, zeroed if the page asks for it; the reservation mark is cleared, the
    other flags stay and no other page changes. *)
Theorem onPageFault_correct tp n addr errorCode m a :
  PInv tp n (mkP m a false tt) -> tp !! m_dir256tb mgr = Some [] -> smallPage 3 [] (pageOf addr) ->
  let root := m_dir256tb mgr in
  let v := pageValue 3 root (pageOf addr) m in
  (Z.land errorCode 1 <> 0 -> onPageFault mgr addr errorCode m a = Ok (false, m, a)) /\
  (Z.land errorCode 1 = 0 -> Z.land v PAGE_FLAG_PRESENT <> 0 -> onPageFault mgr addr errorCode m a = Ok (true, m, a)) /\
  (Z.land errorCode 1 = 0 -> Z.land v PAGE_FLAG_PRESENT = 0 -> Z.land v PAGE_FLAG_ALLOCATED = 0 ->
   onPageFault mgr addr errorCode m a = Ok (false, m, a)) /\
  ((0 < n)%nat -> Z.land errorCode 1 = 0 -> Z.land v PAGE_FLAG_PRESENT = 0 -> Z.land v PAGE_FLAG_ALLOCATED <> 0 ->
   exists p m' a', onPageFault mgr addr errorCode m a = Ok (true, m', a') /\
    (exists l, RamAllocator.FreePages m a (p :: l) /\ RamAllocator.FreePages m' a' l) /\
    (forall q, 0 <= q < 2 ^ 36 -> pageValue 3 root q m' =
       if q =? pageOf addr
       then Z.lor (Z.land v (Z.lxor PAGE_MASK PAGE_FLAG_ALLOCATED))
              (Z.lor (virtualToPhysInt p) PAGE_FLAG_PRESENT)
       else pageValue 3 root q m) /\
    (Z.land v PAGE_FLAG_MEMZERO <> 0 -> forall x, p <= x < p + PAGE_SIZE -> m' x = 0)).
Proof.
  intros Hi Hroot Hsm root v.
  pose proof (pageUnder_range 3 addr) as Hpg. unfold v in *. clear v. rewrite pageUnder_top in *.
  destruct (faultWalk_spec 3 tp n _ root [] addr Hi Hroot eq_refl Hsm) as (r & E & Epe & Hr0). cbn [ram] in E, Hr0.
  split; [intros Hec; unfold onPageFault; by destruct (Z.eqb_spec (Z.land errorCode 1) 0)|].
  unfold onPageFault. fold root. rewrite E. destruct r as [d|].
  2: { rewrite (Hr0 eq_refl). split_and!; [by intros _ ?|by intros -> _ _|by intros _ _ _ ?]. }
  cbn [fmap option_fmap option_map ram] in Epe. set (x := entryPtr d (pageUnder 0 addr)) in *.
  destruct (pageValue_write 3 tp n _ root [] (pageUnder 3 addr) x 0 (pageUnder 3 addr) Hi Hroot eq_refl
    Hpg Hpg Epe) as [Ev _]. cbn [ram] in Ev. rewrite Ev in *.
  split_and!; [intros -> Hpres | intros -> Hpres Hall | intros Hn -> Hpres Hall]; cbn [Z.eqb negb]; ostep; rewrite pageUnder_0; fold x.
  1: by destruct (Z.eqb_spec (Z.land (m x) PAGE_FLAG_PRESENT) 0).
  1: by rewrite Hpres, Hall.
  rewrite Hpres. cbn [Z.eqb negb].
  destruct (Z.eqb_spec (Z.land (m x) PAGE_FLAG_ALLOCATED) 0) as [|_]; [done|].
  destruct (alloc_tables tp n _ (negb (Z.land (m x) PAGE_FLAG_MEMZERO =? 0)) Hi Hn)
    as (p & m1 & a1 & Ea & Hi1 & Ht & Hrp & Hnp & (l & HF & HF1) & Hz). cbn [ram ra] in *.
  rewrite Ea. ostep.
  destruct (pageEntry_below 3 tp n _ root [] _ x Hi Hroot eq_refl Hpg Epe)
    as (dx & px & ix & D & L & I & Ex & _).
  assert (Emx : m1 x = m x) by (rewrite Ex; by eapply Ht).
  destruct (tablesEq_page 3 tp n _ m1 root [] (pageUnder 3 addr) Hi Ht Hroot eq_refl Hpg) as [Epe1 _].
  cbn [ram] in Epe1. rewrite Epe in Epe1.
  eexists p, _, a1. split; [done|]. split_and!.
  - exists l. split; [done|]. destruct (pi_free _ _ _ Hi) as (l0 & HF0 & _ & Hl0).
    rewrite Ex. eapply (FreePages_table_write tp); eauto; [|eapply pi_page; eauto].
    cbn in HF0. pose proof (FreePages_unique _ _ _ _ HF HF0) as <-. intros q Hq. apply Hl0. by right.
  - intros q Hq. rewrite Emx.
    destruct (pageValue_write 3 tp (n - 1) _ root [] (pageUnder 3 addr) x
      (Z.lor (Z.land (m x) (Z.lxor PAGE_MASK PAGE_FLAG_ALLOCATED)) (Z.lor (virtualToPhysInt p) PAGE_FLAG_PRESENT))
      q Hi1 Hroot eq_refl Hpg Hq Epe1) as [_ Ew]. cbn [ram] in Ew. rewrite Ew.
    destruct (q =? _); [done|]. by destruct (tablesEq_page 3 tp n _ m1 root [] q Hi Ht Hroot eq_refl Hq).
  - intros Hmz y Hy. unfold wset. destruct (Z.eqb_spec y x) as [->|_].
    { rewrite Ex in Hy. destruct (pi_page _ _ _ Hi _ _ D) as [[_ Hal] _].
      apply entryPtr_page in Hy; [congruence | done | apply Hrp | done]. }
    apply Hz; [|done]. by destruct (Z.eqb_spec (Z.land (m x) PAGE_FLAG_MEMZERO) 0).
Qed.

End Public.

(** ** Concrete tables *)
Module Demo.
#[local] Existing Instance RamAllocator.demoEnd.

(** The loader's tables: the RAM window is entry 256 of the root, its first gigabyte a
    large page at physical address 0. *)
#[export] Instance loaderWindow : LargePages := ({[ [256; 0] ]} : gset (list Z)).
Definition windowEntry : Z := Z.lor (Z.lor PAGE_FLAG_PRESENT PAGE_FLAG_WRITE) (Z.lor PAGE_FLAG_SIZE PAGE_FLAG_GLOBAL).

(** The page with frame number [i], and six free pages after the root's. *)
Definition pg (i : Z) : Z := physToVirtualInt (i * 4096).
Definition root : Z := pg 2.
Definition freeList : list Z := [pg 8; pg 9; pg 10; pg 11; pg 12; pg 13].
Definition mem0 : wmem := fun x =>
  if x =? pg 8 then pg 9 else if x =? pg 9 then pg 10 else if x =? pg 10 then pg 11
  else if x =? pg 11 then pg 12 else if x =? pg 12 then pg 13
  else if x =? pg 13 then m_pEndList
  else if x =? entryPtr (pg 2) 256 then 0x1003 else if x =? entryPtr (pg 1) 0 then windowEntry else 0.
Definition alloc0 : RamAllocator.t := RamAllocator.mk (pg 8) 0 0 0.
Definition mgr : PagingManager64 := mkPaging root 0 true.

(** The path of page 5 built in the frames 3, 4 and 5; page 5 is reserved. *)
Definition mem1 : wmem := fun x =>
  if x =? entryPtr (pg 2) 0 then 0x3003 else if x =? entryPtr (pg 3) 0 then 0x4003
  else if x =? entryPtr (pg 4) 0 then 0x5003 else if x =? entryPtr (pg 5) 5 then 0x602
  else mem0 x.
Definition tp0 : gmap Z (list Z) := <[pg 1 := [256]]> {[ root := [] ]}.
Definition tp1 : gmap Z (list Z) :=
  <[pg 3 := [0]]> (<[pg 4 := [0; 0]]> (<[pg 5 := [0; 0; 0]]> tp0)).

Lemma free0 (m : wmem) : (forall x, pg 8 <= x -> m x = mem0 x) -> RamAllocator.FreePages m alloc0 freeList.
Proof.
  intros H. split; [|split].
  - eapply RamAllocator.chain_ext with (m := mem0); [|by vm_compute]. intros p Hp. symmetry. apply H.
    revert p Hp. apply Forall_forall. repeat constructor; by vm_compute.
  - apply (bool_decide_unpack _). by vm_compute.
  - apply Forall_forall. repeat constructor; by vm_compute.
Qed.

Lemma free_pages (tp : gmap Z (list Z)) :
  Forall (fun p => ram_page p /\ tp !! p = None) freeList ->
  forall p, p ∈ freeList -> ram_page p /\ tp !! p = None.
Proof. intros H. by apply Forall_forall. Qed.

(** Compare the concrete addresses of a goal. *)
Ltac demo_cases :=
  repeat match goal with
  | |- context [pg ?n] => let v := eval vm_compute in (pg n) in change (pg n) with v in *
  | |- context [root] => let v := eval vm_compute in root in change root with v in *
  end; unfold entryPtr in *; zbool; try lia.

Lemma window_in path : path ∈ largePages <-> path = [256; 0].
Proof. unfold largePages, loaderWindow. apply elem_of_singleton. Qed.

Lemma tp0_cases d path : tp0 !! d = Some path -> (d = pg 1 /\ path = [256]) \/ (d = pg 2 /\ path = []).
Proof. unfold tp0. rewrite lookup_insert_Some, lookup_singleton_Some. unfold root. naive_solver. Qed.

(** The set directory entries of [mem0]. *)
Lemma mem0_dir d path i : tp0 !! d = Some path -> 0 <= i < 512 ->
  mem0 (entryPtr d i) = 0 \/ (d = pg 2 /\ path = [] /\ i = 256 /\ mem0 (entryPtr d i) = 0x1003) \/
  (d = pg 1 /\ path = [256] /\ i = 0 /\ mem0 (entryPtr d i) = windowEntry).
Proof.
  intros [[-> ->]|[-> ->]]%tp0_cases Hi.
  - destruct (decide (i = 0)) as [->|Hne]; [by right; right | left; unfold mem0; demo_cases].
  - destruct (decide (i = 256)) as [->|Hne]; [by right; left | left; unfold mem0; demo_cases].
Qed.

Lemma inv0 U (u : U) : PInv tp0 6 (mkP mem0 alloc0 false u).
Proof.
  split; cbn [ram ra].
  - intros d path [[-> ->]|[-> ->]]%tp0_cases; (split; [split; by vm_compute | cbn; lia]).
  - intros d path i Hd Hl Hi. destruct (mem0_dir d path i Hd Hi) as [->|[(-> & -> & -> & ->)|(-> & -> & -> & ->)]]; [done|by vm_compute|done].
  - intros d path i Hd Hl Hi Hn. destruct (mem0_dir d path i Hd Hi) as [->|[(-> & -> & -> & ->)|(-> & -> & -> & ->)]]; [done|done|].
    exfalso. by apply Hn, window_in.
  - exists freeList. split_and!; [by apply free0 | done |]. apply free_pages.
    repeat constructor; by vm_compute.
Qed.

(** The five tables of [tp1]. *)
Lemma tp1_cases d path : tp1 !! d = Some path ->
  tp0 !! d = Some path \/ (d = pg 3 /\ path = [0]) \/ (d = pg 4 /\ path = [0; 0]) \/ (d = pg 5 /\ path = [0; 0; 0]).
Proof. unfold tp1. rewrite !lookup_insert_Some. naive_solver. Qed.

(** The directory entries of [mem1]: those of the path of page 5, and those of [mem0]. *)
Lemma mem1_dir d path i : tp1 !! d = Some path -> (length path < 3)%nat -> 0 <= i < 512 ->
  (isLarge (mem1 (entryPtr d i)) = false /\ tp1 !! childPtr (mem1 (entryPtr d i)) = Some (path ++ [i])) \/
  mem1 (entryPtr d i) = 0 \/ path ++ [i] = [256; 0] /\ isLarge (mem1 (entryPtr d i)) = true.
Proof.
  intros [Hd|[[-> ->]|[[-> ->]|[-> ->]]]]%tp1_cases Hl Hi; [| | |cbn in Hl; lia].
  - destruct (decide (d = pg 2 /\ i = 0)) as [[-> ->]|Hne].
    { left. apply tp0_cases in Hd as [[? _]|[_ ->]]; [by vm_compute in H | by vm_compute]. }
    assert (mem1 (entryPtr d i) = mem0 (entryPtr d i)) as ->.
    { unfold mem1. apply tp0_cases in Hd as [[-> _]|[-> _]]; demo_cases; exfalso; apply Hne; (split; [done|lia]). }
    destruct (mem0_dir d path i Hd Hi) as [->|[(-> & -> & -> & ->)|(-> & -> & -> & ->)]]; [by right; left | by left; vm_compute | by right; right].
  - destruct (decide (i = 0)) as [->|Hne]; [left; by vm_compute | right; left; unfold mem1, mem0; demo_cases].
  - destruct (decide (i = 0)) as [->|Hne]; [left; by vm_compute | right; left; unfold mem1, mem0; demo_cases].
Qed.

Lemma inv1 : PInv tp1 6 (mkP mem1 alloc0 false tt).
Proof.
  split; cbn [ram ra].
  - intros d path [[[-> ->]|[-> ->]]%tp0_cases|[[-> ->]|[[-> ->]|[-> ->]]]]%tp1_cases; (split; [split; by vm_compute | cbn; lia]).
  - intros d path i Hd Hl Hi Hne Hs. by destruct (mem1_dir d path i Hd Hl Hi) as [[_ ?]|[?|[_ E]]]; [..|rewrite E in Hs].
  - intros d path i Hd Hl Hi Hn. destruct (mem1_dir d path i Hd Hl Hi) as [[? _]|[->|[E _]]]; [done..|].
    exfalso. by apply Hn, window_in.
  - exists freeList. split_and!; [|done|].
    + apply free0. intros x Hx. unfold mem1. revert Hx. demo_cases.
    + apply free_pages. repeat constructor; by vm_compute.
Qed.

(** The pages below 2 ^ 30 are in the lower half, where no large page is. *)
Lemma low_small q : 0 <= q < 2 ^ 30 -> smallPage 3 [] q.
Proof.
  intros Hq. assert (0 <= q / span 3 < 256) as H3.
  { split; [apply Z.div_pos; [lia | apply span_pos]|]. apply Z.div_lt_upper_bound; [apply span_pos|]. change (span 3) with (2 ^ 27). lia. }
  repeat split; try (intros E%window_in; cbn [app] in E; injection E; lia).
Qed.


Lemma mapPages_correct_witness : exists st' tp',
  mapPages mgr mgr 0x5000 0x100000 0x2000 3 mem0 alloc0 =
    Ok (Some (mkTlb 0x5000 0x2000 (needShootdown st')), st') /\ PInv tp' 0 st' /\
  pageValue 3 root 5 (ram st') = 0x100003 /\ pageValue 3 root 6 (ram st') = 0x101003 /\
  pageValue 3 root 7 (ram st') = 0.
Proof.
  destruct (mapPages_correct mgr mgr tp0 6 0x5000 0x100000 0x2000 3 mem0 alloc0 (inv0 _ 0x100000))
    as [[_ Hn]|(st' & tp' & E & _ & Hi & Hv)]; [by vm_compute | split; by vm_compute | | lia | by vm_compute in Hn |].
  { intros q Hq. apply low_small. change (pageOf 0x5000) with 5 in Hq. change (pageCount 0x5000 0x2000) with 2 in Hq. lia. }
  exists st', tp'. split_and!; [exact E | exact Hi | ..];
    (etrans; [apply Hv; lia | by vm_compute]).
Defined.

Lemma setPagesFlags_correct_witness : exists st' tp',
  setPagesFlags mgr mgr 0x5000 0x1000 0x200 1 mem1 alloc0 =
    Ok (Some (mkTlb 0x5000 0x1000 (needShootdown st')), st') /\ PInv tp' 3 st' /\
  pageValue 3 root 5 (ram st') = 0x403.
Proof.
  destruct (setPagesFlags_correct mgr mgr tp1 6 0x5000 0x1000 0x200 1 mem1 alloc0 inv1)
    as [[_ Hn]|(st' & tp' & E & _ & Hi & Hv)]; [by vm_compute | split; by vm_compute | | by vm_compute in Hn |].
  { intros q Hq. apply low_small. change (pageOf 0x5000) with 5 in Hq. change (pageCount 0x5000 0x1000) with 1 in Hq. lia. }
  exists st', tp'. split_and!; [exact E | exact Hi |]. etrans; [apply Hv; lia | by vm_compute].
Defined.

Lemma onPageFault_correct_witness : exists p m' a',
  onPageFault mgr 0x5123 2 mem1 alloc0 = Ok (true, m', a') /\
  pageValue 3 root 5 m' = Z.lor 0x402 (Z.lor (virtualToPhysInt p) 1).
Proof.
  destruct (onPageFault_correct mgr tp1 6 0x5123 2 mem1 alloc0 inv1)
    as (_ & _ & _ & H); [by vm_compute | apply low_small; by vm_compute |].
  destruct H as (p & m' & a' & E & _ & Hv & _); [lia | done | by vm_compute | by vm_compute |].
  exists p, m', a'. split; [exact E|]. etrans; [apply Hv; lia | done].
Defined.

End Demo.
