(* ===== verification/Vmm.v ===== *)
(** * The virtual memory manager (kernel/VirtualMemoryManager.cpp)

    [VirtualMemoryManagerPrivate] hands out ranges of kernel virtual pages.  The
    region map [m_memoryRegions] has a word per page; the free regions hang in a
    table of free lists ([FreeList]), indexed by the logarithm of the size. *)

From S2P Require Import Prelude FreeList PhMem Paging.

Definition VMM_REG_SIZE_SHIFT : Z := 12.
Definition VMM_REG_PTR_MASK : Z := u64 (Z.lnot 3).
Definition VMM_REG_ALLOC_FLAG : Z := 1.
Definition VMM_REG_BUSY_FLAG : Z := 2.
Definition g_maxAllocIterations : Z := 32.
Definition g_invalidPageOffset : Z := size_max.

(** [VmmFreeMemoryListItem] *)
Record Item : Type := mkItem { m_numPages : Z; m_pageBase : Z; m_prev : Z; m_next : Z }.
Definition sizeofItem : Z := 32.

#[export, refine] Instance item_links : Links Item := {
  lnext := m_next;
  lprev := m_prev;
  set_lnext := fun i x => mkItem (m_numPages i) (m_pageBase i) (m_prev i) x;
  set_lprev := fun i x => mkItem (m_numPages i) (m_pageBase i) x (m_next i);
  ldata := fun i => (m_numPages i, m_pageBase i)
}.
Proof. all: done. Defined.

(** The state of the manager.  [items] is the array behind
    [m_freeListItemsStart]; [m_memoryRegions] is indexed by page number.  Page
    numbers and counts stay below 2^52, so their sums are written without
    wrap-around. *)
Record Vmm : Type := mkVmm {
  items : gmap Z Item;
  m_memoryRegions : Z -> Z;
  m_freeListTable : list Z;
  m_freeListTableCounters : list Z;
  m_freeListTableSize : nat;
  m_freeListItems : Z;
  m_freeListItemsStart : Z;
  m_virtualBase : Z;
  m_virtualPages : Z
}.

Definition setItems (v : Vmm) (its : gmap Z Item) : Vmm :=
  mkVmm its (m_memoryRegions v) (m_freeListTable v) (m_freeListTableCounters v) (m_freeListTableSize v)
    (m_freeListItems v) (m_freeListItemsStart v) (m_virtualBase v) (m_virtualPages v).
Definition setRegion (v : Vmm) (page word : Z) : Vmm :=
  mkVmm (items v) (wset (m_memoryRegions v) page word) (m_freeListTable v) (m_freeListTableCounters v)
    (m_freeListTableSize v) (m_freeListItems v) (m_freeListItemsStart v) (m_virtualBase v) (m_virtualPages v).
Definition setTable (v : Vmm) (table counters : list Z) : Vmm :=
  mkVmm (items v) (m_memoryRegions v) table counters (m_freeListTableSize v)
    (m_freeListItems v) (m_freeListItemsStart v) (m_virtualBase v) (m_virtualPages v).
Definition setFreeItems (v : Vmm) (head start : Z) : Vmm :=
  mkVmm (items v) (m_memoryRegions v) (m_freeListTable v) (m_freeListTableCounters v)
    (m_freeListTableSize v) head start (m_virtualBase v) (m_virtualPages v).

(** ** Regions *)

(** Take an item off the recycled ones, or the next of the array. *)
Definition newItem (v : Vmm) : outcome (Z * Vmm) :=
  if m_freeListItems v =? nullptr then
    let item := m_freeListItemsStart v in
    Ok (item, setFreeItems v (m_freeListItems v) (item + sizeofItem))
  else
    let item := m_freeListItems v in
    it ← deref (items v) item;
    Ok (item, setFreeItems v (m_next it) (m_freeListItemsStart v)).

Definition addFreeRegion (pageBase numPages : Z) (v : Vmm) : outcome Vmm :=
  '(item, v) ← newItem v;
  tblIndex ← cpuLastOneBitIndex numPages;
  let v := setItems v (<[item := mkItem numPages pageBase nullptr nullptr]> (items v)) in
  flt ← arr_get (m_freeListTable v) tblIndex;
  its ← pushFront (items v) flt item;
  let v := setItems v its in
  table ← arr_set (m_freeListTable v) tblIndex item;
  c ← arr_get (m_freeListTableCounters v) tblIndex;
  counters ← arr_set (m_freeListTableCounters v) tblIndex (u64 (c + 1));
  let v := setTable v table counters in
  let v := setRegion v pageBase item in
  Ok (if 1 <? numPages then setRegion v (pageBase + numPages - 1) item else v).

Definition deleteFreeRegion (tableIndex : nat) (region : Z) (v : Vmm) : outcome Vmm :=
  head ← arr_get (m_freeListTable v) tableIndex;
  '(its, head) ← unlink (items v) head region;
  table ← arr_set (m_freeListTable v) tableIndex head;
  r ← deref its region;
  let v := setItems v (<[region := set_lnext r (m_freeListItems v)]> its) in
  let v := setFreeItems v region (m_freeListItemsStart v) in
  c ← arr_get (m_freeListTableCounters v) tableIndex;
  counters ← arr_set (m_freeListTableCounters v) tableIndex (u64 (c - 1));
  Ok (setTable v table counters).

Definition setBusyRegion (tableIndex : nat) (region numPages : Z) (v : Vmm) : outcome Vmm :=
  r ← deref (items v) region;
  let pagesBase := m_pageBase r in
  v ← deleteFreeRegion tableIndex region v;
  let v := setRegion v pagesBase
             (Z.lor (u64 (Z.shiftl numPages VMM_REG_SIZE_SHIFT)) VMM_REG_BUSY_FLAG) in
  Ok (if 1 <? numPages then setRegion v (pagesBase + numPages - 1) VMM_REG_BUSY_FLAG else v).

(** The search of [allocPages] in the list of its own size class: [Found] an
    exact fit, or the node after the ones looked at, the tightest fit and the
    pages it would leave. *)
Inductive scanned : Type :=
| Found (item : Z)
| Searched (curListItem minItem minDelta : Z).

Fixpoint scanList (its : gmap Z Item) (n : nat) (numPages curListItem minItem minDelta : Z)
    : outcome scanned :=
  match n with
  | O => Ok (Searched curListItem minItem minDelta)
  | S n =>
      it ← deref its curListItem;
      if numPages <=? m_numPages it then
        let delta := m_numPages it - numPages in
        if delta =? 0 then Ok (Found curListItem)
        else if delta <? minDelta then scanList its n numPages (m_next it) curListItem delta
        else scanList its n numPages (m_next it) minItem minDelta
      else scanList its n numPages (m_next it) minItem minDelta
  end.

(** The larger size classes, [n] of them from [idx]: the first with a region. *)
Fixpoint scanTable (counters : list Z) (n idx : nat) : outcome (option nat) :=
  match n with
  | O => Ok None
  | S n =>
      c ← arr_get counters idx;
      if 0 <? c then Ok (Some idx) else scanTable counters n (S idx)
  end.

(** The rest of the list of the own size class: the first region large enough. *)
Fixpoint scanRest (its : gmap Z Item) (fuel : nat) (numPages curListItem : Z) : outcome (option Z) :=
  if curListItem =? nullptr then Ok None
  else match fuel with
  | O => NoFuel
  | S fuel =>
      it ← deref its curListItem;
      if numPages <=? m_numPages it then Ok (Some curListItem)
      else scanRest its fuel numPages (m_next it)
  end.

(** Take [numPages] off the front of the free region [item]; [rest] gives the
    number of pages that go back. *)
Definition splitRegion (rest : Item -> Z) (tableIndex : nat) (item numPages : Z) (v : Vmm)
    : outcome (Z * Vmm) :=
  it ← deref (items v) item;
  let retPb := m_pageBase it in
  v ← setBusyRegion tableIndex item numPages v;
  it ← deref (items v) item;
  v ← addFreeRegion (m_pageBase it + numPages) (rest it) v;
  Ok (retPb, v).

(** Take the whole of [item]: an exact fit, or the last resort. *)
Definition takeRegion (tableIndex : nat) (item numPages : Z) (v : Vmm) : outcome (Z * Vmm) :=
  it ← deref (items v) item;
  v ← setBusyRegion tableIndex item numPages v;
  Ok (m_pageBase it, v).

Definition allocPages (numPages : Z) (v : Vmm) : outcome (Z * Vmm) :=
  tblIndex ← cpuLastOneBitIndex numPages;
  c ← arr_get (m_freeListTableCounters v) tblIndex;
  let maxIterateNodes := if c <? g_maxAllocIterations then c else g_maxAllocIterations in
  r ← (if 0 <? maxIterateNodes then
         head ← arr_get (m_freeListTable v) tblIndex;
         scanList (items v) (Z.to_nat maxIterateNodes) numPages head nullptr size_max
       else Ok (Searched nullptr nullptr size_max));
  match r with
  | Found item => takeRegion tblIndex item numPages v
  | Searched curListItem minItem minDelta =>
      if negb (minItem =? nullptr) then splitRegion (fun _ => minDelta) tblIndex minItem numPages v
      else
        o ← scanTable (m_freeListTableCounters v) (m_freeListTableSize v - S tblIndex) (S tblIndex);
        match o with
        | Some idx =>
            item ← arr_get (m_freeListTable v) idx;
            splitRegion (fun it => m_numPages it - numPages) idx item numPages v
        | None =>
            o ← scanRest (items v) (S (size (items v))) numPages curListItem;
            match o with
            | Some item => takeRegion tblIndex item numPages v
            | None => Ok (g_invalidPageOffset, v)
            end
        end
  end.

(** Merge a free region that ends right before [pageBase]. *)
Definition mergePrev (pageBase regBase regSize : Z) (v : Vmm) : outcome (Z * Z * Vmm) :=
  if 0 <? pageBase then
    let listPtr := m_memoryRegions v (pageBase - 1) in
    if Z.land listPtr VMM_REG_BUSY_FLAG =? 0 then
      let item := Z.land listPtr VMM_REG_PTR_MASK in
      if negb (item =? 0) then
        it ← deref (items v) item;
        let itemNumPages := m_numPages it in
        tableIdx ← cpuLastOneBitIndex itemNumPages;
        v ← deleteFreeRegion tableIdx item v;
        let v := setRegion v pageBase 0 in
        let v := if 1 <? itemNumPages then setRegion v (pageBase - 1) 0 else v in
        Ok (m_pageBase it, regSize + itemNumPages, v)
      else Ok (regBase, regSize, v)
    else Ok (regBase, regSize, v)
  else Ok (regBase, regSize, v).

(** Merge a free region that starts at [pageBase + numPages]. *)
Definition mergeNext (pageBase numPages regSize : Z) (v : Vmm) : outcome (Z * Vmm) :=
  let listPtr := m_memoryRegions v (pageBase + numPages) in
  if Z.land listPtr VMM_REG_BUSY_FLAG =? 0 then
    let item := Z.land listPtr VMM_REG_PTR_MASK in
    if negb (item =? 0) then
      it ← deref (items v) item;
      let itemNumPages := m_numPages it in
      tableIdx ← cpuLastOneBitIndex itemNumPages;
      v ← deleteFreeRegion tableIdx item v;
      it ← deref (items v) item;
      let v := setRegion v (m_pageBase it - 1) 0 in
      let v := setRegion v (m_pageBase it) 0 in
      Ok (regSize + itemNumPages, v)
    else Ok (regSize, v)
  else Ok (regSize, v).

Definition freePages (pageBase : Z) (v : Vmm) : outcome (Z * Vmm) :=
  let word := m_memoryRegions v pageBase in
  if Z.land word VMM_REG_BUSY_FLAG =? 0 then Ok (0, v)
  else
    let numPages := Z.shiftr word VMM_REG_SIZE_SHIFT in
    if numPages =? 0 then Ok (0, v)
    else
      '(regBase, regSize, v) ← mergePrev pageBase pageBase numPages v;
      '(regSize, v) ← mergeNext pageBase numPages regSize v;
      v ← addFreeRegion regBase regSize v;
      Ok (numPages, v).

(** ** The free lists

    [fs] gives every item in use its region (first page and size), [ls] the
    lists of the table, [rc] the recycled items. *)


(** A chain through the forward links only. *)
Fixpoint chain1 (its : gmap Z Item) (h : Z) (l : list Z) : Prop :=
  match l with
  | [] => h = nullptr
  | p :: l => h = p /\ p <> nullptr /\ exists it, its !! p = Some it /\ chain1 its (m_next it) l
  end.

Lemma chain1_ext its its' l : forall h,
  (forall q, q ∈ l -> its' !! q = its !! q) -> chain1 its h l -> chain1 its' h l.
Proof.
  induction l as [|p l IH]; intros h Hq; cbn; [done|]. intros (-> & Hp & it & Hit & Hc).
  split_and!; [done..|]. exists it. rewrite (Hq p) by (by left). split; [done|]. apply IH; [|done].
  intros q ?. apply Hq. by right.
Qed.

Lemma bucket_lt n : 0 < n < 2 ^ 52 -> (bucket n < 64)%nat.
Proof. intros Hn. unfold bucket. pose proof (Z.log2_lt_pow2 n 52 ltac:(lia)). lia. Qed.


Section Lists.
(** The start of the item array. *)
Context (start0 : Z) (Hstart0 : 0 < start0 /\ start0 mod 4 = 0).

Record LInv (fs : gmap Z (Z * Z)) (ls : nat -> list Z) (rc : list Z) (v : Vmm) : Prop := mkLInv {
  l_len : length (m_freeListTable v) = 64%nat /\ length (m_freeListTableCounters v) = 64%nat;
  l_seg : forall k h, m_freeListTable v !! k = Some h -> seg (items v) None h (ls k);
  l_nodup : forall k, NoDup (ls k);
  l_mem : forall k p, p ∈ ls k <-> exists b n, fs !! p = Some (b, n) /\ bucket n = k;
  l_cnt : forall k c, m_freeListTableCounters v !! k = Some c -> c = u64 (Z.of_nat (length (ls k)));
  l_data : forall p b n, fs !! p = Some (b, n) -> ldata <$> items v !! p = Some (n, b) /\ 0 < n < 2 ^ 52;
  l_rc : chain1 (items v) (m_freeListItems v) rc /\ NoDup rc /\ forall p, p ∈ rc -> fs !! p = None;
  l_dom : forall p, is_Some (items v !! p) -> start0 <= p < m_freeListItemsStart v /\ p mod 4 = 0;
  l_start : m_freeListItemsStart v = start0 + sizeofItem * Z.of_nat (size fs + length rc)
}.

(** A fresh item: not in use, not null, and everything else as it was. *)
Lemma newItem_spec fs ls rc v :
  LInv fs ls rc v -> exists p v' rc', newItem v = Ok (p, v') /\ fs !! p = None /\ p ∉ rc' /\
    start0 <= p < m_freeListItemsStart v' /\ p mod 4 = 0 /\
    v' = setFreeItems v (m_freeListItems v') (m_freeListItemsStart v') /\
    chain1 (items v) (m_freeListItems v') rc' /\ NoDup rc' /\ (forall q, q ∈ rc' -> q ∈ rc) /\
    m_freeListItemsStart v <= m_freeListItemsStart v' /\
    m_freeListItemsStart v' = start0 + sizeofItem * Z.of_nat (S (size fs + length rc')) /\
    (rc' = [] \/ length rc = S (length rc')).
Proof.
  intros [_ _ _ _ _ Hdata (Hc & Hnd & Hrc) Hdom Hst]. unfold newItem.
  destruct rc as [|p rc].
  - cbn in Hc. rewrite Hc. cbn [Z.eqb]. eexists _, _, []. split; [done|]. cbn.
    assert (Hnone : items v !! m_freeListItemsStart v = None).
    { apply eq_None_not_Some. intros Hs. destruct (Hdom _ Hs). lia. }
    rewrite Hst in *. unfold sizeofItem in *. cbn [length] in *.
    split; [|split; [by intros ?%elem_of_nil|]].
    { destruct (fs !! _) as [[b n]|] eqn:E; [|done]. destruct (Hdata _ _ _ E) as [Hd _]. by rewrite Hnone in Hd. }
    split; [lia|]. split; [destruct Hstart0; Z.div_mod_to_equations; lia|].
    split; [done|]. split; [done|]. split; [constructor|]. split; [by intros ? ?%elem_of_nil|].
    split; [lia|]. split; [lia|]. by left.
  - destruct Hc as (Eh & Hp & it & Hit & Hc). rewrite Eh. destruct (Z.eqb_spec p nullptr); [done|].
    rewrite (deref_Some _ _ _ Hit). ostep. apply NoDup_cons in Hnd as [Hpn Hnd].
    destruct (Hdom p ltac:(by rewrite Hit)). eexists _, _, rc. split; [done|].
    cbn [m_freeListItems m_freeListItemsStart setFreeItems length] in *.
    split; [apply Hrc; by left|]. do 6 (split; [done|]). split; [intros q ?; by right|]. split; [lia|]. split; [lia|]. by right.
Qed.

Lemma l_unique fs ls rc v k k' p : LInv fs ls rc v -> p ∈ ls k -> p ∈ ls k' -> k = k'.
Proof.
  intros HL (b & n & E & <-)%(l_mem _ _ _ _ HL) (b' & n' & E' & <-)%(l_mem _ _ _ _ HL). congruence.
Qed.

Lemma counters_step counters ls k (f : Z -> Z) l' :
  (k < length counters)%nat ->
  (forall j c, counters !! j = Some c -> c = u64 (Z.of_nat (length (ls j)))) ->
  (u64 (Z.of_nat (length l')) = f (u64 (Z.of_nat (length (ls k))))) ->
  forall j c, <[k := f (u64 (Z.of_nat (length (ls k))))]> counters !! j = Some c ->
    c = u64 (Z.of_nat (length (lsSet ls k l' j))).
Proof.
  intros Hk Hc Hf j c. unfold lsSet. destruct (decide (j = k)) as [->|Hne].
  - rewrite list_lookup_insert_eq by done. by intros [= <-].
  - rewrite list_lookup_insert_ne by done. apply Hc.
Qed.


Lemma addFreeRegion_lists fs ls rc v b n :
  LInv fs ls rc v -> 0 < n < 2 ^ 52 ->
  exists p v' rc', addFreeRegion b n v = Ok v' /\ fs !! p = None /\
    LInv (<[p := (b, n)]> fs) (lsSet ls (bucket n) (p :: ls (bucket n))) rc' v' /\
    start0 <= p < m_freeListItemsStart v' /\ p mod 4 = 0 /\
    m_memoryRegions v' = (let r := wset (m_memoryRegions v) b p in
                          if 1 <? n then wset r (b + n - 1) p else r) /\
    m_virtualPages v' = m_virtualPages v /\ m_freeListTableSize v' = m_freeListTableSize v /\
    m_virtualBase v' = m_virtualBase v /\ (rc' = [] \/ length rc = S (length rc')).
Proof.
  intros HL Hn.
  destruct (newItem_spec _ _ _ _ HL) as (p & v1 & rc' & E & Hfs & Hprc & Hp & Hp4 & Ev1 & Hc & Hnd & Hsub & Hst1 & Hst & Hlen).
  pose proof HL as [[Hl1 Hl2] Hseg Hndl Hmem Hcnt Hdata (_ & _ & Hrc) Hdom _].
  pose proof (bucket_lt n Hn) as Hk. set (k := bucket n) in *.
  unfold addFreeRegion. rewrite E. ostep. rewrite bsr_pos by lia. ostep. fold k.
  rewrite Ev1. cbn [items setItems setFreeItems m_freeListTable m_freeListTableCounters setTable].
  destruct (lookup_lt_is_Some_2 (m_freeListTable v) k ltac:(lia)) as [flt Hflt].
  destruct (lookup_lt_is_Some_2 (m_freeListTableCounters v) k ltac:(lia)) as [c Hct].
  rewrite (arr_get_Some _ _ _ Hflt). ostep.
  set (its1 := <[p := mkItem n b nullptr nullptr]> (items v)).
  assert (Hnot : forall j, p ∉ ls j).
  { intros j (b' & n' & E' & _)%Hmem. congruence. }
  assert (Hseg1 : forall j h, m_freeListTable v !! j = Some h -> seg its1 None h (ls j)).
  { intros j h Hj. eapply seg_ext; [|by apply Hseg]. intros q Hq. apply lookup_insert_ne.
    intros ->. by apply (Hnot j). }
  destruct (pushFront_spec its1 flt (ls k) p (mkItem n b nullptr nullptr)) as (its2 & -> & Hs2 & Hf2);
    [by apply Hseg1 | done | done | unfold nullptr; lia | apply lookup_insert_eq |].
  ostep. rewrite (arr_set_Some _ _ _ _ Hflt). ostep. rewrite (arr_get_Some _ _ _ Hct). ostep.
  rewrite (arr_set_Some _ _ _ _ Hct). ostep. eexists p, _, rc'. split; [done|].
  split; [done|]. split; [|destruct (1 <? n); cbn; split_and!; done || lia].
  assert (Hdj : forall j, j <> k -> p :: ls k ## ls j).
  { intros j Hj q [->|Hq]%elem_of_cons Hq'; [by apply (Hnot j)|]. by pose proof (l_unique _ _ _ _ _ _ _ HL Hq Hq'). }
  assert (Hits : forall q, q ∈ rc' -> its2 !! q = items v !! q).
  { intros q Hq. destruct Hf2 as [Hf2 _]. rewrite Hf2.
    - apply lookup_insert_ne. by intros ->.
    - intros [->|(b' & n' & E' & _)%Hmem]%elem_of_cons; [done|]. rewrite (Hrc q) in E'; [done|by apply Hsub]. }
  cut (LInv (<[p := (b, n)]> fs) (lsSet ls k (p :: ls k)) rc'
    (setTable (setItems (setFreeItems v (m_freeListItems v1) (m_freeListItemsStart v1)) its2)
       (<[k := p]> (m_freeListTable v)) (<[k := u64 (c + 1)]> (m_freeListTableCounters v)))).
  { intros [H1 H2 H3 H4 H5 H6 H7 H8 H9]. destruct (1 <? n); split; done. }
  split; cbn [items setItems setTable setFreeItems m_freeListTable m_freeListTableCounters m_freeListItems m_freeListItemsStart].
  - by rewrite !length_insert.
  - eapply (table_step its1); eauto; lia.
  - intros j. unfold lsSet. destruct (decide _) as [->|]; [by constructor|done].
  - intros j q. unfold lsSet. destruct (decide (q = p)) as [->|Hqp].
    + rewrite lookup_insert_eq. destruct (decide (j = k)) as [->|Hj].
      * split; [intros _; by exists b, n | intros _; by left].
      * split; [by intros ?%Hnot | intros (? & ? & [= <- <-] & ?); done].
    + rewrite lookup_insert_ne by done. rewrite <- Hmem. destruct (decide (j = k)) as [->|]; [|done].
      rewrite elem_of_cons. naive_solver.
  - rewrite (Hcnt _ _ Hct). apply (counters_step _ ls k (fun c => u64 (c + 1))); [lia | done |].
    cbn [length]. unfold u64. rewrite Zplus_mod_idemp_l. f_equal. lia.
  - intros q b' n'. rewrite lookup_insert_Some. destruct Hf2 as [_ Hf2]. rewrite Hf2. unfold its1.
    intros [[<- [= <- <-]]|[Hne Hq]]; [rewrite lookup_insert_eq; done|].
    rewrite lookup_insert_ne by done. by apply Hdata.
  - split; [|split; [done|]].
    + eapply chain1_ext; [|done]. done.
    + intros q Hq. rewrite lookup_insert_ne; [by apply Hrc, Hsub | by intros <-].
  - intros q. rewrite (frame_dom _ _ _ _ Hf2). unfold its1. rewrite lookup_insert_is_Some.
    intros [<-|[_ Hq]]; [done|]. destruct (Hdom q Hq). split; [lia|done].
  - rewrite Hst, map_size_insert_None by done. done.
Qed.

Lemma deleteFreeRegion_lists fs ls rc v p b n :
  LInv fs ls rc v -> fs !! p = Some (b, n) ->
  exists v' ls', deleteFreeRegion (bucket n) p v = Ok v' /\
    LInv (delete p fs) ls' (p :: rc) v' /\ ldata <$> items v' !! p = Some (n, b) /\
    m_memoryRegions v' = m_memoryRegions v /\
    m_virtualPages v' = m_virtualPages v /\ m_freeListTableSize v' = m_freeListTableSize v /\
    m_virtualBase v' = m_virtualBase v /\ m_freeListItemsStart v' = m_freeListItemsStart v.
Proof.
  intros HL Hp. pose proof HL as [[Hl1 Hl2] Hseg Hndl Hmem Hcnt Hdata (Hc & Hnd & Hrc) Hdom Hst].
  destruct (Hdata _ _ _ Hp) as [Hd Hn]. pose proof (bucket_lt n Hn) as Hk. set (k := bucket n) in *.
  assert (Hin : p ∈ ls k) by (apply Hmem; by exists b, n).
  assert (Hprc : p ∉ rc) by (intros ?%Hrc; congruence).
  apply list_elem_of_split in Hin as (l1 & l2 & El). pose proof (Hndl k) as Hndk. rewrite El in Hndk.
  destruct (lookup_lt_is_Some_2 (m_freeListTable v) k ltac:(lia)) as [h Hh].
  destruct (lookup_lt_is_Some_2 (m_freeListTableCounters v) k ltac:(lia)) as [c Hct].
  pose proof (Hseg k h Hh) as Hsk. rewrite El in Hsk.
  destruct (items v !! p) as [it|] eqn:Hit; [|done].
  destruct (unlink_spec _ _ _ _ _ _ Hsk Hndk Hit) as (its1 & h' & Eu & Hs1 & Hf1).
  apply NoDup_app in Hndk as (Hnd1 & Hnd12 & Hnd2). apply NoDup_cons in Hnd2 as [Hp2 Hnd2].
  assert (Hp12 : p ∉ l1 ++ l2) by (rewrite elem_of_app; intros [H|H]; [by eapply Hnd12; [|left]|done]).
  assert (Hit1 : its1 !! p = Some it) by (destruct Hf1 as [Hf1 _]; rewrite Hf1; done).
  unfold deleteFreeRegion. rewrite (arr_get_Some _ _ _ Hh). ostep. rewrite Eu. ostep.
  rewrite (arr_set_Some _ _ _ _ Hh). ostep. rewrite (deref_Some _ _ _ Hit1). ostep.
  cbn [setItems setFreeItems m_freeListTableCounters]. rewrite (arr_get_Some _ _ _ Hct). ostep.
  rewrite (arr_set_Some _ _ _ _ Hct). ostep.
  set (its2 := <[p := set_lnext it (m_freeListItems v)]> its1).
  assert (Hf2 : frame (p :: l1 ++ l2) (items v) its2).
  { eapply frame_trans; [eapply frame_weaken; [done|set_solver]|]. by eapply frame_insert; [left|..]. }
  assert (Hsub : forall q, q ∈ p :: l1 ++ l2 -> q ∈ ls k) by (intros q; rewrite El; set_solver).
  eexists _, (lsSet ls k (l1 ++ l2)). split; [done|]. split.
  2: { cbn. unfold its2. rewrite lookup_insert_eq. cbn. split_and!; done. }
  split; cbn [items setItems setTable setFreeItems m_freeListTable m_freeListTableCounters m_freeListItems m_freeListItemsStart].
  - by rewrite !length_insert.
  - eapply (table_step (items v)); eauto; [lia| |].
    + eapply seg_ext; [|done]. intros q Hq. apply lookup_insert_ne. by intros ->.
    + intros j Hj q Hq%Hsub Hq'. by pose proof (l_unique _ _ _ _ _ _ _ HL Hq Hq').
  - intros j. unfold lsSet. destruct (decide _) as [->|]; [|done]. apply NoDup_app. split_and!; try done.
    intros q Hq Hq'. eapply Hnd12; [done|]. by right.
  - intros j q. unfold lsSet. destruct (decide (q = p)) as [->|Hqp].
    + rewrite lookup_delete_eq. destruct (decide (j = k)) as [->|Hj]; [naive_solver|].
      split; [|naive_solver]. intros (b' & n' & E' & <-)%Hmem. rewrite Hp in E'. by injection E' as <- <-.
    + rewrite lookup_delete_ne by done. rewrite <- Hmem. destruct (decide (j = k)) as [->|]; [|done].
      rewrite El. set_solver.
  - rewrite (Hcnt _ _ Hct). apply (counters_step _ ls k (fun c => u64 (c - 1))); [lia | done |].
    rewrite El. unfold u64. rewrite Zminus_mod_idemp_l. f_equal. rewrite !length_app. cbn. lia.
  - intros q b' n' [Hne Hq]%lookup_delete_Some. destruct Hf2 as [_ Hf2]. rewrite Hf2. by apply Hdata.
  - split; [|split; [by constructor|]].
    + destruct (Hdom p ltac:(by rewrite Hit)). cbn. split; [done|]. split; [unfold nullptr; lia|].
      exists (set_lnext it (m_freeListItems v)). unfold its2 at 1. rewrite lookup_insert_eq. split; [done|].
      eapply chain1_ext; [|done]. intros q Hq. destruct Hf2 as [Hf2 _]. apply Hf2.
      intros (b' & n' & E' & _)%Hsub%Hmem. by rewrite (Hrc q) in E'.
    + intros q [->|Hq]%elem_of_cons; [apply lookup_delete_eq|]. apply lookup_delete_None. right. by apply Hrc.
  - intros q. rewrite (frame_dom _ _ _ _ Hf2). apply Hdom.
  - rewrite Hst. rewrite map_size_delete_Some by (by rewrite Hp).
    assert (size fs <> 0%nat) by (intros Hz%map_size_empty_inv; by rewrite Hz, lookup_empty in Hp).
    cbn [length]. f_equal. f_equal. lia.
Qed.

End Lists.

(** ** The map of the pages

    The pages are tiled by regions; [Busy] carries the [VMM_REG_ALLOC_FLAG] and
    [Free] the item of the region. *)
Inductive tile : Type :=
| Busy (n : Z) (allocated : bool)
| Free (n item : Z).

Definition tsz (t : tile) : Z := match t with Busy n _ => n | Free n _ => n end.
Definition busyWord (n : Z) (allocated : bool) : Z :=
  Z.lor (Z.lor (u64 (Z.shiftl n VMM_REG_SIZE_SHIFT)) VMM_REG_BUSY_FLAG)
    (if allocated then VMM_REG_ALLOC_FLAG else 0).
Definition firstWord (t : tile) : Z :=
  match t with Busy n fl => busyWord n fl | Free _ item => item end.
Definition lastWord (t : tile) : Z :=
  match t with Busy _ _ => VMM_REG_BUSY_FLAG | Free _ item => item end.

(** What the words of a region that starts at page [b] hold. *)
Definition slots (r : Z -> Z) (b : Z) (t : tile) : Prop :=
  0 < tsz t /\ r b = firstWord t /\ (1 < tsz t -> r (b + tsz t - 1) = lastWord t) /\
  forall i, b < i < b + tsz t - 1 -> r i = 0.

Fixpoint tiles (r : Z -> Z) (b : Z) (T : list tile) : Prop :=
  match T with
  | [] => True
  | t :: T => slots r b t /\ tiles r (b + tsz t) T
  end.

Definition tsize (T : list tile) : Z := foldr (fun t acc => tsz t + acc) 0 T.

(** The regions with their first pages. *)
Fixpoint placed (b : Z) (T : list tile) : list (Z * tile) :=
  match T with
  | [] => []
  | t :: T => (b, t) :: placed (b + tsz t) T
  end.

Definition freeItems (T : list tile) : list Z :=
  omap (fun t => match t with Free _ p => Some p | Busy _ _ => None end) T.

(** No two free regions touch: [f] tells whether the region before is free. *)
Definition isFree (t : tile) : bool := match t with Free _ _ => true | Busy _ _ => false end.
Fixpoint merged (f : bool) (T : list tile) : Prop :=
  match T with
  | [] => True
  | t :: T => f && isFree t = false /\ merged (isFree t) T
  end.
Definition endsFree (f : bool) (T : list tile) : bool := foldl (fun _ t => isFree t) f T.

Lemma merged_app T1 T2 : forall f, merged f (T1 ++ T2) <-> merged f T1 /\ merged (endsFree f T1) T2.
Proof. induction T1 as [|t T1 IH]; intros f; cbn; [naive_solver|]. rewrite IH. naive_solver. Qed.
Lemma merged_weaken f T : merged f T -> merged false T.
Proof. destruct T as [|t T]; cbn; [done|]. by intros [_ ?]. Qed.

Lemma tsize_cons t T : tsize (t :: T) = tsz t + tsize T.
Proof. done. Qed.
Lemma tsize_app T1 T2 : tsize (T1 ++ T2) = tsize T1 + tsize T2.
Proof. induction T1 as [|t T1 IH]; [done|]. rewrite <- app_comm_cons, !tsize_cons, IH. lia. Qed.

Lemma tiles_app r T1 T2 : forall b,
  tiles r b (T1 ++ T2) <-> tiles r b T1 /\ tiles r (b + tsize T1) T2.
Proof.
  induction T1 as [|t T1 IH]; intros b; cbn [app tiles].
  - change (tsize []) with 0. rewrite Z.add_0_r. naive_solver.
  - rewrite IH, tsize_cons, Z.add_assoc. naive_solver.
Qed.

Lemma tiles_pos r T : forall b, tiles r b T -> Forall (fun t => 0 < tsz t) T /\ 0 <= tsize T.
Proof.
  induction T as [|t T IH]; intros b; cbn [tiles]; [done|]. intros [(Ht & _) HT].
  destruct (IH _ HT). rewrite tsize_cons. split; [by constructor|lia].
Qed.

Lemma slots_ext r r' b t :
  (forall i, b <= i < b + tsz t -> r' i = r i) -> slots r b t -> slots r' b t.
Proof.
  intros H (H0 & H1 & H2 & H3). split; [done|]. split; [rewrite H; [done|lia]|]. split.
  - intros. rewrite H; [auto|lia].
  - intros i Hi. rewrite H; [auto|lia].
Qed.

Lemma tiles_ext r r' T : forall b,
  (forall i, b <= i < b + tsize T -> r' i = r i) -> tiles r b T -> tiles r' b T.
Proof.
  induction T as [|t T IH]; intros b H; cbn [tiles]; [done|]. intros [Ht HT].
  destruct (tiles_pos _ _ _ HT) as [_ ?]. destruct Ht as (Hp & Ht). rewrite tsize_cons in H.
  split; [eapply slots_ext; [|by split]|eapply IH; [|done]]; intros i Hi; apply H; lia.
Qed.

Lemma placed_app T1 T2 : forall b, placed b (T1 ++ T2) = placed b T1 ++ placed (b + tsize T1) T2.
Proof.
  induction T1 as [|t T1 IH]; intros b; cbn [app placed].
  - change (tsize []) with 0. by rewrite Z.add_0_r.
  - by rewrite IH, tsize_cons, Z.add_assoc.
Qed.

Lemma elem_of_placed b T x t :
  (x, t) ∈ placed b T <-> exists T1 T2, T = T1 ++ t :: T2 /\ x = b + tsize T1.
Proof.
  split.
  - revert b. induction T as [|u T IH]; intros b; [by intros ?%elem_of_nil|].
    intros [[= -> ->]|Hin]%elem_of_cons.
    + exists [], T. split; [done|]. cbn. lia.
    + destruct (IH _ Hin) as (T1 & T2 & -> & ->). exists (u :: T1), T2.
      split; [done|]. rewrite tsize_cons. lia.
  - intros (T1 & T2 & -> & ->). rewrite placed_app. apply elem_of_app. right. by left.
Qed.

Lemma placed_range r b T x t : tiles r b T -> (x, t) ∈ placed b T -> b <= x /\ x + tsz t <= b + tsize T /\ 0 < tsz t.
Proof.
  intros HT (T1 & T2 & -> & ->)%elem_of_placed. apply tiles_app in HT as [H1 [(Ht & _) H2]].
  destruct (tiles_pos _ _ _ H1), (tiles_pos _ _ _ H2). rewrite tsize_app, tsize_cons. lia.
Qed.

Lemma freeItems_cons t T :
  freeItems (t :: T) = match t with Free _ p => [p] | Busy _ _ => [] end ++ freeItems T.
Proof. by destruct t. Qed.
Lemma freeItems_app T1 T2 : freeItems (T1 ++ T2) = freeItems T1 ++ freeItems T2.
Proof. apply omap_app. Qed.

Lemma elem_of_freeItems T p : p ∈ freeItems T <-> exists n, Free n p ∈ T.
Proof.
  unfold freeItems. rewrite list_elem_of_omap. split.
  - intros ([|n q] & Ht & E); [done|]. injection E as ->. by exists n.
  - intros (n & Hn). by exists (Free n p).
Qed.

Lemma placed_Free b T p n : Free n p ∈ T -> exists x, (x, Free n p) ∈ placed b T.
Proof.
  intros (T1 & T2 & ->)%list_elem_of_split. exists (b + tsize T1). apply elem_of_placed. by exists T1, T2.
Qed.

Lemma freeItems_le r b T : tiles r b T -> Z.of_nat (length (freeItems T)) <= tsize T.
Proof.
  revert b. induction T as [|t T IH]; intros b; [done|]. intros [(Ht & _) HT].
  specialize (IH _ HT). rewrite tsize_cons, freeItems_cons, length_app.
  destruct t; cbn [length tsz] in *; lia.
Qed.

(** Exchange a run of regions for another of the same length. *)
Lemma tiles_replace r r' b T1 old new T2 :
  tiles r b (T1 ++ old ++ T2) -> tsize new = tsize old ->
  (forall i, b + tsize T1 <= i < b + tsize T1 + tsize old \/ r' i = r i) ->
  tiles r' (b + tsize T1) new -> tiles r' b (T1 ++ new ++ T2).
Proof.
  rewrite !tiles_app. intros (H1 & H2 & H3) Hsz Hr Hnew. destruct (tiles_pos _ _ _ H2).
  destruct (tiles_pos _ _ _ H1). split; [|split; [done|rewrite Hsz]].
  - eapply tiles_ext; [|done]. intros i Hi. destruct (Hr i); [lia|done].
  - eapply tiles_ext; [|done]. intros i Hi. destruct (Hr i); [lia|done].
Qed.

(** Words of the region map. *)
Lemma item_word p : 0 < p < 2 ^ 64 -> p mod 4 = 0 ->
  Z.land p VMM_REG_BUSY_FLAG = 0 /\ Z.land p VMM_REG_PTR_MASK = p.
Proof.
  intros Hp H4. assert (E : p = Z.shiftl (p / 4) 2).
  { rewrite Z.shiftl_mul_pow2 by lia. change (2 ^ 2) with 4. Z.div_mod_to_equations. lia. }
  rewrite E. split.
  - change VMM_REG_BUSY_FLAG with (Z.land 3 2). rewrite Z.land_assoc.
    change 3 with (Z.ones 2). rewrite Z.land_ones, Z.shiftl_mul_pow2, Z.mod_mul by done. done.
  - change VMM_REG_PTR_MASK with (Z.shiftl (Z.ones 62) 2). rewrite <- Z.shiftl_land. f_equal.
    rewrite Z.land_ones by done. apply Z.mod_small. split; [apply Z.div_pos; lia|].
    apply Z.div_lt_upper_bound; lia.
Qed.

Lemma busyWord_flag n fl : Z.land (busyWord n fl) VMM_REG_BUSY_FLAG <> 0.
Proof.
  intros E. assert (H : Z.testbit (Z.land (busyWord n fl) VMM_REG_BUSY_FLAG) 1 = false) by (by rewrite E).
  unfold busyWord in H. rewrite Z.land_spec, !Z.lor_spec in H. cbn in H.
  by rewrite orb_true_r in H.
Qed.

Lemma busyWord_size n fl : 0 < n < 2 ^ 52 -> Z.shiftr (busyWord n fl) VMM_REG_SIZE_SHIFT = n.
Proof.
  intros Hn. unfold busyWord, VMM_REG_SIZE_SHIFT. rewrite !Z.shiftr_lor.
  rewrite Z.shiftl_mul_pow2, u64_small by lia. rewrite (Z.shiftr_div_pow2 (n * 2 ^ 12)), Z.div_mul by lia.
  assert (Z.shiftr (if fl then VMM_REG_ALLOC_FLAG else 0) 12 = 0) as -> by (by destruct fl).
  change (Z.shiftr VMM_REG_BUSY_FLAG 12) with 0. by rewrite !Z.lor_0_r.
Qed.

Section Regions.
Context (start0 : Z) (Hstart0 : 0 < start0 /\ start0 mod 4 = 0).

(** The map of the pages and the items in use describe the same free regions. *)
Record TInv (fs : gmap Z (Z * Z)) (rc : list Z) (T : list tile) (v : Vmm) : Prop := mkTInv {
  t_tiles : tiles (m_memoryRegions v) 0 T;
  t_size : tsize T = m_virtualPages v;
  t_end : m_memoryRegions v (m_virtualPages v) = 0;
  t_bound : m_virtualPages v < 2 ^ 52 /\ start0 + sizeofItem * m_virtualPages v <= 2 ^ 64 /\
            m_virtualPages v < 2 ^ Z.of_nat (m_freeListTableSize v) /\ (m_freeListTableSize v <= 64)%nat;
  t_free : forall p b n, fs !! p = Some (b, n) <-> (b, Free n p) ∈ placed 0 T;
  t_count : size fs = length (freeItems T);
  t_items : Z.of_nat (size fs + length rc) <= m_virtualPages v;
  t_merged : merged false T
}.

(** The manager in state [v] has its pages tiled by [T]. *)
Definition VInv (T : list tile) (v : Vmm) : Prop :=
  exists fs ls rc, LInv start0 fs ls rc v /\ TInv fs rc T v.

(** A free region of the map, split off from its surroundings. *)
Lemma t_split fs rc T v p b n :
  TInv fs rc T v -> fs !! p = Some (b, n) ->
  exists T1 T2, T = T1 ++ Free n p :: T2 /\ b = tsize T1.
Proof.
  intros HT Hp. apply (t_free _ _ _ _ HT), elem_of_placed in Hp as (T1 & T2 & -> & ->).
  exists T1, T2. split; [done|lia].
Qed.

(** An item of the run [old] is the item of no region outside it. *)
Lemma t_outside fs rc T1 old T2 v p x n x' m :
  TInv fs rc (T1 ++ old ++ T2) v -> (x, Free n p) ∈ placed (tsize T1) old ->
  (x', Free m p) ∈ placed 0 T1 \/ (x', Free m p) ∈ placed (tsize T1 + tsize old) T2 -> False.
Proof.
  intros HT Hin Hin'. pose proof (t_tiles _ _ _ _ HT) as Ht. rewrite !tiles_app, Z.add_0_l in Ht.
  destruct Ht as (H1 & H2 & H3). pose proof (placed_range _ _ _ _ _ H2 Hin) as R.
  assert (fs !! p = Some (x, n)) as E.
  { apply (t_free _ _ _ _ HT). rewrite !placed_app, !elem_of_app, Z.add_0_l. auto. }
  assert (fs !! p = Some (x', m)) as E'.
  { apply (t_free _ _ _ _ HT). rewrite !placed_app, !elem_of_app, Z.add_0_l. naive_solver. }
  rewrite E in E'. injection E' as <- <-.
  destruct Hin' as [Hin'|Hin']; [pose proof (placed_range _ _ _ _ _ H1 Hin') | pose proof (placed_range _ _ _ _ _ H3 Hin')]; lia.
Qed.

(** [fs0] is [fs] without the items of [old]: it describes what is outside. *)
Lemma t_remove fs rc T1 old T2 v (fs0 : gmap Z (Z * Z)) :
  TInv fs rc (T1 ++ old ++ T2) v ->
  (forall q, fs0 !! q = if decide (q ∈ freeItems old) then None else fs !! q) ->
  forall p b n, fs0 !! p = Some (b, n) <->
    (b, Free n p) ∈ placed 0 T1 \/ (b, Free n p) ∈ placed (tsize T1 + tsize old) T2.
Proof.
  intros HT H0 p b n. rewrite H0. destruct (decide (p ∈ freeItems old)) as [Hin|Hnin].
  - split; [done|]. intros Hin'. apply elem_of_freeItems in Hin as (m & Hm).
    destruct (placed_Free (tsize T1) _ _ _ Hm) as (x & Hx). by destruct (t_outside _ _ _ _ _ _ _ _ _ _ _ HT Hx Hin').
  - rewrite (t_free _ _ _ _ HT), !placed_app, !elem_of_app, Z.add_0_l. split; [|naive_solver].
    intros [?|[Hin|?]]; [auto| |auto]. destruct Hnin. apply elem_of_freeItems. exists n.
    apply elem_of_placed in Hin as (T1' & T2' & -> & _). apply elem_of_app. right. by left.
Qed.

(** Exchanging the run [old] for [new] in the map. *)
Lemma TInv_replace fs rc T1 old new T2 v (fs0 fs' : gmap Z (Z * Z)) rc' v' :
  TInv fs rc (T1 ++ old ++ T2) v ->
  (forall q, fs0 !! q = if decide (q ∈ freeItems old) then None else fs !! q) ->
  (forall p b n, fs' !! p = Some (b, n) <->
     fs0 !! p = Some (b, n) \/ (b, Free n p) ∈ placed (tsize T1) new) ->
  (size fs' + length (freeItems old) = size fs + length (freeItems new))%nat ->
  tsize new = tsize old ->
  (forall i, tsize T1 <= i < tsize T1 + tsize old \/ m_memoryRegions v' i = m_memoryRegions v i) ->
  tiles (m_memoryRegions v') (tsize T1) new -> merged false (T1 ++ new ++ T2) ->
  (rc' = [] \/ (size fs' + length rc' <= size fs + length rc)%nat) ->
  m_virtualPages v' = m_virtualPages v -> m_freeListTableSize v' = m_freeListTableSize v ->
  TInv fs' rc' (T1 ++ new ++ T2) v'.
Proof.
  intros HT H0 Hfs' Hcnt Hsz Hr Hnew Hm Hrc HV HS.
  pose proof HT as [Ht Hsize Hend Hb Hfree Hc Hi _].
  assert (Hsize' : tsize (T1 ++ new ++ T2) = m_virtualPages v) by (rewrite !tsize_app in *; lia).
  assert (Ht' : tiles (m_memoryRegions v') 0 (T1 ++ new ++ T2))
    by (eapply (tiles_replace (m_memoryRegions v)); eauto).
  assert (Hc' : size fs' = length (freeItems (T1 ++ new ++ T2))).
  { rewrite !freeItems_app, !length_app in *. lia. }
  split; rewrite ?HV, ?HS; try done.
  - rewrite !tiles_app in Ht. destruct Ht as (_ & _ & H3). pose proof (tiles_pos _ _ _ H3).
    destruct (Hr (m_virtualPages v)) as [?| ->]; [|done]. rewrite <- Hsize, !tsize_app in *. lia.
  - intros p b n. rewrite Hfs', (t_remove _ _ _ _ _ _ _ HT H0), !placed_app, !elem_of_app, Z.add_0_l, Hsz.
    naive_solver.
  - destruct Hrc as [->|Hrc]; [|lia]. cbn [length]. pose proof (freeItems_le _ _ _ Ht'). lia.
Qed.

(** The items of the table point to valid words of the map. *)
Lemma VInv_item fs ls rc T v p b n :
  LInv start0 fs ls rc v -> TInv fs rc T v -> fs !! p = Some (b, n) ->
  0 < p < 2 ^ 64 /\ p mod 4 = 0 /\ 0 <= b /\ 0 < n /\ b + n <= m_virtualPages v.
Proof.
  intros HL HT Hp. destruct (l_data _ _ _ _ _ HL _ _ _ Hp) as [Hd Hn].
  destruct (l_dom _ _ _ _ _ HL p) as [R H4]; [destruct (items v !! p); [by eexists|done]|].
  pose proof (l_start _ _ _ _ _ HL) as Hs. pose proof (t_items _ _ _ _ HT). pose proof (t_bound _ _ _ _ HT) as (_ & B & _).
  apply (t_free _ _ _ _ HT) in Hp. pose proof (placed_range _ _ _ _ _ (t_tiles _ _ _ _ HT) Hp) as R'.
  rewrite (t_size _ _ _ _ HT) in R'. cbn [tsz] in R'. unfold sizeofItem in *. split_and!; lia.
Qed.

(** *** Allocation *)

Lemma setBusyRegion_lists fs ls rc v p b n np :
  LInv start0 fs ls rc v -> fs !! p = Some (b, n) ->
  exists v' ls', setBusyRegion (bucket n) p np v = Ok v' /\ LInv start0 (delete p fs) ls' (p :: rc) v' /\
    ldata <$> items v' !! p = Some (n, b) /\
    m_memoryRegions v' = (let r := wset (m_memoryRegions v) b (busyWord np false) in
                          if 1 <? np then wset r (b + np - 1) VMM_REG_BUSY_FLAG else r) /\
    m_virtualPages v' = m_virtualPages v /\ m_freeListTableSize v' = m_freeListTableSize v /\
    m_virtualBase v' = m_virtualBase v.
Proof.
  intros HL Hp. destruct (deleteFreeRegion_lists start0 Hstart0 _ _ _ _ _ _ _ HL Hp)
    as (v1 & ls' & E & HL' & Hd' & Hr & HV & HS & HB & _).
  destruct (l_data _ _ _ _ _ HL _ _ _ Hp) as [Hd Hn]. unfold setBusyRegion.
  destruct (items v !! p) as [it|] eqn:Hit; [|done]. injection Hd as <- <-.
  rewrite (deref_Some _ _ _ Hit). ostep. rewrite E. ostep. eexists _, ls'. split; [done|].
  assert (Ew : Z.lor (u64 (Z.shiftl np VMM_REG_SIZE_SHIFT)) VMM_REG_BUSY_FLAG = busyWord np false)
    by (unfold busyWord; by rewrite Z.lor_0_r). rewrite Ew.
  destruct HL' as [H1 H2 H3 H4 H5 H6 H7 H8 H9].
  destruct (1 <? np); (split; [split; done|]); cbn; rewrite Hr; done.
Qed.

(** The words of a busy region just marked. *)
Lemma slots_busy r b n :
  0 < n -> (forall i, b < i < b + n - 1 -> r i = 0) ->
  slots (let r := wset r b (busyWord n false) in
         if 1 <? n then wset r (b + n - 1) VMM_REG_BUSY_FLAG else r) b (Busy n false).
Proof.
  intros Hn Hi. split; [done|]. cbn [tsz firstWord lastWord]. destruct (Z.ltb_spec 1 n); cbv zeta; unfold wset.
  - split_and!; intros; zbool; try lia; try done. by apply Hi.
  - split_and!; intros; zbool; try lia; try done.
Qed.
Lemma slots_free r b n p :
  0 < n -> (forall i, b < i < b + n - 1 -> r i = 0) ->
  slots (let r := wset r b p in if 1 <? n then wset r (b + n - 1) p else r) b (Free n p).
Proof.
  intros Hn Hi. split; [done|]. cbn [tsz firstWord lastWord]. destruct (Z.ltb_spec 1 n); cbv zeta; unfold wset.
  - split_and!; intros; zbool; try lia; try done. by apply Hi.
  - split_and!; intros; zbool; try lia; try done.
Qed.

(** Marks touch only the region they mark. *)
Lemma marks_outside r b n w w' i :
  0 < n -> b <= i < b + n \/ (let r := wset r b w in if 1 <? n then wset r (b + n - 1) w' else r) i = r i.
Proof. intros Hn. cbv zeta. unfold wset. destruct (Z.ltb_spec 1 n); zbool; lia || auto. Qed.

(** The inside of a free region holds zeros. *)
Lemma free_inside r b T1 n p T2 i :
  tiles r b (T1 ++ Free n p :: T2) -> b + tsize T1 < i < b + tsize T1 + n - 1 -> r i = 0.
Proof. intros (_ & (_ & _ & _ & Hi) & _)%tiles_app ?. by apply Hi. Qed.

Lemma fs_without1 (fs : gmap Z (Z * Z)) n p q :
  delete p fs !! q = if decide (q ∈ freeItems [Free n p]) then None else fs !! q.
Proof.
  cbn. destruct (decide (q ∈ [p])) as [->%list_elem_of_singleton|Hne]; [apply lookup_delete_eq|].
  apply lookup_delete_ne. set_solver.
Qed.

Lemma takeRegion_exact fs ls rc T1 n p T2 v :
  LInv start0 fs ls rc v -> TInv fs rc (T1 ++ Free n p :: T2) v ->
  exists v', takeRegion (bucket n) p n v = Ok (tsize T1, v') /\ VInv (T1 ++ Busy n false :: T2) v' /\
    m_virtualBase v' = m_virtualBase v /\ m_virtualPages v' = m_virtualPages v.
Proof.
  intros HL HT. assert (Hp : fs !! p = Some (tsize T1, n)).
  { apply (t_free _ _ _ _ HT), elem_of_placed. by exists T1, T2. }
  destruct (setBusyRegion_lists _ _ _ _ _ _ _ n HL Hp) as (v1 & ls' & E & HL' & _ & Hr & HV & HS & HB).
  destruct (l_data _ _ _ _ _ HL _ _ _ Hp) as [Hd Hn]. unfold takeRegion.
  destruct (items v !! p) as [it|] eqn:Hit; [|done]. injection Hd as Hd1 Hd2.
  rewrite (deref_Some _ _ _ Hit). ostep. rewrite E. ostep. exists v1. rewrite Hd2. split; [done|].
  split; [|done]. exists (delete p fs), ls', (p :: rc). split; [done|].
  change (T1 ++ Busy n false :: T2) with (T1 ++ [Busy n false] ++ T2).
  assert (Hsz : size fs <> 0%nat) by (intros Hz%map_size_empty_inv; by rewrite Hz, lookup_empty in Hp).
  assert (Hsd : size (delete p fs) = Nat.pred (size fs)) by (apply map_size_delete_Some; by rewrite Hp).
  eapply (TInv_replace fs rc T1 [Free n p] _ T2 v (delete p fs)); try done.
  - apply fs_without1.
  - intros q b' n'. cbn. split; [auto|]. intros [?|[=]%list_elem_of_singleton]; done.
  - rewrite Hsd. cbn. lia.
  - intros i. rewrite Hr. cbn. rewrite Z.add_0_r. apply marks_outside. lia.
  - split; [|done]. rewrite Hr. apply slots_busy; [lia|]. intros i Hi.
    eapply (free_inside _ 0 T1 n p T2); [apply (t_tiles _ _ _ _ HT)|lia].
  - pose proof (t_merged _ _ _ _ HT) as Hm. rewrite merged_app in Hm |- *. cbn in *.
    destruct Hm as (? & _ & ?). split; [done|]. rewrite andb_false_r. split; [done|by eapply merged_weaken].
  - right. rewrite Hsd. cbn. lia.
Qed.

Lemma splitRegion_spec fs ls rc T1 n p T2 np (rest : Item -> Z) v :
  LInv start0 fs ls rc v -> TInv fs rc (T1 ++ Free n p :: T2) v -> 0 < np < n ->
  (forall it, ldata it = (n, tsize T1) -> rest it = n - np) ->
  exists v' p', splitRegion rest (bucket n) p np v = Ok (tsize T1, v') /\
    VInv (T1 ++ Busy np false :: Free (n - np) p' :: T2) v' /\
    m_virtualBase v' = m_virtualBase v /\ m_virtualPages v' = m_virtualPages v.
Proof.
  intros HL HT Hnp Hrest. assert (Hp : fs !! p = Some (tsize T1, n)).
  { apply (t_free _ _ _ _ HT), elem_of_placed. by exists T1, T2. }
  destruct (setBusyRegion_lists _ _ _ _ _ _ _ np HL Hp) as (v1 & ls1 & E1 & HL1 & Hd1 & Hr1 & HV1 & HS1 & HB1).
  destruct (l_data _ _ _ _ _ HL _ _ _ Hp) as [Hd Hn]. unfold splitRegion.
  destruct (items v !! p) as [it|] eqn:Hit; [|done]. injection Hd as _ Hd2.
  destruct (items v1 !! p) as [it1|] eqn:Hit1; [|done]. injection Hd1 as Hd3 Hd4.
  rewrite (deref_Some _ _ _ Hit). ostep. rewrite E1. ostep. rewrite (deref_Some _ _ _ Hit1). ostep.
  rewrite Hrest by (cbn; congruence). rewrite Hd4.
  destruct (addFreeRegion_lists start0 Hstart0 _ _ _ _ (tsize T1 + np) (n - np) HL1 ltac:(lia))
    as (p' & v2 & rc2 & E2 & Hn2 & HL2 & Hp2 & _ & Hr2 & HV2 & HS2 & HB2 & Hrc2).
  rewrite E2. ostep. rewrite Hd2. exists v2, p'. split; [done|]. split; [|split; congruence].
  eexists _, _, rc2. split; [exact HL2|].
  change (T1 ++ Busy np false :: Free (n - np) p' :: T2) with (T1 ++ [Busy np false; Free (n - np) p'] ++ T2).
  assert (Hsz : size fs <> 0%nat) by (intros Hz%map_size_empty_inv; by rewrite Hz, lookup_empty in Hp).
  assert (Hsd : size (delete p fs) = Nat.pred (size fs)) by (apply map_size_delete_Some; by rewrite Hp).
  eapply (TInv_replace fs rc T1 [Free n p] _ T2 v (delete p fs)); try done; try congruence.
  - apply fs_without1.
  - intros q b' n'. cbn [placed tsz]. rewrite lookup_insert_Some, !elem_of_cons.
    split; [intros [[<- [= <- <-]]|[? ?]]; auto|].
    intros [?|[[=]|[[= -> -> ->]|?%elem_of_nil]]]; [|by left|done]. right. split; [intros ->; congruence|done].
  - rewrite map_size_insert_None, Hsd by done. cbn. lia.
  - cbn. lia.
  - intros i. rewrite Hr2. cbn [tsize foldr tsz]. rewrite Z.add_0_r.
    destruct (marks_outside (m_memoryRegions v) (tsize T1) np (busyWord np false) VMM_REG_BUSY_FLAG i ltac:(lia));
      destruct (marks_outside (m_memoryRegions v1) (tsize T1 + np) (n - np) p' p' i ltac:(lia)) as [?|E];
      try (left; lia). right. etrans; [exact E|]. by rewrite Hr1.
  - rewrite Hr2. assert (Hin : forall i, tsize T1 < i < tsize T1 + n - 1 -> m_memoryRegions v i = 0).
    { intros i Hi. eapply (free_inside _ 0 T1 n p T2); [apply (t_tiles _ _ _ _ HT)|lia]. }
    split; [|split; [|done]].
    + eapply (slots_ext (m_memoryRegions v1)).
      * cbn [tsz]. intros i Hi. by destruct (marks_outside (m_memoryRegions v1) (tsize T1 + np) (n - np) p' p' i ltac:(lia)); [lia|].
      * rewrite Hr1. apply slots_busy; [lia|]. intros i Hi. apply Hin. lia.
    + cbn [tsz]. apply slots_free; [lia|]. intros i Hi. rewrite Hr1.
      destruct (marks_outside (m_memoryRegions v) (tsize T1) np (busyWord np false) VMM_REG_BUSY_FLAG i ltac:(lia))
        as [?|E]; [lia|]. etrans; [exact E|]. apply Hin. lia.
  - pose proof (t_merged _ _ _ _ HT) as Hm. rewrite merged_app in Hm |- *. cbn in *.
    destruct Hm as (? & _ & ?). rewrite andb_false_r. done.
  - destruct Hrc2 as [->|Hrc2]; [by left|right]. rewrite map_size_insert_None, Hsd by done. cbn in Hrc2. lia.
Qed.

(** The tightest fit found so far. *)
Definition bestFit (fs : gmap Z (Z * Z)) (k : nat) (np minItem minDelta : Z) : Prop :=
  (minItem = nullptr /\ minDelta = size_max) \/
  (minItem <> nullptr /\
   exists b n, fs !! minItem = Some (b, n) /\ bucket n = k /\ minDelta = n - np /\ 0 < minDelta).

Lemma scanList_spec fs its k np l : forall m prev cur minItem minDelta,
  seg its prev cur l -> (m <= length l)%nat -> 0 < np -> bestFit fs k np minItem minDelta ->
  (forall p, p ∈ l -> exists b n, fs !! p = Some (b, n) /\ bucket n = k /\
     ldata <$> its !! p = Some (n, b) /\ 0 < n < 2 ^ 52) ->
  (exists p b, scanList its m np cur minItem minDelta = Ok (Found p) /\ fs !! p = Some (b, np)) \/
  (exists cur' minItem' minDelta',
     scanList its m np cur minItem minDelta = Ok (Searched cur' minItem' minDelta') /\
     bestFit fs k np minItem' minDelta' /\ seg its None cur' (drop m l) /\
     (minItem' = nullptr -> minItem = nullptr /\
        forall p b n, p ∈ take m l -> fs !! p = Some (b, n) -> n < np)).
Proof.
  induction l as [|p l IH]; intros [|m] prev cur minItem minDelta Hs Hm Hnp Hbest Hl; cbn in Hm; try lia.
  1,2: right; exists cur, minItem, minDelta; split; [done|]; split; [done|];
    split; [by eapply seg_any_prev|]; intros ->; split; [done|]; by intros ? ? ? ?%elem_of_nil.
  cbn [scanList]. destruct Hs as (-> & Hp0 & it & Hit & _ & Hs).
  destruct (Hl p ltac:(by left)) as (b & n & Hfs & Hk & Hd & Hn). rewrite Hit in Hd. injection Hd as Hd1 Hd2.
  rewrite (deref_Some _ _ _ Hit). ostep. rewrite Hd1.
  assert (Hl' : forall q, q ∈ l -> exists b n, fs !! q = Some (b, n) /\ bucket n = k /\
     ldata <$> its !! q = Some (n, b) /\ 0 < n < 2 ^ 52) by (intros q Hq; apply Hl; by right).
  (* the node is passed over: the search goes on with [mi] and [md] *)
  assert (Hgo : forall mi md, bestFit fs k np mi md -> (mi = nullptr -> minItem = nullptr /\ n < np) ->
    (exists p b, scanList its m np (m_next it) mi md = Ok (Found p) /\ fs !! p = Some (b, np)) \/
    (exists cur' minItem' minDelta', scanList its m np (m_next it) mi md = Ok (Searched cur' minItem' minDelta') /\
     bestFit fs k np minItem' minDelta' /\ seg its None cur' (drop m l) /\
     (minItem' = nullptr -> minItem = nullptr /\
        forall q b n, q ∈ take (S m) (p :: l) -> fs !! q = Some (b, n) -> n < np))).
  { intros mi md Hb Hmi. destruct (IH m (Some p) (m_next it) mi md) as [?|(c & i & d & E & Hb' & Hs' & Hall)];
      try done; [lia|by left|right]. exists c, i, d. split_and!; try done. intros Hi.
    destruct (Hall Hi) as [Hmi0 Hall']. destruct (Hmi Hmi0). split; [done|]. cbn [take].
    intros q b' n' [->|Hq]%elem_of_cons Hq'; [congruence|eauto]. }
  destruct (Z.leb_spec np n).
  - destruct (Z.eqb_spec (n - np) 0); [left; exists p, b; split; [done|]; rewrite Hfs; do 2 f_equal; lia|].
    destruct (Z.ltb_spec (n - np) minDelta).
    + apply Hgo; [|done]. right. split; [done|]. exists b, n. split_and!; done || lia.
    + apply Hgo; [done|]. intros ->. exfalso. destruct Hbest as [[_ ->]|[? _]]; [|done].
      unfold size_max in *. lia.
  - apply Hgo; [done|]. intros ->. split; [done|lia].
Qed.

Lemma scanTable_spec counters n : forall idx, (idx + n <= length counters)%nat ->
  (scanTable counters n idx = Ok None /\
   forall j c, (idx <= j < idx + n)%nat -> counters !! j = Some c -> c <= 0) \/
  (exists j c, scanTable counters n idx = Ok (Some j) /\ (idx <= j < idx + n)%nat /\
     counters !! j = Some c /\ 0 < c).
Proof.
  induction n as [|n IH]; intros idx Hn; cbn [scanTable].
  { left. split; [done|]. lia. }
  destruct (lookup_lt_is_Some_2 counters idx ltac:(lia)) as [c Hc]. rewrite (arr_get_Some _ _ _ Hc). ostep.
  destruct (Z.ltb_spec 0 c).
  - right. exists idx, c. split_and!; done || lia.
  - destruct (IH (S idx) ltac:(lia)) as [[-> Hall]|(j & c' & -> & Hj & ? & ?)].
    + left. split; [done|]. intros j c' Hj Hc'. destruct (decide (j = idx)) as [->|]; [congruence|].
      eapply (Hall j); [lia|done].
    + right. exists j, c'. split_and!; done || lia.
Qed.

(** The counters are the lengths of the lists. *)
Lemma cnt_exact fs ls rc T v k c :
  LInv start0 fs ls rc v -> TInv fs rc T v -> m_freeListTableCounters v !! k = Some c ->
  c = Z.of_nat (length (ls k)).
Proof.
  intros HL HT Hc. rewrite (l_cnt _ _ _ _ _ HL _ _ Hc). apply u64_small.
  assert (Hle : (length (ls k) <= size fs)%nat).
  { rewrite <- (size_list_to_set (C := gset Z)) by apply (l_nodup _ _ _ _ _ HL).
    rewrite <- size_dom. apply subseteq_size. intros p Hp%elem_of_list_to_set.
    apply (l_mem _ _ _ _ _ HL) in Hp as (b & n & E & _). by apply elem_of_dom_2 in E. }
  pose proof (t_items _ _ _ _ HT). pose proof (t_bound _ _ _ _ HT) as (? & _). lia.
Qed.

Lemma bucket_mono n m : 0 < n <= m -> (bucket n <= bucket m)%nat.
Proof. intros H. unfold bucket. pose proof (Z.log2_le_mono n m ltac:(lia)). lia. Qed.

Lemma bucket_table fs ls rc T v p b n :
  LInv start0 fs ls rc v -> TInv fs rc T v -> fs !! p = Some (b, n) -> (bucket n < m_freeListTableSize v)%nat.
Proof.
  intros HL HT Hp. destruct (VInv_item _ _ _ _ _ _ _ _ HL HT Hp) as (_ & _ & ? & ? & ?).
  pose proof (t_bound _ _ _ _ HT) as (_ & _ & B & _). unfold bucket.
  pose proof (Z.log2_lt_pow2 n (Z.of_nat (m_freeListTableSize v)) ltac:(lia)). pose proof (Z.log2_nonneg n). lia.
Qed.

(** The abstract allocation: [np] pages off the front of some free region. *)
Definition taken (T : list tile) (np page : Z) (T' : list tile) : Prop :=
  exists T1 n p T2, T = T1 ++ Free n p :: T2 /\ page = tsize T1 /\
    ((n = np /\ T' = T1 ++ Busy np false :: T2) \/
     (np < n /\ exists p', T' = T1 ++ Busy np false :: Free (n - np) p' :: T2)).

Lemma take_exact T fs ls rc v p b np :
  LInv start0 fs ls rc v -> TInv fs rc T v -> fs !! p = Some (b, np) ->
  exists T' v', takeRegion (bucket np) p np v = Ok (b, v') /\ taken T np b T' /\ VInv T' v'.
Proof.
  intros HL HT Hp. destruct (t_split _ _ _ _ _ _ _ HT Hp) as (T1 & T2 & -> & ->).
  destruct (takeRegion_exact _ _ _ _ _ _ _ _ HL HT) as (v' & E & HV & _). eexists _, v'.
  split; [done|]. split; [|done]. exists T1, np, p, T2. naive_solver.
Qed.

Lemma take_split T fs ls rc v p b n np rest :
  LInv start0 fs ls rc v -> TInv fs rc T v -> fs !! p = Some (b, n) -> 0 < np < n ->
  (forall it, ldata it = (n, b) -> rest it = n - np) ->
  exists T' v', splitRegion rest (bucket n) p np v = Ok (b, v') /\ taken T np b T' /\ VInv T' v'.
Proof.
  intros HL HT Hp Hn Hr. destruct (t_split _ _ _ _ _ _ _ HT Hp) as (T1 & T2 & -> & ->).
  destruct (splitRegion_spec _ _ _ _ _ _ _ np rest _ HL HT Hn Hr) as (v' & p' & E & HV & _). eexists _, v'.
  split; [done|]. split; [|done]. exists T1, n, p, T2. split_and!; [done..|]. right. naive_solver.
Qed.

(** The search of the own size class of a request. *)
Lemma ownClass fs ls rc T v np :
  LInv start0 fs ls rc v -> TInv fs rc T v -> 0 < np < 2 ^ 52 ->
  exists c h, m_freeListTableCounters v !! bucket np = Some c /\ m_freeListTable v !! bucket np = Some h /\
    c = Z.of_nat (length (ls (bucket np))) /\ seg (items v) None h (ls (bucket np)) /\
    forall p, p ∈ ls (bucket np) -> exists b n, fs !! p = Some (b, n) /\ bucket n = bucket np /\
      ldata <$> items v !! p = Some (n, b) /\ 0 < n < 2 ^ 52.
Proof.
  intros HL HT Hnp. pose proof (bucket_lt np Hnp). destruct (l_len _ _ _ _ _ HL) as [H1 H2].
  destruct (lookup_lt_is_Some_2 (m_freeListTableCounters v) (bucket np) ltac:(lia)) as [c Hc].
  destruct (lookup_lt_is_Some_2 (m_freeListTable v) (bucket np) ltac:(lia)) as [h Hh].
  exists c, h. split_and!; try done; [by eapply cnt_exact | by apply (l_seg _ _ _ _ _ HL) |].
  intros p (b & n & E & Hk)%(l_mem _ _ _ _ _ HL). exists b, n. split_and!; try done; by eapply (l_data _ _ _ _ _ HL).
Qed.

(** The first region of a larger size class is always large enough. *)
Lemma largerClass fs ls rc T v np j c :
  LInv start0 fs ls rc v -> TInv fs rc T v -> 0 < np -> (bucket np < j)%nat ->
  m_freeListTableCounters v !! j = Some c -> 0 < c ->
  exists p b n, m_freeListTable v !! j = Some p /\ fs !! p = Some (b, n) /\ np < n /\ bucket n = j.
Proof.
  intros HL HT Hnp Hj Hc Hpos. pose proof (cnt_exact _ _ _ _ _ _ _ HL HT Hc) as ->.
  apply lookup_lt_Some in Hc as Hlt. destruct (l_len _ _ _ _ _ HL) as [H1 H2].
  destruct (lookup_lt_is_Some_2 (m_freeListTable v) j ltac:(lia)) as [h Hh].
  pose proof (l_seg _ _ _ _ _ HL _ _ Hh) as Hs. destruct (ls j) as [|p l] eqn:El; [cbn in Hpos; lia|].
  destruct Hs as (-> & _). assert (Hin : p ∈ ls j) by (rewrite El; by left).
  apply (l_mem _ _ _ _ _ HL) in Hin as (b & n & E & Hk). exists p, b, n. split_and!; try done.
  destruct (Z.lt_ge_cases np n); [done|]. destruct (l_data _ _ _ _ _ HL _ _ _ E) as [_ ?].
  pose proof (bucket_mono n np ltac:(lia)). lia.
Qed.

(** The search in the list of the own size class, up to the limit. *)
Definition searchMax (c : Z) : Z := if c <? g_maxAllocIterations then c else g_maxAllocIterations.

Lemma ownSearch fs ls rc v np c h :
  LInv start0 fs ls rc v -> 0 < np < 2 ^ 52 -> m_freeListTable v !! bucket np = Some h ->
  c = Z.of_nat (length (ls (bucket np))) -> seg (items v) None h (ls (bucket np)) ->
  (forall p, p ∈ ls (bucket np) -> exists b n, fs !! p = Some (b, n) /\ bucket n = bucket np /\
      ldata <$> items v !! p = Some (n, b) /\ 0 < n < 2 ^ 52) ->
  exists r, (if 0 <? searchMax c then head ← arr_get (m_freeListTable v) (bucket np);
       scanList (items v) (Z.to_nat (searchMax c)) np head nullptr size_max
     else Ok (Searched nullptr nullptr size_max)) = Ok r /\
    match r with
    | Found p => exists b, fs !! p = Some (b, np)
    | Searched cur mi md => bestFit fs (bucket np) np mi md /\
        seg (items v) None cur (drop (Z.to_nat (searchMax c)) (ls (bucket np))) /\
        (mi = nullptr -> forall p b n, p ∈ take (Z.to_nat (searchMax c)) (ls (bucket np)) -> fs !! p = Some (b, n) -> n < np)
    end.
Proof.
  intros HL Hnp Hh Ec Hs Hown. set (k := bucket np) in *.
  assert (Hm : 0 <= searchMax c <= c /\ (searchMax c = 0 -> c = 0)) by (unfold searchMax, g_maxAllocIterations; destruct (Z.ltb_spec c 32); lia).
  destruct (Z.ltb_spec 0 (searchMax c)).
  - rewrite (arr_get_Some _ _ _ Hh). ostep.
    destruct (scanList_spec fs (items v) k np (ls k) (Z.to_nat (searchMax c)) None h nullptr size_max)
      as [(p & b & -> & ?)|(cur & mi & md & -> & ? & Hcur & Hall)]; try done; [lia|lia|by left|eexists; split; [done|]; by exists b|].
    eexists. split; [done|]. split_and!; [done | done |]. intros Hmi. by apply Hall.
  - eexists. split; [done|]. assert (ls k = []) as -> by (destruct (ls k); [done | cbn in *; lia]). rewrite drop_nil, take_nil.
    split; [by left|]. split; [done|]. by intros _ p b n Hp%elem_of_nil.
Qed.

(** The rest of the list, as the last resort looks through it. *)
Lemma scanRest_spec (fs : gmap Z (Z * Z)) its k np l : forall fuel prev cur, seg its prev cur l -> (length l < fuel)%nat ->
  (forall p, p ∈ l -> exists b n, fs !! p = Some (b, n) /\ bucket n = k /\ ldata <$> its !! p = Some (n, b) /\ 0 < n < 2 ^ 52) ->
  (scanRest its fuel np cur = Ok None /\ forall p b n, p ∈ l -> fs !! p = Some (b, n) -> n < np) \/
  (exists p b n, scanRest its fuel np cur = Ok (Some p) /\ p ∈ l /\ fs !! p = Some (b, n) /\ bucket n = k /\ np <= n).
Proof.
  induction l as [|p l IH]; intros [|fuel] prev cur Hs Hf Hl; cbn in Hf; try lia; cbn [scanRest].
  - cbn in Hs. rewrite Hs, Z.eqb_refl. left. split; [done|]. by intros p b n Hp%elem_of_nil.
  - destruct Hs as (-> & Hp0 & it & Hit & _ & Hs). destruct (Z.eqb_spec p nullptr) as [|_]; [done|].
    destruct (Hl p ltac:(by left)) as (b & n & Hfs & Hk & Hd & Hn'). rewrite Hit in Hd. injection Hd as Hd1 Hd2.
    rewrite (deref_Some _ _ _ Hit). ostep. rewrite Hd1. destruct (Z.leb_spec np n).
    + right. exists p, b, n. split_and!; try done. by left.
    + destruct (IH fuel (Some p) (m_next it) Hs ltac:(lia)) as [[-> Hall]|(q & b' & n' & -> & Hq & ?)].
      * intros q Hq. apply Hl. by right.
      * left. split; [done|]. intros q b' n' [->|Hq]%elem_of_cons Hfq; [congruence|eauto].
      * right. exists q, b', n'. split; [done|]. split; [by right|done].
Qed.

(** The last resort of [allocPages]: behind [g_maxAllocIterations] regions that are too
    small in the list of the request's own size class, when no larger class has a
    region, a region larger than the request is taken whole. *)
Definition lastResort (np : Z) (v : Vmm) : bool :=
  match (tblIndex ← cpuLastOneBitIndex np;
         c ← arr_get (m_freeListTableCounters v) tblIndex;
         head ← arr_get (m_freeListTable v) tblIndex;
         r ← scanList (items v) (Z.to_nat (searchMax c)) np head nullptr size_max;
         match r with
         | Searched curListItem minItem _ =>
             if minItem =? nullptr then
               o ← scanTable (m_freeListTableCounters v) (m_freeListTableSize v - S tblIndex) (S tblIndex);
               match o with
               | None =>
                   o ← scanRest (items v) (S (size (items v))) np curListItem;
                   match o with Some item => it ← deref (items v) item; Ok (np <? m_numPages it) | None => Ok false end
               | Some _ => Ok false
               end
             else Ok false
         | Found _ => Ok false
         end) with Ok b => b | _ => false end.

(** What it does: the region's first page is returned, and the pages behind the request
    are in no list any more. *)
Definition lastResortTaken (T : list tile) (v : Vmm) (np page : Z) : Prop :=
  lastResort np v = true /\
  (exists c, m_freeListTableCounters v !! bucket np = Some c /\ g_maxAllocIterations < c) /\
  exists T1 n p T2, T = T1 ++ Free n p :: T2 /\ page = tsize T1 /\ np < n /\ bucket n = bucket np.

Lemma list_size fs ls rc v k : LInv start0 fs ls rc v -> (length (ls k) <= size (items v))%nat.
Proof.
  intros HL. rewrite <- (size_list_to_set (C := gset Z)) by apply (l_nodup _ _ _ _ _ HL). rewrite <- size_dom.
  apply subseteq_size. intros p Hp%elem_of_list_to_set. apply (l_mem _ _ _ _ _ HL) in Hp as (b & n & E & _).
  destruct (l_data _ _ _ _ _ HL _ _ _ E) as [Hd _]. apply elem_of_dom. destruct (items v !! p); [by eexists | done].
Qed.

Lemma allocPages_spec T v np :
  VInv T v -> 0 < np < 2 ^ 52 ->
  exists page v', allocPages np v = Ok (page, v') /\
    ((page = g_invalidPageOffset /\ v' = v /\ forall n p, Free n p ∈ T -> n < np) \/
     (lastResort np v = false /\ exists T', taken T np page T' /\ VInv T' v') \/
     lastResortTaken T v np page).
Proof.
  intros (fs & ls & rc & HL & HT) Hnp. unfold allocPages, lastResortTaken, lastResort. rewrite bsr_pos by lia. ostep.
  destruct (ownClass _ _ _ _ _ _ HL HT Hnp) as (c & h & Hc & Hh & Ec & Hs & Hown).
  rewrite (arr_get_Some _ _ _ Hc). ostep. rewrite (arr_get_Some _ _ _ Hh). fold (searchMax c).
  destruct (ownSearch _ _ _ _ _ _ _ HL Hnp Hh Ec Hs Hown) as (r & Er & Hr). rewrite (arr_get_Some _ _ _ Hh) in Er. rewrite Er. ostep.
  assert (Hm : 0 <= searchMax c <= c /\ (searchMax c < c -> g_maxAllocIterations < c /\ 0 < searchMax c))
    by (unfold searchMax, g_maxAllocIterations; destruct (Z.ltb_spec c 32); lia).
  assert (Er' : scanList (items v) (Z.to_nat (searchMax c)) np h nullptr size_max = Ok r \/ ls (bucket np) = []).
  { revert Er. destruct (Z.ltb_spec 0 (searchMax c)); [intros E; by left|]. intros _. right.
    destruct (ls (bucket np)); [done|]. cbn in Ec. lia. }
  set (k := bucket np) in *. destruct r as [p|cur mi md].
  { destruct Hr as (b & Hp). destruct (take_exact _ _ _ _ _ _ _ _ HL HT Hp) as (T' & v' & E & ?).
    exists b, v'. split; [done|]. right. left. split; [|by exists T'].
    assert (Hin : p ∈ ls k) by (apply (l_mem _ _ _ _ _ HL); by exists b, np).
    destruct Er' as [->|El]; [done|]. rewrite El in Hin. by apply elem_of_nil in Hin. }
  destruct Hr as (Hbest & Hcur & Hnone). destruct (Z.eqb_spec mi nullptr) as [Hmi|Hmi]; cbn [negb].
  2: { destruct Hbest as [[? _]|(_ & b & n & Hp & Hk & -> & ?)]; [done|].
       destruct (take_split _ _ _ _ _ _ _ _ np (fun _ => n - np) HL HT Hp) as (T' & v' & E & ?); [lia|done|]. rewrite Hk in E.
       exists b, v'. split; [done|]. right. left. split; [|by exists T'].
       assert (Hin : mi ∈ ls k) by (apply (l_mem _ _ _ _ _ HL); by exists b, n).
       destruct Er' as [->|El]; [ostep; by destruct (Z.eqb_spec mi nullptr)|]. rewrite El in Hin. by apply elem_of_nil in Hin. }
  pose proof (t_bound _ _ _ _ HT) as (_ & _ & _ & B). destruct (l_len _ _ _ _ _ HL) as [_ H2].
  destruct (scanTable_spec (m_freeListTableCounters v) (m_freeListTableSize v - S k) (S k))
    as [[Et Hall]|(j & cj & Et & Hj & Hcj & Hpos)]; [pose proof (bucket_lt np Hnp); lia|..]; rewrite Et; ostep.
  - assert (Hrest : forall p, p ∈ drop (Z.to_nat (searchMax c)) (ls k) -> p ∈ ls k).
    { intros p Hp. rewrite <- (take_drop (Z.to_nat (searchMax c)) (ls k)). apply elem_of_app. by right. }
    destruct (scanRest_spec fs (items v) k np (drop (Z.to_nat (searchMax c)) (ls k)) (S (size (items v))) None cur)
      as [[Es Hnr]|(p & b & n & Es & Hp & Hfp & Hkn & Hge)]; [done | | by eauto | |].
    { rewrite length_drop. pose proof (list_size _ _ _ _ k HL). lia. }
    + rewrite Es. ostep. exists g_invalidPageOffset, v. split; [done|]. left.
      split_and!; [done..|]. intros n p (x & Hx)%(placed_Free 0). apply (t_free _ _ _ _ HT) in Hx.
      destruct (Z.lt_ge_cases n np); [done|]. exfalso.
      pose proof (bucket_mono np n ltac:(lia)). pose proof (bucket_table _ _ _ _ _ _ _ _ HL HT Hx).
      assert (Hin : p ∈ ls (bucket n)) by (apply (l_mem _ _ _ _ _ HL); eauto).
      destruct (decide (bucket n = k)) as [Ek|Ek].
      { rewrite Ek, <- (take_drop (Z.to_nat (searchMax c)) (ls k)) in Hin. apply elem_of_app in Hin as [Hin|Hin].
        - pose proof (Hnone Hmi _ _ _ Hin Hx). lia.
        - pose proof (Hnr _ _ _ Hin Hx). lia. }
      destruct (lookup_lt_is_Some_2 (m_freeListTableCounters v) (bucket n) ltac:(lia)) as [cn Hcn].
      pose proof (Hall (bucket n) cn ltac:(lia) Hcn). pose proof (cnt_exact _ _ _ _ _ _ _ HL HT Hcn).
      destruct (ls (bucket n)); [by apply elem_of_nil in Hin | cbn in *; lia].
    + assert (Er2 : scanList (items v) (Z.to_nat (searchMax c)) np h nullptr size_max = Ok (Searched cur mi md)).
      { destruct Er' as [?|El]; [done|]. apply Hrest in Hp. rewrite El in Hp. by apply elem_of_nil in Hp. }
      rewrite Er2. ostep. rewrite (proj2 (Z.eqb_eq mi nullptr) Hmi), ?Et. ostep. rewrite Es. ostep.
      destruct (l_data _ _ _ _ _ HL _ _ _ Hfp) as [Hd _]. destruct (items v !! p) as [it|] eqn:Hit; [|done]. injection Hd as Hd1 Hd2.
      rewrite (deref_Some _ _ _ Hit). ostep. rewrite Hd1. rewrite <- Hkn. destruct (Z.ltb_spec np n) as [Hlt|Hle].
      * destruct (setBusyRegion_lists _ _ _ _ _ _ _ np HL Hfp) as (v' & ls' & E & _). exists b, v'. split.
        { unfold takeRegion. rewrite (deref_Some _ _ _ Hit). ostep. rewrite E. ostep. by rewrite Hd2. }
        right. right. split; [done|]. split.
        { exists c. split; [by rewrite Hkn|]. assert (searchMax c < c); [|lia]. apply list_elem_of_lookup in Hp as [i Hp].
          apply lookup_lt_Some in Hp. rewrite length_drop in Hp. lia. }
        destruct (t_split _ _ _ _ _ _ _ HT Hfp) as (T1 & T2 & -> & ->). exists T1, n, p, T2. by rewrite Hkn.
      * assert (n = np) as -> by lia. destruct (take_exact _ _ _ _ _ _ _ _ HL HT Hfp) as (T' & v' & E & ?).
        exists b, v'. split; [done|]. right. left. split; [done | by exists T'].
  - destruct (largerClass _ _ _ _ _ np j cj HL HT) as (p & b & n & Hh' & Hp & Hlt & <-); try done; try lia.
    rewrite (arr_get_Some _ _ _ Hh'). ostep.
    destruct (take_split _ _ _ _ _ _ _ _ np (fun it => m_numPages it - np) HL HT Hp) as (T' & v' & E & ?);
      [lia | intros it [= -> _]; done |].
    exists b, v'. split; [done|]. right. left. split; [|by exists T'].
    destruct (scanList (items v) (Z.to_nat (searchMax c)) np h nullptr size_max) as [[q|cur' mi' md']| | |]; ostep; [done| |done..].
    destruct (mi' =? nullptr); [|done]. by rewrite ?Et.
Qed.

(** *** Release *)

(** Removing the region of [p] from the lists, as both merges do. *)
Lemma mergeItem_spec fs ls rc T v v1 fs1 ls1 rc1 p b m :
  LInv start0 fs ls rc v -> TInv fs rc T v -> fs !! p = Some (b, m) ->
  LInv start0 fs1 ls1 rc1 v1 -> fs1 !! p = Some (b, m) ->
  Z.land p VMM_REG_BUSY_FLAG = 0 /\ Z.land p VMM_REG_PTR_MASK = p /\ p <> 0 /\
  exists it it' v2 ls2, items v1 !! p = Some it /\ m_numPages it = m /\ m_pageBase it = b /\
    cpuLastOneBitIndex m = Ok (bucket m) /\ deleteFreeRegion (bucket m) p v1 = Ok v2 /\
    LInv start0 (delete p fs1) ls2 (p :: rc1) v2 /\ items v2 !! p = Some it' /\ m_pageBase it' = b /\
    m_memoryRegions v2 = m_memoryRegions v1 /\ m_virtualPages v2 = m_virtualPages v1 /\
    m_freeListTableSize v2 = m_freeListTableSize v1 /\ m_virtualBase v2 = m_virtualBase v1.
Proof.
  intros HL HT Hp HL1 Hp1. destruct (VInv_item _ _ _ _ _ _ _ _ HL HT Hp) as (Hr & H4 & _ & Hm & _).
  destruct (item_word p Hr H4) as [W1 W2]. split; [done|]. split; [done|]. split; [lia|].
  destruct (l_data _ _ _ _ _ HL1 _ _ _ Hp1) as [Hd _].
  destruct (items v1 !! p) as [it|] eqn:Hit; [|done]. injection Hd as Hd1 Hd2.
  destruct (deleteFreeRegion_lists start0 Hstart0 _ _ _ _ _ _ _ HL1 Hp1)
    as (v2 & ls2 & E & HL2 & Hd & Hr2 & HV & HS & HB & _).
  destruct (items v2 !! p) as [it'|] eqn:Hit'; [|done]. injection Hd as Hd3 Hd4.
  exists it, it', v2, ls2. split_and!; try done. by apply bsr_pos.
Qed.

(** What is left of the free lists after the items of [old] are gone. *)
Definition without (fs : gmap Z (Z * Z)) (rc : list Z) (old : list tile) (fs1 : gmap Z (Z * Z)) (rc1 : list Z) : Prop :=
  (forall q, fs1 !! q = if decide (q ∈ freeItems old) then None else fs !! q) /\
  (size fs1 + length (freeItems old) = size fs)%nat /\
  length rc1 = (length rc + length (freeItems old))%nat.

Definition sameShape (v v1 : Vmm) : Prop :=
  m_virtualPages v1 = m_virtualPages v /\ m_freeListTableSize v1 = m_freeListTableSize v /\
  m_virtualBase v1 = m_virtualBase v.

Lemma without_nil fs rc : without fs rc [] fs rc.
Proof. split; [|cbn; lia]. intros q. by destruct (decide _) as [?%elem_of_nil|]. Qed.

Lemma without_delete fs rc n p b : fs !! p = Some (b, n) -> without fs rc [Free n p] (delete p fs) (p :: rc).
Proof.
  intros Hp. split; [apply fs_without1|]. rewrite map_size_delete_Some by (by rewrite Hp).
  assert (size fs <> 0%nat) by (intros Hz%map_size_empty_inv; by rewrite Hz, lookup_empty in Hp). cbn. lia.
Qed.

Lemma without_app fs rc a b' fs1 rc1 fs2 rc2 :
  without fs rc a fs1 rc1 -> without fs1 rc1 b' fs2 rc2 -> without fs rc (a ++ b') fs2 rc2.
Proof.
  intros (H1 & H2 & H3) (H4 & H5 & H6). unfold without. rewrite freeItems_app, length_app.
  split; [|lia]. intros q. rewrite H4, H1. repeat destruct (decide _); set_solver.
Qed.

(** The word of the last page of a region. *)
Lemma last_word r b T1 t T2 :
  tiles r b (T1 ++ t :: T2) ->
  r (b + tsize T1 + tsz t - 1) = if 1 <? tsz t then lastWord t else firstWord t.
Proof.
  intros (_ & (H0 & H1 & H2 & _) & _)%tiles_app. destruct (Z.ltb_spec 1 (tsz t)); [by apply H2|].
  replace (b + tsize T1 + tsz t - 1) with (b + tsize T1) by lia. done.
Qed.

Lemma busyLast_flag n fl : Z.land (if 1 <? n then VMM_REG_BUSY_FLAG else busyWord n fl) VMM_REG_BUSY_FLAG <> 0.
Proof. destruct (1 <? n); [done|apply busyWord_flag]. Qed.

Lemma mergePrev_spec fs ls rc T1 n fl T2 v :
  LInv start0 fs ls rc v -> TInv fs rc (T1 ++ Busy n fl :: T2) v ->
  exists T1' pre fs1 ls1 rc1 v1, mergePrev (tsize T1) (tsize T1) n v = Ok (tsize T1', n + tsize pre, v1) /\
    T1 = T1' ++ pre /\ endsFree false T1' = false /\
    LInv start0 fs1 ls1 rc1 v1 /\ without fs rc pre fs1 rc1 /\ sameShape v v1 /\
    (forall i, tsize T1' <= i <= tsize T1 \/ m_memoryRegions v1 i = m_memoryRegions v i) /\
    (forall i, tsize T1' < i <= tsize T1 -> m_memoryRegions v1 i = 0) /\ 0 <= tsize pre /\
    Forall (fun t => isFree t = true) pre.
Proof.
  intros HL HT. pose proof (t_tiles _ _ _ _ HT) as Ht. unfold mergePrev.
  destruct (exists_last_or_nil T1) as [->|(T1' & t & ->)].
  { cbn [tsize foldr Z.ltb Z.compare]. exists [], [], fs, ls, rc, v. split; [do 3 f_equal; cbn; lia|].
    do 3 (split; [done|]). split; [apply without_nil|]. split; [done|]. split; [auto|].
    split; [cbn; lia|]. split; [done|constructor]. }
  rewrite <- (assoc_L (++)) in Ht, HT. cbn [app] in Ht, HT.
  pose proof (last_word _ _ _ _ _ Ht) as Hw. rewrite Z.add_0_l in Hw.
  pose proof (t_merged _ _ _ _ HT) as Hm. rewrite merged_app in Hm. destruct Hm as (_ & Hm & _).
  assert (Hpos : 0 <= tsize T1' /\ 0 < tsz t).
  { rewrite tiles_app in Ht. destruct Ht as (H1 & (H2 & _) & _). by destruct (tiles_pos _ _ _ H1). }
  rewrite tsize_app. change (tsize [t]) with (tsz t + 0). rewrite Z.add_0_r.
  destruct (Z.ltb_spec 0 (tsize T1' + tsz t)); [|lia]. rewrite Hw. destruct t as [m fl'|m p]; cbn [tsz firstWord lastWord] in *.
  - destruct (Z.eqb_spec (Z.land (if 1 <? m then VMM_REG_BUSY_FLAG else busyWord m fl') VMM_REG_BUSY_FLAG) 0) as [E|_].
    { by apply busyLast_flag in E. }
    exists (T1' ++ [Busy m fl']), [], fs, ls, rc, v. rewrite tsize_app, app_nil_r. cbn [tsize foldr tsz].
    split; [do 3 f_equal; lia|]. split; [done|]. split; [unfold endsFree; by rewrite foldl_app|]. split; [done|].
    split; [apply without_nil|]. split; [done|]. split; [auto|]. split; [lia|]. split; [lia|constructor].
  - assert (Hp : fs !! p = Some (tsize T1', m)).
    { apply (t_free _ _ _ _ HT), elem_of_placed. by eexists T1', _. }
    destruct (mergeItem_spec _ _ _ _ _ _ _ _ _ _ _ _ HL HT Hp HL Hp)
      as (W1 & W2 & W3 & it & it' & v1 & ls1 & Hit & <- & Eb & Ek & E1 & HL1 & _ & _ & Hr1 & HV & HS & HB).
    replace (if 1 <? m_numPages it then p else p) with p by (by destruct (_ <? _)).
    rewrite W1, W2. cbn [Z.eqb]. destruct (Z.eqb_spec p 0); [done|]. cbn [negb].
    rewrite (deref_Some _ _ _ Hit). ostep. rewrite Ek. ostep. rewrite E1. ostep. rewrite Eb.
    eexists T1', [Free (m_numPages it) p], _, ls1, _, _. change (tsize [Free (m_numPages it) p]) with (m_numPages it + 0).
    rewrite Z.add_0_r. split; [done|]. split; [done|]. rewrite andb_true_r in Hm. split; [done|].
    split; [destruct HL1, (1 <? m_numPages it); split; done|]. split; [by eapply without_delete|].
    split; [destruct (1 <? m_numPages it); done|].
    assert (Hin : forall i, tsize T1' < i < tsize T1' + m_numPages it - 1 -> m_memoryRegions v i = 0).
    { intros i Hi. eapply (free_inside _ 0 T1'); [done|lia]. }
    split; [|split; [|split; [lia|by repeat constructor]]]; intros i; destruct (Z.ltb_spec 1 (m_numPages it)); cbn; rewrite Hr1; unfold wset; zbool; try lia; auto.
    intros. apply Hin. lia.
Qed.

Lemma mergeNext_spec fs ls rc T1 n fl T2 v fs1 ls1 rc1 v1 regSize :
  LInv start0 fs ls rc v -> TInv fs rc (T1 ++ Busy n fl :: T2) v ->
  LInv start0 fs1 ls1 rc1 v1 -> sameShape v v1 ->
  (forall q m, (tsize T1 + n, Free m q) ∈ placed (tsize T1 + n) T2 -> fs1 !! q = Some (tsize T1 + n, m)) ->
  (forall i, tsize T1 < i -> m_memoryRegions v1 i = m_memoryRegions v i) ->
  exists post T2' fs2 ls2 rc2 v2, mergeNext (tsize T1) n regSize v1 = Ok (regSize + tsize post, v2) /\
    T2 = post ++ T2' /\ merged true T2' /\
    LInv start0 fs2 ls2 rc2 v2 /\ without fs1 rc1 post fs2 rc2 /\ sameShape v v2 /\
    (forall i, m_memoryRegions v2 i = m_memoryRegions v1 i \/
       (tsize T1 + n - 1 <= i < tsize T1 + n + tsize post /\ m_memoryRegions v2 i = 0)) /\
    (forall i, tsize T1 + n - 1 <= i < tsize T1 + n + tsize post - 1 -> m_memoryRegions v2 i = 0) /\
    0 <= tsize post /\ Forall (fun t => isFree t = true) post.
Proof.
  intros HL HT HL1 Hsh Hfs1 Hr1. pose proof (t_tiles _ _ _ _ HT) as Ht. rewrite tiles_app, Z.add_0_l in Ht.
  destruct Ht as (H1 & (Hn & _) & H2). cbn [tsz] in *. destruct (tiles_pos _ _ _ H1) as [_ P1].
  pose proof (t_merged _ _ _ _ HT) as Hm. rewrite merged_app in Hm. destruct Hm as (_ & _ & Hm). cbn in Hm.
  unfold mergeNext. rewrite Hr1 by lia. destruct T2 as [|[m fl'|m q] T2'].
  - assert (m_memoryRegions v (tsize T1 + n) = 0) as ->.
    { rewrite <- (t_end _ _ _ _ HT), <- (t_size _ _ _ _ HT), tsize_app. cbn. f_equal. lia. }
    cbn. exists [], [], fs1, ls1, rc1, v1. split; [by rewrite Z.add_0_r|]. do 3 (split; [done|]).
    split; [apply without_nil|]. split; [done|]. split; [auto|]. split; [cbn; lia|]. split; [done|constructor].
  - destruct H2 as [(_ & -> & _) _]. cbn [firstWord].
    destruct (Z.eqb_spec (Z.land (busyWord m fl') VMM_REG_BUSY_FLAG) 0) as [E|_]; [by apply busyWord_flag in E|].
    exists [], (Busy m fl' :: T2'), fs1, ls1, rc1, v1. change (tsize []) with 0. rewrite Z.add_0_r.
    do 4 (split; [done|]). split; [apply without_nil|]. split; [done|]. split; [auto|]. split; [lia|].
    split; [done|constructor].
  - destruct H2 as [(Hq0 & -> & _ & Hq3) _]. cbn [firstWord tsz] in *.
    assert (Hq : fs !! q = Some (tsize T1 + n, m)).
    { apply (t_free _ _ _ _ HT). rewrite placed_app. apply elem_of_app. right. right. left. }
    assert (Hq1 : fs1 !! q = Some (tsize T1 + n, m)) by (apply Hfs1; by left).
    destruct (mergeItem_spec _ _ _ _ _ _ _ _ _ _ _ _ HL HT Hq HL1 Hq1)
      as (W1 & W2 & W3 & it & it' & v2 & ls2 & Hit & <- & Eb & Ek & E2 & HL2 & Hit' & Eb' & Hr2 & HV & HS & HB).
    rewrite W1, W2. cbn [Z.eqb]. destruct (Z.eqb_spec q 0); [done|]. cbn [negb].
    rewrite (deref_Some _ _ _ Hit). ostep. rewrite Ek. ostep. rewrite E2. ostep.
    rewrite (deref_Some _ _ _ Hit'). ostep. rewrite Eb'.
    eexists [Free (m_numPages it) q], T2', _, ls2, _, _. change (tsize [Free (m_numPages it) q]) with (m_numPages it + 0).
    rewrite Z.add_0_r. split; [done|]. split; [done|]. split; [by destruct Hm as [_ ?]|].
    split; [destruct HL2; split; done|]. split; [by eapply without_delete|].
    split; [unfold sameShape in *; cbn; naive_solver congruence|].
    split; [|split; [|split; [lia|by repeat constructor]]].
    + intros i. cbn. unfold wset. zbool; [right; split; [lia|done].. | left; by rewrite Hr2].
    + intros i Hi. cbn. unfold wset. zbool; [done|done|]. rewrite Hr2, Hr1 by lia. apply Hq3. lia.
Qed.

(** The abstract release: the region becomes free and is joined with the free
    regions that touch it. *)
Definition released (T1 : list tile) (n : Z) (T2 T' : list tile) : Prop :=
  exists T1' pre post T2' p, T1 = T1' ++ pre /\ T2 = post ++ T2' /\
    T' = T1' ++ Free (tsize pre + n + tsize post) p :: T2' /\
    Forall (fun t => isFree t = true) (pre ++ post) /\ merged false T'.

Lemma busy_bound fs rc T1 n fl T2 v :
  TInv fs rc (T1 ++ Busy n fl :: T2) v ->
  0 <= tsize T1 /\ 0 < n < 2 ^ 52 /\ 0 <= tsize T2 /\ tsize T1 + n + tsize T2 = m_virtualPages v.
Proof.
  intros HT. pose proof (t_tiles _ _ _ _ HT) as Ht. rewrite tiles_app in Ht.
  destruct Ht as (H1 & (Hn & _) & H2). destruct (tiles_pos _ _ _ H1) as [_ P1], (tiles_pos _ _ _ H2) as [_ P2].
  pose proof (t_size _ _ _ _ HT) as E. rewrite tsize_app, tsize_cons in E. cbn [tsz] in *.
  pose proof (t_bound _ _ _ _ HT) as (B & _). lia.
Qed.

(** Inside the joined region everything is zero before it is marked. *)
Lemma released_inside fs rc T1' pre n fl T2 v v1 v2 post :
  TInv fs rc ((T1' ++ pre) ++ Busy n fl :: T2) v ->
  (forall i, tsize T1' <= i <= tsize (T1' ++ pre) \/ m_memoryRegions v1 i = m_memoryRegions v i) ->
  (forall i, tsize T1' < i <= tsize (T1' ++ pre) -> m_memoryRegions v1 i = 0) ->
  (forall i, m_memoryRegions v2 i = m_memoryRegions v1 i \/
     (tsize (T1' ++ pre) + n - 1 <= i < tsize (T1' ++ pre) + n + tsize post /\ m_memoryRegions v2 i = 0)) ->
  (forall i, tsize (T1' ++ pre) + n - 1 <= i < tsize (T1' ++ pre) + n + tsize post - 1 ->
     m_memoryRegions v2 i = 0) ->
  forall i, tsize T1' < i < tsize (T1' ++ pre) + n + tsize post - 1 -> m_memoryRegions v2 i = 0.
Proof.
  intros HT Hr1 Hz1 Hr2 Hz2 i Hi. pose proof (t_tiles _ _ _ _ HT) as Ht. rewrite tiles_app in Ht.
  destruct Ht as (_ & (_ & _ & _ & Hin) & _). cbn [tsz] in Hin. rewrite Z.add_0_l in Hin.
  destruct (Z.le_gt_cases (tsize (T1' ++ pre) + n - 1) i); [apply Hz2; lia|].
  destruct (Hr2 i) as [->|[_ ->]]; [|done].
  destruct (Z.le_gt_cases i (tsize (T1' ++ pre))); [apply Hz1; lia|].
  destruct (Hr1 i) as [?| ->]; [lia|]. apply Hin. lia.
Qed.

(** The joined region put back on the free lists. *)
Lemma release_finish fs rc T1' pre n fl post T2' v fs2 ls2 rc2 v2 :
  let tot := n + tsize pre + tsize post in
  TInv fs rc ((T1' ++ pre) ++ Busy n fl :: post ++ T2') v ->
  LInv start0 fs2 ls2 rc2 v2 -> without fs rc (pre ++ post) fs2 rc2 -> sameShape v v2 ->
  (forall i, tsize T1' <= i < tsize T1' + tot \/ m_memoryRegions v2 i = m_memoryRegions v i) ->
  (forall i, tsize T1' < i < tsize T1' + tot - 1 -> m_memoryRegions v2 i = 0) ->
  endsFree false T1' = false -> merged true T2' -> 0 <= tsize pre -> 0 <= tsize post ->
  exists p v3, addFreeRegion (tsize T1') tot v2 = Ok v3 /\ VInv (T1' ++ Free tot p :: T2') v3 /\
    merged false (T1' ++ Free tot p :: T2').
Proof.
  intros tot HT HL2 (Hw0 & Hw1 & Hw2) (HV2 & HS2 & HB2) Hout Hin Hends Hm2 Ppre Ppost.
  destruct (busy_bound _ _ _ _ _ _ _ HT) as (P1 & Hn & P2 & EV). rewrite !tsize_app in *.
  pose proof (t_bound _ _ _ _ HT) as (B & _).
  assert (Hm : forall p, merged false (T1' ++ Free tot p :: T2')).
  { intros p. pose proof (t_merged _ _ _ _ HT) as Hm. rewrite !merged_app in *. cbn. rewrite Hends. naive_solver. }
  assert (Q : 0 <= tsize T1' /\ 0 <= tsize T2').
  { pose proof (t_tiles _ _ _ _ HT) as Ht. rewrite <- (assoc_L (++)), tiles_app in Ht. destruct Ht as [H1 H2].
    change (Busy n fl :: post ++ T2') with ((Busy n fl :: post) ++ T2') in H2. rewrite !tiles_app in H2.
    destruct H2 as (_ & _ & H2). destruct (tiles_pos _ _ _ H1), (tiles_pos _ _ _ H2). done. }
  destruct (addFreeRegion_lists start0 Hstart0 _ _ _ _ (tsize T1') tot HL2 ltac:(lia))
    as (p & v3 & rc3 & -> & Hnp & HL3 & _ & _ & Hr3 & HV3 & HS3 & HB3 & Hrc3).
  exists p, v3. split; [done|]. split; [|done]. eexists _, _, rc3. split; [exact HL3|].
  change (T1' ++ Free tot p :: T2') with (T1' ++ [Free tot p] ++ T2').
  assert (Efi : freeItems (pre ++ Busy n fl :: post) = freeItems (pre ++ post))
    by (by rewrite !freeItems_app, freeItems_cons).
  assert (Esz : tsize (pre ++ Busy n fl :: post) = tot) by (rewrite tsize_app, tsize_cons; cbn [tsz]; lia).
  eapply (TInv_replace fs rc T1' (pre ++ Busy n fl :: post) _ T2' v fs2); rewrite ?Efi, ?Esz; try done; try congruence.
  - by rewrite <- !(assoc_L (++)) in *.
  - intros q b' n'. cbn [placed]. rewrite lookup_insert_Some, list_elem_of_singleton.
    split; [intros [[<- [= <- <-]]|[? ?]]; auto|]. intros [?|[= -> -> ->]]; [|by left].
    right. split; [intros ->; congruence|done].
  - rewrite map_size_insert_None by done. cbn. lia.
  - cbn. lia.
  - intros i. rewrite Hr3. destruct (marks_outside (m_memoryRegions v2) (tsize T1') tot p p i ltac:(lia)) as [?|E]; [by left|].
    destruct (Hout i) as [?|E']; [by left|right]. etrans; [exact E|done].
  - split; [|done]. rewrite Hr3. apply slots_free; [lia|done].
  - apply Hm.
  - destruct Hrc3 as [->|Hrc3]; [by left|right]. rewrite map_size_insert_None by done. lia.
Qed.

(** The first page of an allocated region. *)
Lemma freePages_busy T1 n fl T2 v :
  VInv (T1 ++ Busy n fl :: T2) v ->
  exists v' T', freePages (tsize T1) v = Ok (n, v') /\ released T1 n T2 T' /\ VInv T' v'.
Proof.
  intros (fs & ls & rc & HL & HT). destruct (busy_bound _ _ _ _ _ _ _ HT) as (P1 & Hn & P2 & EV).
  pose proof (t_tiles _ _ _ _ HT) as Ht. rewrite tiles_app, Z.add_0_l in Ht. destruct Ht as (Ht1 & (_ & Hw & _) & _).
  unfold freePages. rewrite Hw. cbn [firstWord]. rewrite busyWord_size by done.
  destruct (Z.eqb_spec (Z.land (busyWord n fl) VMM_REG_BUSY_FLAG) 0) as [E|_]; [by apply busyWord_flag in E|].
  destruct (Z.eqb_spec n 0); [lia|].
  destruct (mergePrev_spec _ _ _ _ _ _ _ _ HL HT)
    as (T1' & pre & fs1 & ls1 & rc1 & v1 & -> & -> & Hends & HL1 & Hw1 & Hsh1 & Hr1 & Hz1 & Ppre & Fpre). ostep.
  destruct (mergeNext_spec _ _ _ _ _ _ _ _ fs1 ls1 rc1 v1 (n + tsize pre) HL HT HL1 Hsh1)
    as (post & T2' & fs2 & ls2 & rc2 & v2 & -> & -> & Hm2 & HL2 & Hw2 & Hsh2 & Hr2 & Hz2 & Ppost & Fpost).
  { intros q m Hq. assert (Hfq : fs !! q = Some (tsize (T1' ++ pre) + n, m)).
    { apply (t_free _ _ _ _ HT). rewrite placed_app. apply elem_of_app. right. by right. }
    destruct Hw1 as [Hw1 _]. rewrite Hw1. destruct (decide _) as [Hin|]; [|done]. exfalso.
    apply elem_of_freeItems in Hin as (m' & Hm'). destruct (placed_Free 0 (T1' ++ pre) q m') as (x & Hx); [set_solver|].
    pose proof (placed_range _ _ _ _ _ Ht1 Hx) as R.
    assert (fs !! q = Some (x, m')) as E by (apply (t_free _ _ _ _ HT); rewrite placed_app; set_solver).
    rewrite Hfq in E. injection E as <- <-. lia. }
  { intros i Hi. by destruct (Hr1 i) as [?|?]; [lia|]. }
  ostep. rewrite tsize_app in P2. 
  assert (Hout : forall i, tsize T1' <= i < tsize T1' + (n + tsize pre + tsize post) \/
    m_memoryRegions v2 i = m_memoryRegions v i).
  { intros i. destruct (Hr1 i), (Hr2 i) as [?|[? ?]]; rewrite tsize_app in *; try (left; lia).
    right. congruence. }
  destruct (release_finish fs rc T1' pre n fl post T2' v fs2 ls2 rc2 v2) as (p & v3 & -> & HV & Hm); try done.
  - by eapply without_app.
  - intros i Hi. eapply (released_inside _ _ T1' pre n fl _ v v1 v2 post HT); eauto. rewrite tsize_app. lia.
  - ostep. eexists v3, _. split; [done|]. split; [|exact HV]. exists T1', pre, post, T2', p.
    split_and!; try done; [do 3 f_equal; lia|]. by apply Forall_app.
Qed.

Lemma page_in_tile r T : forall b page, tiles r b T -> b <= page < b + tsize T ->
  exists T1 t T2, T = T1 ++ t :: T2 /\ b + tsize T1 <= page < b + tsize T1 + tsz t.
Proof.
  induction T as [|t T IH]; intros b page Ht Hp; [cbn in Hp; lia|]. rewrite tsize_cons in Hp.
  destruct Ht as [(Ht & _) HT]. destruct (Z.lt_ge_cases page (b + tsz t)).
  - exists [], t, T. split; [done|]. cbn. lia.
  - destruct (IH _ page HT ltac:(lia)) as (T1 & u & T2 & -> & ?). exists (t :: T1), u, T2.
    split; [done|]. rewrite tsize_cons. lia.
Qed.

(** Only the first page of an allocated region has its size in the map. *)
Lemma other_word T1 t T2 v page :
  VInv (T1 ++ t :: T2) v -> tsize T1 <= page < tsize T1 + tsz t ->
  isFree t = true \/ page <> tsize T1 ->
  Z.land (m_memoryRegions v page) VMM_REG_BUSY_FLAG = 0 \/
  Z.shiftr (m_memoryRegions v page) VMM_REG_SIZE_SHIFT = 0.
Proof.
  intros (fs & ls & rc & HL & HT) Hpg Hno. pose proof (t_tiles _ _ _ _ HT) as Ht.
  assert (Hfree : forall n p, t = Free n p -> Z.land p VMM_REG_BUSY_FLAG = 0).
  { intros n p ->. assert (Hfp : fs !! p = Some (tsize T1, n)).
    { apply (t_free _ _ _ _ HT), elem_of_placed. by exists T1, T2. }
    destruct (VInv_item _ _ _ _ _ _ _ _ HL HT Hfp) as (? & ? & _). by apply item_word. }
  rewrite tiles_app, Z.add_0_l in Ht. destruct Ht as (_ & (H0 & H1 & H2 & H3) & _).
  destruct (decide (page = tsize T1)) as [->|Hf]; [|destruct (decide (page = tsize T1 + tsz t - 1)) as [->|Hl]].
  - rewrite H1. destruct t as [n fl|n p]; [by destruct Hno|]. left. by eapply Hfree.
  - rewrite H2 by lia. destruct t as [n fl|n p]; [by right|]. left. by eapply Hfree.
  - rewrite H3 by lia. by left.
Qed.

Lemma freePages_other T1 t T2 v page :
  VInv (T1 ++ t :: T2) v -> tsize T1 <= page < tsize T1 + tsz t ->
  isFree t = true \/ page <> tsize T1 -> freePages page v = Ok (0, v).
Proof.
  intros HV Hpg Hno. unfold freePages. destruct (other_word _ _ _ _ _ HV Hpg Hno) as [->| ->]; [done|].
  by destruct (_ =? 0).
Qed.

Lemma VInv_page T v page :
  VInv T v -> 0 <= page < m_virtualPages v ->
  exists T1 t T2, T = T1 ++ t :: T2 /\ tsize T1 <= page < tsize T1 + tsz t.
Proof.
  intros (fs & ls & rc & HL & HT) Hp.
  destruct (page_in_tile _ _ 0 page (t_tiles _ _ _ _ HT)) as (T1 & t & T2 & -> & Hpg);
    [rewrite (t_size _ _ _ _ HT); lia|]. exists T1, t, T2. split; [done|lia].
Qed.

(** *** Every reachable state *)

(** The manager before its only region is added, as the constructor leaves it. *)
Definition emptyVmm (tableSize : nat) (vBase vPages : Z) : Vmm :=
  mkVmm ∅ (fun _ => 0) (replicate 64 0) (replicate 64 0) tableSize nullptr start0 vBase vPages.

Lemma initial_VInv ts vb vp :
  0 < vp < 2 ^ 52 -> start0 + sizeofItem * vp <= 2 ^ 64 -> vp < 2 ^ Z.of_nat ts -> (ts <= 64)%nat ->
  exists p v, addFreeRegion 0 vp (emptyVmm ts vb vp) = Ok v /\ VInv [Free vp p] v.
Proof.
  intros Hvp Hst Hts H64.
  assert (HL : LInv start0 ∅ (fun _ => []) [] (emptyVmm ts vb vp)).
  { split; cbn -[replicate size]; try done.
    - intros k h [-> _]%lookup_replicate. done.
    - intros k. constructor.
    - intros k p. split; [by intros ?%elem_of_nil|]. intros (b & n & E & _). done.
    - intros k c [-> _]%lookup_replicate. done.
    - split; [done|]. split; [constructor|by intros p ?%elem_of_nil].
    - intros p [x Hx]. done.
    - rewrite map_size_empty. cbn. unfold sizeofItem. lia. }
  destruct (addFreeRegion_lists start0 Hstart0 _ _ _ _ 0 vp HL Hvp)
    as (p & v & rc & E & _ & HL' & _ & _ & Hr & HV & HS & _ & Hrc).
  exists p, v. split; [done|]. eexists _, _, rc. split; [done|].
  destruct Hrc as [->|Hrc]; [|cbn in Hrc; lia].
  split; rewrite ?HV, ?HS, ?Hr; cbn [m_virtualPages m_freeListTableSize emptyVmm m_memoryRegions]; try done.
  - split; [|done]. apply slots_free; [lia|done].
  - cbn. lia.
  - unfold wset. destruct (Z.ltb_spec 1 vp); zbool; lia || done.
  - split; [lia|done].
  - intros q b n. cbn [placed]. rewrite lookup_insert_Some, lookup_empty, list_elem_of_singleton. naive_solver.
  - by rewrite map_size_insert_None.
  - rewrite map_size_insert_None, map_size_empty by done. cbn. lia.
Qed.

(** Marking a region as backed by memory. *)
Lemma setAllocFlag_VInv T1 n fl T2 v :
  VInv (T1 ++ Busy n fl :: T2) v ->
  VInv (T1 ++ Busy n true :: T2)
    (setRegion v (tsize T1) (Z.lor (m_memoryRegions v (tsize T1)) VMM_REG_ALLOC_FLAG)).
Proof.
  intros (fs & ls & rc & HL & HT). destruct (busy_bound _ _ _ _ _ _ _ HT) as (P1 & Hn & _).
  exists fs, ls, rc. split; [by destruct HL|]. pose proof (t_tiles _ _ _ _ HT) as Ht.
  rewrite tiles_app, Z.add_0_l in Ht. destruct Ht as (_ & (H0 & H1 & H2 & H3) & _).
  change (T1 ++ Busy n true :: T2) with (T1 ++ [Busy n true] ++ T2).
  eapply (TInv_replace fs rc T1 [Busy n fl] _ T2 v fs); try done.
  - intros q b m. cbn [placed]. rewrite list_elem_of_singleton. naive_solver.
  - intros i. change (tsize [Busy n fl]) with (n + 0). cbn [m_memoryRegions setRegion]. unfold wset.
    destruct (Z.eqb_spec i (tsize T1)) as [->|]; [left; lia|by right].
  - split; [|done]. unfold slots. cbn [tsz firstWord lastWord m_memoryRegions setRegion] in *.
    split; [done|]. unfold wset. split; [|split].
    + rewrite Z.eqb_refl, H1. unfold busyWord. rewrite <- Z.lor_assoc. f_equal. by destruct fl.
    + intros Hn1. destruct (Z.eqb_spec (tsize T1 + n - 1) (tsize T1)); [lia|by apply H2].
    + intros i Hi. destruct (Z.eqb_spec i (tsize T1)); [lia|by apply H3].
  - pose proof (t_merged _ _ _ _ HT) as Hm. by rewrite merged_app in Hm |- *.
  - right. lia.
Qed.

(** The states the manager goes through: allocations of any size, releases of any page,
    marks of allocated regions, until an allocation takes the last resort. *)
Inductive reachable (ts : nat) (vb vp : Z) : Vmm -> Prop :=
| reach_init v : addFreeRegion 0 vp (emptyVmm ts vb vp) = Ok v -> reachable ts vb vp v
| reach_alloc v np page v' : reachable ts vb vp v -> 0 < np < 2 ^ 52 ->
    lastResort np v = false -> allocPages np v = Ok (page, v') -> reachable ts vb vp v'
| reach_free v page n v' : reachable ts vb vp v -> 0 <= page < m_virtualPages v ->
    freePages page v = Ok (n, v') -> reachable ts vb vp v'
| reach_mark v page : reachable ts vb vp v -> 0 <= page < m_virtualPages v ->
    Z.land (m_memoryRegions v page) VMM_REG_BUSY_FLAG <> 0 ->
    Z.shiftr (m_memoryRegions v page) VMM_REG_SIZE_SHIFT <> 0 ->
    reachable ts vb vp (setRegion v page (Z.lor (m_memoryRegions v page) VMM_REG_ALLOC_FLAG)).

Lemma freePages_VInv T v page n v' :
  VInv T v -> 0 <= page < m_virtualPages v -> freePages page v = Ok (n, v') -> exists T', VInv T' v'.
Proof.
  intros HV Hp E. destruct (VInv_page _ _ _ HV Hp) as (T1 & t & T2 & -> & Hpg).
  destruct (decide (isFree t = true \/ page <> tsize T1)) as [Hno|Hyes].
  { rewrite (freePages_other _ _ _ _ _ HV Hpg Hno) in E. injection E as _ <-. eauto. }
  destruct t as [m fl|m p]; [|destruct Hyes; by left].
  assert (page = tsize T1) as -> by lia.
  destruct (freePages_busy _ _ _ _ _ HV) as (v1 & T' & E1 & _ & HV1).
  rewrite E1 in E. injection E as _ <-. eauto.
Qed.


(** C14: [freePages] of the first page of an allocated region returns its size
    and makes it free, joined with the free regions on both sides; of any other
    page (free, or inside a region) it is refused and changes nothing. *)
Theorem freePages_correct T1 t T2 v page :
  VInv (T1 ++ t :: T2) v -> tsize T1 <= page < tsize T1 + tsz t ->
  match t with
  | Busy n _ =>
      if page =? tsize T1
      then exists v' T', freePages page v = Ok (n, v') /\ released T1 n T2 T' /\ VInv T' v'
      else freePages page v = Ok (0, v)
  | Free _ _ => freePages page v = Ok (0, v)
  end.
Proof.
  intros HV Hp. destruct t as [n fl|n p]; [destruct (Z.eqb_spec page (tsize T1)) as [->|Hne]|].
  - by eapply freePages_busy.
  - eapply freePages_other; eauto.
  - eapply freePages_other; eauto.
Qed.

(** C15: in every state reached by allocations, releases and marks of which no allocation
    took the last resort, the pages are tiled by disjoint allocated and
    free regions that agree with the region map and the free lists: no page is
    lost, none is handed out twice, and free neighbours are always joined. *)
Theorem reachable_VInv ts vb vp v :
  0 < vp < 2 ^ 52 -> start0 + sizeofItem * vp <= 2 ^ 64 -> vp < 2 ^ Z.of_nat ts -> (ts <= 64)%nat ->
  reachable ts vb vp v -> exists T, VInv T v.
Proof.
  intros H1 H2 H3 H4 Hr. induction Hr as [v E|v np page v' _ [T IH] Hnp Hlim E|v page n v' _ [T IH] Hp E|v page _ [T IH] Hp W1 W2].
  - destruct (initial_VInv ts vb vp) as (p & v1 & E1 & HV); [done..|].
    rewrite E1 in E. injection E as <-. eauto.
  - destruct (allocPages_spec T v np IH Hnp) as (page1 & v1 & E1 & [(_ & -> & _)|[(_ & T' & _ & HV)|[Hl _]]]);
      [rewrite E1 in E; injection E as _ <-; eauto.. | congruence].
  - by eapply freePages_VInv.
  - destruct (VInv_page _ _ _ IH Hp) as (T1 & t & T2 & -> & Hpg).
    destruct (decide (isFree t = true \/ page <> tsize T1)) as [Hno|Hyes];
      [by destruct (other_word _ _ _ _ _ IH Hpg Hno)|].
    destruct t as [m fl|m p]; [|destruct Hyes; by left].
    assert (page = tsize T1) as -> by lia. eexists. by apply setAllocFlag_VInv with (fl := fl).
Qed.

End Regions.

(** ** The operations of the manager *)

Definition VMM_RESERVED : Z := 0.
Definition VMM_NOACCESS : Z := 1.
Definition VMM_READONLY : Z := 2.
Definition VMM_READWRITE : Z := 4.
Definition VMM_NOCACHE : Z := 0x200.
Definition VMM_COMMIT : Z := 0x10000.
Definition m_pageDefaultFlag : Z := PAGE_FLAG_GLOBAL.
Definition KERNEL_MIN_VIRTUAL_MEMORY : Z := 0x8000000.
Definition KERNEL_MAX_VIRTUAL_MEMORY : Z := 0x7FC0000000.
Definition cpuAlignAddrHi (addr : Z) : Z := Z.land (u64 (addr + PAGE_MASK)) (u64 (Z.lnot PAGE_MASK)).

Inductive MemoryType : Type := MtDefault | CacheDisabled | WriteTrought | WriteCombined.

(** The manager with the memory its page tables are in. *)
Record Sys : Type := mkSys { vmm : Vmm; sram : wmem; sra : RamAllocator.t }.

Section Manager.
Context {endList : EndList} (paging : PagingManager64).

(** Keep the memory and the allocator of a paging request. *)
Definition paged {U} (v : Vmm) (r : outcome (option TlbRequest * PState U)) : outcome Sys :=
  '(_, st) ← r; Ok (mkSys v (ram st) (ra st)).

Definition flagSet (flags f : Z) : bool := negb (Z.land flags f =? 0).

Definition setAllocFlag (v : Vmm) (base : Z) : Vmm :=
  setRegion v base (Z.lor (m_memoryRegions v base) VMM_REG_ALLOC_FLAG).

(** The loop that commits memory: [true] if every page got its frame. *)
Fixpoint commitLoop (n : nat) (vBase base curPageBase pflags : Z) (s : Sys) : outcome (bool * Sys) :=
  match n with
  | O => Ok (true, s)
  | S n =>
      '(physBase, m, a) ← RamAllocator.allocPage false (sram s) (sra s);
      let s := mkSys (vmm s) m a in
      if physBase =? g_invalidPageOffset then
        s ← paged (vmm s) (freeRamPages paging paging vBase (u64 (curPageBase - vBase)) false (sram s) (sra s));
        '(_, v) ← freePages base (vmm s);
        Ok (false, mkSys v (sram s) (sra s))
      else
        s ← paged (vmm s) (mapPage paging paging curPageBase physBase pflags (sram s) (sra s));
        commitLoop n vBase base (u64 (curPageBase + PAGE_SIZE)) pflags s
  end.

Definition alloc (size flags : Z) (s : Sys) : outcome (Z * Sys) :=
  let pflags := m_pageDefaultFlag in
  let numPages := u64 (size + PAGE_MASK) / PAGE_SIZE in
  if numPages =? 0 then Ok (nullptr, s)
  else
    '(base, v) ← allocPages numPages (vmm s);
    let s := mkSys v (sram s) (sra s) in
    if base =? g_invalidPageOffset then Ok (nullptr, s)
    else
      let vBase := u64 (m_virtualBase v + base * PAGE_SIZE) in
      let pflags := if flagSet flags VMM_NOCACHE then Z.lor pflags PAGE_FLAG_CACHE_DISABLE else pflags in
      if flagSet flags VMM_COMMIT then
        let pflags := if flagSet flags VMM_READWRITE
                      then Z.lor pflags (Z.lor PAGE_FLAG_WRITE PAGE_FLAG_PRESENT)
                      else Z.lor pflags PAGE_FLAG_PRESENT in
        r ← commitLoop (Z.to_nat numPages) vBase base vBase pflags s;
        let '(committed, s) := (r : bool * Sys) in
        if committed then Ok (vBase, mkSys (setAllocFlag (vmm s) base) (sram s) (sra s))
        else Ok (nullptr, s)
      else if flagSet flags VMM_READWRITE || flagSet flags VMM_READONLY then
        let pflags := if flagSet flags VMM_READWRITE
                      then Z.lor pflags (Z.lor PAGE_FLAG_ALLOCATED PAGE_FLAG_WRITE)
                      else Z.lor pflags PAGE_FLAG_ALLOCATED in
        s ← paged v (setPagesFlags paging paging vBase size PAGE_MASK pflags (sram s) (sra s));
        Ok (vBase, mkSys (setAllocFlag (vmm s) base) (sram s) (sra s))
      else Ok (vBase, s).

Definition free (pointer : Z) (s : Sys) : outcome (bool * Sys) :=
  let v := vmm s in
  if pointer <? m_virtualBase v then Ok (false, s)
  else
    let base := (pointer - m_virtualBase v) / PAGE_SIZE in
    if m_virtualPages v <=? base then Ok (false, s)
    else
      let allocated := flagSet (m_memoryRegions v base) VMM_REG_ALLOC_FLAG in
      '(numPages, v) ← freePages base v;
      let s := mkSys v (sram s) (sra s) in
      if numPages =? 0 then Ok (false, s)
      else if allocated then
        s ← paged v (Paging.freeRamPages paging paging pointer (u64 (numPages * PAGE_SIZE)) false (sram s) (sra s));
        Ok (true, s)
      else Ok (true, s).

(** [while (physAddr < endAddr)], with the number of rounds as fuel *)
Fixpoint freeBootPages (fuel : nat) (physAddr endAddr : Z) (m : wmem) (a : RamAllocator.t)
    : outcome (wmem * RamAllocator.t) :=
  if physAddr <? endAddr then
    match fuel with
    | O => NoFuel
    | S fuel =>
        let '(m, a) := RamAllocator.freePage physAddr m a in
        freeBootPages fuel (u64 (physAddr + PAGE_SIZE)) endAddr m a
    end
  else Ok (m, a).

Definition freeRamPages (base size : Z) (realloc : bool) (s : Sys) : outcome Sys :=
  if isRamMappingPtr base then
    let physAddr := virtualToPhysInt base in
    if negb (Z.land physAddr PAGE_MASK =? 0) then Panic
    else
      '(m, a) ← freeBootPages (S (Z.to_nat (size / PAGE_SIZE))) physAddr (u64 (physAddr + size)) (sram s) (sra s);
      Ok (mkSys (vmm s) m a)
  else if size <=? PAGE_SIZE then
    paged (vmm s) (freeRamPage paging paging base realloc (sram s) (sra s))
  else paged (vmm s) (Paging.freeRamPages paging paging base size realloc (sram s) (sra s)).

Definition mapMmio (mmioBase size : Z) (memoryType : MemoryType) (s : Sys) : outcome (Z * Sys) :=
  let alignSize := u64 (Z.land mmioBase PAGE_MASK + size) in
  '(vBase, s) ← alloc alignSize VMM_RESERVED s;
  if vBase =? 0 then Ok (nullptr, s)
  else
    let pageFlags := Z.lor (Z.lor PAGE_FLAG_PRESENT PAGE_FLAG_WRITE) m_pageDefaultFlag in
    let pageFlags :=
      match memoryType with
      | MtDefault => pageFlags
      | CacheDisabled => Z.lor pageFlags PAGE_FLAG_CACHE_DISABLE
      | WriteTrought => Z.lor pageFlags PAGE_FLAG_WT
      | WriteCombined => Z.lor pageFlags PAGE_FLAG_WC
      end in
    s ← (if alignSize <=? PAGE_SIZE
         then paged (vmm s) (mapPage paging paging vBase mmioBase pageFlags (sram s) (sra s))
         else paged (vmm s) (mapPages paging paging vBase mmioBase alignSize pageFlags (sram s) (sra s)));
    Ok (u64 (vBase + Z.land mmioBase PAGE_MASK), s).

Definition unmapMmio (pointer : Z) (s : Sys) : outcome (bool * Sys) :=
  let v := vmm s in
  if pointer <? m_virtualBase v then Ok (false, s)
  else
    let base := (pointer - m_virtualBase v) / PAGE_SIZE in
    if m_virtualPages v <=? base then Ok (false, s)
    else
      '(numPages, v) ← freePages base v;
      let s := mkSys v (sram s) (sra s) in
      if numPages =? 0 then Ok (false, s)
      else
        s ← (if numPages =? 1 then paged v (mapPage paging paging pointer 0 0 (sram s) (sra s))
             else paged v (setPagesFlags paging paging pointer numPages size_max 0 (sram s) (sra s)));
        Ok (true, s).

(** [VirtualMemoryManagerPrivate::setPagesFlags] *)
Definition setFlags (pointer size flags : Z) (s : Sys) : outcome (bool * Sys) :=
  let v := vmm s in
  if pointer <? m_virtualBase v then Ok (false, s)
  else
    let base := pointer - m_virtualBase v in
    let lastPage := u64 (base + size + PAGE_MASK) / PAGE_SIZE in
    let base := base / PAGE_SIZE in
    if m_virtualPages v <? lastPage then Ok (false, s)
    else
      let numPages := u64 (lastPage - base) in
      let regNumPages := m_memoryRegions v base in
      if Z.land regNumPages VMM_REG_BUSY_FLAG =? 0 then Ok (false, s)
      else if Z.shiftr regNumPages VMM_REG_SIZE_SHIFT <? numPages then Ok (false, s)
      else
        let '(pflags, flags) :=
          if flagSet flags VMM_NOACCESS then (0, flags)
          else if flagSet flags VMM_READONLY then (PAGE_FLAG_PRESENT, flags)
          else (0, Z.lor PAGE_FLAG_PRESENT PAGE_FLAG_WRITE) in
        let pflags := if flagSet flags VMM_NOCACHE then Z.lor pflags PAGE_FLAG_CACHE_DISABLE else pflags in
        let pageMask := Z.lor (Z.lor PAGE_FLAG_PRESENT PAGE_FLAG_WRITE) PAGE_FLAG_CACHE_DISABLE in
        s ← paged v (setPagesFlags paging paging base (u64 (numPages * PAGE_SIZE)) pageMask pflags (sram s) (sra s));
        Ok (true, s).

(** The constructor, on the start of the free kernel address space. *)
Definition createVmm (freeStart : Z) (m : wmem) (a : RamAllocator.t) : outcome Sys :=
  let needAllMemory := Z.min (u64 (RamAllocator.m_avaibleRamSize a + KERNEL_MIN_VIRTUAL_MEMORY))
                         KERNEL_MAX_VIRTUAL_MEMORY in
  let alreadyUsedInit := u64 (freeStart - KERNEL_VIRTUAL_BASE) in
  if needAllMemory <? alreadyUsedInit then Panic
  else
    let needPages := (needAllMemory - alreadyUsedInit) / PAGE_SIZE in
    let regionsSize := cpuAlignAddrHi (u64 ((needPages + 1) * 8)) in
    let initFlags := Z.lor (Z.lor PAGE_FLAG_ALLOCATED PAGE_FLAG_WRITE) PAGE_FLAG_MEMZERO in
    '(_, st) ← setPagesFlags paging paging freeStart regionsSize PAGE_MASK initFlags m a;
    let freeStart := u64 (freeStart + regionsSize) in
    let freeListSize := cpuAlignAddrHi (u64 (needPages * sizeofItem)) in
    '(_, st) ← setPagesFlags paging paging freeStart freeListSize PAGE_MASK initFlags (ram st) (ra st);
    tableSize ← cpuLastOneBitIndex needPages;
    let virtualPages := u64 (needPages - u64 (regionsSize + freeListSize) / PAGE_SIZE) in
    let v := mkVmm ∅ (fun _ => 0) (replicate 64 0) (replicate 64 0) (S tableSize) nullptr freeStart
               (u64 (freeStart + freeListSize)) virtualPages in
    v ← addFreeRegion 0 virtualPages v;
    Ok (mkSys v (ram st) (ra st)).

End Manager.

(** ** Concrete runs *)
Module Demo.
Definition start : Z := 0xFFFFFF8000100000.
Definition empty : Vmm := emptyVmm start 7 0xFFFFFF8000200000 100.

Lemma start_ok : 0 < start /\ start mod 4 = 0.
Proof. by vm_compute. Qed.

Lemma init_tiled : exists p v, addFreeRegion 0 100 empty = Ok v /\ VInv start [Free 100 p] v.
Proof. apply (initial_VInv start start_ok); [split; by vm_compute | by vm_compute | by vm_compute | lia]. Qed.


Lemma busy_tiled : exists p v, VInv start [Busy 10 false; Free 90 p] v.
Proof.
  destruct init_tiled as (p & v & E & HV).
  assert (Hv : Ok v = addFreeRegion 0 100 empty) by done. vm_compute in Hv. injection Hv as Ev.
  destruct (allocPages_spec start start_ok [Free 100 p] v 10 HV)
    as (page & v' & Ea & [(_ & _ & H)|[(_ & T' & (T1 & n & q & T2 & ET & _ & HT') & HV')|(Hl & _)]]); [lia| | |].
  - pose proof (H 100 p ltac:(by left)). lia.
  - destruct T1 as [|t T1]; [|injection ET as _ ET; by destruct T1]. injection ET as <- <- <-.
    destruct HT' as [[? _]|(_ & p' & ->)]; [lia|]. exists p', v'. exact HV'.
  - rewrite Ev in Hl. by vm_compute in Hl.
Qed.

Lemma freePages_correct_witness : exists p v v' T',
  VInv start [Busy 10 false; Free 90 p] v /\ freePages 0 v = Ok (10, v') /\ VInv start T' v' /\
  freePages 3 v = Ok (0, v).
Proof.
  destruct busy_tiled as (p & v & HV).
  destruct (freePages_correct start start_ok [] (Busy 10 false) [Free 90 p] v 0 HV) as (v' & T' & E & _ & HV'); [cbn; lia|].
  pose proof (freePages_correct start start_ok [] (Busy 10 false) [Free 90 p] v 3 HV) as E3.
  exists p, v, v', T'. split_and!; [done..|]. apply E3. cbn. lia.
Defined.

Lemma reachable_VInv_witness : exists v T,
  addFreeRegion 0 100 empty = Ok v /\ VInv start T v.
Proof.
  destruct (addFreeRegion 0 100 empty) as [v| | |] eqn:E; [|by vm_compute in E..]. exists v.
  destruct (reachable_VInv start start_ok 7 0xFFFFFF8000200000 100 v) as [T HT];
    [split; by vm_compute | by vm_compute | by vm_compute | lia | by apply reach_init |].
  by exists T.
Defined.

(** Where the search limit matters: in the list of its own size class, behind
    [g_maxAllocIterations] regions that are too small, a region of six pages is
    taken for a request of five and the sixth page is not put back: its word in
    the region map keeps pointing to an item that is no longer in use. *)
Fixpoint smallRegions (n : nat) (base : Z) (v : outcome Vmm) : outcome Vmm :=
  match n with
  | O => v
  | S n => smallRegions n (base + 8) (v ← v; addFreeRegion base 4 v)
  end.

Definition crowded : outcome Vmm :=
  smallRegions 32 8 (addFreeRegion 0 6 (emptyVmm start 7 0xFFFFFF8000200000 1000)).

Lemma allocPages_leak :
  (v ← crowded; '(page, v) ← allocPages 5 v; Ok (page, m_memoryRegions v 5, m_freeListItems v)) =
  Ok (0, start, start).
Proof. by vm_compute. Qed.

End Demo.
