(* ===== verification/SpinLock.v ===== *)
(** * Queued spin locks (kernel/SpinLock.cpp)

    [QueuedSpinLockBase] is a queue lock: a CPU appends an entry of its own to
    the queue and spins on that entry until the CPU before it hands the lock
    over.  The model runs any number of CPUs, one shared access at a time, on
    one lock (sequentially consistent accesses). *)

From S2P Require Import Prelude.



(** ** Entries of a CPU *)

(** The pool of one CPU: [m_count] and the [m_use] marks of its entries;
    [LimitAlign] is a power of two. *)
Record LocalCpuSpinsData : Type := mkSpins { m_count : Z; m_used : list bool }.

(** [allocSpinEntry]: the rounds left, then the loop body; PANIC when every
    entry was tried. *)
Fixpoint allocSpinEntry (rounds : nat) (d : LocalCpuSpinsData) : outcome (nat * LocalCpuSpinsData) :=
  match rounds with
  | O => Panic
  | S rounds =>
      let count := u64 (m_count d + 1) in
      let idx := Z.to_nat (Z.land count (Z.of_nat (length (m_used d)) - 1)) in
      u ← arr_get (m_used d) idx;
      if (u : bool) then allocSpinEntry rounds (mkSpins count (m_used d))
      else
        used ← arr_set (m_used d) idx true;
        Ok (idx, mkSpins count used)
  end.

Definition freeSpinEntry (idx : nat) (d : LocalCpuSpinsData) : outcome LocalCpuSpinsData :=
  used ← arr_set (m_used d) idx false; Ok (mkSpins (m_count d) used).

(** ** The lock *)

(** Where a CPU is.  An entry is known by its address, never null. *)
Inductive pc : Type :=
| Idle
| LAlloc (e : Z)              (* lock: allocSpinEntry done *)
| LNext (e : Z)               (* entry.m_next = nullptr done *)
| LReady (e : Z)              (* entry.m_state = true done *)
| LLink (e cur : Z)           (* m_tail.exchange returned cur, not null *)
| LWait (e : Z)               (* cur->m_next = &entry done, spinning *)
| LGot (e : Z)                (* before m_lastLockEntry = &entry *)
| Held (e : Z)                (* lock() returned *)
| UCas (e : Z)                (* unlock: m_lastLockEntry read *)
| ULoop (e : Z)               (* the exchange of m_tail failed *)
| UHand (e p : Z)             (* entry.m_next loaded, not null *)
| UFree (e : Z).              (* before freeSpinEntry *)

#[export] Instance pc_eq_dec : EqDecision pc.
Proof. solve_decision. Defined.

Record state : Type := mkState {
  s_tail : Z;                 (* m_tail *)
  s_last : Z;                 (* m_lastLockEntry *)
  s_next : Z -> Z;            (* m_next of every entry *)
  s_state : Z -> bool;        (* m_state *)
  s_use : Z -> bool;          (* m_use *)
  s_pc : nat -> pc;
  s_queue : list nat          (* CPUs in the order of their exchange, not yet released *)
}.

Definition setPc (s : state) (i : nat) (p : pc) : state :=
  mkState (s_tail s) (s_last s) (s_next s) (s_state s) (s_use s) (<[i := p]> (s_pc s)) (s_queue s).
Definition setNext (s : state) (e x : Z) : state :=
  mkState (s_tail s) (s_last s) (<[e := x]> (s_next s)) (s_state s) (s_use s) (s_pc s) (s_queue s).
Definition setState (s : state) (e : Z) (b : bool) : state :=
  mkState (s_tail s) (s_last s) (s_next s) (<[e := b]> (s_state s)) (s_use s) (s_pc s) (s_queue s).
Definition setUse (s : state) (e : Z) (b : bool) : state :=
  mkState (s_tail s) (s_last s) (s_next s) (s_state s) (<[e := b]> (s_use s)) (s_pc s) (s_queue s).
Definition setTail (s : state) (t : Z) (q : list nat) : state :=
  mkState t (s_last s) (s_next s) (s_state s) (s_use s) (s_pc s) q.
Definition setLast (s : state) (e : Z) : state :=
  mkState (s_tail s) e (s_next s) (s_state s) (s_use s) (s_pc s) (s_queue s).

(** The next shared access of CPU [i]; [fresh] is the entry [allocSpinEntry]
    gives it when it calls [lock]. *)
Definition exec (i : nat) (fresh : Z) (s : state) : option state :=
  match s_pc s i with
  | Idle =>
      if (fresh =? nullptr) || s_use s fresh then None
      else Some (setPc (setUse s fresh true) i (LAlloc fresh))
  | LAlloc e => Some (setPc (setNext s e nullptr) i (LNext e))
  | LNext e => Some (setPc (setState s e true) i (LReady e))
  | LReady e =>
      let cur := s_tail s in
      let s := setTail s e (s_queue s ++ [i]) in
      Some (setPc s i (if cur =? nullptr then LGot e else LLink e cur))
  | LLink e cur => Some (setPc (setNext s cur e) i (LWait e))
  | LWait e => Some (if s_state s e then s else setPc s i (LGot e))
  | LGot e => Some (setPc (setLast s e) i (Held e))
  | Held _ => Some (setPc s i (UCas (s_last s)))
  | UCas e =>
      if s_tail s =? e then Some (setPc (setTail s nullptr (tail (s_queue s))) i (UFree e))
      else Some (setPc s i (ULoop e))
  | ULoop e =>
      let p := s_next s e in
      Some (if p =? nullptr then s else setPc s i (UHand e p))
  | UHand e p =>
      let s := setState s p false in
      Some (setPc (setTail s (s_tail s) (tail (s_queue s))) i (UFree e))
  | UFree e => Some (setPc (setUse s e false) i Idle)
  end.

Definition step (s s' : state) : Prop := exists i fresh, exec i fresh s = Some s'.

Definition initial (s : state) : Prop :=
  s_tail s = nullptr /\ (forall i, s_pc s i = Idle) /\ s_queue s = [].

(** The CPU has the lock. *)
Definition holds (p : pc) : bool :=
  match p with
  | LGot _ | Held _ | UCas _ | ULoop _ | UHand _ _ => true
  | _ => false
  end.

Definition entry (p : pc) : Z :=
  match p with
  | Idle => nullptr
  | LAlloc e | LNext e | LReady e | LLink e _ | LWait e | LGot e | Held e
  | UCas e | ULoop e | UHand e _ | UFree e => e
  end.

(** The CPU is in the queue. *)
Definition queued (p : pc) : bool :=
  match p with
  | LLink _ _ | LWait _ => true
  | _ => holds p
  end.

(** ** Invariant *)

Definition ent (s : state) (i : nat) : Z := entry (s_pc s i).

(** What one CPU relies on. *)
Definition pc_ok (s : state) (i : nat) : Prop :=
  match s_pc s i with
  | LNext e => s_next s e = nullptr
  | LReady e => s_next s e = nullptr /\ s_state s e = true
  | LLink e _ => s_state s e = true
  | Held e | UCas e => s_last s = e
  | ULoop e => s_tail s <> e
  | UHand e p => s_tail s <> e /\ s_next s e = p /\ p <> nullptr
  | _ => True
  end.

(** CPU [b] comes right after CPU [a]: it has not linked itself yet, or it has. *)
Definition link (s : state) (a b : nat) : Prop :=
  match s_pc s b with
  | LLink _ cur => cur = ent s a /\ s_next s (ent s a) = nullptr
  | LWait e => s_next s (ent s a) = e /\ s_state s e = true
  | _ => False
  end.

Fixpoint linked (s : state) (q : list nat) : Prop :=
  match q with
  | [] => True
  | a :: q' =>
      match q' with
      | [] => s_next s (ent s a) = nullptr
      | b :: _ => link s a b /\ linked s q'
      end
  end.

(** The first CPU of the queue has the lock, or is about to see that it has. *)
Definition first_ok (s : state) (i : nat) : Prop :=
  holds (s_pc s i) = true \/ exists e, s_pc s i = LWait e /\ s_state s e = false.

Record Inv (s : state) : Prop := mkInv {
  i_use : forall i, s_pc s i <> Idle -> ent s i <> nullptr /\ s_use s (ent s i) = true;
  i_own : forall i j, s_pc s i <> Idle -> s_pc s j <> Idle -> ent s i = ent s j -> i = j;
  i_nodup : NoDup (s_queue s);
  i_queue : forall i, i ∈ s_queue s <-> queued (s_pc s i) = true;
  i_tail : s_tail s = match last (s_queue s) with Some i => ent s i | None => nullptr end;
  i_pc : forall i, pc_ok s i;
  i_first : forall i q, s_queue s = i :: q -> first_ok s i;
  i_linked : linked s (s_queue s)
}.

Lemma linked_ext s s' q :
  (forall a, a ∈ q -> s_pc s' a = s_pc s a /\ s_next s' (ent s a) = s_next s (ent s a) /\
     s_state s' (ent s a) = s_state s (ent s a)) ->
  linked s q -> linked s' q.
Proof.
  induction q as [|a q IH]; intros H; [done|]. destruct (H a) as (Ha & Hn & _); [by left|].
  assert (Ea : ent s' a = ent s a) by (unfold ent; by rewrite Ha).
  destruct q as [|b q]; cbn [linked]; [by rewrite Ea, Hn|]. intros [Hl Hq].
  split; [|apply IH; [|done]; intros c Hc; apply H; by right].
  destruct (H b) as (Hb & _ & Hs); [right; by left|]. unfold link in *. rewrite Hb, Ea, Hn.
  unfold ent at 1 2 in Hs. destruct (s_pc s b); try done. cbn in Hs. by rewrite Hs.
Qed.

Lemma pc_ok_ext s s' j :
  s_pc s' j = s_pc s j -> s_next s' (ent s j) = s_next s (ent s j) ->
  s_state s' (ent s j) = s_state s (ent s j) ->
  (holds (s_pc s j) = true -> s_last s' = s_last s /\ (s_tail s <> ent s j -> s_tail s' <> ent s j)) ->
  pc_ok s j -> pc_ok s' j.
Proof.
  unfold pc_ok, ent. intros -> Hn Hs Hh. destruct (s_pc s j); cbn in *; rewrite ?Hn, ?Hs; try done.
  - intros <-. by apply Hh.
  - intros <-. by apply Hh.
  - by apply Hh.
  - intros (? & ? & ?). split; [by apply Hh|done].
Qed.

(** Everyone in the queue but its first CPU is waiting. *)
Lemma linked_tail s a q j : linked s (a :: q) -> j ∈ q -> holds (s_pc s j) = false.
Proof.
  revert a. induction q as [|b q IH]; intros a; [by intros _ ?%elem_of_nil|]. intros [Hl Hq].
  intros [->|Hj]%elem_of_cons; [|by eapply IH]. unfold link in Hl. by destruct (s_pc s b).
Qed.

Lemma holds_first s i : Inv s -> holds (s_pc s i) = true -> exists q, s_queue s = i :: q.
Proof.
  intros HI Hh. assert (Hin : i ∈ s_queue s).
  { apply (i_queue _ HI). destruct (s_pc s i); done. }
  pose proof (i_linked _ HI) as Hl. destruct (s_queue s) as [|a q] eqn:Eq; [by apply elem_of_nil in Hin|].
  apply elem_of_cons in Hin as [->|Hin]; [by exists q|]. by rewrite (linked_tail _ _ _ _ Hl Hin) in Hh.
Qed.

Lemma queued_not_idle s i : Inv s -> i ∈ s_queue s -> s_pc s i <> Idle.
Proof. intros HI Hi E. apply (i_queue _ HI) in Hi. by rewrite E in Hi. Qed.

Lemma last_ent s s' q : (forall a, a ∈ q -> s_pc s' a = s_pc s a) ->
  match last q with Some i => ent s' i | None => nullptr end =
  match last q with Some i => ent s i | None => nullptr end.
Proof.
  intros H. destruct (last q) as [i|] eqn:E; [|done]. unfold ent. rewrite H; [done|].
  by apply last_Some_elem_of.
Qed.

(** A CPU outside the queue works on its own entry. *)
Lemma spin_Inv_private s s' i e :
  Inv s -> queued (s_pc s i) = false -> queued (s_pc s' i) = false ->
  (forall j, j <> i -> s_pc s j <> Idle -> ent s j <> e) ->
  (s_pc s' i <> Idle -> ent s' i = e /\ e <> nullptr /\ s_use s' e = true) ->
  (forall j, j <> i -> s_pc s' j = s_pc s j) ->
  (forall x, x <> e -> s_next s' x = s_next s x /\ s_state s' x = s_state s x /\ s_use s' x = s_use s x) ->
  s_tail s' = s_tail s -> s_last s' = s_last s -> s_queue s' = s_queue s -> pc_ok s' i -> Inv s'.
Proof.
  intros HI Hq Hq' Hother Hown Hpc Hmem Ht Hl Hqu Hok.
  assert (Hni : i ∉ s_queue s) by (rewrite (i_queue _ HI), Hq; done).
  assert (Hent : forall j, j <> i -> ent s' j = ent s j) by (intros j Hj; unfold ent; by rewrite Hpc).
  split; rewrite ?Hqu.
  - intros j Hj. destruct (decide (j = i)) as [->|Hji]; [destruct (Hown Hj) as (-> & ? & ?); done|].
    rewrite Hpc in Hj by done. rewrite Hent by done. destruct (Hmem (ent s j)) as (_ & _ & ->); [by apply Hother|].
    by apply (i_use _ HI).
  - intros j k Hj Hk E. destruct (decide (j = i)) as [->|Hji], (decide (k = i)) as [->|Hki]; [done| | |].
    + rewrite Hpc in Hk by done. rewrite (Hent k) in E by done. destruct (Hown Hj) as (E' & _).
      by destruct (Hother k Hki Hk); congruence.
    + rewrite Hpc in Hj by done. rewrite (Hent j) in E by done. destruct (Hown Hk) as (E' & _).
      by destruct (Hother j Hji Hj); congruence.
    + rewrite !Hpc in * by done. rewrite !Hent in E by done. by apply (i_own _ HI).
  - apply (i_nodup _ HI).
  - intros j. destruct (decide (j = i)) as [->|Hji]; [by rewrite Hq'|]. rewrite Hpc by done. apply (i_queue _ HI).
  - rewrite Ht, (i_tail _ HI). symmetry. apply last_ent. intros a Ha. apply Hpc. by intros ->.
  - intros j. destruct (decide (j = i)) as [->|Hji]; [done|].
    destruct (decide (s_pc s j = Idle)) as [Ej|Ej]; [unfold pc_ok; by rewrite Hpc, Ej|].
    destruct (Hmem (ent s j)) as (? & ? & _); [by apply Hother|].
    apply (pc_ok_ext s); auto; [|apply (i_pc _ HI)]. by rewrite Hl, Ht.
  - intros a q Eq. destruct (decide (a = i)) as [->|Ha]; [destruct Hni; rewrite Eq; by left|].
    pose proof (i_first _ HI a q Eq) as Hf. unfold first_ok in *. rewrite Hpc by done.
    destruct Hf as [?|(e' & E & Es)]; [by left|right]. exists e'. split; [done|].
    destruct (Hmem e') as (_ & -> & _); [|done]. intros ->. apply (Hother a Ha); [by rewrite E|].
    unfold ent. by rewrite E.
  - eapply linked_ext; [|apply (i_linked _ HI)]. intros a Ha. assert (a <> i) by (by intros ->).
    destruct (Hmem (ent s a)) as (? & ? & _); [apply Hother; [done|by apply (queued_not_idle s)]|]. auto.
Qed.

(** The CPU at the head of the queue moves on, keeping the lock. *)
Lemma spin_Inv_first s s' i q :
  Inv s -> s_queue s = i :: q -> ent s' i = ent s i -> holds (s_pc s' i) = true ->
  (forall j, j <> i -> s_pc s' j = s_pc s j) ->
  s_next s' = s_next s -> s_state s' = s_state s -> s_use s' = s_use s ->
  s_tail s' = s_tail s -> s_queue s' = s_queue s -> pc_ok s' i -> Inv s'.
Proof.
  intros HI Eq He Hh Hpc Hn Hs Hu Ht Hqu Hok.
  assert (Hent : forall j, ent s' j = ent s j).
  { intros j. destruct (decide (j = i)) as [->|]; [done|]. unfold ent. by rewrite Hpc. }
  assert (Hi : s_pc s i <> Idle) by (apply (queued_not_idle s); [done|rewrite Eq; by left]).
  assert (Hi' : s_pc s' i <> Idle) by (intros E; by rewrite E in Hh).
  assert (Hidle : forall j, s_pc s' j <> Idle -> s_pc s j <> Idle).
  { intros j. destruct (decide (j = i)) as [->|]; [done|]. by rewrite Hpc. }
  pose proof (i_linked _ HI) as Hl. pose proof (i_nodup _ HI) as Hnd. rewrite Eq in Hl, Hnd.
  apply NoDup_cons in Hnd as [Hiq Hnd]. split; rewrite ?Hqu.
  - intros j Hj. rewrite Hent, Hu. apply (i_use _ HI). auto.
  - intros j k Hj Hk. rewrite !Hent. apply (i_own _ HI); auto.
  - apply (i_nodup _ HI).
  - intros j. destruct (decide (j = i)) as [->|Hj]; [|rewrite Hpc by done; apply (i_queue _ HI)].
    rewrite Eq. split; [|intros _; by left]. intros _. by destruct (s_pc s' i).
  - rewrite Ht, (i_tail _ HI). by destruct (last (s_queue s)); rewrite ?Hent.
  - intros j. destruct (decide (j = i)) as [->|Hj]; [done|].
    apply (pc_ok_ext s); rewrite ?Hn, ?Hs, ?Ht; auto; [|apply (i_pc _ HI)].
    intros Hhj. destruct (holds_first s j HI Hhj) as [q' E]. rewrite Eq in E. congruence.
  - intros a q' E. rewrite Eq in E. injection E as <- <-. by left.
  - rewrite Eq. destruct q as [|b q]; [cbn; by rewrite Hent, Hn|]. destruct Hl as [Hl Hq].
    assert (b <> i) by (intros ->; apply Hiq; by left). split.
    + unfold link in *. rewrite Hpc, Hent, Hn, Hs by done. done.
    + eapply linked_ext; [|done]. intros a Ha. rewrite Hpc, Hn, Hs; [done|]. by intros ->.
Qed.

(** The queue without its first CPU. *)
Lemma linked_rest s a q : linked s (a :: q) -> linked s q.
Proof. destruct q as [|b q]; [done|]. by intros [_ ?]. Qed.

Lemma last_cons_ne (a b : nat) q : last (a :: b :: q) = last (b :: q).
Proof. done. Qed.

(** The exchange: the CPU becomes the last of the queue. *)
Lemma linked_snoc s s' q i :
  linked s q -> i ∉ q -> (forall a, a ∈ q -> s_pc s' a = s_pc s a) -> s_next s' = s_next s -> s_state s' = s_state s ->
  s_next s (ent s' i) = nullptr ->
  (forall a, last q = Some a -> s_next s (ent s a) = nullptr -> link s' a i) ->
  linked s' (q ++ [i]).
Proof.
  intros Hl Hi Hpc Hn Hs Hnx. revert Hl. induction q as [|a q IH]; intros Hl Hlast; [cbn; by rewrite Hn|].
  assert (Ha : ent s' a = ent s a) by (unfold ent; rewrite Hpc; [done|by left]).
  destruct q as [|b q].
  - split; [by apply Hlast|cbn; by rewrite Hn].
  - destruct Hl as [Hl Hq]. split.
    + unfold link in *. rewrite Hpc by (right; by left). by rewrite Ha, Hn, Hs.
    + apply IH; try done; [set_solver|]. intros c Hc. apply Hpc. by right.
Qed.

Lemma i_empty s : Inv s -> s_tail s = nullptr <-> s_queue s = [].
Proof.
  intros HI. rewrite (i_tail _ HI). destruct (last (s_queue s)) as [a|] eqn:E.
  - apply last_Some_elem_of in E. split; [|intros Eq; rewrite Eq in E; by apply elem_of_nil in E].
    intros Ea. by destruct (i_use _ HI a (queued_not_idle _ _ HI E)).
  - apply last_None in E. done.
Qed.

Lemma spin_Inv_enqueue s i e :
  Inv s -> s_pc s i = LReady e ->
  Inv (setPc (setTail s e (s_queue s ++ [i])) i (if s_tail s =? nullptr then LGot e else LLink e (s_tail s))).
Proof.
  intros HI Hi. set (s' := setPc _ _ _).
  assert (Hpc : forall j, j <> i -> s_pc s' j = s_pc s j) by (intros j Hj; by apply fn_lookup_insert_ne).
  assert (Hpi : s_pc s' i = if s_tail s =? nullptr then LGot e else LLink e (s_tail s)) by apply fn_lookup_insert.
  assert (Hni : i ∉ s_queue s) by (rewrite (i_queue _ HI), Hi; done).
  assert (Hei : ent s i = e) by (unfold ent; by rewrite Hi).
  assert (Hei' : ent s' i = e) by (unfold ent; rewrite Hpi; by case_match).
  assert (Hent : forall j, ent s' j = ent s j).
  { intros j. destruct (decide (j = i)) as [->|]; [congruence|]. unfold ent. by rewrite Hpc. }
  assert (Hidle : forall j, s_pc s' j <> Idle -> s_pc s j <> Idle).
  { intros j. destruct (decide (j = i)) as [->|]; [by rewrite Hi|]. by rewrite Hpc. }
  pose proof (i_pc _ HI i) as Hok. unfold pc_ok in Hok. rewrite Hi in Hok. destruct Hok as [Hok1 Hok2].
  split; cbn [s_queue s' setPc setTail].
  - intros j Hj. rewrite Hent. apply (i_use _ HI). auto.
  - intros j k Hj Hk. rewrite !Hent. apply (i_own _ HI); auto.
  - apply NoDup_app. split_and!; [apply (i_nodup _ HI) | set_solver | apply NoDup_singleton].
  - intros j. rewrite elem_of_app, list_elem_of_singleton. destruct (decide (j = i)) as [->|Hj].
    + rewrite Hpi. split; [by case_match|by right].
    + rewrite Hpc, <- (i_queue _ HI) by done. naive_solver.
  - rewrite last_snoc. by rewrite Hent.
  - intros j. destruct (decide (j = i)) as [->|Hj]; [unfold pc_ok; rewrite Hpi; by case_match|].
    destruct (decide (s_pc s j = Idle)) as [Ej|Ej]; [unfold pc_ok; by rewrite Hpc, Ej|].
    apply (pc_ok_ext s); auto; [|apply (i_pc _ HI)]. intros _. split; [done|]. intros _ E. cbn in E.
    apply Hj. apply (i_own _ HI); [done|by rewrite Hi|congruence].
  - intros a q Eq. destruct (s_queue s) as [|b q'] eqn:Eqs.
    + injection Eq as <- <-. left. rewrite Hpi. apply (i_empty _ HI) in Eqs. by rewrite Eqs.
    + injection Eq as <- _. pose proof (i_first _ HI b q' Eqs) as Hf. unfold first_ok in *.
      rewrite Hpc by set_solver. done.
  - apply (linked_snoc s); try done; [apply (i_linked _ HI) | intros a Ha; apply Hpc; by intros -> | by rewrite Hei' |].
    intros a Ha Hn. unfold link. rewrite Hpi, Hent. destruct (Z.eqb_spec (s_tail s) nullptr) as [Ez|_].
    + apply (i_empty _ HI) in Ez. by rewrite Ez in Ha.
    + split; [|done]. by rewrite (i_tail _ HI), Ha.
Qed.

(** The links of the queue, pair by pair. *)
Lemma linked_pairs s q : linked s q <->
  (forall l1 a b l2, q = l1 ++ a :: b :: l2 -> link s a b) /\
  (forall a, last q = Some a -> s_next s (ent s a) = nullptr).
Proof.
  induction q as [|a q IH].
  - split; [intros _|done]. split; [intros [|??]; done|done].
  - destruct q as [|b q].
    + split; [|intros [_ H]; by apply (H a)]. intros H. split; [intros [|? [|??]]; done|by intros ? [= <-]].
    + change (linked s (a :: b :: q)) with (link s a b /\ linked s (b :: q)). rewrite IH. split.
      * intros (Hl & H1 & H2). split; [|by intros c Hc; apply H2].
        intros [|x l1] c d l2 E; [by injection E as <- <- _|]. injection E as <- E. by eapply H1.
      * intros [H1 H2]. split; [by apply (H1 [] a b q)|]. split; [|by intros c Hc; apply H2].
        intros l1 c d l2 E. apply (H1 (a :: l1) c d l2). by rewrite E.
Qed.

Lemma pair_lookup (q l1 l2 : list nat) a b : q = l1 ++ a :: b :: l2 ->
  q !! length l1 = Some a /\ q !! S (length l1) = Some b.
Proof.
  intros ->. split; [by rewrite list_lookup_middle|].
  rewrite lookup_app_r by lia. by replace (S (length l1) - length l1)%nat with 1%nat by lia.
Qed.

Lemma pair_unique (q l1 l2 l3 l4 : list nat) a a' b : NoDup q ->
  q = l1 ++ a :: b :: l2 -> q = l3 ++ a' :: b :: l4 -> a = a'.
Proof.
  intros Hnd E1 E2. apply pair_lookup in E1 as [A1 B1]. apply pair_lookup in E2 as [A2 B2].
  pose proof (NoDup_lookup _ _ _ _ Hnd B1 B2). congruence.
Qed.

Lemma queued_inj s a b : Inv s -> a ∈ s_queue s -> b ∈ s_queue s -> ent s a = ent s b -> a = b.
Proof. intros HI Ha Hb. apply (i_own _ HI); by apply (queued_not_idle s). Qed.

(** A CPU that still has to link itself has a CPU before it. *)
Lemma LLink_pair s i e cur : Inv s -> s_pc s i = LLink e cur ->
  exists l1 a l2, s_queue s = l1 ++ a :: i :: l2 /\ cur = ent s a /\ s_next s (ent s a) = nullptr.
Proof.
  intros HI Hi. assert (Hin : i ∈ s_queue s) by (apply (i_queue _ HI); by rewrite Hi).
  apply list_elem_of_split in Hin as (l & l2 & Eq). destruct (exists_last_or_nil l) as [->|(l1 & a & ->)].
  - destruct (i_first _ HI i l2 Eq) as [H|(? & H & _)]; rewrite Hi in H; done.
  - rewrite <- (assoc_L (++)) in Eq. cbn in Eq. exists l1, a, l2. split; [done|].
    pose proof (i_linked _ HI) as Hl. apply linked_pairs in Hl as [Hl _]. specialize (Hl _ _ _ _ Eq).
    unfold link in Hl. by rewrite Hi in Hl.
Qed.

Lemma spin_Inv_link s i e cur :
  Inv s -> s_pc s i = LLink e cur -> Inv (setPc (setNext s cur e) i (LWait e)).
Proof.
  intros HI Hi. destruct (LLink_pair _ _ _ _ HI Hi) as (l1 & a & l2 & Eq & -> & Hnx).
  set (s' := setPc _ _ _).
  assert (Hpc : forall j, j <> i -> s_pc s' j = s_pc s j) by (intros j Hj; by apply fn_lookup_insert_ne).
  assert (Hpi : s_pc s' i = LWait e) by apply fn_lookup_insert.
  assert (Hei : ent s i = e) by (unfold ent; by rewrite Hi).
  assert (Hent : forall j, ent s' j = ent s j).
  { intros j. unfold ent. destruct (decide (j = i)) as [->|]; [by rewrite Hpi, Hi|by rewrite Hpc]. }
  assert (Hidle : forall j, s_pc s' j <> Idle -> s_pc s j <> Idle).
  { intros j. destruct (decide (j = i)) as [->|]; [by rewrite Hi|]. by rewrite Hpc. }
  assert (Ha : a ∈ s_queue s) by (rewrite Eq; set_solver).
  assert (Hin : i ∈ s_queue s) by (rewrite Eq; set_solver).
  assert (Hnext : forall x, x <> ent s a -> s_next s' x = s_next s x).
  { intros x Hx. by apply fn_lookup_insert_ne. }
  assert (Hnd := i_nodup _ HI). split; cbn [s_queue s' setPc setNext].
  - intros j Hj. rewrite Hent. apply (i_use _ HI). auto.
  - intros j k Hj Hk. rewrite !Hent. apply (i_own _ HI); auto.
  - done.
  - intros j. destruct (decide (j = i)) as [->|Hj]; [rewrite Hpi; done|]. rewrite Hpc by done. apply (i_queue _ HI).
  - cbn. rewrite (i_tail _ HI). destruct (last (s_queue s)); [by rewrite Hent|done].
  - intros j. destruct (decide (j = i)) as [->|Hj]; [unfold pc_ok; by rewrite Hpi|].
    destruct (decide (s_pc s j = Idle)) as [Ej|Ej]; [unfold pc_ok; by rewrite Hpc, Ej|].
    destruct (decide (j = a)) as [->|Hja].
    + pose proof (i_pc _ HI a) as Hok. pose proof (proj1 (i_queue _ HI a) Ha) as Hqa. unfold pc_ok in *. rewrite Hpc by done.
      unfold ent in Hnx. destruct (s_pc s a); try done. cbn in Hnx. naive_solver.
    + apply (pc_ok_ext s); auto; [|apply (i_pc _ HI)]. apply Hnext. intros E. apply Hja.
      apply (i_own _ HI); [done|by apply (queued_not_idle s)|done].
  - intros b q Eb. pose proof (i_first _ HI b q Eb) as Hf. unfold first_ok in *.
    rewrite Hpc; [done|]. intros ->. destruct Hf as [Hf|(? & Hf & _)]; by rewrite Hi in Hf.
  - pose proof (i_linked _ HI) as Hl. rewrite linked_pairs in Hl |- *. destruct Hl as [Hl1 Hl2]. split.
    + intros l3 b c l4 Eb. specialize (Hl1 _ _ _ _ Eb). unfold link in *. rewrite Hent.
      destruct (decide (c = i)) as [->|Hc].
      * pose proof (pair_unique _ _ _ _ _ _ _ _ Hnd Eq Eb) as <-. rewrite Hpi. cbn.
        rewrite fn_lookup_insert. split; [done|]. pose proof (i_pc _ HI i) as Hok. unfold pc_ok in Hok. by rewrite Hi in Hok.
      * rewrite Hpc by done. rewrite Hnext; [done|]. intros E.
        assert (b = a) as -> by (apply (queued_inj s); try done; rewrite Eb; set_solver).
        apply pair_lookup in Eq as [A1 B1]. apply pair_lookup in Eb as [A2 B2].
        pose proof (NoDup_lookup _ _ _ _ Hnd A1 A2). congruence.
    + intros b Eb. rewrite Hent, Hnext; [by apply Hl2|]. intros E.
      assert (b = a) as -> by (apply (queued_inj s); try done; by apply last_Some_elem_of).
      rewrite last_lookup in Eb. apply pair_lookup in Eq as [A1 B1].
      pose proof (NoDup_lookup _ _ _ _ Hnd A1 Eb). apply lookup_lt_Some in B1. lia.
Qed.

(** The release: the first CPU leaves the queue and the one after it, if there
    is one, is told so. *)
Lemma spin_Inv_dequeue s s' i q e :
  Inv s -> s_queue s = i :: q -> ent s i = e -> s_pc s' i = UFree e ->
  (forall j, j <> i -> s_pc s' j = s_pc s j) -> s_next s' = s_next s -> s_use s' = s_use s ->
  s_last s' = s_last s -> s_queue s' = q ->
  match q with
  | [] => s_tail s' = nullptr /\ s_state s' = s_state s
  | b :: _ => s_tail s' = s_tail s /\ s_state s' = <[ent s b := false]> (s_state s) /\ s_pc s b = LWait (ent s b)
  end -> Inv s'.
Proof.
  intros HI Eq He Hpi Hpc Hn Hu Hl Hqu Hhand.
  assert (Hnd := i_nodup _ HI). rewrite Eq in Hnd. apply NoDup_cons in Hnd as [Hiq Hnd].
  assert (Hent : forall j, ent s' j = ent s j).
  { intros j. destruct (decide (j = i)) as [->|]; [unfold ent at 1; by rewrite Hpi|]. unfold ent. by rewrite Hpc. }
  assert (Hi : s_pc s i <> Idle) by (apply (queued_not_idle s); [done|rewrite Eq; by left]).
  assert (Hidle : forall j, s_pc s' j <> Idle -> s_pc s j <> Idle).
  { intros j. destruct (decide (j = i)) as [->|]; [done|]. by rewrite Hpc. }
  assert (Hst : forall j, j <> i -> s_pc s j <> Idle -> head q <> Some j ->
    s_state s' (ent s j) = s_state s (ent s j)).
  { intros j Hj Hjn Hjb. destruct q as [|b q']; [by destruct Hhand as [_ ->]|]. destruct Hhand as (_ & -> & _).
    apply fn_lookup_insert_ne. intros E. apply Hjb. cbn. f_equal. apply (i_own _ HI); [|done|done].
    apply (queued_not_idle s); [done|]. rewrite Eq. set_solver. }
  pose proof (i_linked _ HI) as Hlk. rewrite Eq in Hlk.
  split; rewrite ?Hqu.
  - intros j Hj. rewrite Hent, Hu. apply (i_use _ HI). auto.
  - intros j k Hj Hk. rewrite !Hent. apply (i_own _ HI); auto.
  - done.
  - intros j. destruct (decide (j = i)) as [->|Hj]; [by rewrite Hpi|]. rewrite Hpc, <- (i_queue _ HI), Eq by done. set_solver.
  - destruct q as [|b q']; [by destruct Hhand|]. destruct Hhand as (-> & _). rewrite (i_tail _ HI), Eq, last_cons_ne.
    destruct (last (b :: q')); [by rewrite Hent|done].
  - intros j. destruct (decide (j = i)) as [->|Hj]; [unfold pc_ok; by rewrite Hpi|].
    destruct (decide (s_pc s j = Idle)) as [Ej|Ej]; [unfold pc_ok; by rewrite Hpc, Ej|].
    destruct (decide (head q = Some j)) as [Ejq|Hjb].
    + destruct q as [|b q']; [done|]. injection Ejq as ->. destruct Hhand as (_ & _ & Hb). unfold pc_ok. by rewrite Hpc, Hb.
    + apply (pc_ok_ext s); [by apply Hpc | by rewrite Hn | by apply Hst | | apply (i_pc _ HI)].
      intros Hh. destruct (holds_first s j HI Hh) as [q' E]. rewrite Eq in E. congruence.
  - intros b q' ->. destruct Hhand as (_ & Hs & Hb). right. exists (ent s b). rewrite Hpc by set_solver.
    split; [done|]. rewrite Hs. apply fn_lookup_insert.
  - pose proof (linked_rest _ _ _ Hlk) as Hl'. destruct q as [|b q']; [done|]. destruct Hhand as (_ & Hs & Hb).
    rewrite linked_pairs in Hl' |- *. destruct Hl' as [H1 H2]. split; [|intros c Hc; rewrite Hent, Hn; by apply H2].
    intros l1 c d l2 Ecd. specialize (H1 _ _ _ _ Ecd).
    assert (Hdb : d <> b).
    { intros ->. apply pair_lookup in Ecd as [_ B]. by pose proof (NoDup_lookup _ 0 _ _ Hnd eq_refl B). }
    assert (Hdq : d ∈ b :: q') by (rewrite Ecd; set_solver).
    assert (Hdi : d <> i) by (by intros ->).
    assert (Hsd : s_state s' (ent s d) = s_state s (ent s d)).
    { apply Hst; [done| |cbn; congruence]. apply (queued_not_idle s); [done|rewrite Eq; set_solver]. }
    unfold link in *. rewrite Hpc, Hent, Hn by done. unfold ent in Hsd. destruct (s_pc s d); try done.
    cbn in Hsd. by rewrite Hsd.
Qed.

(** Read the fields of an updated state. *)
Ltac upd := cbn; rewrite ?fn_lookup_insert; try (by rewrite ?fn_lookup_insert_ne).

(** CPU [i] touches only its entry [e]. *)
Ltac own_step s i e :=
  eapply (spin_Inv_private s _ i e);
  [ done | match goal with H : s_pc s i = _ |- _ => by rewrite H end | upd; done | done
  | unfold ent; upd; done || (intros Hx; by destruct Hx)
  | intros j Hj; by apply fn_lookup_insert_ne | intros x Hx; upd; done
  | done | done | done | unfold pc_ok; upd; done ].

(** CPU [i], first of the queue [i :: q], keeps the lock. *)
Ltac first_step s i q :=
  eapply (spin_Inv_first s _ i q);
  [ done | done | unfold ent; upd; match goal with H : s_pc s i = _ |- _ => by rewrite H end | upd; done
  | intros j Hj; by apply fn_lookup_insert_ne | done | done | done | done | done | unfold pc_ok; upd; done ].

(** CPU [i], first of the queue [i :: q], leaves it. *)
Ltac leave_step s i q e :=
  eapply (spin_Inv_dequeue s _ i q e);
  [ done | done | unfold ent; match goal with H : s_pc s i = _ |- _ => by rewrite H end | upd; done
  | intros j Hj; by apply fn_lookup_insert_ne | done | done | done
  | cbn; match goal with H : s_queue s = _ |- _ => by rewrite H end | cbn ].

(** A waiting CPU whose entry is cleared is the first of the queue. *)
Lemma waiter_first s i e : Inv s -> s_pc s i = LWait e -> s_state s e = false -> exists q, s_queue s = i :: q.
Proof.
  intros HI Hi Es. assert (Hin : i ∈ s_queue s) by (apply (i_queue _ HI); by rewrite Hi).
  apply list_elem_of_split in Hin as (l & l2 & Eq). destruct (exists_last_or_nil l) as [->|(l1 & a & ->)]; [by exists l2|].
  rewrite <- (assoc_L (++)) in Eq. pose proof (i_linked _ HI) as Hl. apply linked_pairs in Hl as [Hl _].
  specialize (Hl _ _ _ _ Eq). unfold link in Hl. rewrite Hi in Hl. destruct Hl. congruence.
Qed.

Lemma spin_Inv_exec s s' i fr : Inv s -> exec i fr s = Some s' -> Inv s'.
Proof.
  intros HI E. unfold exec in E.
  assert (Hown : s_pc s i <> Idle -> forall j, j <> i -> s_pc s j <> Idle -> ent s j <> ent s i).
  { intros Hi j Hj Hji Ee. apply Hj. by apply (i_own _ HI). }
  pose proof (i_pc _ HI i) as Hok. pose proof (i_use _ HI i) as Hu. unfold pc_ok in Hok.
  assert (Hfirst : holds (s_pc s i) = true -> exists q, s_queue s = i :: q) by (by apply holds_first).
  unfold ent at 2 in Hown. unfold ent in Hu.
  destruct (s_pc s i) as [|e|e|e|e cur|e|e|e|e|e|e p|e] eqn:Hi; cbn in Hown, Hu, Hfirst;
    try specialize (Hown ltac:(done)); try specialize (Hu ltac:(done)).
  - destruct (Z.eqb_spec fr nullptr); [done|]. destruct (s_use s fr) eqn:Huf; [done|]. injection E as <-.
    assert (forall j, j <> i -> s_pc s j <> Idle -> ent s j <> fr).
    { intros j _ Hj Ej. destruct (i_use _ HI j Hj) as [_ Huj]. congruence. }
    own_step s i fr.
  - injection E as <-. own_step s i e.
  - injection E as <-. own_step s i e.
  - injection E as <-. by apply spin_Inv_enqueue.
  - injection E as <-. by apply spin_Inv_link.
  - injection E as <-. destruct (s_state s e) eqn:Es; [done|].
    destruct (waiter_first s i e HI Hi Es) as [q Eq]. first_step s i q.
  - injection E as <-. destruct (Hfirst eq_refl) as [q Eq]. first_step s i q.
  - injection E as <-. destruct (Hfirst eq_refl) as [q Eq]. rewrite Hok. first_step s i q.
  - destruct (Hfirst eq_refl) as [q Eq]. destruct (Z.eqb_spec (s_tail s) e) as [Et|Et]; injection E as <-.
    + pose proof (i_tail _ HI) as Hl. destruct (last (s_queue s)) as [a|] eqn:Ela; [|destruct Hu; congruence].
      assert (a = i) as ->.
      { apply (queued_inj s); [done|by apply last_Some_elem_of|rewrite Eq; by left|]. unfold ent at 2. rewrite Hi. cbn. congruence. }
      assert (q = []) as ->.
      { pose proof (i_nodup _ HI) as Hnd. rewrite Eq in Hnd, Ela. apply NoDup_cons in Hnd as [Hiq _].
        destruct q as [|b q]; [done|]. rewrite last_cons_ne in Ela. by apply last_Some_elem_of in Ela. }
      leave_step s i (@nil nat) e. done.
    + first_step s i q.
  - injection E as <-. destruct (Z.eqb_spec (s_next s e) nullptr) as [|Hp]; [done|].
    destruct (Hfirst eq_refl) as [q Eq]. first_step s i q.
  - injection E as <-. destruct (Hfirst eq_refl) as [q Eq]. destruct Hok as (Ht & Hn & Hp).
    pose proof (i_linked _ HI) as Hl. rewrite Eq in Hl. destruct q as [|b q].
    { destruct Ht. rewrite (i_tail _ HI), Eq. cbn. unfold ent. by rewrite Hi. }
    destruct Hl as [Hl _]. unfold link in Hl.
    assert (Ei : ent s i = e) by (unfold ent; by rewrite Hi). rewrite Ei, Hn in Hl.
    destruct (s_pc s b) as [| | | |eb cb|eb| | | | | |] eqn:Hb; try done; [by destruct Hl|]. destruct Hl as [<- _].
    leave_step s i (b :: q) e. unfold ent. by rewrite Hb.
  - injection E as <-. own_step s i e.
Qed.

(** ** What the lock promises *)

Definition reachable (s0 s : state) : Prop := rtc step s0 s.

Lemma spin_Inv_initial s : initial s -> Inv s.
Proof.
  intros (Ht & Hpc & Hq). split; rewrite ?Hq.
  - intros i Hi. by rewrite Hpc in Hi.
  - intros i j Hi. by rewrite Hpc in Hi.
  - constructor.
  - intros i. rewrite Hpc. split; [by intros ?%elem_of_nil|done].
  - done.
  - intros i. unfold pc_ok. by rewrite Hpc.
  - done.
  - done.
Qed.

Lemma spin_Inv_reachable s0 s : initial s0 -> reachable s0 s -> Inv s.
Proof.
  intros H0 Hr. apply spin_Inv_initial in H0. induction Hr as [|s0 s1 s (i & fr & E) _ IH]; [done|].
  apply IH. by eapply spin_Inv_exec.
Qed.

(** C16: in every interleaving at most one CPU has the lock, and it is the CPU
    that exchanged [m_tail] first of all that have not released it: the lock is
    granted in the order of arrival. *)
Theorem spin_mutual_exclusion s0 s :
  initial s0 -> reachable s0 s ->
  (forall i j, holds (s_pc s i) = true -> holds (s_pc s j) = true -> i = j) /\
  (forall i, holds (s_pc s i) = true -> head (s_queue s) = Some i).
Proof.
  intros H0 Hr. pose proof (spin_Inv_reachable _ _ H0 Hr) as HI. split.
  - intros i j Hi Hj. destruct (holds_first s i HI Hi) as [q E], (holds_first s j HI Hj) as [q' E']. congruence.
  - intros i Hi. destruct (holds_first s i HI Hi) as [q ->]. done.
Qed.

(** A CPU whose next access does something: it does not spin. *)
Definition moves (s : state) (i : nat) : Prop :=
  s_pc s i <> Idle /\ forall fr s', exec i fr s = Some s' -> s_pc s' i <> s_pc s i.

(** C17: no deadlock.  Whenever the queue is not empty, its first CPU has or is
    about to take the lock and can move on, or waits in [unlock] for the CPU
    behind it, which is between its exchange and linking itself and can move. *)
Theorem spin_progress s0 s i q :
  initial s0 -> reachable s0 s -> s_queue s = i :: q ->
  moves s i \/ (exists e j q', s_pc s i = ULoop e /\ q = j :: q' /\ moves s j).
Proof.
  intros H0 Hr Eq. pose proof (spin_Inv_reachable _ _ H0 Hr) as HI.
  pose proof (i_first _ HI i q Eq) as Hf. pose proof (i_linked _ HI) as Hl. rewrite Eq in Hl.
  destruct Hf as [Hh|(e & Hi & Es)].
  2: { left. split; [by rewrite Hi|]. intros fr s'. unfold exec. rewrite Hi, Es. intros [= <-]. by upd. }
  destruct (s_pc s i) as [|e|e|e|e cur|e|e|e|e|e|e p|e] eqn:Hi; try done;
    try (left; split; [by rewrite Hi|]; intros fr s'; unfold exec; rewrite Hi; try case_match; intros [= <-]; by upd).
  destruct (Z.eqb_spec (s_next s e) nullptr) as [Hn|Hn].
  2: { left. split; [by rewrite Hi|]. intros fr s'. unfold exec. rewrite Hi. destruct (Z.eqb_spec (s_next s e) nullptr); [done|].
       intros [= <-]. by upd. }
  right. assert (Ei : ent s i = e) by (unfold ent; by rewrite Hi).
  destruct q as [|j q'].
  { pose proof (i_pc _ HI i) as Hok. unfold pc_ok in Hok. rewrite Hi in Hok. destruct Hok.
    rewrite (i_tail _ HI), Eq. done. }
  exists e, j, q'. split_and!; [done..|]. destruct Hl as [Hl _]. unfold link in Hl. rewrite Ei, Hn in Hl.
  destruct (s_pc s j) as [| | | |ej cj|ej| | | | | |] eqn:Hj; try done.
  - split; [by rewrite Hj|]. intros fr s'. unfold exec. rewrite Hj. intros [= <-]. by upd.
  - destruct Hl as [Hl _]. destruct (i_use _ HI j) as [Hu _]; [by rewrite Hj|]. unfold ent in Hu. by rewrite Hj, <- Hl in Hu.
Qed.

(** [try_lock], run without interference: the exchange succeeds only on a free
    lock; [m_lastLockEntry] is not set. *)
Definition tryLock (i : nat) (fresh : Z) (s : state) : option (bool * state) :=
  match s_pc s i with
  | Idle =>
      if (fresh =? nullptr) || s_use s fresh then None
      else
        let s := setState (setNext (setUse s fresh true) fresh nullptr) fresh true in
        if s_tail s =? nullptr then Some (true, setPc (setTail s fresh (s_queue s ++ [i])) i (Held fresh))
        else Some (false, setUse s fresh false)
  | _ => None
  end.

(** [allocSpinEntry] hands out an entry that was not in use. *)
Lemma allocSpinEntry_unused n : forall d idx d',
  allocSpinEntry n d = Ok (idx, d') ->
  m_used d !! idx = Some false /\ m_used d' = <[idx := true]> (m_used d).
Proof.
  induction n as [|n IH]; intros d idx d' E; cbn [allocSpinEntry] in E; [done|].
  unfold arr_get in E. destruct (m_used d !! _) as [u|] eqn:Eu; [|done]. ostep in E. destruct u.
  - by apply IH in E.
  - unfold arr_set in E. rewrite Eu in E. by injection E as <- <-.
Qed.

(** ** Concrete runs *)
Module Demo.
Definition s0 : state := mkState 0 0 (fun _ => 0) (fun _ => false) (fun _ => false) (fun _ => Idle) [].

Fixpoint runs (script : list (nat * Z)) (s : state) : option state :=
  match script with
  | [] => Some s
  | (i, e) :: script => exec i e s ≫= runs script
  end.

Lemma spin_runs script : forall s s', runs script s = Some s' -> reachable s s'.
Proof.
  induction script as [|[i e] script IH]; intros s s' E; cbn in E; [injection E as <-; apply rtc_refl|].
  destruct (exec i e s) as [s1|] eqn:E1; [|done]. eapply rtc_l; [|by apply IH]. by exists i, e.
Qed.

Lemma spin_s0 : initial s0.
Proof. done. Qed.

(** CPU 0 takes the lock, CPU 1 queues behind it, CPU 0 starts its release. *)
Definition script : list (nat * Z) :=
  replicate 5 (0%nat, 16) ++ replicate 4 (1%nat, 32) ++ replicate 2 (0%nat, 16).

Lemma spin_mutual_exclusion_witness : exists s, reachable s0 s /\
  holds (s_pc s 0%nat) = true /\ head (s_queue s) = Some 0%nat /\ holds (s_pc s 1%nat) = false.
Proof.
  destruct (runs script s0) as [s|] eqn:E; [|by vm_compute in E]. exists s.
  pose proof (spin_runs _ _ _ E) as Hr.
  destruct (spin_mutual_exclusion s0 s spin_s0 Hr) as [_ Hh].
  split; [done|]. assert (holds (s_pc s 0%nat) = true /\ holds (s_pc s 1%nat) = false) as [H1 H2].
  { vm_compute in E. injection E as <-. by vm_compute. }
  split; [done|]. split; [by apply Hh|done].
Defined.

Lemma spin_progress_witness : exists s, reachable s0 s /\ s_pc s 0%nat = ULoop 16 /\ s_queue s = [0%nat; 1%nat] /\
  (moves s 0%nat \/ exists e j q', s_pc s 0%nat = ULoop e /\ [1%nat] = j :: q' /\ moves s j).
Proof.
  destruct (runs script s0) as [s|] eqn:E; [|by vm_compute in E]. exists s.
  pose proof (spin_runs _ _ _ E) as Hr.
  assert (s_pc s 0%nat = ULoop 16 /\ s_queue s = [0%nat; 1%nat]) as [H1 H2].
  { vm_compute in E. injection E as <-. by vm_compute. }
  split; [done|]. split; [done|]. split; [done|].
  by apply (spin_progress s0 s 0%nat [1%nat] spin_s0 Hr).
Defined.

(** After [try_lock] on a lock that was never taken, [unlock] works on the null
    entry and does not find the lock's tail there. *)
Lemma tryLock_unlock : exists s s1 s2,
  tryLock 0 16 s0 = Some (true, s) /\ exec 0 0 s = Some s1 /\ exec 0 0 s1 = Some s2 /\
  s_pc s2 0%nat = ULoop nullptr /\ s_tail s2 = 16.
Proof. do 3 eexists. split_and!; reflexivity. Qed.

End Demo.
