(* ===== verification/RingBuffer.v ===== *)
(** * The lock-free ring buffer (include/LockFreeRingBuffer.h)

    A bounded queue for any number of producers and consumers.  Each slot has a
    counter that says for which index it is free or holds data.  The model runs
    any number of threads, one access at a time; indices are 64-bit words that wrap
    around.  The lists [s_hist] and [s_out] record what was pushed and popped. *)

From S2P Require Import Prelude.

Section Ring.
Context {T : Type} (m_size : Z).

(** Where a thread is inside [push] or [pop]. *)
Inductive pc : Type :=
| Idle
| PLoad (v : T)              (* push: before index = m_writeIndex.load() *)
| PIdx (v : T) (index : Z)   (* before the load of the slot's counter *)
| PCas (v : T) (index : Z)   (* cnt == index: before the exchange of m_writeIndex *)
| PData (v : T) (index : Z)  (* before item->m_data = data *)
| PPub (v : T) (index : Z)   (* before item->m_counter = index + 1 *)
| PRet (ok : bool)
| GLoad                      (* pop: before index = m_readIndex.load() *)
| GIdx (index : Z)
| GCas (index : Z)           (* cnt == index + 1 *)
| GData (index : Z)          (* before data = item->m_data *)
| GRel (index : Z) (v : T)   (* before item->m_counter = index + m_size *)
| GRet (r : option T).

Record state : Type := mkState {
  m_counter : Z -> Z;
  m_data : Z -> option T;    (* None: never written *)
  m_writeIndex : Z;
  m_readIndex : Z;
  s_pc : nat -> pc;
  s_hist : list T;           (* the values of successful pushes, in the order of their indices *)
  s_out : list (Z * T)       (* the index and the value of every pop that has returned one *)
}.

Definition setPc (s : state) (i : nat) (p : pc) : state :=
  mkState (m_counter s) (m_data s) (m_writeIndex s) (m_readIndex s) (<[i := p]> (s_pc s)) (s_hist s) (s_out s).
Definition setCounter (s : state) (k c : Z) : state :=
  mkState (<[k := c]> (m_counter s)) (m_data s) (m_writeIndex s) (m_readIndex s) (s_pc s) (s_hist s) (s_out s).
Definition setData (s : state) (k : Z) (v : T) : state :=
  mkState (m_counter s) (<[k := Some v]> (m_data s)) (m_writeIndex s) (m_readIndex s) (s_pc s) (s_hist s) (s_out s).
Definition setWrite (s : state) (w : Z) (v : T) : state :=
  mkState (m_counter s) (m_data s) w (m_readIndex s) (s_pc s) (s_hist s ++ [v]) (s_out s).
Definition setRead (s : state) (r : Z) : state :=
  mkState (m_counter s) (m_data s) (m_writeIndex s) r (s_pc s) (s_hist s) (s_out s).

Definition addOut (s : state) (n : Z) (v : T) : state :=
  mkState (m_counter s) (m_data s) (m_writeIndex s) (m_readIndex s) (s_pc s) (s_hist s) (s_out s ++ [(n, v)]).

(** What an idle thread does next, and whether a weak exchange fails spuriously. *)
Inductive action : Type :=
| Push (v : T)
| Pop
| Step (spurious : bool).

(** [m_buffer[index % m_size]] *)
Definition slot (index : Z) : Z := index mod m_size.

Definition exec (i : nat) (a : action) (s : state) : option state :=
  match s_pc s i, a with
  | (Idle | PRet _ | GRet _), Push v => Some (setPc s i (PLoad v))
  | (Idle | PRet _ | GRet _), Pop => Some (setPc s i GLoad)
  | PLoad v, Step _ => Some (setPc s i (PIdx v (m_writeIndex s)))
  | PIdx v index, Step _ =>
      let cnt := m_counter s (slot index) in
      Some (setPc s i (if cnt =? index then PCas v index
                       else if cnt <? index then PRet false else PLoad v))
  | PCas v index, Step spurious =>
      if (m_writeIndex s =? index) && negb spurious
      then Some (setPc (setWrite s (u64 (index + 1)) v) i (PData v index))
      else Some (setPc s i (PLoad v))
  | PData v index, Step _ => Some (setPc (setData s (slot index) v) i (PPub v index))
  | PPub _ index, Step _ => Some (setPc (setCounter s (slot index) (u64 (index + 1))) i (PRet true))
  | GLoad, Step _ => Some (setPc s i (GIdx (m_readIndex s)))
  | GIdx index, Step _ =>
      let cnt := m_counter s (slot index) in
      let nextIndex := u64 (index + 1) in
      Some (setPc s i (if cnt =? nextIndex then GCas index
                       else if cnt <? nextIndex then GRet None else GLoad))
  | GCas index, Step spurious =>
      if (m_readIndex s =? index) && negb spurious
      then Some (setPc (setRead s (u64 (index + 1))) i (GData index))
      else Some (setPc s i GLoad)
  | GData index, Step _ =>
      match m_data s (slot index) with
      | Some v => Some (setPc s i (GRel index v))
      | None => None
      end
  | GRel index v, Step _ => Some (setPc (addOut (setCounter s (slot index) (u64 (index + m_size))) index v) i (GRet (Some v)))
  | _, _ => None
  end.

Definition step (s s' : state) : Prop := exists i a, exec i a s = Some s'.

(** The constructor. *)
Definition initial (s : state) : Prop :=
  (forall k, 0 <= k < m_size -> m_counter s k = k) /\ m_writeIndex s = 0 /\ m_readIndex s = 0 /\
  (forall i, s_pc s i = Idle) /\ s_hist s = [] /\ s_out s = [].

(** ** Invariant *)
Context (Hsize : 2 <= m_size).

(** The index a thread owns for writing, and for reading. *)
Definition pushing (p : pc) : option Z :=
  match p with PData _ n | PPub _ n => Some n | _ => None end.
Definition popping (p : pc) : option Z :=
  match p with GData n | GRel n _ => Some n | _ => None end.

Definition cnt (s : state) (n : Z) : Z := m_counter s (slot n).

Definition pc_ok (s : state) (i : nat) : Prop :=
  match s_pc s i with
  | PIdx _ n => 0 <= n <= m_writeIndex s
  | PCas _ n => 0 <= n <= m_writeIndex s /\ (cnt s n = n \/ n < m_writeIndex s)
  | PData v n => 0 <= n < m_writeIndex s /\ cnt s n = n /\ s_hist s !! Z.to_nat n = Some v
  | PPub v n => 0 <= n < m_writeIndex s /\ cnt s n = n /\ s_hist s !! Z.to_nat n = Some v /\
      m_data s (slot n) = Some v
  | GIdx n => 0 <= n <= m_readIndex s
  | GCas n => 0 <= n <= m_readIndex s /\ (cnt s n = n + 1 \/ n < m_readIndex s)
  | GData n => 0 <= n < m_readIndex s /\ cnt s n = n + 1
  | GRel n v => 0 <= n < m_readIndex s /\ cnt s n = n + 1 /\ s_hist s !! Z.to_nat n = Some v
  | _ => True
  end.

Record Inv (s : state) : Prop := mkInv {
  i_read : 0 <= m_readIndex s <= m_writeIndex s;
  i_hist : Z.of_nat (length (s_hist s)) = m_writeIndex s;
  (** a slot that is free for index [n] *)
  i_free : forall n, 0 <= n -> cnt s n = n -> m_readIndex s <= n /\ m_writeIndex s <= n + m_size;
  (** a slot that holds the data of index [n] *)
  i_full : forall n, 0 <= n -> cnt s n = n + 1 -> n < m_writeIndex s <= n + m_size /\
    m_data s (slot n) = s_hist s !! Z.to_nat n;
  i_pc : forall i, pc_ok s i;
  i_push : forall i j n, pushing (s_pc s i) = Some n -> pushing (s_pc s j) = Some n -> i = j;
  i_pop : forall i j n, popping (s_pc s i) = Some n -> popping (s_pc s j) = Some n -> i = j;
  (** an index is given out once *)
  i_nodup : NoDup (s_out s).*1;
  i_out : forall n v, (n, v) ∈ s_out s -> 0 <= n < m_readIndex s /\ s_hist s !! Z.to_nat n = Some v /\
    forall i, popping (s_pc s i) <> Some n
}.

Lemma slot_range n : 0 <= slot n < m_size.
Proof. apply Z.mod_pos_bound. lia. Qed.

(** Two indices of one slot differ by a multiple of the size. *)
Lemma slot_eq n m : slot n = slot m -> exists k, n = m + k * m_size.
Proof.
  unfold slot. intros E. exists (n / m_size - m / m_size).
  pose proof (Z.div_mod n m_size ltac:(lia)). pose proof (Z.div_mod m m_size ltac:(lia)). nia.
Qed.

Lemma slot_next n m : slot n = slot m -> n <> m + 1.
Proof.
  intros (k & ->)%slot_eq E. destruct (Z.lt_trichotomy k 0) as [?|[->|?]]; nia.
Qed.

Lemma slot_near n m : slot n = slot m -> m < n -> m + m_size <= n.
Proof. intros (k & ->)%slot_eq Hlt. assert (1 <= k) by nia. nia. Qed.

Lemma slot_add n : slot (n + m_size) = slot n.
Proof. unfold slot. rewrite <- (Z.mul_1_l m_size) at 1. by rewrite Z.mod_add by lia. Qed.

(** A counter write affects the indices of its slot only. *)
Lemma cnt_set s k c n p i : cnt (setPc (setCounter s (slot k) c) i p) n = if decide (slot n = slot k) then c else cnt s n.
Proof.
  unfold cnt. cbn. destruct (decide (slot n = slot k)) as [->|]; [by rewrite fn_lookup_insert|].
  by rewrite fn_lookup_insert_ne.
Qed.

(** Threads keep what they rely on when only [i] moves and the slot facts of
    the others are not touched. *)
Lemma pc_ok_mono s s' j :
  s_pc s' j = s_pc s j -> m_writeIndex s <= m_writeIndex s' -> m_readIndex s <= m_readIndex s' ->
  (forall n v, s_hist s !! n = Some v -> s_hist s' !! n = Some v) ->
  (forall v n, s_pc s j = PCas v n -> cnt s n = n -> cnt s' n = n \/ n < m_writeIndex s') ->
  (forall n, s_pc s j = GCas n -> cnt s n = n + 1 -> cnt s' n = n + 1 \/ n < m_readIndex s') ->
  (forall n, pushing (s_pc s j) = Some n -> cnt s' n = cnt s n) ->
  (forall n, popping (s_pc s j) = Some n -> cnt s' n = cnt s n) ->
  (forall v n, s_pc s j = PPub v n -> m_data s' (slot n) = m_data s (slot n)) ->
  pc_ok s j -> pc_ok s' j.
Proof.
  unfold pc_ok. intros -> Hw Hr Hh H1 H2 H3 H4 H5. destruct (s_pc s j) as [| |v n|v n|v n|v n| | |n|n|n|n v|]; try done; try lia.
  - intros [? [?|?]]; [|split; [lia|right; lia]]. split; [lia|]. by apply (H1 v).
  - intros (? & ? & ?). rewrite H3 by done. split_and!; [lia..|done|auto].
  - intros (? & ? & ? & ?). rewrite H3, (H5 v) by done. split_and!; [lia..|done|auto|done].
  - intros [? [?|?]]; [|split; [lia|right; lia]]. split; [lia|]. by apply H2.
  - intros (? & ?). rewrite H4 by done. split; [lia|done].
  - intros (? & ? & ?). rewrite H4 by done. split_and!; [lia..|done|auto].
Qed.

(** Steps that only move the thread. *)
Lemma ring_Inv_local s i p :
  Inv s -> pc_ok (setPc s i p) i ->
  (forall n, pushing p = Some n -> pushing (s_pc s i) = Some n) ->
  (forall n, popping p = Some n -> popping (s_pc s i) = Some n) -> Inv (setPc s i p).
Proof.
  intros HI Hok Hpu Hpo. destruct HI as [H1 H2 H3 H4 H5 H6 H7 H8 H9]. split; try done.
  - intros j. destruct (decide (j = i)) as [->|Hj]; [done|].
    specialize (H5 j). unfold pc_ok in *. cbn. by rewrite fn_lookup_insert_ne.
  - intros j k n. cbn. destruct (decide (j = i)) as [->|Hj], (decide (k = i)) as [->|Hk];
      rewrite ?fn_lookup_insert, ?fn_lookup_insert_ne by done; eauto.
  - intros j k n. cbn. destruct (decide (j = i)) as [->|Hj], (decide (k = i)) as [->|Hk];
      rewrite ?fn_lookup_insert, ?fn_lookup_insert_ne by done; eauto.
  - intros n v Hin. destruct (H9 n v Hin) as (? & ? & Hno). split; [done|]. split; [done|]. intros j. cbn.
    destruct (decide (j = i)) as [->|Hj]; rewrite ?fn_lookup_insert, ?fn_lookup_insert_ne by done; [|apply Hno]. intros E%Hpo. by apply (Hno i).
Qed.

(** The pops that have returned stay apart from the index a thread owns. *)
Lemma out_keeps s s' i p : Inv s -> (forall n, popping p = Some n -> popping (s_pc s i) = Some n \/ m_readIndex s <= n) ->
  s_pc s' = <[i := p]> (s_pc s) -> s_out s' = s_out s -> m_readIndex s <= m_readIndex s' ->
  (forall n v, s_hist s !! n = Some v -> s_hist s' !! n = Some v) ->
  forall n v, (n, v) ∈ s_out s' -> 0 <= n < m_readIndex s' /\ s_hist s' !! Z.to_nat n = Some v /\ forall j, popping (s_pc s' j) <> Some n.
Proof.
  intros HI Hp Epc Eo Hr Hh n v Hin. rewrite Eo in Hin. destruct (i_out _ HI n v Hin) as (Hn & Hv & Hno).
  split; [lia|]. split; [auto|]. intros j. rewrite Epc. destruct (decide (j = i)) as [->|Hj]; rewrite ?fn_lookup_insert, ?fn_lookup_insert_ne by done; [|apply Hno].
  intros E%Hp. destruct E as [E|E]; [by apply (Hno i) | lia].
Qed.

Lemma ring_Inv_push_claim s i v n :
  Inv s -> s_pc s i = PCas v n -> m_writeIndex s = n ->
  Inv (setPc (setWrite s (n + 1) v) i (PData v n)).
Proof.
  intros HI Hi Hw. pose proof (i_pc _ HI i) as Hok. unfold pc_ok in Hok. rewrite Hi in Hok.
  destruct Hok as [Hn [Hc|?]]; [|lia]. pose proof HI as [H1 H2 H3 H4 H5 H6 H7 H8 H9].
  assert (Hlen : length (s_hist s) = Z.to_nat n) by lia.
  assert (Hh : forall k x, s_hist s !! k = Some x -> (s_hist s ++ [v]) !! k = Some x).
  { intros k x Hk. by apply lookup_app_l_Some. }
  assert (Hnone : forall j m, pushing (s_pc s j) = Some m -> m < n).
  { intros j m Hj. specialize (H5 j). unfold pc_ok in H5. destruct (s_pc s j); try done; injection Hj as ->; lia. }
  split; cbn.
  - lia.
  - rewrite length_app. cbn. lia.
  - intros m Hm Hcm. change (cnt s m = m) in Hcm. destruct (H3 m Hm Hcm). split; [lia|].
    destruct (Z.eq_dec n (m + m_size)) as [E|]; [|lia]. exfalso.
    assert (slot n = slot m) as Es by (rewrite E; apply slot_add). unfold cnt in *. rewrite Es in Hc. lia.
  - intros m Hm Hcm. change (cnt s m = m + 1) in Hcm. destruct (H4 m Hm Hcm) as [? ->]. split.
    + split; [lia|]. destruct (Z.eq_dec n (m + m_size)) as [E|]; [|lia]. exfalso.
      assert (slot n = slot m) as Es by (rewrite E; apply slot_add). unfold cnt in *. rewrite Es in Hc. lia.
    + rewrite lookup_app_l by lia. done.
  - intros j. destruct (decide (j = i)) as [->|Hj].
    + unfold pc_ok. cbn. rewrite fn_lookup_insert. split; [lia|]. split; [done|].
      rewrite lookup_app_r by lia. by replace (Z.to_nat n - length (s_hist s))%nat with 0%nat by lia.
    + apply (pc_ok_mono s); cbn; auto; try lia. by apply fn_lookup_insert_ne.
  - intros j k m. destruct (decide (j = i)) as [->|Hj], (decide (k = i)) as [->|Hk];
      rewrite ?fn_lookup_insert, ?fn_lookup_insert_ne by done; cbn; try done; eauto.
    + intros [= <-] ?%Hnone. lia.
    + intros ?%Hnone [= <-]. lia.
  - intros j k m. destruct (decide (j = i)) as [->|Hj], (decide (k = i)) as [->|Hk];
      rewrite ?fn_lookup_insert, ?fn_lookup_insert_ne by done; cbn; try done; eauto.
  - done.
  - by apply (out_keeps s (setPc (setWrite s (n + 1) v) i (PData v n)) i (PData v n)).
Qed.

Lemma ring_Inv_pop_claim s i n :
  Inv s -> s_pc s i = GCas n -> m_readIndex s = n ->
  Inv (setPc (setRead s (n + 1)) i (GData n)).
Proof.
  intros HI Hi Hr. pose proof (i_pc _ HI i) as Hok. unfold pc_ok in Hok. rewrite Hi in Hok.
  destruct Hok as [Hn [Hc|?]]; [|lia]. pose proof HI as [H1 H2 H3 H4 H5 H6 H7 H8 H9].
  destruct (H4 n ltac:(lia) Hc) as [Hw _].
  assert (Hnone : forall j m, popping (s_pc s j) = Some m -> m < n).
  { intros j m Hj. specialize (H5 j). unfold pc_ok in H5. destruct (s_pc s j); try done; injection Hj as ->; lia. }
  split; cbn; try done; try lia.
  - intros m Hm Hcm. change (cnt s m = m) in Hcm. destruct (H3 m Hm Hcm). split; [|lia].
    destruct (Z.eq_dec m n) as [->|]; lia.
  - intros j. destruct (decide (j = i)) as [->|Hj].
    + unfold pc_ok. cbn. rewrite fn_lookup_insert. split; [lia|done].
    + apply (pc_ok_mono s); cbn; auto; try lia. by apply fn_lookup_insert_ne.
  - intros j k m. destruct (decide (j = i)) as [->|Hj], (decide (k = i)) as [->|Hk];
      rewrite ?fn_lookup_insert, ?fn_lookup_insert_ne by done; cbn; try done; eauto.
  - intros j k m. destruct (decide (j = i)) as [->|Hj], (decide (k = i)) as [->|Hk];
      rewrite ?fn_lookup_insert, ?fn_lookup_insert_ne by done; cbn; try done; eauto.
    + intros [= <-] ?%Hnone. lia.
    + intros ?%Hnone [= <-]. lia.
  - apply (out_keeps s (setPc (setRead s (n + 1)) i (GData n)) i (GData n)); cbn; try done; [intros m [= <-]; right; lia | lia].
Qed.

(** What a thread that owns an index for writing or reading knows of its slot. *)
Lemma pushing_cnt s i n : Inv s -> pushing (s_pc s i) = Some n -> 0 <= n < m_writeIndex s /\ cnt s n = n.
Proof.
  intros HI Hi. pose proof (i_pc _ HI i) as Hok. unfold pc_ok in Hok.
  destruct (s_pc s i); try done; injection Hi as ->; naive_solver.
Qed.
Lemma popping_cnt s i n : Inv s -> popping (s_pc s i) = Some n -> 0 <= n < m_readIndex s /\ cnt s n = n + 1.
Proof.
  intros HI Hi. pose proof (i_pc _ HI i) as Hok. unfold pc_ok in Hok.
  destruct (s_pc s i); try done; injection Hi as ->; naive_solver.
Qed.

Lemma cnt_slot s n m : slot n = slot m -> cnt s n = cnt s m.
Proof. unfold cnt. by intros ->. Qed.

(** The data write of a producer: nobody else has the slot. *)
Lemma ring_Inv_write s i v n :
  Inv s -> s_pc s i = PData v n -> Inv (setPc (setData s (slot n) v) i (PPub v n)).
Proof.
  intros HI Hi. destruct (pushing_cnt s i n HI ltac:(by rewrite Hi)) as [Hn Hc].
  pose proof (i_pc _ HI i) as Hok. unfold pc_ok in Hok. rewrite Hi in Hok. pose proof HI as [H1 H2 H3 H4 H5 H6 H7 H8 H9].
  split; cbn; try done; try lia.
  - intros m Hm Hcm. change (cnt s m = m + 1) in Hcm. rewrite fn_lookup_insert_ne; [by apply H4|].
    intros Es. apply (slot_next n m Es). rewrite <- Hcm, <- (cnt_slot s n m Es). lia.
  - intros j. destruct (decide (j = i)) as [->|Hj].
    + unfold pc_ok. cbn. rewrite !fn_lookup_insert. naive_solver.
    + apply (pc_ok_mono s); cbn; auto; try lia; [by apply fn_lookup_insert_ne|].
      intros v' m Hm. rewrite fn_lookup_insert_ne; [done|]. intros Es. apply Hj.
      destruct (pushing_cnt s j m HI ltac:(by rewrite Hm)) as [_ Hcm].
      rewrite <- (cnt_slot s n m Es) in Hcm. apply (H6 j i n); [rewrite Hm; cbn; congruence|by rewrite Hi].
  - intros j k m. destruct (decide (j = i)) as [->|Hj], (decide (k = i)) as [->|Hk];
      rewrite ?fn_lookup_insert, ?fn_lookup_insert_ne by done; cbn; try done; eauto.
    + intros [= <-] Hk'. apply (H6 i k n); [by rewrite Hi|done].
    + intros Hj' [= <-]. apply (H6 j i n); [done|by rewrite Hi].
  - intros j k m. destruct (decide (j = i)) as [->|Hj], (decide (k = i)) as [->|Hk];
      rewrite ?fn_lookup_insert, ?fn_lookup_insert_ne by done; cbn; try done; eauto.
  - by apply (out_keeps s (setPc (setData s (slot n) v) i (PPub v n)) i (PPub v n)).
Qed.

(** A thread that ends its operation owns nothing any more. *)
Lemma done_push s i p : pushing p = None -> Inv s -> forall j k n,
  pushing (<[i := p]> (s_pc s) j) = Some n -> pushing (<[i := p]> (s_pc s) k) = Some n -> j = k.
Proof.
  intros Hp HI j k n. destruct (decide (j = i)) as [->|Hj], (decide (k = i)) as [->|Hk];
    rewrite ?fn_lookup_insert, ?fn_lookup_insert_ne, ?Hp by done; try done. apply (i_push _ HI).
Qed.
Lemma done_pop s i p : popping p = None -> Inv s -> forall j k n,
  popping (<[i := p]> (s_pc s) j) = Some n -> popping (<[i := p]> (s_pc s) k) = Some n -> j = k.
Proof.
  intros Hp HI j k n. destruct (decide (j = i)) as [->|Hj], (decide (k = i)) as [->|Hk];
    rewrite ?fn_lookup_insert, ?fn_lookup_insert_ne, ?Hp by done; try done. apply (i_pop _ HI).
Qed.

Lemma ring_Inv_publish s i v n :
  Inv s -> s_pc s i = PPub v n -> Inv (setPc (setCounter s (slot n) (n + 1)) i (PRet true)).
Proof.
  intros HI Hi. destruct (pushing_cnt s i n HI ltac:(by rewrite Hi)) as [Hn Hc].
  pose proof (i_pc _ HI i) as Hok. unfold pc_ok in Hok. rewrite Hi in Hok. destruct Hok as (_ & _ & Hh & Hd).
  pose proof HI as [H1 H2 H3 H4 H5 H6 H7 H8 H9].
  split; try done; [| | |by apply (done_push s)|by apply (done_pop s)|by apply (out_keeps s _ i (PRet true))].
  - intros m Hm. rewrite cnt_set. destruct (decide _) as [Es|]; [|by apply H3].
    intros E. symmetry in E. by apply slot_next in E.
  - intros m Hm. rewrite cnt_set. destruct (decide _) as [Es|]; [|by apply H4].
    intros E. assert (m = n) as -> by lia. destruct (H3 n Hm Hc). cbn. rewrite Hd, Hh. split; [lia|done].
  - intros j. destruct (decide (j = i)) as [->|Hj]; [unfold pc_ok; cbn; by rewrite fn_lookup_insert|].
    apply (pc_ok_mono s); try done; [by apply fn_lookup_insert_ne|..].
    + intros v' m _ Hm. rewrite cnt_set. destruct (decide _) as [Es|]; [|by left]. right.
      rewrite (cnt_slot s m n Es) in Hm. cbn. lia.
    + intros m _ Hm. rewrite cnt_set. destruct (decide _) as [Es|]; [|by left]. exfalso.
      rewrite (cnt_slot s m n Es) in Hm. apply (slot_next n m); [done|lia].
    + intros m Hm. rewrite cnt_set. destruct (decide _) as [Es|]; [|done]. exfalso. apply Hj.
      destruct (pushing_cnt s j m HI Hm) as [_ Hcm]. rewrite (cnt_slot s m n Es) in Hcm.
      apply (H6 j i n); [by rewrite Hm; f_equal; lia|by rewrite Hi].
    + intros m Hm. rewrite cnt_set. destruct (decide _) as [Es|]; [|done]. exfalso.
      destruct (popping_cnt s j m HI Hm) as [_ Hcm]. rewrite (cnt_slot s m n Es) in Hcm.
      apply (slot_next n m); [done|lia].
Qed.

Lemma ring_Inv_release s i v n :
  Inv s -> s_pc s i = GRel n v -> Inv (setPc (addOut (setCounter s (slot n) (n + m_size)) n v) i (GRet (Some v))).
Proof.
  intros HI Hi. destruct (popping_cnt s i n HI ltac:(by rewrite Hi)) as [Hn Hc].
  pose proof HI as [H1 H2 H3 H4 H5 H6 H7 H8 H9]. destruct (H4 n ltac:(lia) Hc) as [Hw _].
  pose proof (i_pc _ HI i) as Hok. unfold pc_ok in Hok. rewrite Hi in Hok. destruct Hok as (_ & _ & Hh).
  assert (cnt_set : forall m, cnt (setPc (addOut (setCounter s (slot n) (n + m_size)) n v) i (GRet (Some v))) m =
    if decide (slot m = slot n) then n + m_size else cnt s m) by (intros m; apply (cnt_set s n _ m (GRet (Some v)) i)).
  split; try done; [| | |by apply (done_push s)|by apply (done_pop s)| |].
  4: { cbn. rewrite fmap_app. apply NoDup_app. split; [done|]. split; [|apply NoDup_singleton].
       intros m ([m' v'] & -> & Hin)%list_elem_of_fmap Hm. apply list_elem_of_singleton in Hm. cbn in Hm. subst m'.
       destruct (H9 n v' Hin) as (_ & _ & Hno). apply (Hno i). by rewrite Hi. }
  4: { cbn. intros m v'. rewrite elem_of_app, list_elem_of_singleton. intros [Hin|[= -> ->]].
       - destruct (H9 m v' Hin) as (? & ? & Hno). split; [done|]. split; [done|]. intros j. destruct (decide (j = i)) as [->|Hj]; rewrite ?fn_lookup_insert, ?fn_lookup_insert_ne by done; [done | apply Hno].
       - split; [done|]. split; [done|]. intros j. destruct (decide (j = i)) as [->|Hj]; rewrite ?fn_lookup_insert, ?fn_lookup_insert_ne by done; [done|].
         intros E. apply Hj. apply (H7 j i n); [done | by rewrite Hi]. }
  - intros m Hm. rewrite cnt_set. destruct (decide _) as [Es|]; [|by apply H3]. cbn. intros E. lia.
  - intros m Hm. rewrite cnt_set. destruct (decide _) as [Es|]; [|by apply H4].
    intros E. exfalso. apply (slot_next (n + m_size) m); [by rewrite slot_add|done].
  - intros j. destruct (decide (j = i)) as [->|Hj]; [unfold pc_ok; cbn; by rewrite fn_lookup_insert|].
    apply (pc_ok_mono s); try done; [by apply fn_lookup_insert_ne|..].
    + intros v' m _ Hm. rewrite cnt_set. destruct (decide _) as [Es|]; [|by left]. exfalso.
      rewrite (cnt_slot s m n Es) in Hm. apply (slot_next m n); [done|lia].
    + intros m _ Hm. rewrite cnt_set. destruct (decide _) as [Es|]; [|by left]. right.
      rewrite (cnt_slot s m n Es) in Hm. cbn. lia.
    + intros m Hm. rewrite cnt_set. destruct (decide _) as [Es|]; [|done]. exfalso.
      destruct (pushing_cnt s j m HI Hm) as [_ Hcm]. rewrite (cnt_slot s m n Es) in Hcm.
      apply (slot_next m n); [done|lia].
    + intros m Hm. rewrite cnt_set. destruct (decide _) as [Es|]; [|done]. exfalso. apply Hj.
      destruct (popping_cnt s j m HI Hm) as [_ Hcm]. rewrite (cnt_slot s m n Es) in Hcm.
      apply (H7 j i n); [by rewrite Hm; f_equal; lia|by rewrite Hi].
Qed.

(** Before the index wraps around: fewer than 2^64 - m_size pushes. *)
Definition notWrapped (s : state) : Prop := Z.of_nat (length (s_hist s)) + m_size < 2 ^ 64.

Lemma exec_hist s s' i a : exec i a s = Some s' -> (length (s_hist s) <= length (s_hist s'))%nat.
Proof.
  unfold exec. destruct (s_pc s i), a; try done; try (intros [= <-]; done).
  - destruct (_ && _); intros [= <-]; cbn; [rewrite length_app; cbn; lia | done].
  - destruct (_ && _); by intros [= <-].
  - destruct (m_data s _); [by intros [= <-] | done].
Qed.

Lemma ring_Inv_exec s s' i a : Inv s -> exec i a s = Some s' -> notWrapped s -> Inv s'.
Proof.
  intros HI E Hnw. assert (Hu : forall n d, 0 <= n <= m_writeIndex s -> 0 <= d <= m_size -> u64 (n + d) = n + d).
  { intros n d Hn Hd. apply u64_small. unfold notWrapped in Hnw. pose proof (i_hist _ HI). lia. }
  pose proof (i_pc _ HI i) as Hok. unfold pc_ok in Hok. unfold exec in E.
  assert (Hloc : forall p, pushing p = None -> popping p = None -> pc_ok (setPc s i p) i -> Inv (setPc s i p)).
  { intros p Hp1 Hp2 Hp3. apply ring_Inv_local; [done|done|by rewrite Hp1|by rewrite Hp2]. }
  assert (Hw := i_read _ HI). unfold pc_ok in Hloc. cbn in Hloc.
  destruct (s_pc s i) as [|v|v n|v n|v n|v n|ok| |n|n|n|n v|r] eqn:Hi; destruct a as [w| |sp]; try done;
    try (injection E as <-; apply Hloc; try done; rewrite fn_lookup_insert; done || lia).
  - injection E as <-. destruct (Z.eqb_spec (m_counter s (slot n)) n); [|destruct (_ <? _)];
      apply Hloc; rewrite ?fn_lookup_insert; auto.
  - destruct ((m_writeIndex s =? n) && negb sp) eqn:Ec; injection E as <-.
    + rewrite Hu by lia. apply (ring_Inv_push_claim s); [done|done|lia].
    + apply Hloc; rewrite ?fn_lookup_insert; done.
  - injection E as <-. by apply ring_Inv_write.
  - injection E as <-. rewrite Hu by lia. by eapply ring_Inv_publish.
  - injection E as <-. rewrite Hu by lia. destruct (Z.eqb_spec (m_counter s (slot n)) (n + 1)); [|destruct (_ <? _)];
      apply Hloc; rewrite ?fn_lookup_insert; auto.
  - destruct ((m_readIndex s =? n) && negb sp) eqn:Ec; injection E as <-.
    + rewrite Hu by lia. apply (ring_Inv_pop_claim s); [done|done|lia].
    + apply Hloc; rewrite ?fn_lookup_insert; done.
  - destruct (m_data s (slot n)) as [v|] eqn:Ed; [|done]. injection E as <-. destruct Hok as [Hn Hc].
    apply ring_Inv_local; [done| |done|by intros m [= <-]; rewrite Hi].
    unfold pc_ok. cbn. rewrite fn_lookup_insert. split; [done|]. split; [done|].
    destruct (i_full _ HI n ltac:(lia) Hc) as [_ <-]. done.
  - injection E as <-. rewrite Hu by lia. by apply ring_Inv_release.
Qed.

Lemma ring_Inv_initial s : initial s -> Inv s.
Proof.
  intros (Hc & Hw & Hr & Hpc & Hh & Ho).
  assert (Hcnt : forall n, 0 <= n -> cnt s n <= n).
  { intros n Hn. unfold cnt. rewrite Hc by apply slot_range. unfold slot. apply Z.mod_le; lia. }
  split; rewrite ?Hw, ?Hr, ?Hh, ?Ho; try lia; try done; [..|apply NoDup_nil_2|by intros n v ?%not_elem_of_nil].
  - intros n Hn E. pose proof (Hcnt n Hn). lia.
  - intros i. unfold pc_ok. by rewrite Hpc.
  - intros i j n. by rewrite Hpc.
  - intros i j n. by rewrite Hpc.
Qed.

Lemma steps_hist s s' : rtc step s s' -> (length (s_hist s) <= length (s_hist s'))%nat.
Proof. induction 1 as [|s0 s1 s (i & a & E) _ IH]; [done|]. apply exec_hist in E. lia. Qed.

Lemma ring_Inv_reachable s0 s : initial s0 -> rtc step s0 s -> notWrapped s -> Inv s.
Proof.
  intros H0 Hr. apply ring_Inv_initial in H0. induction Hr as [|s0 s1 s (i & a & E) Hr IH]; [done|].
  intros Hnw. apply IH; [|done]. eapply ring_Inv_exec; [done..|]. apply exec_hist in E. apply steps_hist in Hr. unfold notWrapped in *. lia.
Qed.

(** C18: a buffer of at least two slots is a queue, as long as fewer than 2^64 minus its
    size values have been pushed, so that no index has wrapped around.  In every
    interleaving, the pops that have returned a value returned the value pushed at their
    index, no two of them with one index; a slot is written by one producer at a time and
    read by one consumer at a time, and never both. *)
Theorem ring_fifo s0 s :
  initial s0 -> rtc step s0 s -> notWrapped s ->
  NoDup (s_out s).*1 /\ (forall n v, (n, v) ∈ s_out s -> 0 <= n < m_readIndex s /\ s_hist s !! Z.to_nat n = Some v) /\
  (forall i n v, s_pc s i = GRel n v -> s_hist s !! Z.to_nat n = Some v /\ n ∉ (s_out s).*1) /\
  (forall i j n m, popping (s_pc s i) = Some n -> popping (s_pc s j) = Some m -> slot n = slot m -> i = j) /\
  (forall i j n m, pushing (s_pc s i) = Some n -> pushing (s_pc s j) = Some m -> slot n = slot m -> i = j) /\
  (forall i j n m, pushing (s_pc s i) = Some n -> popping (s_pc s j) = Some m -> slot n <> slot m).
Proof.
  intros H0 Hr Hnw. pose proof (ring_Inv_reachable _ _ H0 Hr Hnw) as HI. split_and!.
  - apply (i_nodup _ HI).
  - intros n v Hin. by destruct (i_out _ HI n v Hin) as (? & ? & _).
  - intros i n v Hi. pose proof (i_pc _ HI i) as Hok. unfold pc_ok in Hok. rewrite Hi in Hok. split; [by destruct Hok as (_ & _ & ?)|].
    intros ([m w] & -> & Hin)%list_elem_of_fmap. destruct (i_out _ HI m w Hin) as (_ & _ & Hno). apply (Hno i). by rewrite Hi.
  - intros i j n m Hi Hj Es. destruct (popping_cnt s i n HI Hi) as [_ H1], (popping_cnt s j m HI Hj) as [_ H2].
    rewrite (cnt_slot s n m Es) in H1. apply (i_pop _ HI i j n); [done|]. rewrite Hj. f_equal. lia.
  - intros i j n m Hi Hj Es. destruct (pushing_cnt s i n HI Hi) as [_ H1], (pushing_cnt s j m HI Hj) as [_ H2].
    rewrite (cnt_slot s n m Es) in H1. apply (i_push _ HI i j n); [done|]. rewrite Hj. f_equal. lia.
  - intros i j n m Hi Hj Es. destruct (pushing_cnt s i n HI Hi) as [_ H1], (popping_cnt s j m HI Hj) as [_ H2].
    rewrite (cnt_slot s n m Es) in H1. apply (slot_next n m Es). lia.
Qed.

End Ring.

(** ** Concrete runs *)
Module Demo.
Definition s0 : @state Z :=
  mkState (fun k => k) (fun _ => None) 0 0 (fun _ => Idle) [] [].

Fixpoint runs (size : Z) (script : list (nat * @action Z)) (s : @state Z) : option state :=
  match script with
  | [] => Some s
  | (i, a) :: script => exec size i a s ≫= runs size script
  end.

Lemma ring_runs size script : forall s s', runs size script s = Some s' -> rtc (step size) s s'.
Proof.
  induction script as [|[i a] script IH]; intros s s' E; cbn in E; [injection E as <-; apply rtc_refl|].
  destruct (exec size i a s) as [s1|] eqn:E1; [|done]. eapply rtc_l; [|by apply IH]. by exists i, a.
Qed.

Lemma ring_s0 size : initial size s0.
Proof. split; [done|]. done. Qed.

Definition doPush (i : nat) (v : Z) : list (nat * action) := (i, Push v) :: replicate 5 (i, Step false).

(** Two producers, then a consumer. *)
Lemma ring_fifo_witness : exists s, rtc (step 2) s0 s /\ s_out s = [(0, 7)] /\ s_hist s !! 0%nat = Some 7.
Proof.
  assert (Hp : (fun s => (s_out s, s_hist s)) <$>
    runs 2 (doPush 0 7 ++ doPush 1 8 ++ (2%nat, Pop) :: replicate 5 (2%nat, Step false)) s0 = Some ([(0, 7)], [7; 8]))
    by (by vm_compute).
  destruct (runs 2 _ s0) as [s|] eqn:E; [|done]. injection Hp as Hp Hh.
  exists s. pose proof (ring_runs _ _ _ _ E) as Hr.
  split; [done|]. split; [done|].
  destruct (ring_fifo 2 ltac:(lia) s0 s (ring_s0 2) Hr) as (_ & H & _); [unfold notWrapped; rewrite Hh; cbn; lia|].
  apply (H 0 7). rewrite Hp. by left.
Defined.

(** A buffer of one slot cannot tell a full slot from a free one: the second
    push succeeds and the first value is lost. *)
Lemma ring_size_one :
  (fun s => (s_pc s 0%nat, s_pc s 1%nat, m_data s 0)) <$> runs 1 (doPush 0 7 ++ doPush 1 8) s0 =
  Some (PRet true, PRet true, Some 8).
Proof. by vm_compute. Qed.

End Demo.
