(* ===== verification/Algorithm.v ===== *)
(** * Generic algorithms (include/kalgorithm.h)

    The templates work on iterator ranges.  A range [[first, last)] of an array
    is the list of its elements; an iterator into it is an index, and reading or
    writing past the array is [Fault].  Source and destination of [kcopy] are
    different objects, as at its call sites. *)

From S2P Require Import Prelude.

Section Algorithms.
Context {A : Type}.

(** [kcopy]: the destination is the array from the [result] iterator on; the
    returned iterator is the number of elements written. *)
Fixpoint kcopy (src result : list A) : outcome (list A) :=
  match src with
  | [] => Ok result
  | x :: src =>
      match result with
      | [] => Fault
      | _ :: result => result ← kcopy src result; Ok (x :: result)
      end
  end.

Fixpoint kfill (range : list A) (val : A) : list A :=
  match range with
  | [] => []
  | _ :: range => val :: kfill range val
  end.

(** [kswap(a[i], a[j])] *)
Definition kswap (l : list A) (i j : nat) : outcome (list A) :=
  a ← arr_get l i;
  b ← arr_get l j;
  l ← arr_set l i b;
  arr_set l j a.

(** The iterator at the first element equal to [val], [last] when there is none. *)
Fixpoint kfind (eqb : A -> A -> bool) (range : list A) (val : A) : nat :=
  match range with
  | [] => O
  | x :: range => if eqb x val then O else S (kfind eqb range val)
  end.

(** [while (count > 0) ...] of [klower_bound]. *)
Fixpoint lowerBoundLoop (fuel : nat) (ltb : A -> A -> bool) (l : list A) (value : A)
    (first count : nat) : outcome nat :=
  match count with
  | O => Ok first
  | _ =>
      match fuel with
      | O => NoFuel
      | S fuel =>
          let step := (count / 2)%nat in
          let it := (first + step)%nat in
          x ← arr_get l it;
          if ltb x value then lowerBoundLoop fuel ltb l value (it + 1) (count - (step + 1))
          else lowerBoundLoop fuel ltb l value first step
      end
  end.
(** The count drops at every turn, so its initial value bounds the turns. *)
Definition klower_bound (ltb : A -> A -> bool) (l : list A) (value : A) : outcome nat :=
  lowerBoundLoop (length l) ltb l value 0 (length l).

(** [while ((first != last) && (first != --last)) kswap( *first++, *last );] *)
Fixpoint reverseLoop (fuel : nat) (l : list A) (first last : nat) : outcome (list A) :=
  if Nat.eqb first last then Ok l
  else
    let last := (last - 1)%nat in
    if Nat.eqb first last then Ok l
    else
      match fuel with
      | O => NoFuel
      | S fuel => l ← kswap l first last; reverseLoop fuel l (first + 1) last
      end.
Definition kreverse (l : list A) : outcome (list A) := reverseLoop (length l) l 0 (length l).

(** ** Functional behaviour *)

Lemma kcopy_app src old rest :
  length old = length src -> kcopy src (old ++ rest) = Ok (src ++ rest).
Proof.
  revert old. induction src as [|x src IH]; intros [|y old] H; simplify_eq/=; [done|].
  by rewrite IH.
Qed.

Lemma kfill_replicate range val : kfill range val = replicate (length range) val.
Proof. induction range; simpl; congruence. Qed.

Lemma kswap_ends a x m y b :
  kswap (a ++ (x :: m ++ [y]) ++ b) (length a) (length a + S (length m)) =
  Ok (a ++ (y :: m ++ [x]) ++ b).
Proof.
  assert (H1 : (a ++ (x :: m ++ [y]) ++ b) !! length a = Some x).
  { rewrite lookup_app_r by lia. by rewrite Nat.sub_diag. }
  assert (H2 : forall z, (a ++ (z :: m ++ [y]) ++ b) !! (length a + S (length m))%nat = Some y).
  { intros z. rewrite lookup_app_r by lia.
    replace (length a + S (length m) - length a)%nat with (S (length m)) by lia.
    simpl. rewrite <- app_assoc. rewrite lookup_app_r by lia. by rewrite Nat.sub_diag. }
  unfold kswap. rewrite (arr_get_Some _ _ _ H1), (arr_get_Some _ _ _ (H2 x)). ostep.
  rewrite (arr_set_Some _ _ _ _ H1). ostep.
  assert (E : <[length a:=y]> (a ++ (x :: m ++ [y]) ++ b) = a ++ (y :: m ++ [y]) ++ b).
  { rewrite insert_app_r_alt by lia. by rewrite Nat.sub_diag. }
  rewrite E, (arr_set_Some _ _ _ _ (H2 y)). f_equal.
  rewrite insert_app_r_alt by lia.
  replace (length a + S (length m) - length a)%nat with (S (length m)) by lia.
  simpl. do 2 f_equal. rewrite <- !app_assoc. rewrite insert_app_r_alt by lia.
  by rewrite Nat.sub_diag.
Qed.

Lemma reverseLoop_spec fuel : forall a m b,
  (length m <= fuel)%nat ->
  reverseLoop fuel (a ++ m ++ b) (length a) (length a + length m) = Ok (a ++ reverse m ++ b).
Proof.
  induction fuel as [|fuel IH]; intros a m b Hf.
  { destruct m; [|simpl in Hf; lia]. simpl. rewrite Nat.add_0_r, Nat.eqb_refl. done. }
  destruct m as [|x m].
  { simpl. rewrite Nat.add_0_r, Nat.eqb_refl. done. }
  destruct (exists_last_or_nil m) as [-> | (m' & y & ->)].
  - cbn [reverseLoop length]. destruct (Nat.eqb_spec (length a) (length a + 1)); [lia|].
    destruct (Nat.eqb_spec (length a) (length a + 1 - 1)); [done|lia].
  - cbn [reverseLoop length] in *. rewrite length_app in *. cbn [length] in *.
    destruct (Nat.eqb_spec (length a) (length a + S (length m' + 1))); [lia|].
    destruct (Nat.eqb_spec (length a) (length a + S (length m' + 1) - 1)); [lia|].
    replace (length a + S (length m' + 1) - 1)%nat with (length a + S (length m'))%nat by lia.
    rewrite kswap_ends. ostep.
    specialize (IH (a ++ [y]) m' (x :: b)).
    rewrite length_app in IH. cbn [length] in IH.
    replace (length a + S (length m'))%nat with (length a + 1 + length m')%nat by lia.
    replace (a ++ (y :: m' ++ [x]) ++ b) with ((a ++ [y]) ++ m' ++ x :: b)
      by (by rewrite <- !app_assoc; simpl; rewrite <- app_assoc).
    rewrite IH by lia. f_equal.
    rewrite reverse_cons, reverse_app, <- !app_assoc. done.
Qed.

Lemma kreverse_spec l : kreverse l = Ok (reverse l).
Proof.
  unfold kreverse. pose proof (reverseLoop_spec (length l) [] l [] ltac:(lia)) as H.
  simpl in H. by rewrite !app_nil_r in H.
Qed.

Lemma kfind_spec eqb range val :
  (forall x y, eqb x y = true <-> x = y) ->
  (kfind eqb range val <= length range)%nat /\
  (forall j x, (j < kfind eqb range val)%nat -> range !! j = Some x -> x <> val) /\
  ((kfind eqb range val < length range)%nat -> range !! kfind eqb range val = Some val).
Proof.
  intros He. induction range as [|y range (IH1 & IH2 & IH3)]; simpl.
  - split_and!; [lia | intros; lia | lia].
  - destruct (eqb y val) eqn:E.
    + apply He in E as ->. split_and!; [lia | intros; lia | done].
    + split_and!; [lia | | intros; apply IH3; lia].
      intros [|j] x Hj Hx; [|by eapply IH2; [|exact Hx]; lia].
      simplify_eq/=. intros ->. assert (eqb val val = true) by by apply He. congruence.
Qed.

(** ** [klower_bound] *)

(** The elements below [value] come first: what the search relies on. *)
Definition partitioned (ltb : A -> A -> bool) (l : list A) (value : A) : Prop :=
  forall i j x y, (i < j)%nat -> l !! i = Some x -> l !! j = Some y ->
    ltb y value = true -> ltb x value = true.

Lemma lowerBoundLoop_spec ltb l value : partitioned ltb l value ->
  forall fuel first count,
  (count <= fuel)%nat -> (first + count <= length l)%nat ->
  (forall j x, (j < first)%nat -> l !! j = Some x -> ltb x value = true) ->
  (forall j x, (first + count <= j)%nat -> l !! j = Some x -> ltb x value = false) ->
  exists r, lowerBoundLoop fuel ltb l value first count = Ok r /\ (r <= length l)%nat /\
    (forall j x, (j < r)%nat -> l !! j = Some x -> ltb x value = true) /\
    (forall j x, (r <= j)%nat -> l !! j = Some x -> ltb x value = false).
Proof.
  intros Hp. induction fuel as [|fuel IH]; intros first count Hf Hlen Hlo Hhi.
  { destruct count; [|lia]. exists first. rewrite Nat.add_0_r in *. by split_and!. }
  destruct count as [|count].
  { exists first. rewrite Nat.add_0_r in *. by split_and!. }
  cbn [lowerBoundLoop]. set (c := S count) in *.
  assert (Hstep : (c / 2 < c)%nat) by (apply Nat.div_lt; lia).
  destruct (lookup_lt_is_Some_2 l (first + c / 2)) as [x Hx]; [lia|].
  rewrite (arr_get_Some _ _ _ Hx). ostep. destruct (ltb x value) eqn:Ex.
  - apply IH; [lia | lia | |].
    + intros j y Hj Hy. destruct (decide (j = first + c / 2)%nat) as [->|]; [congruence|].
      eapply (Hp j (first + c / 2)%nat); [lia | done | exact Hx | done].
    + intros j y Hj. apply Hhi. lia.
  - apply IH; [lia | lia | done |].
    intros j y Hj Hy. destruct (decide (j = first + c / 2)%nat) as [->|]; [congruence|].
    destruct (ltb y value) eqn:Ey; [|done].
    rewrite <- Ex. symmetry. eapply (Hp (first + c / 2)%nat j); [lia | done | exact Hy | done].
Qed.
End Algorithms.

(** C19: on a range whose elements below [value] precede the others, [klower_bound]
    terminates without reading outside the range and returns the boundary: every
    element before it is less than [value] and none from it on is. *)
Theorem klower_bound_correct {A} (ltb : A -> A -> bool) (l : list A) (value : A) :
  partitioned ltb l value ->
  exists r, klower_bound ltb l value = Ok r /\ (r <= length l)%nat /\
    (forall j x, (j < r)%nat -> l !! j = Some x -> ltb x value = true) /\
    (forall j x, (r <= j)%nat -> l !! j = Some x -> ltb x value = false).
Proof.
  intros Hp. apply lowerBoundLoop_spec; [done | lia | lia | lia |].
  intros j x Hj Hx. apply lookup_lt_Some in Hx. lia.
Qed.

Lemma klower_bound_witness :
  partitioned Z.ltb [1; 3; 3; 7; 9] 3 /\
  exists r, klower_bound Z.ltb [1; 3; 3; 7; 9] 3 = Ok r /\ (r <= 5)%nat /\
    (forall j x, (j < r)%nat -> [1; 3; 3; 7; 9] !! j = Some x -> (x <? 3) = true) /\
    (forall j x, (r <= j)%nat -> [1; 3; 3; 7; 9] !! j = Some x -> (x <? 3) = false).
Proof.
  assert (Hp : partitioned Z.ltb [1; 3; 3; 7; 9] 3).
  { intros i j x y Hij Hx Hy Hl. do 5 (destruct j as [|j]; [|]; simplify_eq/=; try lia). }
  split; [exact Hp | exact (klower_bound_correct Z.ltb [1; 3; 3; 7; 9] 3 Hp)].
Defined.

Lemma klower_bound_eval : klower_bound Z.ltb [1; 3; 3; 7; 9] 4 = Ok 3%nat.
Proof. reflexivity. Qed.
