(* ===== verification/Strings.v ===== *)
(** * Strings, character classes and number conversion
      (include/kclib.h, include/conout.h, kernel/CLibImpl.cpp)

    A [const T*] string argument is the list of the characters from the pointer
    to the end of the object it points into: [*str] is the head, [str++] the
    tail, and reading or writing past the object is [Fault].  A character is the
    integer value of its type ([char] is signed here, so a narrow character is in
    [-128, 127]).  Source and destination of the copying routines are different
    objects, as the C standard requires of them.  [unsigned long] has 32 bits on
    the target (x86_64-w64-mingw32). *)

From S2P Require Import Prelude Algorithm.

Definition c_zero : Z := 48.   (* '0' *)

(** ** include/kclib.h *)

Fixpoint kstrncmp (len : nat) (str1 str2 : list Z) : outcome Z :=
  match len with
  | O => Ok 0
  | S len =>
      match str1, str2 with
      | a :: str1, b :: str2 =>
          if negb (a =? b) then Ok (if a <? b then -1 else 1) else kstrncmp len str1 str2
      | _, _ => Fault
      end
  end.

Definition kmemcmp (p1 p2 : list Z) (len : nat) : outcome Z := kstrncmp len p1 p2.

Fixpoint kstrcmp (str1 str2 : list Z) : outcome Z :=
  match str1, str2 with
  | a :: str1, b :: str2 =>
      if a =? b then
        if a =? 0 then Ok 0 else kstrcmp str1 str2
      else Ok (if a <? b then -1 else 1)
  | _, _ => Fault
  end.

Definition ktoupper (character : Z) : Z :=
  if (97 <=? character) && (character <=? 122) then character - 0x20 else character.
Definition ktolower (character : Z) : Z :=
  if (65 <=? character) && (character <=? 90) then character + 0x20 else character.

Fixpoint kstricmp (str1 str2 : list Z) : outcome Z :=
  match str1, str2 with
  | a :: str1, b :: str2 =>
      if ktoupper a =? ktoupper b then
        if a =? 0 then Ok 0 else kstricmp str1 str2
      else Ok (if a <? b then -1 else 1)
  | _, _ => Fault
  end.

Fixpoint kstrlen (str : list Z) : outcome Z :=
  match str with
  | [] => Fault
  | c :: str => if c =? 0 then Ok 0 else n ← kstrlen str; Ok (n + 1)
  end.

(** The result is the destination object from [dst] on. *)
Fixpoint kstrcpy (dst src : list Z) : outcome (list Z) :=
  match dst, src with
  | _ :: dst, c :: src =>
      if c =? 0 then Ok (c :: dst) else r ← kstrcpy dst src; Ok (c :: r)
  | _, _ => Fault
  end.

Definition kstrcat (str1 str2 : list Z) : outcome (list Z) :=
  len ← kstrlen str1;
  tail ← kstrcpy (drop (Z.to_nat len) str1) str2;
  Ok (take (Z.to_nat len) str1 ++ tail).

(** [while (len-- > 0) *p_dst++ = 0;] *)
Fixpoint zeroTail (len : nat) (p_dst : list Z) : outcome (list Z) :=
  match len with
  | O => Ok p_dst
  | S len =>
      match p_dst with
      | [] => Fault
      | _ :: p_dst => r ← zeroTail len p_dst; Ok (0 :: r)
      end
  end.
(** The [do ... while ( *src )] loop: the first character is copied whatever it is. *)
Fixpoint kstrncpy (dst src : list Z) (len : nat) {struct len} : outcome (list Z) :=
  match len with
  | O => Ok dst
  | S len =>
      match dst, src with
      | _ :: dst, c :: src =>
          match len with
          | O => Ok (c :: dst)
          | _ =>
              match src with
              | [] => Fault
              | c' :: _ =>
                  r ← (if negb (c' =? 0) then kstrncpy dst src len else zeroTail len dst);
                  Ok (c :: r)
              end
          end
      | _, _ => Fault
      end
  end.

(** ** include/conout.h: numbers to text *)

(** [for (; num > 0; num /= 10) *ptr++ = '0' + (num % 10);]: the characters written
    and the rest of the buffer. *)
Fixpoint decLoop (num : Z) (ptr : list Z) : outcome (list Z * list Z) :=
  if 0 <? num then
    match ptr with
    | [] => Fault
    | _ :: ptr =>
        '(w, rest) ← decLoop (num / 10) ptr;
        Ok (c_zero + num mod 10 :: w, rest)
    end
  else Ok ([], ptr).

(** [*ptr++ = c] *)
Definition putc (c : Z) (ptr : list Z) : outcome (list Z) :=
  match ptr with
  | [] => Fault
  | _ :: ptr => Ok (c :: ptr)
  end.

(** The overload for unsigned [T]; the result is the buffer from [str] on. *)
Definition integerToDecStr (num : Z) (str : list Z) : outcome (list Z) :=
  '(w, ptr) ← decLoop num str;
  match w with
  | [] =>
      match ptr with
      | [] => Fault
      | _ :: ptr => ptr ← putc 0 ptr; Ok (c_zero :: ptr)
      end
  | _ =>
      w ← kreverse w;
      ptr ← putc 0 ptr;
      Ok (w ++ ptr)
  end.

(** The overload for a signed [T] of [bits] bits: negating the least value is
    undefined. *)
Definition integerToDecStrSigned (bits num : Z) (str : list Z) : outcome (list Z) :=
  if num <? 0 then
    if num =? - 2 ^ (bits - 1) then Fault
    else
      match str with
      | [] => Fault
      | _ :: str => r ← integerToDecStr (- num) str; Ok (45 :: r)
      end
  else integerToDecStr num str.

Definition htbl : list Z := [48; 49; 50; 51; 52; 53; 54; 55; 56; 57; 65; 66; 67; 68; 69; 70].
Definition nibble (value : Z) (k : nat) : Z := Z.land (Z.shiftr value (4 * Z.of_nat k)) 0xF.
Definition hexDigit (d : Z) : Z := nth (Z.to_nat d) htbl 0.

(** [for (; i > 0; i -= 4) if (((value >> i) & 0xF) != 0) break;] with [i = 4 k] *)
Fixpoint hexSkip (value : Z) (k : nat) : nat :=
  match k with
  | O => O
  | S k' => if negb (nibble value k =? 0) then k else hexSkip value k'
  end.
(** [for (; i > 0; i -= 4) *str++ = htbl[(value >> i) & 0xF]; *str++ = htbl[value & 0xF];
    *str++ = 0;] *)
Fixpoint hexEmit (value : Z) (k : nat) (str : list Z) : outcome (list Z) :=
  match str with
  | [] => Fault
  | _ :: str =>
      match k with
      | O => r ← putc 0 str; Ok (hexDigit (nibble value 0) :: r)
      | S k' => r ← hexEmit value k' str; Ok (hexDigit (nibble value k) :: r)
      end
  end.
(** [nibbles] is [sizeof (T) * 2]. *)
Definition unsignedIntegerToHexStr (nibbles : nat) (value : Z) (str : list Z) (skipNulls : bool)
    : outcome (list Z) :=
  let i := (nibbles - 1)%nat in
  hexEmit value (if skipNulls then hexSkip value i else i) str.

(** ** kernel/CLibImpl.cpp: character classes *)

Definition SymbolAttibuteUpper : Z := Z.shiftl 1 0.
Definition SymbolAttibuteLower : Z := Z.shiftl 1 1.
Definition SymbolAttibuteDigit : Z := Z.shiftl 1 2.
Definition SymbolAttibuteSpace : Z := Z.shiftl 1 3.
Definition SymbolAttibutePunct : Z := Z.shiftl 1 4.
Definition SymbolAttibuteControl : Z := Z.shiftl 1 5.
Definition SymbolAttibuteBlank : Z := Z.shiftl 1 6.
Definition SymbolAttibuteHex : Z := Z.shiftl 1 7.

(** The table, its runs of equal entries written once (first code in the comment):
    the ASCII half and the half of the OEM code page. *)
Definition g_symbolAttributeAscii : list Z :=
  replicate 9 SymbolAttibuteControl ++                                    (* 00 *)
  replicate 5 (Z.lor SymbolAttibuteSpace SymbolAttibuteControl) ++        (* 09 *)
  replicate 18 SymbolAttibuteControl ++                                   (* 0E *)
  [Z.lor SymbolAttibuteSpace SymbolAttibuteBlank] ++                      (* 20 *)
  replicate 15 SymbolAttibutePunct ++                                     (* 21 *)
  replicate 10 (Z.lor SymbolAttibuteDigit SymbolAttibuteHex) ++           (* 30 *)
  replicate 7 SymbolAttibutePunct ++                                      (* 3A *)
  replicate 6 (Z.lor SymbolAttibuteUpper SymbolAttibuteHex) ++            (* 41 *)
  replicate 20 SymbolAttibuteUpper ++                                     (* 47 *)
  replicate 6 SymbolAttibutePunct ++                                      (* 5B *)
  replicate 6 (Z.lor SymbolAttibuteLower SymbolAttibuteHex) ++            (* 61 *)
  replicate 20 SymbolAttibuteLower ++                                     (* 67 *)
  replicate 4 SymbolAttibutePunct ++                                      (* 7B *)
  [SymbolAttibuteControl].                                                (* 7F *)
Definition g_symbolAttributeOem : list Z :=
  replicate 32 SymbolAttibuteUpper ++                                     (* 80 *)
  replicate 16 SymbolAttibuteLower ++                                     (* A0 *)
  replicate 48 0 ++                                                       (* B0 *)
  replicate 16 SymbolAttibuteLower ++                                     (* E0 *)
  [SymbolAttibuteUpper; SymbolAttibuteLower; SymbolAttibuteUpper; SymbolAttibuteLower; (* F0 *)
   SymbolAttibuteUpper; SymbolAttibuteLower; SymbolAttibuteUpper; SymbolAttibuteLower] ++
  replicate 7 SymbolAttibutePunct ++                                      (* F8 *)
  [0].                                                                    (* FF *)
Definition g_symbolAttribute : list Z := g_symbolAttributeAscii ++ g_symbolAttributeOem.

(** [g_symbolAttribute[static_cast<unsigned char>(c)]]: the index is below 256, the
    table's size ([symbolTable_size]). *)
Definition checkSymbol (c attr : Z) : bool :=
  negb (Z.land (nth (Z.to_nat (u8 c)) g_symbolAttribute 0) attr =? 0).

(** ** [kstrtoul] *)

Definition ulong_max : Z := 2 ^ 32 - 1.

(** [while( *start == '0' ) start++;] *)
Fixpoint skipZeros (start : list Z) : outcome (list Z) :=
  match start with
  | [] => Fault
  | c :: rest => if c =? c_zero then skipZeros rest else Ok start
  end.

(** The loop of the radices 2 to 10: the value and the pointer it stops at. *)
Fixpoint decDigits (radix val : Z) (start : list Z) : outcome (Z * list Z) :=
  match start with
  | [] => Fault
  | c :: rest =>
      if c =? 0 then Ok (val, start)
      else if negb (checkSymbol c SymbolAttibuteDigit) then Ok (val, start)
      else
        let digit := u32 (c - c_zero) in
        if radix <=? digit then Ok (val, start)
        else
          let tmp := u32 (val * radix) in
          if tmp <? val then Ok (ulong_max, start)
          else decDigits radix (u32 (tmp + digit)) rest
  end.

(** The [for] loop of radix 16; [inl] is the early return. *)
Fixpoint hexDigits (it : nat) (val : Z) (start : list Z) : outcome ((Z * list Z) + (Z * list Z)) :=
  match it with
  | O => Ok (inr (val, start))
  | S it =>
      match start with
      | [] => Fault
      | c :: start =>
          if checkSymbol c SymbolAttibuteDigit then
            hexDigits it (Z.lor (u32 (Z.shiftl val 4)) (c - c_zero)) start
          else if checkSymbol c SymbolAttibuteHex then
            if checkSymbol c SymbolAttibuteUpper then
              hexDigits it (Z.lor (u32 (Z.shiftl val 4)) (c - 65 + 10)) start
            else hexDigits it (Z.lor (u32 (Z.shiftl val 4)) (c - 97 + 10)) start
          else Ok (inl (val, start))
      end
  end.

(** The value and what is stored to [*end] when [end] is given ([None]: nothing). *)
Definition kstrtoul (start : list Z) (radix : Z) : outcome (Z * option (list Z)) :=
  start ← skipZeros start;
  if (2 <=? radix) && (radix <=? 10) then
    '(val, start) ← decDigits radix 0 start;
    Ok (val, Some start)
  else if radix =? 16 then
    r ← hexDigits 8 0 start;
    match r with
    | inl (val, start) => Ok (val, Some start)
    | inr (val, start) =>
        match start with
        | [] => Fault
        | c :: _ => Ok (if checkSymbol c SymbolAttibuteHex then ulong_max else val, Some start)
        end
    end
  else Ok (0, None).

(** ** The C entry points of kernel/CLibImpl.cpp *)

Definition memcmp (lhs rhs : list Z) (size : nat) : outcome Z := kstrncmp size lhs rhs.
Definition strlen (str : list Z) : outcome Z := kstrlen str.
Definition strcpy (dest src : list Z) : outcome (list Z) := kstrcpy dest src.
Definition strncpy (dest src : list Z) (count : nat) : outcome (list Z) := kstrncpy dest src count.
Definition strcmp (str1 str2 : list Z) : outcome Z := kstrcmp str1 str2.
Definition strcat (destination source : list Z) : outcome (list Z) := kstrcat destination source.
Definition strncmp (str1 str2 : list Z) (size : nat) : outcome Z := kstrncmp size str1 str2.
Definition strtoul (start : list Z) (radix : Z) : outcome (Z * option (list Z)) :=
  kstrtoul start radix.
(** An [int] argument narrowed to [char]. *)
Definition s8 (x : Z) : Z := (x + 128) mod 256 - 128.
Definition isprint (ch : Z) : Z := if checkSymbol (s8 ch) SymbolAttibuteControl then 0 else 1.
Definition isxdigit (ch : Z) : Z := if checkSymbol (s8 ch) SymbolAttibuteHex then 1 else 0.
Definition isspace (ch : Z) : Z := if checkSymbol (s8 ch) SymbolAttibuteSpace then 1 else 0.
Definition toupper (ch : Z) : Z := ktoupper (s8 ch).
Definition tolower (ch : Z) : Z := ktolower (s8 ch).

(** ** Character classes *)

Lemma symbolTable_size : length g_symbolAttribute = 256%nat.
Proof. reflexivity. Qed.

(** A decidable fact of every integer of an interval, from its evaluation. *)
Lemma seqZ_forallb (P : Z -> bool) lo n :
  forallb P (seqZ lo n) = true -> forall c, lo <= c < lo + n -> P c = true.
Proof.
  rewrite List.forallb_forall. intros H c Hc. apply H, list_elem_of_In, elem_of_seqZ. lia.
Qed.

Lemma checkSymbol_on lo n attr :
  forallb (fun c => checkSymbol c attr) (seqZ lo n) = true ->
  forall c, lo <= c < lo + n -> checkSymbol c attr = true.
Proof. apply seqZ_forallb. Qed.
Lemma checkSymbol_off lo n attr :
  forallb (fun c => negb (checkSymbol c attr)) (seqZ lo n) = true ->
  forall c, lo <= c < lo + n -> checkSymbol c attr = false.
Proof.
  intros H c Hc. apply negb_true_iff. exact (seqZ_forallb _ _ _ H c Hc).
Qed.

Lemma digit_symbol c : 48 <= c < 58 -> checkSymbol c SymbolAttibuteDigit = true.
Proof. intros. apply (checkSymbol_on 48 10); [reflexivity | lia]. Qed.

(** What the entry points promise, on one character. *)
Definition ctype_ok (ch : Z) : bool :=
  Bool.eqb (isxdigit ch =? 1)
    (((48 <=? ch) && (ch <=? 57)) || ((65 <=? ch) && (ch <=? 70)) || ((97 <=? ch) && (ch <=? 102)))
  && Bool.eqb (isspace ch =? 1) (((9 <=? ch) && (ch <=? 13)) || (ch =? 32))
  && Bool.eqb (isprint ch =? 1) ((32 <=? ch) && negb (ch =? 127))
  && (toupper ch =? if (97 <=? ch) && (ch <=? 122) then ch - 32 else ch)
  && (tolower (toupper ch) =? tolower ch).

(** ** C strings *)

(** A string literal: no character of it is the terminator. *)
Definition nonzero (s : list Z) : Prop := Forall (fun c => c <> 0) s.

Lemma kstrlen_spec s rest : nonzero s -> kstrlen (s ++ 0 :: rest) = Ok (Z.of_nat (length s)).
Proof.
  intros Hs. induction Hs as [|c s Hc Hs IH]; [done|]. cbn [app kstrlen length].
  destruct (Z.eqb_spec c 0); [done|]. rewrite IH. ostep. f_equal. lia.
Qed.

Lemma kstrcpy_spec s rest old more : nonzero s -> length old = S (length s) ->
  kstrcpy (old ++ more) (s ++ 0 :: rest) = Ok (s ++ 0 :: more).
Proof.
  intros Hs. revert old. induction Hs as [|c s Hc Hs IH]; intros [|o old] Hl; simplify_eq/=.
  - by destruct old.
  - destruct (Z.eqb_spec c 0); [done|]. by rewrite (IH old).
Qed.

Lemma kstrcat_spec s1 s2 rest old more : nonzero s1 -> nonzero s2 -> length old = length s2 ->
  kstrcat (s1 ++ 0 :: old ++ more) (s2 ++ 0 :: rest) = Ok ((s1 ++ s2) ++ 0 :: more).
Proof.
  intros H1 H2 Hl. unfold kstrcat. rewrite kstrlen_spec by done. ostep.
  rewrite Nat2Z.id, drop_app_length, take_app_length.
  change (0 :: old ++ more) with ((0 :: old) ++ more).
  rewrite kstrcpy_spec by (done || simpl; congruence). ostep. by rewrite <- app_assoc.
Qed.

(** The order the comparison decides: at the first difference, or none. *)
Lemma kstrcmp_spec s1 s2 r1 r2 : nonzero s1 -> nonzero s2 ->
  (s1 = s2 /\ kstrcmp (s1 ++ 0 :: r1) (s2 ++ 0 :: r2) = Ok 0) \/
  exists p a b t1 t2, s1 ++ [0] = p ++ a :: t1 /\ s2 ++ [0] = p ++ b :: t2 /\ a <> b /\
    kstrcmp (s1 ++ 0 :: r1) (s2 ++ 0 :: r2) = Ok (if a <? b then -1 else 1).
Proof.
  intros H1. revert s2. induction H1 as [|c s1 Hc H1 IH]; intros [|d s2] H2; cbn [app kstrcmp].
  - by left.
  - inversion H2; subst. right. exists [], 0, d, [], (s2 ++ [0]). split_and!; try done.
    destruct (Z.eqb_spec 0 d); [lia|done].
  - right. exists [], c, 0, (s1 ++ [0]), []. split_and!; try done.
    destruct (Z.eqb_spec c 0); [lia|done].
  - inversion H2; subst. destruct (Z.eqb_spec c d) as [->|Hcd].
    + destruct (Z.eqb_spec d 0); [done|].
      destruct (IH s2) as [[-> ->]|(p & a & b & t1 & t2 & -> & -> & Hab & ->)]; [done|by left|].
      right. exists (d :: p), a, b, t1, t2. done.
    + right. by exists [], c, d, (s1 ++ [0]), (s2 ++ [0]).
Qed.

Lemma zeroTail_spec n old more : length old = n -> zeroTail n (old ++ more) = Ok (replicate n 0 ++ more).
Proof.
  revert n. induction old as [|o old IH]; intros [|n] Hl; simplify_eq/=; [done|]. by rewrite IH.
Qed.

(** [kstrncpy] of a non-empty string: the characters that fit, padded with zeros. *)
Lemma kstrncpy_spec s rest len old more : nonzero s -> s <> [] -> length old = len ->
  kstrncpy (old ++ more) (s ++ 0 :: rest) len =
    Ok (take len s ++ replicate (len - length s) 0 ++ more).
Proof.
  intros Hs Hne <-. revert old Hne. induction Hs as [|c s Hc Hs IH]; intros old Hne; [done|].
  destruct old as [|o [|o' old]]; [done | done |].
  destruct s as [|c' s].
  - pose proof (zeroTail_spec (S (length old)) (o' :: old) more eq_refl) as Hz.
    cbn [app length kstrncpy] in *. rewrite Hz. done.
  - inversion Hs; subst. specialize (IH (o' :: old) ltac:(done)).
    cbn [app length kstrncpy] in *. destruct (Z.eqb_spec c' 0); [done|]. cbn [negb].
    rewrite IH. done.
Qed.

(** ** Digits *)

(** The value of a digit string, most significant digit first. *)
Fixpoint horner (radix v : Z) (s : list Z) : Z :=
  match s with
  | [] => v
  | c :: s => horner radix (v * radix + (c - 48)) s
  end.
Definition digits (radix : Z) (s : list Z) : Prop := Forall (fun c => 48 <= c < 48 + radix) s.

Lemma horner_ge radix s : 2 <= radix -> digits radix s -> forall v, 0 <= v -> v <= horner radix v s.
Proof.
  intros Hr Hs. induction Hs as [|c s Hc Hs IH]; intros v Hv; simpl; [lia|].
  etransitivity; [|apply IH]; nia.
Qed.

Lemma horner_app radix s1 s2 v : horner radix v (s1 ++ s2) = horner radix (horner radix v s1) s2.
Proof. revert v. induction s1; intros; simpl; auto. Qed.

Lemma digits_nonzero radix s : digits radix s -> nonzero s.
Proof. intros H. eapply Forall_impl; [exact H|]. simpl. lia. Qed.

Lemma decDigits_spec radix s c rest : 2 <= radix <= 10 -> digits radix s ->
  checkSymbol c SymbolAttibuteDigit = false \/ c = 0 ->
  forall v, 0 <= v -> horner radix v s < 2 ^ 32 ->
  decDigits radix v (s ++ c :: rest) = Ok (horner radix v s, c :: rest).
Proof.
  intros Hr Hs Hstop. induction Hs as [|d s Hd Hs IH]; intros v Hv Hlt; cbn [app decDigits horner] in *.
  - destruct (Z.eqb_spec c 0); [done|]. destruct Hstop as [->|]; done.
  - destruct (Z.eqb_spec d 0); [lia|]. rewrite digit_symbol by lia. cbn [negb].
    assert (Hge : v * radix + (d - 48) <= horner radix (v * radix + (d - 48)) s)
      by (apply horner_ge; [lia | done | nia]).
    unfold c_zero. rewrite (u32_small (d - 48)) by lia. destruct (Z.leb_spec radix (d - 48)); [lia|].
    assert (0 <= v * radix < 2 ^ 32) by nia.
    rewrite (u32_small (v * radix)) by done. destruct (Z.ltb_spec (v * radix) v); [nia|].
    rewrite u32_small by lia. apply IH; nia.
Qed.

Lemma skipZeros_spec k s : hd 0 s <> 48 -> s <> [] ->
  skipZeros (replicate k 48 ++ s) = Ok s.
Proof.
  intros Hh Hs. induction k as [|k IH]; simpl; [|done].
  destruct s as [|c s]; [done|]. simpl in *. unfold c_zero. by destruct (Z.eqb_spec c 48).
Qed.

Lemma horner_zeros radix k s : horner radix 0 (replicate k 48 ++ s) = horner radix 0 s.
Proof. induction k; simpl; done. Qed.

(** A digit string is its leading zeros and the rest. *)
Lemma split_zeros radix s : digits radix s ->
  exists k t, s = replicate k 48 ++ t /\ digits radix t /\ hd 0 t <> 48.
Proof.
  intros Hs. induction Hs as [|c s Hc Hs (k & t & -> & Ht & Hh)].
  - exists O, []. split_and!; [done | constructor | simpl; lia].
  - destruct (decide (c = 48)) as [->|].
    + exists (S k), t. by split_and!.
    + exists O, (c :: replicate k 48 ++ t). split_and!; [done | by constructor | done].
Qed.

Lemma kstrtoul_digits radix s c rest : 2 <= radix <= 10 -> digits radix s ->
  checkSymbol c SymbolAttibuteDigit = false \/ c = 0 -> horner radix 0 s < 2 ^ 32 ->
  kstrtoul (s ++ c :: rest) radix = Ok (horner radix 0 s, Some (c :: rest)).
Proof.
  intros Hr Hs Hc Hv. destruct (split_zeros radix s Hs) as (k & t & -> & Ht & Hh).
  rewrite horner_zeros in *. unfold kstrtoul. rewrite <- app_assoc.
  assert (Hc48 : c <> 48) by (destruct Hc as [Hc| ->]; [intros ->; vm_compute in Hc; done | done]).
  rewrite skipZeros_spec; [|by destruct t | by destruct t]. ostep.
  destruct (Z.leb_spec 2 radix), (Z.leb_spec radix 10); try lia. cbn [andb].
  rewrite decDigits_spec by (done || lia). done.
Qed.

(** ** Decimal text *)

(** The value of a digit string, least significant digit first. *)
Fixpoint valueLE (w : list Z) : Z :=
  match w with
  | [] => 0
  | c :: w => (c - 48) + 10 * valueLE w
  end.

Lemma horner_reverse w : horner 10 0 (reverse w) = valueLE w.
Proof.
  induction w as [|c w IH]; [done|]. rewrite reverse_cons, horner_app, IH. simpl. lia.
Qed.

Lemma decLoop_spec k : forall num ptr, 0 <= num < 10 ^ Z.of_nat k -> (k <= length ptr)%nat ->
  exists w, decLoop num ptr = Ok (w, drop (length w) ptr) /\ (length w <= k)%nat /\
    digits 10 w /\ valueLE w = num /\ (0 < num -> last w <> Some 48 /\ w <> []) /\
    (num = 0 -> w = []).
Proof.
  induction k as [|k IH]; intros num ptr Hn Hk.
  - exists []. assert (num = 0) as -> by lia. destruct ptr; simpl; split_and!; (done || lia || constructor).
  - destruct (Z.ltb_spec 0 num) as [Hpos|Hz]; cycle 1.
    { exists []. assert (num = 0) as -> by lia.
      destruct ptr; simpl; split_and!; (done || lia || constructor). }
    destruct ptr as [|c ptr]; [simpl in Hk; lia|].
    rewrite Nat2Z.inj_succ, Z.pow_succ_r in Hn by lia.
    pose proof (Z.div_mod num 10 ltac:(lia)) as Hdm.
    pose proof (Z.mod_pos_bound num 10 ltac:(lia)) as Hm.
    destruct (IH (num / 10) ptr) as (w & E & Hl & Hd & Hv & Hlast & Hnil);
      [|simpl in Hk; lia|].
    { split; [apply Z.div_pos; lia | apply Z.div_lt_upper_bound; lia]. }
    exists (c_zero + num mod 10 :: w). cbn [decLoop]. destruct (Z.ltb_spec 0 num); [|lia].
    rewrite E. ostep. unfold c_zero. split_and!.
    + done.
    + simpl. lia.
    + constructor; [lia | done].
    + simpl. lia.
    + intros _. split; [|done].
      destruct (decide (num / 10 = 0)) as [Hq|Hq].
      * rewrite (Hnil Hq). simpl. intros [=]. lia.
      * destruct (Hlast ltac:(lia)) as [Hl1 Hl2].
        destruct w as [|c' w]; [done|]. rewrite last_cons_cons. done.
    + lia.
Qed.

(** The text of a number below [10 ^ k]: its canonical decimal digits. *)
Definition dec_text (num : Z) (s : list Z) : Prop :=
  digits 10 s /\ horner 10 0 s = num /\ s <> [] /\ (hd 0 s = 48 -> s = [48]).

Lemma hd_reverse_last (w : list Z) : w <> [] -> last w = Some (hd 0 (reverse w)).
Proof.
  destruct (exists_last_or_nil w) as [->|(w' & x & ->)]; [done|].
  intros _. by rewrite last_snoc, reverse_snoc.
Qed.

Lemma integerToDecStr_spec k num buf :
  (0 < k)%nat -> 0 <= num < 10 ^ Z.of_nat k -> (k < length buf)%nat ->
  exists s, integerToDecStr num buf = Ok (s ++ 0 :: drop (S (length s)) buf) /\
    (length s <= k)%nat /\ dec_text num s.
Proof.
  intros Hk Hn Hb. destruct (decLoop_spec k num buf Hn) as (w & E & Hl & Hd & Hv & Hlast & Hnil); [lia|].
  unfold integerToDecStr. rewrite E. ostep. destruct (decide (num = 0)) as [Hz|Hz].
  - rewrite (Hnil Hz). simpl. exists [48]. destruct buf as [|b [|b' buf]]; simpl in Hb; try lia.
    split_and!; [done | simpl; lia |]. split; [|done]. repeat constructor; lia.
  - destruct (Hlast ltac:(lia)) as [Hl1 Hl2]. destruct w as [|c w0] eqn:Ew; [done|].
    rewrite <- Ew in *. rewrite kreverse_spec. ostep.
    destruct (drop (length w) buf) as [|x r] eqn:Ed.
    { apply (f_equal length) in Ed. rewrite length_drop in Ed. simpl in Ed. lia. }
    simpl. exists (reverse w). rewrite length_reverse. split_and!; [|done|split_and!].
    + do 3 f_equal. rewrite <- Nat.add_1_r, <- drop_drop, Ed. done.
    + by apply Forall_reverse.
    + rewrite horner_reverse. done.
    + intros H. apply (f_equal length) in H. rewrite length_reverse, Ew in H. done.
    + intros H. exfalso. apply Hl1. rewrite hd_reverse_last by done. by rewrite H.
Qed.

(** C21: a 32-bit value written by [integerToDecStr] into a buffer of at least 11
    characters stays inside it and is read back by [kstrtoul] in radix 10, which
    stops at the terminator. *)
Theorem dec_roundtrip num buf :
  0 <= num < 2 ^ 32 -> (11 <= length buf)%nat ->
  exists s str, integerToDecStr num buf = Ok str /\
    str = s ++ 0 :: drop (S (length s)) buf /\ dec_text num s /\ (length s <= 10)%nat /\
    kstrtoul str 10 = Ok (num, Some (0 :: drop (S (length s)) buf)).
Proof.
  intros Hn Hb. destruct (integerToDecStr_spec 10 num buf) as (s & E & Hl & Ht); [lia | lia | lia |].
  pose proof Ht as (Hd & Hv & _). exists s, (s ++ 0 :: drop (S (length s)) buf).
  split_and!; try done. rewrite kstrtoul_digits by (done || lia || auto || by right || rewrite Hv; lia).
  by rewrite Hv.
Qed.

Lemma dec_roundtrip_witness :
  exists s str, integerToDecStr 4294967295 (replicate 32 7) = Ok str /\
    str = s ++ 0 :: drop (S (length s)) (replicate 32 7) /\ dec_text 4294967295 s /\
    (length s <= 10)%nat /\
    kstrtoul str 10 = Ok (4294967295, Some (0 :: drop (S (length s)) (replicate 32 7))).
Proof. apply (dec_roundtrip 4294967295 (replicate 32 7)); [lia | simpl; lia]. Defined.

(** The 64-character buffer of [print] holds the text of every 64-bit value,
    signed or not: no write is out of range and at most 21 characters precede the
    terminator.  The least signed value is excluded: negating it is undefined. *)
Theorem print_buffer_bounds num buf : length buf = 64%nat ->
  (0 <= num < 2 ^ 64 ->
    exists s, integerToDecStr num buf = Ok (s ++ 0 :: drop (S (length s)) buf) /\
      dec_text num s /\ (length s <= 20)%nat) /\
  (- 2 ^ 63 < num < 2 ^ 63 ->
    exists s, integerToDecStrSigned 64 num buf = Ok (s ++ 0 :: drop (S (length s)) buf) /\
      (if num <? 0 then exists t, s = 45 :: t /\ dec_text (- num) t else dec_text num s) /\
      (length s <= 21)%nat).
Proof.
  intros Hb. split; intros Hn.
  - destruct (integerToDecStr_spec 20 num buf) as (s & ? & ? & ?); [lia | lia | lia |]. eauto.
  - unfold integerToDecStrSigned. destruct (Z.ltb_spec num 0).
    + destruct (Z.eqb_spec num (- 2 ^ (64 - 1))); [lia|].
      destruct buf as [|b buf]; [done|]. simpl in Hb.
      destruct (integerToDecStr_spec 20 (- num) buf) as (s & E & ? & ?); [lia | lia | lia |].
      exists (45 :: s). rewrite E. ostep. split_and!; [done | by exists s | simpl; lia].
    + destruct (integerToDecStr_spec 20 num buf) as (s & ? & ? & ?); [lia | lia | lia |].
      exists s. split_and!; [done | done | lia].
Qed.

Lemma print_buffer_bounds_witness :
  length (replicate 64 0) = 64%nat /\
  exists s, integerToDecStr 18446744073709551615 (replicate 64 0)
      = Ok (s ++ 0 :: drop (S (length s)) (replicate 64 0)) /\
    dec_text 18446744073709551615 s /\ (length s <= 20)%nat.
Proof.
  split; [reflexivity|].
  apply (print_buffer_bounds 18446744073709551615 (replicate 64 0)); [reflexivity | lia].
Defined.

(** ** Hexadecimal text *)

(** The [n] low hexadecimal digits of [value], most significant first. *)
Fixpoint hexText (value : Z) (n : nat) : list Z :=
  match n with
  | O => []
  | S n => hexDigit (nibble value n) :: hexText value n
  end.

Lemma nibble_div value n : nibble value n = (value / 16 ^ Z.of_nat n) mod 16.
Proof.
  unfold nibble. change 0xF with (Z.ones 4). rewrite Z.land_ones by lia.
  rewrite Z.shiftr_div_pow2, Z.pow_mul_r by lia. done.
Qed.

Lemma nibble_range value n : 0 <= nibble value n < 16.
Proof. rewrite nibble_div. apply Z.mod_pos_bound. lia. Qed.

Lemma mod_nibble value n :
  value mod 16 ^ Z.of_nat (S n) = nibble value n * 16 ^ Z.of_nat n + value mod 16 ^ Z.of_nat n.
Proof.
  rewrite nibble_div, Nat2Z.inj_succ, Z.pow_succ_r, (Z.mul_comm 16) by lia.
  rewrite Z.rem_mul_r by lia. lia.
Qed.

Lemma hexEmit_spec value k : forall str, (k + 2 <= length str)%nat ->
  hexEmit value k str = Ok (hexText value (S k) ++ 0 :: drop (k + 2) str).
Proof.
  induction k as [|k IH]; intros str Hl.
  - destruct str as [|c [|c' str]]; simpl in Hl; try lia. done.
  - destruct str as [|c str]; simpl in Hl; [lia|]. cbn [hexEmit hexText app].
    rewrite IH by lia. done.
Qed.

Lemma hexSkip_spec value k :
  (hexSkip value k <= k)%nat /\
  value mod 16 ^ Z.of_nat (S k) = value mod 16 ^ Z.of_nat (S (hexSkip value k)).
Proof.
  induction k as [|k [IH1 IH2]]; [done|]. cbn [hexSkip].
  destruct (Z.eqb_spec (nibble value (S k)) 0) as [E|]; cbn [negb]; [|done].
  split; [lia|]. rewrite <- IH2, mod_nibble, E. lia.
Qed.

(** What the scanner sees in a hexadecimal digit. *)
Definition hexDigit_ok (d : Z) : bool :=
  let c := hexDigit d in
  negb (c =? 0) && Bool.eqb (c =? 48) (d =? 0) &&
  if checkSymbol c SymbolAttibuteDigit then c - c_zero =? d
  else checkSymbol c SymbolAttibuteHex && checkSymbol c SymbolAttibuteUpper && (c - 65 + 10 =? d).

Lemma hexDigit_all d : 0 <= d < 16 -> hexDigit_ok d = true.
Proof. apply (seqZ_forallb hexDigit_ok 0 16). vm_compute. done. Qed.

Lemma hexStep a d : 0 <= a -> 16 * a < 2 ^ 32 -> 0 <= d < 16 ->
  Z.lor (u32 (Z.shiftl a 4)) d = 16 * a + d.
Proof.
  intros Ha Hb Hd. rewrite Z.shiftl_mul_pow2 by lia. rewrite u32_small by lia.
  rewrite <- (Z.shiftl_mul_pow2 a 4) by lia.
  replace (16 * a) with (Z.shiftl a 4) by (rewrite Z.shiftl_mul_pow2; lia).
  symmetry. rewrite Z.add_nocarry_lxor; [|].
  - apply Z.bits_inj_iff'. intros i Hi. rewrite Z.lxor_spec, Z.lor_spec.
    destruct (Z.ltb_spec i 4).
    + rewrite (Z.shiftl_spec_low a 4 i) by lia. by destruct (Z.testbit d i).
    + replace (Z.testbit d i) with false; [by destruct (Z.testbit _ i)|].
      symmetry. rewrite Z.testbit_false, Z.div_small; [done| |lia].
      assert (2 ^ 4 <= 2 ^ i) by (apply Z.pow_le_mono_r; lia). lia.
  - apply Z.bits_inj_iff'. intros i Hi. rewrite Z.land_spec, Z.bits_0.
    destruct (Z.ltb_spec i 4); [by rewrite (Z.shiftl_spec_low a 4 i) by lia|].
    replace (Z.testbit d i) with false; [by rewrite andb_false_r|].
    symmetry. rewrite Z.testbit_false, Z.div_small; [done| |lia].
    assert (2 ^ 4 <= 2 ^ i) by (apply Z.pow_le_mono_r; lia). lia.
Qed.

(** One turn of the radix-16 loop on a digit written by the printer. *)
Lemma hexDigits_step it a d rest : 0 <= a -> 16 * a < 2 ^ 32 -> 0 <= d < 16 ->
  hexDigits (S it) a (hexDigit d :: rest) = hexDigits it (16 * a + d) rest.
Proof.
  intros Ha Hb Hd. pose proof (hexDigit_all d Hd) as H. unfold hexDigit_ok in H.
  apply andb_prop in H as [_ H]. cbn [hexDigits].
  destruct (checkSymbol (hexDigit d) SymbolAttibuteDigit).
  - apply Z.eqb_eq in H. by rewrite H, hexStep.
  - apply andb_prop in H as [[-> ->]%andb_prop H]. apply Z.eqb_eq in H. by rewrite H, hexStep.
Qed.

Lemma hexDigits_spec value rest n : forall it a, (n <= it)%nat -> 0 <= a ->
  a * 16 ^ Z.of_nat n + value mod 16 ^ Z.of_nat n < 2 ^ 32 ->
  hexDigits it a (hexText value n ++ 0 :: rest) =
    let v := a * 16 ^ Z.of_nat n + value mod 16 ^ Z.of_nat n in
    Ok (if decide (it = n) then inr (v, 0 :: rest) else inl (v, rest)).
Proof.
  induction n as [|n IH]; intros it a Hit Ha Hv.
  - cbn zeta. replace (a * 16 ^ Z.of_nat 0 + value mod 16 ^ Z.of_nat 0) with a
      by (simpl; rewrite Z.mod_1_r; lia).
    destruct it; [done|]. by destruct (decide _).
  - destruct it as [|it]; [lia|]. cbn [hexText app]. rewrite mod_nibble in *.
    rewrite Nat2Z.inj_succ, Z.pow_succ_r in * by lia.
    pose proof (nibble_range value n) as Hd. set (P := 16 ^ Z.of_nat n) in *.
    assert (0 < P) by (apply Z.pow_pos_nonneg; lia).
    assert (0 <= value mod P < P) by (apply Z.mod_pos_bound; lia).
    rewrite hexDigits_step by (done || nia).
    replace (a * (16 * P) + (nibble value n * P + value mod P))
      with ((16 * a + nibble value n) * P + value mod P) in * by lia.
    rewrite IH by lia. cbn zeta.
    destruct (decide (it = n)), (decide (S it = S n)); (done || lia).
Qed.

Lemma skipZeros_hex value rest n :
  exists j, (j <= n)%nat /\ skipZeros (hexText value n ++ 0 :: rest) = Ok (hexText value j ++ 0 :: rest) /\
    value mod 16 ^ Z.of_nat n = value mod 16 ^ Z.of_nat j /\
    (forall i, j = S i -> nibble value i <> 0).
Proof.
  induction n as [|n (j & Hj & E & Hm & Hi)]; [by exists O|].
  cbn [hexText app skipZeros]. pose proof (hexDigit_all _ (nibble_range value n)) as H.
  unfold hexDigit_ok in H. apply andb_prop in H as [[_ H]%andb_prop _]. apply Bool.eqb_prop in H.
  unfold c_zero at 1. rewrite H. destruct (Z.eqb_spec (nibble value n) 0) as [Hz|Hz].
  - exists j. split_and!; [lia | done | | done]. rewrite mod_nibble, Hz, <- Hm. lia.
  - exists (S n). split_and!; [lia | done | done |]. by intros i [= <-].
Qed.

(** [unsignedIntegerToHexStr] of a 32-bit value, with or without its leading
    zeros, writes at most 9 characters and [kstrtoul] in radix 16 reads the value
    back.  The end pointer is one past the terminator unless the text has eight
    significant digits. *)
Theorem hex_roundtrip num buf skipNulls :
  0 <= num < 2 ^ 32 -> (9 <= length buf)%nat ->
  exists n, (n <= 8)%nat /\
    unsignedIntegerToHexStr 8 num buf skipNulls = Ok (hexText num n ++ 0 :: drop (n + 1) buf) /\
    kstrtoul (hexText num n ++ 0 :: drop (n + 1) buf) 16 =
      Ok (num, Some (if num <? 2 ^ 28 then drop (n + 1) buf else 0 :: drop (n + 1) buf)).
Proof.
  intros Hn Hb. set (i := if skipNulls then hexSkip num 7 else 7%nat).
  assert (Hi : (i <= 7)%nat /\ num mod 16 ^ Z.of_nat (S i) = num).
  { replace num with (num mod 16 ^ Z.of_nat 8) at 2 by (apply Z.mod_small; lia).
    subst i. destruct skipNulls; [|done]. destruct (hexSkip_spec num 7). done. }
  destruct Hi as [Hi Hm]. exists (S i). split; [lia|]. split.
  { unfold unsignedIntegerToHexStr. cbn [Nat.sub]. fold i. rewrite hexEmit_spec by lia.
    by replace (S i + 1)%nat with (i + 2)%nat by lia. }
  set (rest := drop (S i + 1) buf). unfold kstrtoul.
  destruct (skipZeros_hex num rest (S i)) as (j & Hj & -> & Hmj & Hnz). ostep.
  rewrite Hm in Hmj. rewrite hexDigits_spec by lia. ostep. cbn zeta.
  rewrite Z.mul_0_l, Z.add_0_l, <- Hmj. destruct (decide (8 = j)%nat) as [<-|Hj8].
  - replace (checkSymbol 0 SymbolAttibuteHex) with false by reflexivity.
    specialize (Hnz 7%nat eq_refl). rewrite nibble_div in Hnz.
    destruct (Z.ltb_spec num (2 ^ 28)); [|done].
    exfalso. apply Hnz. rewrite Z.div_small by lia. done.
  - destruct (Z.ltb_spec num (2 ^ 28)); [done|].
    assert (16 ^ Z.of_nat j <= 16 ^ 7) by (apply Z.pow_le_mono_r; lia).
    pose proof (Z.mod_pos_bound num (16 ^ Z.of_nat j) ltac:(lia)). lia.
Qed.

Lemma hex_roundtrip_witness :
  exists n, (n <= 8)%nat /\
    unsignedIntegerToHexStr 8 48879 (replicate 32 0) true
      = Ok (hexText 48879 n ++ 0 :: drop (n + 1) (replicate 32 0)) /\
    kstrtoul (hexText 48879 n ++ 0 :: drop (n + 1) (replicate 32 0)) 16 =
      Ok (48879, Some (if 48879 <? 2 ^ 28 then drop (n + 1) (replicate 32 0)
                       else 0 :: drop (n + 1) (replicate 32 0))).
Proof. apply (hex_roundtrip 48879 (replicate 32 0) true); [lia | simpl; lia]. Defined.

(** On a digit string of radix 2 to 10 ended by any other character,
    [kstrtoul] returns the value (when it fits [unsigned long]) and a pointer to
    the character that ended it. *)
Theorem kstrtoul_correct radix s c rest :
  2 <= radix <= 10 -> digits radix s ->
  checkSymbol c SymbolAttibuteDigit = false -> horner radix 0 s < 2 ^ 32 ->
  kstrtoul (s ++ c :: rest) radix = Ok (horner radix 0 s, Some (c :: rest)).
Proof. intros. apply kstrtoul_digits; auto. Qed.

Lemma kstrtoul_correct_witness : kstrtoul ([48; 55; 49] ++ 46 :: [115]) 8 = Ok (57, Some [46; 115]).
Proof.
  apply (kstrtoul_correct 8 [48; 55; 49] 46 [115]); [lia | | reflexivity | reflexivity].
  repeat constructor; lia.
Defined.

(** The overflow test [tmp < val] misses products that wrap past [val]. *)
Lemma kstrtoul_overflow :
  kstrtoul ([52; 50; 57; 52; 57; 54; 55; 50; 57; 54; 0]) 10 = Ok (0, Some [0]).
Proof. reflexivity. Qed.

(** The string routines on NUL-terminated strings: the length, the copy, the
    concatenation inside the destination, the padded bounded copy of a non-empty
    string, and the comparison, which decides at the first differing character. *)
Theorem string_routines s1 s2 r1 r2 old more :
  nonzero s1 -> nonzero s2 -> length old = length s2 ->
  kstrlen (s1 ++ 0 :: r1) = Ok (Z.of_nat (length s1)) /\
  kstrcpy (0 :: old ++ more) (s2 ++ 0 :: r2) = Ok (s2 ++ 0 :: more) /\
  kstrcat (s1 ++ 0 :: old ++ more) (s2 ++ 0 :: r2) = Ok ((s1 ++ s2) ++ 0 :: more) /\
  (s1 <> [] -> kstrncpy (old ++ more) (s1 ++ 0 :: r1) (length s2) =
    Ok (take (length s2) s1 ++ replicate (length s2 - length s1) 0 ++ more)) /\
  ((s1 = s2 /\ kstrcmp (s1 ++ 0 :: r1) (s2 ++ 0 :: r2) = Ok 0) \/
   exists p a b t1 t2, s1 ++ [0] = p ++ a :: t1 /\ s2 ++ [0] = p ++ b :: t2 /\ a <> b /\
    kstrcmp (s1 ++ 0 :: r1) (s2 ++ 0 :: r2) = Ok (if a <? b then -1 else 1)).
Proof.
  intros H1 H2 Hl. split_and!.
  - by apply kstrlen_spec.
  - apply (kstrcpy_spec s2 r2 (0 :: old) more); [done | simpl; congruence].
  - by apply kstrcat_spec.
  - intros Hne. by apply kstrncpy_spec.
  - by apply kstrcmp_spec.
Qed.

Lemma string_routines_witness :
  kstrcat ([65; 66] ++ 0 :: [9; 9; 9] ++ [8]) ([67; 68; 69] ++ 0 :: []) =
    Ok (([65; 66] ++ [67; 68; 69]) ++ 0 :: [8]).
Proof.
  apply (string_routines [65; 66] [67; 68; 69] [1] [] [9; 9; 9] [8]);
    [repeat constructor; lia | repeat constructor; lia | reflexivity].
Defined.

(** An empty source: the routine goes on to read after the terminator. *)
Lemma kstrncpy_empty : kstrncpy [7; 7; 7] [0; 65; 66] 3 = Ok [0; 65; 66].
Proof. reflexivity. Qed.

(** The character classes of the C entry points agree with ASCII: hexadecimal
    digits, white space, printable characters and case conversion. *)
Theorem ctype_ascii ch : 0 <= ch < 128 -> ctype_ok ch = true.
Proof. apply (seqZ_forallb ctype_ok 0 128). vm_compute. done. Qed.

Lemma ctype_ascii_witness : ctype_ok 65 = true.
Proof. apply (ctype_ascii 65). lia. Defined.
