(* ===== verification/Printf.v ===== *)
(** * The formatter [kvprintf] (kernel/CLibImpl.cpp)

    The format loop is a state machine: [state] is 0 in literal text, 1 after a
    percent sign, 2 after a width, 3 after a point and 4 after a precision.  The
    [va_list] is the list of the arguments that are left; reading one at another
    type than it was passed at, or past the last, is undefined and gives [Fault].
    Printed characters are appended to [out]. *)

From S2P Require Import Prelude Algorithm Strings.

Inductive varg : Type :=
| AInt (v : Z)
| AStr (s : list Z).

Record pstate : Type := PState {
  p : list Z;
  state : Z;
  left : bool;
  sign : bool;
  space : bool;
  fill : Z;
  width : Z;
  precision : Z;
  arg : list varg;
  out : list Z;
  symbolCounter : Z }.

(** The locals [number], [numPositive], [argLen] and [pArg] are set by every
    conversion before it reads them, so they are not part of the state. *)
Definition setp (s : pstate) (state : Z) (p : list Z) : pstate :=
  PState p state (left s) (sign s) (space s) (fill s) (width s) (precision s) (arg s) (out s)
    (symbolCounter s).

Definition s32 (x : Z) : Z := (x + 2 ^ 31) mod 2 ^ 32 - 2 ^ 31.
Definition va_int (args : list varg) : outcome (Z * list varg) :=
  match args with AInt v :: args => Ok (v, args) | _ => Fault end.
Definition va_str (args : list varg) : outcome (list Z * list varg) :=
  match args with AStr s :: args => Ok (s, args) | _ => Fault end.

(** [char argBuf[32]]: every use writes before it reads, so its previous contents
    do not matter. *)
Definition argBuf : list Z := replicate 32 0.

(** The characters [print] outputs for a C string. *)
Fixpoint cchars (s : list Z) : outcome (list Z) :=
  match s with
  | [] => Fault
  | c :: s => if c =? 0 then Ok [] else r ← cchars s; Ok (c :: r)
  end.
(** [for (i = 0; i < precision; i++) if (pArg[i] == 0) break; else print(pArg[i]);] *)
Fixpoint ccharsMax (n : nat) (s : list Z) : outcome (list Z) :=
  match n with
  | O => Ok []
  | S n =>
      match s with
      | [] => Fault
      | c :: s => if c =? 0 then Ok [] else r ← ccharsMax n s; Ok (c :: r)
      end
  end.
(** [precision] may be up to [2^32 - 1]; the loop stops at the terminator. *)
Definition printPrecision (precision : Z) (s : list Z) : outcome (list Z) :=
  ccharsMax (Z.to_nat (Z.min precision (Z.of_nat (length s) + 1))) s.

(** [print] of [n] copies of one character. *)
Definition repeatc (n : Z) (c : Z) : list Z := replicate (Z.to_nat n) c.

(** The output of a number: sign, width and precision handling. *)
Definition formatNumber (s : pstate) (numPositive sgn : bool) (pArg : list Z) : outcome (list Z) :=
  argLen ← (if negb (precision s =? 0) then kstrlen pArg else Ok 0);
  '(argLen, pre, widthLen) ←
    (if negb (width s =? 0) then
       argLen ← (if argLen =? 0 then kstrlen pArg else Ok argLen);
       let widthLen := if argLen <? precision s then precision s else argLen in
       let widthLen := if sgn then widthLen + 1 else widthLen in
       let '(widthLen, pre) :=
         if widthLen <? width s then (width s - widthLen, [])
         else (0, if space s then [32] else []) in
       if left s then Ok (argLen, pre ++ repeatc widthLen (fill s), 0)
       else Ok (argLen, pre, widthLen)
     else Ok (argLen, [], 0));
  body ← cchars pArg;
  Ok (pre
      ++ (if sgn then [if numPositive then 43 else 45] else [])
      ++ (if argLen <? precision s then repeatc (precision s - argLen) 48 else [])
      ++ body ++ repeatc widthLen (fill s)).

(** The output of a string or a character. *)
Definition formatString (s : pstate) (prec : Z) (pArg : list Z) : outcome (list Z) :=
  '(pre, widthLen) ←
    (if negb (width s =? 0) then
       len ← kstrlen pArg;
       let widthLen := if prec <? len then prec else len in
       if widthLen <? width s then
         if left s then Ok (repeatc (width s - widthLen) (fill s), 0)
         else Ok ([], width s - widthLen)
       else Ok ([], 0)
     else Ok ([], 0));
  body ← (if prec =? 0 then cchars pArg else printPrecision prec pArg);
  Ok (pre ++ body ++ repeatc widthLen (fill s)).

(** The end of a conversion: the character is consumed and the options are reset. *)
Definition finish (s : pstate) (rest : list Z) (args : list varg) (text : list Z) : pstate :=
  PState rest 0 false false false 32 0 0 args (out s ++ text) (symbolCounter s).

(** [case 4]: the conversion character; an unknown one only leaves the machine. *)
Definition convert (s : pstate) (c : Z) (rest : list Z) : outcome pstate :=
  if c =? 115 then                                      (* 's' *)
    '(pArg, args) ← va_str (arg s);
    text ← formatString s (precision s) pArg;
    Ok (finish s rest args text)
  else if c =? 117 then                                 (* 'u' *)
    '(v, args) ← va_int (arg s);
    pArg ← integerToDecStr (u32 v) argBuf;
    text ← formatNumber s true (sign s) pArg;
    Ok (finish s rest args text)
  else if c =? 100 then                                 (* 'd' *)
    '(v, args) ← va_int (arg s);
    let intArg := s32 v in
    if 0 <=? intArg then
      pArg ← integerToDecStrSigned 32 intArg argBuf;
      text ← formatNumber s true (sign s) pArg;
      Ok (finish s rest args text)
    else if intArg =? - 2 ^ 31 then Fault
    else
      pArg ← integerToDecStrSigned 32 (- intArg) argBuf;
      text ← formatNumber s false true pArg;
      Ok (finish s rest args text)
  else if c =? 99 then                                  (* 'c' *)
    '(v, args) ← va_int (arg s);
    let pArg := <[1%nat:=0]> (<[0%nat:=s8 v]> argBuf) in
    text ← formatString s 1 pArg;
    Ok (finish s rest args text)
  else if c =? 88 then                                  (* 'X' *)
    '(v, args) ← va_int (arg s);
    pArg ← unsignedIntegerToHexStr 8 (u32 v) argBuf true;
    text ← formatNumber s true (sign s) pArg;
    Ok (finish s rest args text)
  else Ok (setp s 0 rest).

(** [case 2] falls through to [case 4]. *)
Definition stepWidth (s : pstate) (c : Z) (rest : list Z) : outcome pstate :=
  if c =? 46 then Ok (setp s 3 rest) else convert s c rest.

(** [case 1]: flags, a width (digits or an argument), or fall through to [case 2]. *)
Definition stepFlags (s : pstate) (c : Z) (rest : list Z) : outcome pstate :=
  if c =? 45 then
    Ok (PState rest 1 true (sign s) (space s) (fill s) (width s) (precision s) (arg s) (out s)
          (symbolCounter s))
  else if c =? 43 then
    Ok (PState rest 1 (left s) true (space s) (fill s) (width s) (precision s) (arg s) (out s)
          (symbolCounter s))
  else if c =? 32 then
    Ok (PState rest 1 (left s) (sign s) true (fill s) (width s) (precision s) (arg s) (out s)
          (symbolCounter s))
  else if c =? 48 then
    Ok (PState rest 1 (left s) (sign s) (space s) 48 (width s) (precision s) (arg s) (out s)
          (symbolCounter s))
  else if checkSymbol c SymbolAttibuteDigit then
    '(w, e) ← kstrtoul (p s) 10;
    Ok (PState (default (p s) e) 2 (left s) (sign s) (space s) (fill s) w (precision s) (arg s)
          (out s) (symbolCounter s))
  else if c =? 42 then
    '(w, args) ← va_int (arg s);
    Ok (PState rest 2 (left s) (sign s) (space s) (fill s) (u32 w) (precision s) args (out s)
          (symbolCounter s))
  else stepWidth s c rest.

(** One turn of the loop: [c] is [*p] and [rest] is [p + 1]. *)
Definition step (s : pstate) (c : Z) (rest : list Z) : outcome pstate :=
  if state s =? 0 then
    if negb (c =? 37) then
      Ok (PState rest 0 (left s) (sign s) (space s) (fill s) (width s) (precision s) (arg s)
            (out s ++ [c]) (symbolCounter s + 1))
    else Ok (setp s 1 rest)
  else if state s =? 1 then stepFlags s c rest
  else if state s =? 2 then stepWidth s c rest
  else if state s =? 4 then convert s c rest
  else if state s =? 3 then
    '(v, e) ← kstrtoul (p s) 10;
    Ok (PState (default (p s) e) 4 (left s) (sign s) (space s) (fill s) (width s) v (arg s)
          (out s) (symbolCounter s))
  else Ok s.

(** The [for] loop over the format, up to its terminator. *)
Fixpoint formatLoop (fuel : nat) (s : pstate) : outcome pstate :=
  match p s with
  | [] => Fault
  | c :: rest =>
      if c =? 0 then Ok s
      else
        match fuel with
        | O => NoFuel
        | S fuel => s ← step s c rest; formatLoop fuel s
        end
  end.

Definition initState (format : list Z) (args : list varg) : pstate :=
  PState format 0 false false false 32 0 0 args [] 0.

(** The printed text and the returned count.  Every turn consumes a character or
    goes from state 3 to 4 ([formatLoop_fuel]), so two turns per character are
    enough. *)
Definition kvprintf (format : list Z) (args : list varg) : outcome (list Z * Z) :=
  s ← formatLoop (2 * length format) (initState format args);
  Ok (out s, symbolCounter s).

(** ** Termination *)

(** A computation whose model loops do not run out of fuel. *)
Definition noFuelFree {A} (m : outcome A) : Prop := m <> NoFuel.

Lemma nff_bind {A B} (m : outcome A) (f : A -> outcome B) :
  noFuelFree m -> (forall a, m = Ok a -> noFuelFree (f a)) -> noFuelFree (m ≫= f).
Proof. unfold noFuelFree. destruct m; simpl; auto. Qed.
Lemma nff_Ok {A} (a : A) : noFuelFree (Ok a).
Proof. done. Qed.
Lemma nff_Fault {A} : noFuelFree (@Fault A).
Proof. done. Qed.

Create HintDb nff.
#[export] Hint Resolve nff_Ok nff_Fault : nff.

(** Walk through a computation: binds, conditionals, matches. *)
Ltac nff :=
  repeat first
    [ progress intros
    | solve [auto with nff]
    | apply nff_bind
    | match goal with
      | |- noFuelFree (if ?b then _ else _) => destruct b
      | |- noFuelFree (match ?x with _ => _ end) => destruct x
      end ].

Lemma kstrlen_nff str : noFuelFree (kstrlen str).
Proof. induction str; cbn [kstrlen]; nff. Qed.
Lemma skipZeros_nff str : noFuelFree (skipZeros str).
Proof. induction str; cbn [skipZeros]; nff. Qed.
Lemma decDigits_nff radix str : forall v, noFuelFree (decDigits radix v str).
Proof. induction str; intros v; cbn [decDigits]; cbn zeta; nff. Qed.
Lemma hexDigits_nff it : forall v str, noFuelFree (hexDigits it v str).
Proof. induction it; intros v [|c str]; cbn [hexDigits]; nff. Qed.
#[export] Hint Resolve kstrlen_nff skipZeros_nff decDigits_nff hexDigits_nff : nff.
Lemma kstrtoul_nff str radix : noFuelFree (kstrtoul str radix).
Proof. unfold kstrtoul. nff. Qed.
Lemma decLoop_nff str : forall num, noFuelFree (decLoop num str).
Proof. induction str; intros num; cbn [decLoop]; nff. Qed.
Lemma putc_nff c str : noFuelFree (putc c str).
Proof. unfold putc. nff. Qed.
Lemma kreverse_nff {A} (l : list A) : noFuelFree (kreverse l).
Proof. rewrite kreverse_spec. nff. Qed.
#[export] Hint Resolve kstrtoul_nff decLoop_nff putc_nff kreverse_nff : nff.
Lemma integerToDecStr_nff num str : noFuelFree (integerToDecStr num str).
Proof. unfold integerToDecStr. nff. Qed.
#[export] Hint Resolve integerToDecStr_nff : nff.
Lemma integerToDecStrSigned_nff bits num str : noFuelFree (integerToDecStrSigned bits num str).
Proof. unfold integerToDecStrSigned. nff. Qed.
Lemma hexEmit_nff value k : forall str, noFuelFree (hexEmit value k str).
Proof. induction k; intros [|c str]; cbn [hexEmit]; nff. Qed.
Lemma cchars_nff str : noFuelFree (cchars str).
Proof. induction str; cbn [cchars]; nff. Qed.
Lemma ccharsMax_nff n : forall str, noFuelFree (ccharsMax n str).
Proof. induction n; intros [|c str]; cbn [ccharsMax]; nff. Qed.
#[export] Hint Resolve integerToDecStrSigned_nff hexEmit_nff cchars_nff ccharsMax_nff : nff.
Lemma formatNumber_nff s pos sgn pArg : noFuelFree (formatNumber s pos sgn pArg).
Proof. unfold formatNumber. nff. Qed.
Lemma formatString_nff s prec pArg : noFuelFree (formatString s prec pArg).
Proof. unfold formatString, printPrecision. nff. Qed.
#[export] Hint Resolve formatNumber_nff formatString_nff : nff.
Lemma convert_nff s c rest : noFuelFree (convert s c rest).
Proof. unfold convert, va_str, va_int, unsignedIntegerToHexStr. nff. Qed.
#[export] Hint Resolve convert_nff : nff.
Lemma step_nff s c rest : noFuelFree (step s c rest).
Proof. unfold step, stepFlags, stepWidth, va_int. nff. Qed.

(** The scanner never moves backwards, and moves over a leading non-zero digit. *)
Lemma skipZeros_suffix str str' : skipZeros str = Ok str' -> str' `suffix_of` str.
Proof.
  induction str as [|c str IH]; cbn [skipZeros]; [done|].
  destruct (c =? c_zero); intros H; [by apply suffix_cons_r, IH | by simplify_eq].
Qed.
Lemma decDigits_suffix radix str : forall v v' e,
  decDigits radix v str = Ok (v', e) -> e `suffix_of` str.
Proof.
  induction str as [|c str IH]; intros v v' e; cbn [decDigits]; [done|]. cbn zeta.
  repeat case_match; intros; simplify_eq; try done.
  eapply suffix_cons_r, IH; done.
Qed.
Lemma kstrtoul_end str v e : kstrtoul str 10 = Ok (v, e) ->
  exists e', e = Some e' /\ e' `suffix_of` str /\
    (forall c str', str = c :: str' -> c <> 48 -> checkSymbol c SymbolAttibuteDigit = true ->
      48 <= c < 58 -> (length e' < length str)%nat).
Proof.
  unfold kstrtoul. intros H. bind_inv H. change ((2 <=? 10) && (10 <=? 10)) with true in H.
  cbn match in H. bind_inv H. destruct a0 as [v' e']. simplify_eq. exists e'.
  pose proof (skipZeros_suffix _ _ E). pose proof (decDigits_suffix _ _ _ _ _ E0).
  split_and!; [done | by etransitivity |]. intros c str' -> Hc Hd Hr.
  cbn [skipZeros] in E. unfold c_zero in E. destruct (Z.eqb_spec c 48); [done|]. simplify_eq.
  cbn [decDigits] in E0. destruct (Z.eqb_spec c 0); [lia|]. rewrite Hd in E0. cbn [negb] in E0.
  unfold c_zero in E0. rewrite (u32_small (c - 48)) in E0 by lia.
  destruct (Z.leb_spec 10 (c - 48)); [lia|]. cbn zeta in E0.
  change (u32 (0 * 10) <? 0) with false in E0.
  apply decDigits_suffix, suffix_length in E0. simpl. lia.
Qed.

(** A digit of the table is a digit character ([char] is signed). *)
Lemma digit_symbol_inv c : -128 <= c < 128 -> checkSymbol c SymbolAttibuteDigit = true -> 48 <= c < 58.
Proof.
  intros Hc Hd. destruct (decide (48 <= c < 58)); [done|].
  assert (checkSymbol c SymbolAttibuteDigit = false); [|congruence].
  destruct (decide (c < 48)).
  - apply (checkSymbol_off (-128) 176); [reflexivity | lia].
  - apply (checkSymbol_off 58 70); [reflexivity | lia].
Qed.

(** The states of the machine, and the measure that every turn lowers. *)
Definition chars (l : list Z) : Prop := Forall (fun c => -128 <= c < 128) l.
Definition stateOk (s : pstate) : Prop := 0 <= state s <= 4.
Definition measure (s : pstate) : nat :=
  (2 * length (p s) + if (state s =? 3)%Z then 1 else 0)%nat.

(** What a turn does to the machine: it moves on and stays in its states. *)
Definition advances (s s' : pstate) : Prop :=
  stateOk s' /\ (measure s' < measure s)%nat /\ p s' `suffix_of` p s.

Lemma advance_rest s s' c rest : p s = c :: rest -> p s' = rest -> stateOk s' -> advances s s'.
Proof.
  intros Hp Hr Hs. split_and!; [done | | rewrite Hr, Hp; by apply suffix_cons_r].
  unfold measure. rewrite Hr, Hp. cbn [length]. destruct (_ =? 3), (_ =? 3); lia.
Qed.

Lemma convert_advances s c rest s' : p s = c :: rest -> convert s c rest = Ok s' -> advances s s'.
Proof.
  intros Hp H. assert (Hs : state s' = 0 /\ p s' = rest).
  { unfold convert in H. repeat case_match; bind_inv H; repeat case_match; bind_inv H; by simplify_eq. }
  destruct Hs as [Hs Hr]. eapply advance_rest; [done | done | unfold stateOk; lia].
Qed.

Lemma stepWidth_advances s c rest s' : p s = c :: rest -> stepWidth s c rest = Ok s' -> advances s s'.
Proof.
  intros Hp. unfold stepWidth. case_match; [|by apply convert_advances].
  intros. simplify_eq. eapply advance_rest; [done | done | done].
Qed.

Lemma stepFlags_advances s c rest s' : p s = c :: rest -> -128 <= c < 128 -> state s = 1 ->
  stepFlags s c rest = Ok s' -> advances s s'.
Proof.
  intros Hp Hc Hst. unfold stepFlags.
  destruct (c =? 45); [|destruct (c =? 43); [|destruct (c =? 32); [|destruct (Z.eqb_spec c 48)]]].
  1-4: intros; simplify_eq; eapply advance_rest; done.
  destruct (checkSymbol c SymbolAttibuteDigit) eqn:Ed.
  - intros H. bind_inv H. destruct a as [w e]. simplify_eq.
    apply kstrtoul_end in E as (e' & -> & Hsuf & Hlt).
    specialize (Hlt c rest Hp ltac:(done) Ed (digit_symbol_inv c Hc Ed)).
    split_and!; [done | | done]. unfold measure. cbn. rewrite Hst. simpl. lia.
  - case_match; [|by apply stepWidth_advances].
    intros H'. bind_inv H'. destruct a as [w args]. simplify_eq. eapply advance_rest; done.
Qed.

Lemma step_advances s c rest s' : p s = c :: rest -> -128 <= c < 128 -> stateOk s ->
  step s c rest = Ok s' -> advances s s'.
Proof.
  intros Hp Hc Hst. unfold step.
  destruct (Z.eqb_spec (state s) 0).
  { case_match; intros; simplify_eq; eapply advance_rest; done. }
  destruct (Z.eqb_spec (state s) 1); [by apply stepFlags_advances|].
  destruct (Z.eqb_spec (state s) 2); [by apply stepWidth_advances|].
  destruct (Z.eqb_spec (state s) 4); [by apply convert_advances|].
  destruct (Z.eqb_spec (state s) 3) as [E3|]; [|unfold stateOk in Hst; lia].
  intros H. bind_inv H. destruct a as [w e]. simplify_eq.
  apply kstrtoul_end in E as (e' & -> & Hsuf & _).
  split_and!; [done | | done]. unfold measure. cbn. rewrite E3. simpl.
  apply suffix_length in Hsuf. lia.
Qed.

Lemma suffix_chars l e : chars l -> e `suffix_of` l -> chars e.
Proof. intros Hl [k ->]. by apply Forall_app in Hl as [_ ?]. Qed.

Lemma formatLoop_fuel fuel : forall s, chars (p s) -> stateOk s -> (measure s <= fuel)%nat ->
  noFuelFree (formatLoop fuel s).
Proof.
  induction fuel as [|fuel IH]; intros s Hch Hst Hm.
  - unfold measure in Hm. destruct (p s) as [|c rest] eqn:Hp; simpl in Hm; [|lia].
    cbn [formatLoop]. rewrite Hp. apply nff_Fault.
  - cbn [formatLoop]. destruct (p s) as [|c rest] eqn:Hp; [apply nff_Fault|].
    case_match; [apply nff_Ok|]. apply nff_bind; [apply step_nff|]. intros s' E.
    inversion Hch; subst.
    destruct (step_advances s c rest s') as (Hs' & Hm' & Hsuf); try done.
    apply IH; [|done | lia]. eapply suffix_chars; [|exact Hsuf]. by rewrite Hp.
Qed.

(** C26: [kvprintf] terminates on every format and argument list: two turns per
    character of the format are enough, whatever flags, widths and precisions it
    holds and whatever was passed. *)
Theorem kvprintf_terminates format args : chars format -> kvprintf format args <> NoFuel.
Proof.
  intros Hf. unfold kvprintf. apply nff_bind; [|intros; apply nff_Ok].
  apply formatLoop_fuel; [done | done |]. unfold measure. simpl. lia.
Qed.

Lemma kvprintf_terminates_witness :
  chars [37; 45; 48; 49; 50; 46; 51; 100; 0] /\
  kvprintf [37; 45; 48; 49; 50; 46; 51; 100; 0] [AInt 7] <> NoFuel.
Proof.
  assert (H : chars [37; 45; 48; 49; 50; 46; 51; 100; 0]) by (repeat constructor; lia).
  split; [exact H | exact (kvprintf_terminates _ [AInt 7] H)].
Defined.

(** ** Conversions without options *)

Inductive piece : Type :=
| Lit (s : list Z)
| PDec (v : Z)
| PUns (v : Z)
| PHex (v : Z)
| PStr (s : list Z)
| PChr (v : Z).

Definition pieceText (x : piece) : list Z :=
  match x with
  | Lit s => s
  | PDec _ => [37; 100]
  | PUns _ => [37; 117]
  | PHex _ => [37; 88]
  | PStr _ => [37; 115]
  | PChr _ => [37; 99]
  end.
Definition pieceArgs (x : piece) : list varg :=
  match x with
  | Lit _ => []
  | PDec v | PUns v | PHex v | PChr v => [AInt v]
  | PStr s => [AStr (s ++ [0])]
  end.
(** The arguments for which the source prints what C prescribes: not the least int, which
    it negates, and of characters not the null one, of which it prints nothing
    ([kvprintf_nul]). *)
Definition pieceOk (x : piece) : Prop :=
  match x with
  | Lit s => Forall (fun c => c <> 0 /\ c <> 37) s
  | PDec v => - 2 ^ 31 < v < 2 ^ 31
  | PUns v | PHex v => 0 <= v < 2 ^ 32
  | PStr s => nonzero s
  | PChr v => 0 < v < 128
  end.
(** What C's [printf] prints for the piece. *)
Definition renders (x : piece) (text : list Z) : Prop :=
  match x with
  | Lit s | PStr s => text = s
  | PDec v => if v <? 0 then exists t, text = 45 :: t /\ dec_text (- v) t else dec_text v text
  | PUns v => dec_text v text
  | PHex v => exists n, text = hexText v (S n) /\ v mod 16 ^ Z.of_nat (S n) = v /\
                (n = O \/ nibble v n <> 0)
  | PChr v => text = [v]
  end.
Definition literals (x : piece) : Z :=
  match x with Lit s => Z.of_nat (length s) | _ => 0 end.

(** The machine between two conversions. *)
Definition clean (format : list Z) (args : list varg) (out : list Z) (n : Z) : pstate :=
  PState format 0 false false false 32 0 0 args out n.

Lemma cchars_spec s rest : nonzero s -> cchars (s ++ 0 :: rest) = Ok s.
Proof.
  intros Hs. induction Hs as [|c s Hc Hs IH]; [done|]. cbn [app cchars].
  destruct (Z.eqb_spec c 0); [done|]. by rewrite IH.
Qed.

Lemma formatNumber_plain s pos pArg text rest :
  width s = 0 -> precision s = 0 -> pArg = text ++ 0 :: rest -> nonzero text ->
  formatNumber s pos false pArg = Ok text.
Proof.
  intros Hw Hp -> Ht. unfold formatNumber. rewrite Hw, Hp. cbn. rewrite cchars_spec by done.
  cbn. by rewrite app_nil_r.
Qed.

Lemma formatNumber_minus s pArg text rest :
  width s = 0 -> precision s = 0 -> pArg = text ++ 0 :: rest -> nonzero text ->
  formatNumber s false true pArg = Ok (45 :: text).
Proof.
  intros Hw Hp -> Ht. unfold formatNumber. rewrite Hw, Hp. cbn. rewrite cchars_spec by done.
  cbn. by rewrite app_nil_r.
Qed.

Lemma hexSkip_top value k : hexSkip value k = O \/ nibble value (hexSkip value k) <> 0.
Proof.
  induction k as [|k IH]; [by left|]. cbn [hexSkip].
  destruct (Z.eqb_spec (nibble value (S k)) 0); cbn [negb]; [done | by right].
Qed.

Lemma hexText_nonzero value n : nonzero (hexText value n).
Proof.
  induction n as [|n IH]; constructor; [|done].
  pose proof (hexDigit_all _ (nibble_range value n)) as H. unfold hexDigit_ok in H.
  apply andb_prop in H as [[H _]%andb_prop _]. by destruct (Z.eqb_spec (hexDigit (nibble value n)) 0).
Qed.

Lemma s32_small v : - 2 ^ 31 <= v < 2 ^ 31 -> s32 v = v.
Proof. intros. unfold s32. rewrite Z.mod_small; lia. Qed.

Lemma dec_nonzero num text : dec_text num text -> nonzero text.
Proof. intros [Hd _]. by eapply digits_nonzero. Qed.

Ltac ccbn := cbn -[Z.pow argBuf integerToDecStrSigned integerToDecStr unsignedIntegerToHexStr
  formatNumber formatString s8 s32 u32 hexEmit stepFlags insert].

Lemma stepFlags_convert x c s rest : (forall t, x <> Lit t) -> pieceText x = [37; c] ->
  c <> 0 /\ stepFlags s c rest = convert s c rest.
Proof. intros Hx. destruct x as [t| | | | |]; [by destruct (Hx t)| | | | |]; by intros [= <-]. Qed.

(** One conversion of each kind. *)
Lemma convert_piece x s rest args :
  width s = 0 -> precision s = 0 -> sign s = false ->
  pieceOk x -> (forall t, x <> Lit t) -> arg s = pieceArgs x ++ args ->
  exists c text, pieceText x = [37; c] /\ renders x text /\
    convert s c rest = Ok (finish s rest args text).
Proof.
  intros Hw Hp Hsg Hok Hx Ha. destruct x as [t|v|v|v|t|v]; [by destruct (Hx t)| | | | |]; cbn [pieceOk pieceArgs pieceText renders] in *.
  - exists 100. unfold convert. rewrite Ha. ccbn.
    rewrite (s32_small v) by lia. destruct (Z.leb_spec 0 v), (Z.ltb_spec v 0); try lia.
    + destruct (integerToDecStr_spec 10 v argBuf) as (s1 & E & _ & Ht); [lia | lia | vm_compute; lia |].
      unfold integerToDecStrSigned. destruct (Z.ltb_spec v 0); [lia|]. rewrite E. ostep.
      rewrite Hsg. erewrite formatNumber_plain by (done || by eapply dec_nonzero).
      exists s1. split_and!; done.
    + destruct (integerToDecStr_spec 10 (- v) argBuf) as (s1 & E & _ & Ht); [lia | lia | vm_compute; lia |].
      destruct (Z.eqb_spec v (- 2 ^ 31)); [lia|].
      unfold integerToDecStrSigned. destruct (Z.ltb_spec (- v) 0); [lia|]. rewrite E. ostep.
      erewrite formatNumber_minus by (done || by eapply dec_nonzero).
      exists (45 :: s1). split_and!; try done. by exists s1.
  - exists 117. unfold convert. rewrite Ha. ccbn. rewrite u32_small by lia.
    destruct (integerToDecStr_spec 10 v argBuf) as (s1 & E & _ & Ht); [lia | lia | vm_compute; lia |].
    rewrite E. ostep. rewrite Hsg. erewrite formatNumber_plain by (done || by eapply dec_nonzero).
    exists s1. split_and!; done.
  - exists 88. unfold convert. rewrite Ha. ccbn. rewrite u32_small by lia.
    unfold unsignedIntegerToHexStr. cbn [Nat.sub]. destruct (hexSkip_spec v 7) as [Hi Hm].
    rewrite hexEmit_spec by (change (length argBuf) with 32%nat; lia). ostep. rewrite Hsg.
    erewrite formatNumber_plain by (done || apply hexText_nonzero).
    exists (hexText v (S (hexSkip v 7))). split_and!; try done. exists (hexSkip v 7).
    split_and!; [done | rewrite <- Hm; apply Z.mod_small; lia | apply hexSkip_top].
  - exists 115. unfold convert. rewrite Ha. ccbn. unfold formatString. rewrite Hw, Hp. cbn.
    rewrite cchars_spec by done. cbn. rewrite app_nil_r. exists t. split_and!; done.
  - exists 99. unfold convert. rewrite Ha. ccbn.
    replace (s8 v) with v by (unfold s8; rewrite Z.mod_small; lia).
    change (<[1%nat:=0]> (<[0%nat:=v]> argBuf)) with (v :: 0 :: replicate 30 0).
    unfold formatString. rewrite Hw. change (negb (0 =? 0)) with false.
    change (1 =? 0) with false. cbn match. ostep.
    change (printPrecision 1 (v :: 0 :: replicate 30 0)) with (ccharsMax 1 (v :: 0 :: replicate 30 0)).
    cbn [ccharsMax]. exists [v].
    destruct (Z.eqb_spec v 0); [lia|]. split_and!; done.
Qed.

Lemma formatLoop_step fuel s c rest : p s = c :: rest -> c <> 0 ->
  formatLoop (S fuel) s = (s ← step s c rest; formatLoop fuel s).
Proof. intros Hp Hc. cbn [formatLoop]. rewrite Hp. by destruct (Z.eqb_spec c 0). Qed.

Lemma step_literal c rest args o n : c <> 37 ->
  step (clean (c :: rest) args o n) c rest = Ok (clean rest args (o ++ [c]) (n + 1)).
Proof. intros Hc. unfold step. cbn. by destruct (Z.eqb_spec c 37). Qed.

Lemma literal_run l : Forall (fun c => c <> 0 /\ c <> 37) l ->
  forall rest args o n fuel,
  formatLoop (length l + fuel) (clean (l ++ rest) args o n) =
    formatLoop fuel (clean rest args (o ++ l) (n + Z.of_nat (length l))).
Proof.
  intros Hl. induction Hl as [|c l [Hc0 Hc37] Hl IH]; intros rest args o n fuel.
  - cbn [length app Nat.add]. rewrite app_nil_r. by rewrite Z.add_0_r.
  - cbn [length Nat.add app]. rewrite (formatLoop_step _ _ c (l ++ rest)) by done.
    rewrite step_literal by done. ostep. rewrite IH, <- app_assoc. do 2 f_equal. lia.
Qed.

Lemma piece_run x rest args o n : pieceOk x ->
  exists text, renders x text /\
  forall fuel, formatLoop (length (pieceText x) + fuel) (clean (pieceText x ++ rest) (pieceArgs x ++ args) o n)
    = formatLoop fuel (clean rest args (o ++ text) (n + literals x)).
Proof.
  intros Hok. destruct (match x with Lit t => Some t | _ => None end) as [t|] eqn:Ex.
  - destruct x as [t'| | | | |]; inversion Ex; subst t'.
    exists t. split; [done|]. intros fuel. by apply literal_run.
  - assert (Hx : forall t, x <> Lit t) by by destruct x.
    pose (s1 := PState (drop 1 (pieceText x) ++ rest) 1 false false false 32 0 0
      (pieceArgs x ++ args) o n).
    destruct (convert_piece x s1 rest args) as (c & text & Ht & Hr & Hcv); try done.
    destruct (stepFlags_convert x c s1 rest Hx Ht) as [Hc0 Hsf].
    exists text. split; [done|]. intros fuel. subst s1. rewrite Ht in *. cbn [length Nat.add app drop] in *.
    rewrite (formatLoop_step _ _ 37 (c :: rest)) by done. unfold step at 1. cbn [clean state].
    change (0 =? 0) with true. change (37 =? 37) with true. cbn match. cbn [negb]. ostep.
    unfold setp. cbn [clean left sign space fill width precision arg out symbolCounter].
    rewrite (formatLoop_step _ _ c rest) by done. unfold step. cbn [state].
    change (1 =? 0) with false. change (1 =? 1) with true. cbn match.
    rewrite Hsf, Hcv. ostep. unfold finish, clean. cbn [out symbolCounter].
    replace (n + literals x) with n; [done|]. destruct x; simpl; try lia. by destruct (Hx s).
Qed.

Lemma pieces_run ps rest : Forall pieceOk ps -> forall args o n,
  exists texts, Forall2 renders ps texts /\
  forall fuel, formatLoop (length (mjoin (pieceText <$> ps)) + fuel)
      (clean (mjoin (pieceText <$> ps) ++ rest) (mjoin (pieceArgs <$> ps) ++ args) o n)
    = formatLoop fuel (clean rest args (o ++ mjoin texts) (n + foldr (fun x k => literals x + k) 0 ps)).
Proof.
  intros Hps. induction Hps as [|x ps Hx Hps IH]; intros args o n.
  - exists []. split; [done|]. intros fuel. simpl. by rewrite app_nil_r, Z.add_0_r.
  - destruct (piece_run x (mjoin (pieceText <$> ps) ++ rest) (mjoin (pieceArgs <$> ps) ++ args) o n Hx)
      as (text & Hr & Hrun).
    destruct (IH args (o ++ text) (n + literals x)) as (texts & Hrs & Hruns).
    exists (text :: texts). split; [by constructor|]. intros fuel. simpl.
    rewrite length_app, <- Nat.add_assoc, <- !app_assoc, Hrun, Hruns, <- app_assoc.
    do 2 f_equal. lia.
Qed.

Lemma formatLoop_end fuel s rest : p s = 0 :: rest -> formatLoop fuel s = Ok s.
Proof. intros H. destruct fuel; cbn [formatLoop]; by rewrite H. Qed.

(** For a format made of literal text and the conversions d, u, X, s and c without
    options, and arguments within [pieceOk], [kvprintf] returns, prints what C prescribes
    for each piece in order, and its result counts the literal characters only. *)
Theorem kvprintf_plain ps rest args : Forall pieceOk ps ->
  exists texts, Forall2 renders ps texts /\
    kvprintf (mjoin (pieceText <$> ps) ++ 0 :: rest) (mjoin (pieceArgs <$> ps) ++ args) =
      Ok (mjoin texts, foldr (fun x k => literals x + k) 0 ps).
Proof.
  intros Hps. destruct (pieces_run ps (0 :: rest) Hps args [] 0) as (texts & Hr & Hrun).
  exists texts. split; [done|]. unfold kvprintf, initState.
  set (f := mjoin (pieceText <$> ps)) in *.
  replace (2 * length (f ++ 0%Z :: rest))%nat
    with (length f + (length f + 2 * S (length rest)))%nat by (rewrite length_app; simpl; lia).
  pose proof (Hrun (length f + 2 * S (length rest))%nat) as H. unfold clean in H at 1.
  rewrite H, (formatLoop_end _ _ rest) by done. done.
Qed.

Lemma kvprintf_plain_witness :
  Forall pieceOk [Lit [97; 61]; PDec (-12); Lit [10]] /\
  exists texts, Forall2 renders [Lit [97; 61]; PDec (-12); Lit [10]] texts /\
    kvprintf ([97; 61; 37; 100; 10] ++ 0 :: []) ([AInt (-12)] ++ []) = Ok (mjoin texts, 3).
Proof.
  assert (H : Forall pieceOk [Lit [97; 61]; PDec (-12); Lit [10]])
    by (repeat constructor; simpl; lia).
  split; [exact H | exact (kvprintf_plain [Lit [97; 61]; PDec (-12); Lit [10]] [] [] H)].
Defined.

(** A null character prints nothing; C prints the character. *)
Lemma kvprintf_nul : kvprintf [37; 99; 0] [AInt 0] = Ok ([], 0).
Proof. vm_compute. reflexivity. Qed.

(** Options: with a width, [-] pads on the left and its absence on the right; zero
    filling therefore changes the value printed, and a string with a width but no
    precision is padded by the whole width. *)
Lemma kvprintf_width :
  kvprintf [37; 48; 53; 100; 0] [AInt 42] = Ok ([52; 50; 48; 48; 48], 0) /\
  kvprintf [37; 45; 53; 100; 0] [AInt 42] = Ok ([32; 32; 32; 52; 50], 0) /\
  kvprintf [37; 53; 115; 0] [AStr [97; 98; 0]] = Ok ([97; 98; 32; 32; 32; 32; 32], 0).
Proof. split_and!; reflexivity. Qed.

(** A percent sign cannot be printed. *)
Lemma kvprintf_percent : kvprintf [37; 37; 0] [] = Ok ([], 0).
Proof. reflexivity. Qed.
