(* ===== verification/Heap.v ===== *)
(** * The kernel heap (kernel/Heap.cpp, kernel/Heap.h)

    The heap gets blocks from the virtual memory manager and cuts them into
    regions.  Every region starts with a 32-byte header that links it to the
    regions before and after it in the block ([m_addrPrev], [m_addrNext]); the
    header of a free region also links it into the free list of its size class
    ([FreeList]), the header of a busy one holds [HEAP_MARKER_BUSY] in the word
    of the forward link.  A block ends with a header whose [m_addrNext] is null.

    [hdrs] is the memory of the headers, by address.  Writing the fields of a
    header at a new address creates it there; the fields that are not written keep
    what the memory held. *)

From S2P Require Import Prelude FreeList PhMem Paging.

Definition HEAP_MARKER_BUSY : Z := 0xFFFFFFFFFFFFFFFF.
Definition HEAP_ALLOC_UNIT_SIZE : Z := 0x101000.
Definition HEAP_MEM_REGION_LIMIT : Z := 0x100000.
Definition g_heapMaxIterations : nat := 32.
Definition HeapLogTableSize : nat := 21.
Definition MemRegionAlign : Z := 32.

(** [MemoryRegionHeader]; [m_busyMarker] shares the word of [m_szNext]. *)
Record Hdr : Type := mkHdr { m_szNext : Z; m_szPrev : Z; m_addrNext : Z; m_addrPrev : Z }.

#[export, refine] Instance hdr_links : Links Hdr := {
  lnext := m_szNext;
  lprev := m_szPrev;
  set_lnext := fun h x => mkHdr x (m_szPrev h) (m_addrNext h) (m_addrPrev h);
  set_lprev := fun h x => mkHdr (m_szNext h) x (m_addrNext h) (m_addrPrev h);
  ldata := fun h => (m_addrNext h, m_addrPrev h)
}.
Proof. all: done. Defined.

(** ** What the heap needs of the virtual memory manager

    [alloc], [free] and [freeRamPages] of [VirtualMemoryManager]; [vm_blocks] is
    the size of every block that is allocated.  The kernel's virtual memory ends a
    gigabyte below the top of the address space ([KERNEL_VIRTUAL_BASE] plus
    [KERNEL_MAX_VIRTUAL_MEMORY]). *)
Definition vm_top : Z := 2 ^ 64 - 2 ^ 30.
Class VmmIface (V : Type) := {
  vm_alloc : V -> Z -> Z * V;
  vm_free : V -> Z -> V;
  vm_freeRam : V -> Z -> Z -> V;
  vm_blocks : V -> gmap Z Z;
  vm_alloc_fail v n : (vm_alloc v n).1 = nullptr -> vm_blocks (vm_alloc v n).2 = vm_blocks v;
  vm_alloc_new v n p v' : vm_alloc v n = (p, v') -> p <> nullptr -> 0 < n < 2 ^ 64 -> n mod PAGE_SIZE = 0 ->
    0 < p /\ p mod PAGE_SIZE = 0 /\ p + n <= vm_top /\ vm_blocks v' = <[p := n]> (vm_blocks v) /\
    forall q m, vm_blocks v !! q = Some m -> q + m <= p \/ p + n <= q;
  vm_free_blocks v p : is_Some (vm_blocks v !! p) -> vm_blocks (vm_free v p) = delete p (vm_blocks v);
  vm_freeRam_blocks v a n : vm_blocks (vm_freeRam v a n) = vm_blocks v
}.

Section Heap.
Context {V : Type} `{VmmIface V}.

Record Heap : Type := mkHeap {
  hdrs : gmap Z Hdr;
  m_freeListTable : list Z;
  m_virtualMemorySize : Z;
  m_vmm : V
}.

Definition setHdrs (h : Heap) (m : gmap Z Hdr) : Heap :=
  mkHeap m (m_freeListTable h) (m_virtualMemorySize h) (m_vmm h).
Definition setVms (h : Heap) (n : Z) : Heap := mkHeap (hdrs h) (m_freeListTable h) (u64 n) (m_vmm h).
Definition setVmm (h : Heap) (v : V) : Heap :=
  mkHeap (hdrs h) (m_freeListTable h) (m_virtualMemorySize h) v.

Definition hdrSize (region : Z) (r : Hdr) : Z := u64 (m_addrNext r - region).
Definition isBusy (r : Hdr) : bool := m_szNext r =? HEAP_MARKER_BUSY.

(** Field writes. *)
Definition setAddrNext (region x : Z) (h : Heap) : outcome Heap :=
  r ← deref (hdrs h) region;
  Ok (setHdrs h (<[region := mkHdr (m_szNext r) (m_szPrev r) x (m_addrPrev r)]> (hdrs h))).
Definition setAddrPrev (region x : Z) (h : Heap) : outcome Heap :=
  r ← deref (hdrs h) region;
  Ok (setHdrs h (<[region := mkHdr (m_szNext r) (m_szPrev r) (m_addrNext r) x]> (hdrs h))).
Definition setBusy (region : Z) (h : Heap) : outcome Heap :=
  r ← deref (hdrs h) region;
  Ok (setHdrs h (<[region := mkHdr HEAP_MARKER_BUSY (m_szPrev r) (m_addrNext r) (m_addrPrev r)]> (hdrs h))).
(** The address fields of a header at memory that had none. *)
Definition initHdr (region addrPrev addrNext : Z) (h : Heap) : outcome Heap :=
  if region =? nullptr then Fault
  else
    let old := default (mkHdr 0 0 0 0) (hdrs h !! region) in
    Ok (setHdrs h (<[region := mkHdr (m_szNext old) (m_szPrev old) addrNext addrPrev]> (hdrs h))).

(** [nullRegion->m_addrNext = nullptr] *)
Definition initNull (region : Z) (h : Heap) : outcome Heap :=
  if region =? nullptr then Fault
  else
    let old := default (mkHdr 0 0 0 0) (hdrs h !! region) in
    Ok (setHdrs h (<[region := mkHdr (m_szNext old) (m_szPrev old) nullptr (m_addrPrev old)]> (hdrs h))).

(** ** The free lists *)

Definition deleteMemRegion (region : Z) (tableIdx : nat) (h : Heap) : outcome Heap :=
  head ← arr_get (m_freeListTable h) tableIdx;
  '(m, head) ← unlink (hdrs h) head region;
  table ← arr_set (m_freeListTable h) tableIdx head;
  Ok (mkHeap m table (m_virtualMemorySize h) (m_vmm h)).

(** The part [addMemRegion], [updateMemRegion], [allocMore] and [allocNew] share. *)
Definition insertRegion (region : Z) (tblIndex : nat) (h : Heap) : outcome Heap :=
  hdr ← arr_get (m_freeListTable h) tblIndex;
  m ← pushFront (hdrs h) hdr region;
  table ← arr_set (m_freeListTable h) tblIndex region;
  Ok (mkHeap m table (m_virtualMemorySize h) (m_vmm h)).

Definition addMemRegion (region : Z) (h : Heap) : outcome Heap :=
  r ← deref (hdrs h) region;
  tblIndex ← cpuLastOneBitIndex (hdrSize region r);
  insertRegion region tblIndex h.

Definition updateMemRegion (region : Z) (oldTableIdx : nat) (h : Heap) : outcome Heap :=
  r ← deref (hdrs h) region;
  tblIndex ← cpuLastOneBitIndex (hdrSize region r);
  if negb (Nat.eqb tblIndex oldTableIdx) then
    h ← deleteMemRegion region oldTableIdx h;
    insertRegion region tblIndex h
  else Ok h.

(** ** Allocation *)

(** The caller passes [&m_freeListTable[tblIndex]]. *)
Definition allocEqual (tblIndex : nat) (region : Z) (h : Heap) : outcome (Z * Heap) :=
  h ← deleteMemRegion region tblIndex h;
  h ← setBusy region h;
  Ok (region + MemRegionAlign, h).

Definition allocMore (region size : Z) (h : Heap) : outcome (Z * Heap) :=
  let freeRegion := region + size in
  r ← deref (hdrs h) region;
  let regNext := m_addrNext r in
  tableIdx ← cpuLastOneBitIndex (hdrSize region r);
  h ← deleteMemRegion region tableIdx h;
  h ← initHdr freeRegion region regNext h;
  h ← setAddrNext region freeRegion h;
  h ← setAddrPrev regNext freeRegion h;
  h ← addMemRegion freeRegion h;
  h ← setBusy region h;
  Ok (region + MemRegionAlign, h).

Definition allocNew (size : Z) (h : Heap) : outcome (Z * Heap) :=
  let '(region, v) := vm_alloc (m_vmm h) HEAP_ALLOC_UNIT_SIZE in
  let h := setVmm h v in
  if region =? nullptr then Ok (nullptr, h)
  else
    let h := setVms h (m_virtualMemorySize h + HEAP_ALLOC_UNIT_SIZE) in
    let freeRegion := region + size in
    let nullRegion := region + HEAP_ALLOC_UNIT_SIZE - MemRegionAlign in
    h ← initHdr region nullptr freeRegion h;
    h ← initHdr freeRegion region nullRegion h;
    h ← initNull nullRegion h;
    tblIndex ← cpuLastOneBitIndex (u64 (nullRegion - freeRegion));
    h ← insertRegion freeRegion tblIndex h;
    h ← setBusy region h;
    Ok (region + MemRegionAlign, h).

Definition alignHi (addr : Z) : Z := Z.land (u64 (addr + PAGE_MASK)) (Z.lnot PAGE_MASK).
Definition alignLo (addr : Z) : Z := Z.land addr (Z.lnot PAGE_MASK).

Definition allocHuge (size : Z) (h : Heap) : outcome (Z * Heap) :=
  let virtualSize := alignHi (u64 (size + MemRegionAlign)) in
  let '(region, v) := vm_alloc (m_vmm h) virtualSize in
  let h := setVmm h v in
  let h := setVms h (m_virtualMemorySize h + virtualSize) in
  let nullRegion := region + size in
  h ← initHdr region nullptr nullRegion h;
  h ← initNull nullRegion h;
  h ← setBusy region h;
  Ok (region + MemRegionAlign, h).

(** The search in the list of the own size class: an exact fit or the tightest one. *)
Fixpoint scanFit (m : gmap Z Hdr) (n : nat) (size cutListRegion minRegion minDelta : Z)
    : outcome (Z + Z) :=
  match n with
  | O => Ok (inr minRegion)
  | S n =>
      if cutListRegion =? nullptr then Ok (inr minRegion)
      else
        r ← deref m cutListRegion;
        let regSize := hdrSize cutListRegion r in
        if size <=? regSize then
          let delta := regSize - size in
          if delta <? minDelta then
            if delta =? 0 then Ok (inl cutListRegion)
            else scanFit m n size (m_szNext r) cutListRegion delta
          else scanFit m n size (m_szNext r) minRegion minDelta
        else scanFit m n size (m_szNext r) minRegion minDelta
  end.

(** [for (idx = tblIndex + 1; idx < HeapLogTableSize; idx++)]: the first region of a
    larger class. *)
Fixpoint scanLarger (table : list Z) (n idx : nat) : outcome Z :=
  match n with
  | O => Ok nullptr
  | S n =>
      region ← arr_get table idx;
      if negb (region =? nullptr) then Ok region else scanLarger table n (S idx)
  end.

Definition roundSize (size : Z) : Z :=
  Z.land (u64 (size + MemRegionAlign * 2 - 1)) (Z.lnot (MemRegionAlign - 1)).

Definition alloc (size : Z) (h : Heap) : outcome (Z * Heap) :=
  if size =? 0 then Ok (nullptr, h)
  else
    let size := roundSize size in
    if HEAP_MEM_REGION_LIMIT <=? size then allocHuge size h
    else
      tblIndex ← cpuLastOneBitIndex size;
      cutListRegion ← arr_get (m_freeListTable h) tblIndex;
      r ← scanFit (hdrs h) g_heapMaxIterations size cutListRegion nullptr size_max;
      match r with
      | inl region => allocEqual tblIndex region h
      | inr minRegion =>
          if negb (minRegion =? nullptr) then allocMore minRegion size h
          else
            region ← scanLarger (m_freeListTable h) (HeapLogTableSize - S tblIndex) (S tblIndex);
            if negb (region =? nullptr) then allocMore region size h
            else allocNew size h
      end.

(** ** Release *)

Definition releaseRange (fpBase fpEnd : Z) (h : Heap) : Heap :=
  if fpBase <? fpEnd then setVmm h (vm_freeRam (m_vmm h) fpBase (fpEnd - fpBase)) else h.

Definition cleanMemRegion (ptr region : Z) (h : Heap) : outcome Heap :=
  r ← deref (hdrs h) region;
  Ok (releaseRange (alignHi ptr) (alignLo (m_addrNext r)) h).

(** The end of the range when the region after is merged too. *)
Definition unionEnd (region : Z) (h : Heap) : outcome Z :=
  r ← deref (hdrs h) region;
  n ← deref (hdrs h) (m_addrNext r);
  let unionAdd := Z.min (hdrSize (m_addrNext r) n) PAGE_MASK in
  Ok (alignLo (u64 (m_addrNext r + unionAdd))).

(** The start of the range when the region before is merged too. *)
Definition unionBase (ptr region : Z) (h : Heap) : outcome Z :=
  r ← deref (hdrs h) region;
  let fpBase := alignLo ptr in
  Ok (if fpBase <? u64 (m_addrPrev r + MemRegionAlign) then u64 (fpBase + PAGE_SIZE) else fpBase).

Definition cleanMemRegionUN (ptr region : Z) (h : Heap) : outcome Heap :=
  fpEnd ← unionEnd region h;
  Ok (releaseRange (alignHi ptr) fpEnd h).
Definition cleanMemRegionUNP (ptr region : Z) (h : Heap) : outcome Heap :=
  fpBase ← unionBase ptr region h;
  fpEnd ← unionEnd region h;
  Ok (releaseRange fpBase fpEnd h).
Definition cleanMemRegionUP (ptr region : Z) (h : Heap) : outcome Heap :=
  fpBase ← unionBase ptr region h;
  r ← deref (hdrs h) region;
  Ok (releaseRange fpBase (alignLo (m_addrNext r)) h).

Definition calcVirtualMemoryBeetween (lower upper : Z) : Z := u64 (upper - lower + MemRegionAlign).

Definition releaseBlock (lower upper : Z) (h : Heap) : Heap :=
  let h := setVms h (m_virtualMemorySize h - calcVirtualMemoryBeetween lower upper) in
  setVmm h (vm_free (m_vmm h) lower).

(** The region before is free: [region] is joined to it. *)
Definition freePrevFree (ptr region regPrev regNext regNextNext : Z) (h : Heap) : outcome Heap :=
  rp ← deref (hdrs h) regPrev;
  oldTblIndex ← cpuLastOneBitIndex (hdrSize regPrev rp);
  if negb (regNextNext =? nullptr) then
    rn ← deref (hdrs h) regNext;
    if negb (isBusy rn) then
      tableIdx ← cpuLastOneBitIndex (hdrSize regNext rn);
      h ← deleteMemRegion regNext tableIdx h;
      rp ← deref (hdrs h) regPrev;
      rnn ← deref (hdrs h) regNextNext;
      if (m_addrPrev rp =? nullptr) && (m_addrNext rnn =? nullptr) then
        let h := setVms h (m_virtualMemorySize h - calcVirtualMemoryBeetween regPrev regNextNext) in
        h ← deleteMemRegion regPrev oldTblIndex h;
        Ok (setVmm h (vm_free (m_vmm h) regPrev))
      else
        h ← cleanMemRegionUNP ptr region h;
        h ← setAddrNext regPrev regNextNext h;
        h ← setAddrPrev regNextNext regPrev h;
        updateMemRegion regPrev oldTblIndex h
    else
      h ← cleanMemRegionUP ptr region h;
      h ← setAddrNext regPrev regNext h;
      h ← setAddrPrev regNext regPrev h;
      updateMemRegion regPrev oldTblIndex h
  else
    if m_addrPrev rp =? nullptr then
      let h := setVms h (m_virtualMemorySize h - calcVirtualMemoryBeetween regPrev regNext) in
      h ← deleteMemRegion regPrev oldTblIndex h;
      Ok (setVmm h (vm_free (m_vmm h) regPrev))
    else
      h ← cleanMemRegionUP ptr region h;
      h ← setAddrNext regPrev regNext h;
      updateMemRegion regPrev oldTblIndex h.

(** The region before is busy, or there is none, and a region follows. *)
Definition freeNextRegion (ptr region regPrev regNext regNextNext : Z) (h : Heap) : outcome Heap :=
  rn ← deref (hdrs h) regNext;
  if negb (isBusy rn) then
    tableIdx ← cpuLastOneBitIndex (hdrSize regNext rn);
    h ← deleteMemRegion regNext tableIdx h;
    rnn ← deref (hdrs h) regNextNext;
    if (regPrev =? nullptr) && (m_addrNext rnn =? nullptr) then
      Ok (releaseBlock region regNextNext h)
    else
      h ← cleanMemRegionUN ptr region h;
      h ← setAddrNext region regNextNext h;
      h ← setAddrPrev regNextNext region h;
      addMemRegion region h
  else
    h ← cleanMemRegion ptr region h;
    addMemRegion region h.

Definition free (ptr : Z) (h : Heap) : outcome Heap :=
  let region := ptr - MemRegionAlign in
  r ← deref (hdrs h) region;
  let regNext := m_addrNext r in
  let regPrev := m_addrPrev r in
  rn ← deref (hdrs h) regNext;
  let regNextNext := m_addrNext rn in
  prevFree ← (if negb (regPrev =? nullptr) then
                rp ← deref (hdrs h) regPrev; Ok (negb (isBusy rp))
              else Ok false);
  if prevFree : bool then freePrevFree ptr region regPrev regNext regNextNext h
  else if negb (regNextNext =? nullptr) then freeNextRegion ptr region regPrev regNext regNextNext h
  else if regPrev =? nullptr then Ok (releaseBlock region regNext h)
  else
    h ← cleanMemRegion ptr region h;
    addMemRegion region h.

End Heap.
