(* ===== verification/HeapInv.v ===== *)
(** * Correctness of the kernel heap

    A block is the list of its regions, in address order, each with its size
    (header included) and whether it is busy.  [HInv] ties the blocks to the
    headers in memory, to the free lists and to the blocks the virtual memory
    manager has given out. *)

From S2P Require Import Prelude FreeList PhMem Paging Heap.

Notation region := (Z * bool)%type.

Definition lsize (l : list region) : Z := foldr (fun r acc => r.1 + acc) 0 l.

(** The regions with their addresses: address, size, busy. *)
Fixpoint placed (b : Z) (l : list region) : list (Z * Z * bool) :=
  match l with
  | [] => []
  | (sz, f) :: l => (b, sz, f) :: placed (b + sz) l
  end.

(** The address of the last region of [l], [prev] if there is none. *)
Fixpoint lastAddr (prev a : Z) (l : list region) : Z :=
  match l with
  | [] => prev
  | (sz, _) :: l => lastAddr a (a + sz) l
  end.

Definition regOk (r : region) : Prop :=
  32 <= r.1 /\ r.1 mod 32 = 0 /\ (r.2 = false -> r.1 < 2 ^ 21).

(** No two free regions touch. *)
Fixpoint coalesced (f : bool) (l : list region) : Prop :=
  match l with
  | [] => True
  | (_, b) :: l => f || b = true /\ coalesced b l
  end.

Lemma lsize_app l1 l2 : lsize (l1 ++ l2) = lsize l1 + lsize l2.
Proof. unfold lsize. induction l1 as [|r l1 IH]; cbn [app foldr]; [done|]. lia. Qed.
Lemma lsize_cons sz b l : lsize ((sz, b) :: l) = sz + lsize l.
Proof. done. Qed.
Lemma lsize_nonneg l : Forall regOk l -> 0 <= lsize l.
Proof. induction 1 as [|[sz b] l [Hr _] Hl IH]; [done|]. rewrite lsize_cons. cbn in *. lia. Qed.
Lemma lsize_mod l : Forall regOk l -> lsize l mod 32 = 0.
Proof.
  induction 1 as [|[sz b] l (_ & Hr & _) Hl IH]; [done|]. rewrite lsize_cons. cbn in Hr.
  rewrite Z.add_mod, Hr, IH by lia. done.
Qed.
Lemma rplaced_app b l1 l2 : placed b (l1 ++ l2) = placed b l1 ++ placed (b + lsize l1) l2.
Proof.
  revert b. induction l1 as [|[sz f] l1 IH]; intros b; cbn [app placed].
  - change (lsize []) with 0. by rewrite Z.add_0_r.
  - rewrite IH, lsize_cons. by rewrite Z.add_assoc.
Qed.
Lemma lastAddr_snoc l sz b : forall prev a, lastAddr prev a (l ++ [(sz, b)]) = a + lsize l.
Proof.
  induction l as [|[s f] l IH]; intros prev a; cbn [app lastAddr].
  - change (lsize []) with 0. lia.
  - rewrite IH, lsize_cons. lia.
Qed.

Lemma placed_elem b l a sz f :
  (a, sz, f) ∈ placed b l <-> exists l1 l2, l = l1 ++ (sz, f) :: l2 /\ a = b + lsize l1.
Proof.
  revert b. induction l as [|[s g] l IH]; intros b; cbn [placed].
  - split; [by intros ?%elem_of_nil | intros (l1 & l2 & E & _); by destruct l1].
  - rewrite elem_of_cons, IH. split.
    + intros [[= -> -> ->]|(l1 & l2 & -> & ->)].
      * exists [], l. cbn. split; [done|lia].
      * exists ((s, g) :: l1), l2. rewrite lsize_cons. split; [done|lia].
    + intros ([|[s' g'] l1] & l2 & E & ->); simplify_eq/=.
      * left. repeat f_equal. lia.
      * right. exists l1, l2. split; [done|]. fold (lsize l1). lia.
Qed.

Lemma rplaced_range b l a sz f : Forall regOk l -> (a, sz, f) ∈ placed b l ->
  b <= a /\ a + sz <= b + lsize l /\ 32 <= sz.
Proof.
  intros Hl (l1 & l2 & -> & ->)%placed_elem. apply Forall_app in Hl as [H1 H2].
  inversion H2 as [|? ? [Hr _] H2']; subst. cbn in Hr.
  pose proof (lsize_nonneg l1 H1). pose proof (lsize_nonneg l2 H2').
  rewrite lsize_app, lsize_cons. lia.
Qed.

Lemma coalesced_app l1 l2 : forall f, coalesced f (l1 ++ l2) <->
  coalesced f l1 /\ coalesced (default f (snd <$> last l1)) l2.
Proof.
  induction l1 as [|[s g] l1 IH]; intros f; cbn [app coalesced]; [naive_solver|].
  rewrite IH. destruct l1 as [|r l1]; [cbn; naive_solver|].
  rewrite last_cons_cons. destruct (last (r :: l1)) eqn:E; [cbn; naive_solver|].
  by apply last_None in E.
Qed.
Lemma coalesced_weaken f l : coalesced f l -> coalesced true l.
Proof. destruct l as [|[s g] l]; cbn; [done|]. intros [_ ?]. done. Qed.

(** ** Headers *)

Section Mem.
Implicit Types m : gmap Z Hdr.

Definition hdrAt m (q sz prev : Z) (b : bool) : Prop :=
  exists hd, m !! q = Some hd /\ m_addrNext hd = q + sz /\ m_addrPrev hd = prev /\
    (b = true -> m_szNext hd = HEAP_MARKER_BUSY).

Fixpoint regs m (prev a : Z) (l : list region) : Prop :=
  match l with
  | [] => True
  | (sz, b) :: l => hdrAt m a sz prev b /\ regs m a (a + sz) l
  end.
Definition sentinel m (e : Z) : Prop := exists hd, m !! e = Some hd /\ m_addrNext hd = nullptr.
Definition chain m (prev a : Z) (l : list region) : Prop := regs m prev a l /\ sentinel m (a + lsize l).

Lemma regs_app m l1 l2 : forall prev a,
  regs m prev a (l1 ++ l2) <-> regs m prev a l1 /\ regs m (lastAddr prev a l1) (a + lsize l1) l2.
Proof.
  induction l1 as [|[sz b] l1 IH]; intros prev a; cbn [app regs lastAddr].
  - cbn. rewrite Z.add_0_r. naive_solver.
  - rewrite IH, lsize_cons, Z.add_assoc. naive_solver.
Qed.

Lemma chain_app m l1 l2 prev a :
  chain m prev a (l1 ++ l2) <-> regs m prev a l1 /\ chain m (lastAddr prev a l1) (a + lsize l1) l2.
Proof. unfold chain. rewrite regs_app, lsize_app, Z.add_assoc. naive_solver. Qed.

(** Nothing a region relies on has changed: its address fields, and the whole header
    of a busy one. *)
Definition hdrSame (b : bool) m m' (q : Z) : Prop :=
  ldata <$> m' !! q = ldata <$> m !! q /\ (b = true -> m' !! q = m !! q).

Lemma hdrAt_same m m' q sz prev b : hdrSame b m m' q -> hdrAt m q sz prev b -> hdrAt m' q sz prev b.
Proof.
  intros [Hd Hb] (hd & E & H1 & H2 & H3). rewrite E in *.
  destruct (m' !! q) as [hd'|] eqn:E'; [|done]. cbn in Hd. injection Hd as Hn Hp.
  exists hd'. split_and!; [done | congruence | congruence |]. intros Ht. specialize (Hb Ht).
  simplify_eq. auto.
Qed.
Lemma sentinel_same m m' e : ldata <$> m' !! e = ldata <$> m !! e -> sentinel m e -> sentinel m' e.
Proof.
  intros Hd (hd & E & H1). rewrite E in Hd. destruct (m' !! e) as [hd'|] eqn:E'; [|done].
  cbn in Hd. injection Hd as Hn Hp. exists hd'. split; [done | congruence].
Qed.
Lemma regs_same m m' l : forall prev a,
  (forall q sz b, (q, sz, b) ∈ placed a l -> hdrSame b m m' q) -> regs m prev a l -> regs m' prev a l.
Proof.
  induction l as [|[sz b] l IH]; intros prev a Hq; cbn [regs placed] in *; [done|].
  intros [H1 H2]. split; [eapply hdrAt_same; [apply (Hq a sz); by left | done]|].
  apply IH; [|done]. intros q s f Hin. apply (Hq q s). by right.
Qed.
Lemma chain_same m m' l prev a :
  (forall q sz b, (q, sz, b) ∈ placed a l -> hdrSame b m m' q) ->
  ldata <$> m' !! (a + lsize l) = ldata <$> m !! (a + lsize l) ->
  chain m prev a l -> chain m' prev a l.
Proof. intros Hq He [H1 H2]. split; [by eapply regs_same | by eapply sentinel_same]. Qed.

Lemma chain_cons m prev a sz b l :
  chain m prev a ((sz, b) :: l) <-> hdrAt m a sz prev b /\ chain m a (a + sz) l.
Proof. unfold chain. cbn [regs]. rewrite lsize_cons, Z.add_assoc. naive_solver. Qed.

(** The first header of a chain, the one that ends it included: its fields. *)
Lemma chain_head m prev a l : chain m prev a l -> exists hd, m !! a = Some hd /\
  match l with
  | [] => m_addrNext hd = nullptr
  | (sz, b) :: _ => m_addrNext hd = a + sz /\ m_addrPrev hd = prev /\ (b = true -> m_szNext hd = HEAP_MARKER_BUSY)
  end.
Proof.
  destruct l as [|[sz b] l].
  - intros [_ (hd & E & H)]. cbn in E. rewrite Z.add_0_r in E. by exists hd.
  - intros [(hd & E & H1 & H2 & H3) _]%chain_cons. by exists hd.
Qed.

(** A header back link rewritten: the chain continues from another region. *)
Lemma chain_setPrev m prev prev' a l hd : chain m prev a l -> Forall regOk l -> m !! a = Some hd ->
  chain (<[a := mkHdr (m_szNext hd) (m_szPrev hd) (m_addrNext hd) prev']> m) prev' a l.
Proof.
  intros Hc Hl Hd. destruct l as [|[sz b] l].
  - destruct Hc as [_ (hd' & E & He)]. cbn in E. rewrite Z.add_0_r in E. split; [done|]. cbn.
    rewrite Z.add_0_r. eexists. rewrite lookup_insert_eq. split; [done|]. cbn. congruence.
  - inversion Hl as [|? ? [Hr _] Hl']; subst. cbn in Hr.
    apply chain_cons in Hc as [(hd' & E & H1 & H2 & H3) Hc]. simplify_eq. apply chain_cons. split.
    + eexists. rewrite lookup_insert_eq. split_and!; done.
    + pose proof (lsize_nonneg l Hl'). eapply chain_same; [| |exact Hc].
      * intros q s f Hin%rplaced_range; [|done]. unfold hdrSame. rewrite !lookup_insert_ne by lia. done.
      * rewrite lookup_insert_ne by lia. done.
Qed.
End Mem.

(** ** The invariant *)

Ltac Zify.zify_pre_hook ::= unfold vm_top in *.

Section Inv.
Context {V : Type} `{VmmIface V}.
Implicit Types (B : gmap Z (list region)) (fs : gmap Z Z) (h : Heap (V:=V)).

Record HInv B fs (ls : nat -> list Z) h : Prop := {
  h_blk : forall base l, B !! base = Some l -> 0 < base /\ base mod PAGE_SIZE = 0 /\
    exists n, vm_blocks (m_vmm h) !! base = Some n /\ lsize l + 32 <= n /\ base + n <= vm_top;
  h_dis : forall base l base' l', B !! base = Some l -> B !! base' = Some l' -> base <> base' ->
    base + lsize l + 32 <= base' \/ base' + lsize l' + 32 <= base;
  h_reg : forall base l, B !! base = Some l ->
    Forall regOk l /\ coalesced true l /\ (exists sz, (sz, true) ∈ l) /\
    (lsize l < 2 ^ 21 \/ exists sz, l = [(sz, true)]);
  h_chain : forall base l, B !! base = Some l -> chain (hdrs h) nullptr base l;
  h_fs : forall a sz, fs !! a = Some sz <-> exists base l, B !! base = Some l /\ (a, sz, false) ∈ placed base l;
  h_lists : Lists HeapLogTableSize fs ls (hdrs h) (m_freeListTable h)
}.

(** The busy regions: what callers hold. *)
Definition busyAt B (a sz : Z) : Prop := exists base l, B !! base = Some l /\ (a, sz, true) ∈ placed base l.

(** Headers outside the addresses [lo .. hi] keep their address fields, and the ones
    that are not free are untouched. *)
Definition outside (lo hi : Z) fs (m m' : gmap Z Hdr) : Prop :=
  forall q, q < lo \/ hi < q ->
    ldata <$> m' !! q = ldata <$> m !! q /\ (fs !! q = None -> m' !! q = m !! q).

Lemma outside_refl lo hi fs m : outside lo hi fs m m.
Proof. done. Qed.
Lemma outside_trans lo hi fs m1 m2 m3 :
  outside lo hi fs m1 m2 -> outside lo hi fs m2 m3 -> outside lo hi fs m1 m3.
Proof.
  intros K1 K2 q Hq. destruct (K1 q Hq) as [A1 A2], (K2 q Hq) as [B1 B2]. split; [congruence|].
  intros Hf. rewrite B2, A2; done.
Qed.
Lemma outside_insert lo hi fs m q hd : lo <= q <= hi -> outside lo hi fs m (<[q := hd]> m).
Proof. intros Hq q' Hq'. rewrite lookup_insert_ne by lia. done. Qed.
Lemma outside_frameF lo hi fs fs' m m' :
  frameF fs' m m' -> (forall q, q < lo \/ hi < q -> fs' !! q = fs !! q) -> outside lo hi fs m m'.
Proof. intros [K1 K2] Hf q Hq. split; [apply K2|]. intros Hn. apply K1. by rewrite Hf. Qed.

Lemma placed_fun b l a sz f sz' f' : Forall regOk l ->
  (a, sz, f) ∈ placed b l -> (a, sz', f') ∈ placed b l -> sz = sz' /\ f = f'.
Proof.
  revert b. induction l as [|[s g] l IH]; intros b Hl; cbn [placed]; [by intros ?%elem_of_nil|].
  inversion Hl as [|? ? [Hr _] Hl']; subst. cbn in Hr.
  rewrite !elem_of_cons. intros [[= -> -> ->]|K1] [[= -> ->]|K2]; [done| | |by eapply IH].
  - apply rplaced_range in K2; [lia|done].
  - simplify_eq. apply rplaced_range in K1; [lia|done].
Qed.

Lemma HInv_block B fs ls h base l base' l' q : HInv B fs ls h ->
  B !! base = Some l -> B !! base' = Some l' ->
  base <= q <= base + lsize l -> base' <= q <= base' + lsize l' -> base = base'.
Proof.
  intros HI K1 K2 Hq Hq'. destruct (decide (base = base')) as [->|Hne]; [done|].
  destruct (h_dis _ _ _ _ HI _ _ _ _ K1 K2 Hne); lia.
Qed.

Lemma HInv_place B fs ls h base l a sz f : HInv B fs ls h -> B !! base = Some l ->
  (a, sz, f) ∈ placed base l -> base <= a /\ a + sz <= base + lsize l /\ 32 <= sz.
Proof. intros HI Hb. apply rplaced_range. by eapply h_reg. Qed.

(** A busy region is not in the free map. *)
Lemma HInv_busy_fs B fs ls h base l a sz : HInv B fs ls h -> B !! base = Some l ->
  (a, sz, true) ∈ placed base l -> fs !! a = None.
Proof.
  intros HI Hb Hin. destruct (fs !! a) as [sz'|] eqn:E; [|done].
  apply (h_fs _ _ _ _ HI) in E as (base' & l' & Hb' & Hin').
  pose proof (HInv_place _ _ _ _ _ _ _ _ _ HI Hb Hin). pose proof (HInv_place _ _ _ _ _ _ _ _ _ HI Hb' Hin').
  assert (base = base') as <- by (eapply (HInv_block _ _ _ _ _ _ _ _ a HI Hb Hb'); lia).
  simplify_eq. destruct (h_reg _ _ _ _ HI _ _ Hb) as [Hl _].
  by destruct (placed_fun _ _ _ _ _ _ _ Hl Hin Hin').
Qed.

(** A free region: its header, and that it does not look busy. *)
Lemma HInv_free B fs ls h a sz : HInv B fs ls h -> fs !! a = Some sz ->
  exists hd, hdrs h !! a = Some hd /\ m_szNext hd <> HEAP_MARKER_BUSY /\ 0 < a /\ a + sz < 2 ^ 64 - 32 /\
    32 <= sz < 2 ^ 21 /\ sz mod 32 = 0.
Proof.
  intros HI Hf.
  assert (Hrange : forall x s, fs !! x = Some s -> 0 < x /\ x + s < 2 ^ 64 - 32 /\ 32 <= s < 2 ^ 21 /\ s mod 32 = 0).
  { intros x s (base & l & Hb & Hin)%(h_fs _ _ _ _ HI).
    destruct (h_blk _ _ _ _ HI _ _ Hb) as (? & _ & n & _ & ? & ?).
    pose proof (HInv_place _ _ _ _ _ _ _ _ _ HI Hb Hin).
    destruct (h_reg _ _ _ _ HI _ _ Hb) as [Hl _].
    apply placed_elem in Hin as (l1 & l2 & -> & _). apply Forall_app in Hl as [_ Hl].
    inversion Hl as [|? ? (? & ? & Hr) _]; subst. cbn in *. specialize (Hr eq_refl). split_and!; lia. }
  destruct (Hrange a sz Hf) as (? & ? & ? & ?). pose proof (h_lists _ _ _ _ HI) as [Hlen Hseg _ Hmem].
  assert (Hin : a ∈ ls (bucket sz)) by (apply Hmem; by exists sz).
  destruct (lookup_lt_is_Some_2 (m_freeListTable h) (bucket sz)) as [hd0 Hh].
  { rewrite Hlen. unfold bucket, HeapLogTableSize. pose proof (Z.log2_lt_pow2 sz 21 ltac:(lia)). lia. }
  destruct (seg_nonnull _ _ _ _ _ (Hseg _ _ Hh) Hin) as [_ [hd Hd]].
  exists hd. split_and!; try done; try lia.
  destruct (seg_next _ _ _ _ _ _ (Hseg _ _ Hh) Hin Hd) as [E|E]; cbn in E.
  - rewrite E. done.
  - apply Hmem in E as (s & Hs & _). apply Hrange in Hs. unfold HEAP_MARKER_BUSY. lia.
Qed.

(** Replacing the regions of one block. *)
Lemma rebuild B fs ls h base l l' fs' ls' h' :
  HInv B fs ls h -> B !! base = Some l -> lsize l' = lsize l ->
  Forall regOk l' -> coalesced true l' -> (exists sz, (sz, true) ∈ l') -> lsize l < 2 ^ 21 ->
  outside base (base + lsize l) fs (hdrs h) (hdrs h') ->
  chain (hdrs h') nullptr base l' ->
  (forall q, q < base \/ base + lsize l < q -> fs' !! q = fs !! q) ->
  (forall q sz, base <= q <= base + lsize l -> fs' !! q = Some sz <-> (q, sz, false) ∈ placed base l') ->
  Lists HeapLogTableSize fs' ls' (hdrs h') (m_freeListTable h') ->
  vm_blocks (m_vmm h') = vm_blocks (m_vmm h) ->
  HInv (<[base := l']> B) fs' ls' h'.
Proof.
  intros HI Hb Hsz Hok Hco Hbz Hsm Hout Hch Hfo Hfi Hls Hvm. split; try done.
  - intros b k. rewrite Hvm, lookup_insert_Some. intros [[<- <-]|[_ Hk]]; [|by eapply (h_blk _ _ _ _ HI)].
    rewrite Hsz. by eapply (h_blk _ _ _ _ HI).
  - intros b1 k1 b2 k2. rewrite !lookup_insert_Some.
    intros [[<- <-]|[_ K1]] [[<- <-]|[_ K2]] Hne; rewrite ?Hsz; [done| | |];
      eapply (h_dis _ _ _ _ HI); eauto.
  - intros b k. rewrite lookup_insert_Some. intros [[<- <-]|[_ Hk]]; [|by eapply (h_reg _ _ _ _ HI)].
    split_and!; try done. left. by rewrite Hsz.
  - intros b k. rewrite lookup_insert_Some. intros [[<- <-]|[Hne Hk]]; [done|].
    pose proof (lsize_nonneg k (proj1 (h_reg _ _ _ _ HI _ _ Hk))).
    pose proof (h_dis _ _ _ _ HI _ _ _ _ Hb Hk Hne).
    eapply chain_same; [| |by eapply (h_chain _ _ _ _ HI)].
    + intros q s f Hin. pose proof (HInv_place _ _ _ _ _ _ _ _ _ HI Hk Hin).
      destruct (Hout q ltac:(lia)) as [K1 K2]. split; [done|]. intros ->. apply K2. by eapply HInv_busy_fs.
    + apply Hout. lia.
  - intros a sz. destruct (decide (base <= a <= base + lsize l)) as [Hr|Hr].
    + rewrite Hfi by done. split; [intros Hin; exists base, l'; by rewrite lookup_insert_eq|].
      intros (b & k & Hk & Hin). rewrite lookup_insert_Some in Hk. destruct Hk as [[<- <-]|[Hne Hk]]; [done|].
      pose proof (HInv_place _ _ _ _ _ _ _ _ _ HI Hk Hin).
      destruct Hne. eapply (HInv_block _ _ _ _ _ _ _ _ a HI Hb Hk); lia.
    + rewrite Hfo by lia. rewrite (h_fs _ _ _ _ HI). split; intros (b & k & Hk & Hin).
      * exists b, k. split; [|done]. rewrite lookup_insert_ne; [done|]. intros <-.
        assert (k = l) as -> by congruence. pose proof (HInv_place _ _ _ _ _ _ _ _ _ HI Hb Hin). lia.
      * rewrite lookup_insert_Some in Hk. destruct Hk as [[<- <-]|[_ Hk]]; [|eauto].
        apply rplaced_range in Hin; [lia | done].
Qed.

(** Giving a whole block back. *)
Lemma remove_block B fs ls h base l fs' ls' h' :
  HInv B fs ls h -> B !! base = Some l ->
  outside base (base + lsize l) fs (hdrs h) (hdrs h') ->
  (forall q, q < base \/ base + lsize l < q -> fs' !! q = fs !! q) ->
  (forall q, base <= q <= base + lsize l -> fs' !! q = None) ->
  Lists HeapLogTableSize fs' ls' (hdrs h') (m_freeListTable h') ->
  vm_blocks (m_vmm h') = delete base (vm_blocks (m_vmm h)) ->
  HInv (delete base B) fs' ls' h'.
Proof.
  intros HI Hb Hout Hfo Hfi Hls Hvm. split; try done.
  - intros b k [Hne Hk]%lookup_delete_Some. rewrite Hvm, lookup_delete_ne by done.
    by eapply (h_blk _ _ _ _ HI).
  - intros b1 k1 b2 k2 [_ K1]%lookup_delete_Some [_ K2]%lookup_delete_Some.
    by eapply (h_dis _ _ _ _ HI).
  - intros b k [_ Hk]%lookup_delete_Some. by eapply (h_reg _ _ _ _ HI).
  - intros b k [Hne Hk]%lookup_delete_Some.
    pose proof (lsize_nonneg k (proj1 (h_reg _ _ _ _ HI _ _ Hk))).
    pose proof (h_dis _ _ _ _ HI _ _ _ _ Hb Hk Hne).
    eapply chain_same; [| |by eapply (h_chain _ _ _ _ HI)].
    + intros q s f Hin. pose proof (HInv_place _ _ _ _ _ _ _ _ _ HI Hk Hin).
      destruct (Hout q ltac:(lia)) as [K1 K2]. split; [done|]. intros ->. apply K2. by eapply HInv_busy_fs.
    + apply Hout. lia.
  - intros a sz. destruct (decide (base <= a <= base + lsize l)) as [Hr|Hr].
    + rewrite Hfi by done. split; [done|]. intros (b & k & [Hne Hk]%lookup_delete_Some & Hin).
      pose proof (HInv_place _ _ _ _ _ _ _ _ _ HI Hk Hin).
      destruct Hne. eapply (HInv_block _ _ _ _ _ _ _ _ a HI Hb Hk); lia.
    + rewrite Hfo by lia. rewrite (h_fs _ _ _ _ HI). split; intros (b & k & Hk & Hin).
      * exists b, k. split; [|done]. rewrite lookup_delete_ne; [done|]. intros <-.
        assert (k = l) as -> by congruence. pose proof (HInv_place _ _ _ _ _ _ _ _ _ HI Hb Hin). lia.
      * apply lookup_delete_Some in Hk as [_ Hk]. eauto.
Qed.

(** A new block. *)
Lemma add_block B fs ls h base l n fs' ls' h' :
  HInv B fs ls h -> 0 < base -> base mod PAGE_SIZE = 0 -> base + n <= vm_top -> lsize l + 32 <= n ->
  Forall regOk l -> coalesced true l -> (exists sz, (sz, true) ∈ l) ->
  (lsize l < 2 ^ 21 \/ exists sz, l = [(sz, true)]) ->
  (forall q m, vm_blocks (m_vmm h) !! q = Some m -> q + m <= base \/ base + n <= q) ->
  outside base (base + lsize l) fs (hdrs h) (hdrs h') ->
  chain (hdrs h') nullptr base l ->
  (forall q, q < base \/ base + lsize l < q -> fs' !! q = fs !! q) ->
  (forall q sz, base <= q <= base + lsize l -> fs' !! q = Some sz <-> (q, sz, false) ∈ placed base l) ->
  Lists HeapLogTableSize fs' ls' (hdrs h') (m_freeListTable h') ->
  vm_blocks (m_vmm h') = <[base := n]> (vm_blocks (m_vmm h)) ->
  B !! base = None /\ HInv (<[base := l]> B) fs' ls' h'.
Proof.
  intros HI Hpos Hal Hlim Hsz Hok Hco Hbz Hsm Hnew Hout Hch Hfo Hfi Hls Hvm.
  pose proof (lsize_nonneg l Hok) as Hl0.
  assert (Hsep : forall b k, B !! b = Some k -> b + lsize k + 32 <= base \/ base + lsize l + 32 <= b).
  { intros b k Hk. destruct (h_blk _ _ _ _ HI _ _ Hk) as (_ & _ & m & Hm & ? & _).
    destruct (Hnew b m Hm); lia. }
  assert (Hne : forall b k, B !! b = Some k -> b <> base).
  { intros b k Hk ->. pose proof (lsize_nonneg k (proj1 (h_reg _ _ _ _ HI _ _ Hk))).
    destruct (Hsep _ _ Hk); lia. }
  split. { destruct (B !! base) as [k|] eqn:E; [|done]. by destruct (Hne _ _ E). }
  split; try done.
  - intros b k. rewrite Hvm, lookup_insert_Some. intros [[<- <-]|[Hn Hk]].
    + split_and!; try done. exists n. by rewrite lookup_insert_eq.
    + destruct (h_blk _ _ _ _ HI _ _ Hk) as (? & ? & m & Hm & ?). split_and!; try done.
      exists m. by rewrite lookup_insert_ne.
  - intros b1 k1 b2 k2. rewrite !lookup_insert_Some.
    intros [[<- <-]|[_ K1]] [[<- <-]|[_ K2]] Hn; [done| | |by eapply (h_dis _ _ _ _ HI)].
    + destruct (Hsep _ _ K2); lia.
    + destruct (Hsep _ _ K1); lia.
  - intros b k. rewrite lookup_insert_Some. intros [[<- <-]|[_ Hk]]; [done|by eapply (h_reg _ _ _ _ HI)].
  - intros b k. rewrite lookup_insert_Some. intros [[<- <-]|[Hn Hk]]; [done|].
    pose proof (lsize_nonneg k (proj1 (h_reg _ _ _ _ HI _ _ Hk))). pose proof (Hsep _ _ Hk).
    eapply chain_same; [| |by eapply (h_chain _ _ _ _ HI)].
    + intros q s f Hin. pose proof (HInv_place _ _ _ _ _ _ _ _ _ HI Hk Hin).
      destruct (Hout q ltac:(lia)) as [K1 K2]. split; [done|]. intros ->. apply K2. by eapply HInv_busy_fs.
    + apply Hout. lia.
  - intros a sz. destruct (decide (base <= a <= base + lsize l)) as [Hr|Hr].
    + rewrite Hfi by done. split; [intros Hin; exists base, l; by rewrite lookup_insert_eq|].
      intros (b & k & Hk & Hin). rewrite lookup_insert_Some in Hk. destruct Hk as [[<- <-]|[Hn Hk]]; [done|].
      pose proof (HInv_place _ _ _ _ _ _ _ _ _ HI Hk Hin). destruct (Hsep _ _ Hk); lia.
    + rewrite Hfo by lia. rewrite (h_fs _ _ _ _ HI). split; intros (b & k & Hk & Hin).
      * exists b, k. split; [|done]. rewrite lookup_insert_ne; [done|]. intros <-. by destruct (Hne _ _ Hk).
      * rewrite lookup_insert_Some in Hk. destruct Hk as [[<- <-]|[_ Hk]]; [|eauto].
        apply rplaced_range in Hin; [lia | done].
Qed.
(** ** Steps of the operations *)

Lemma regs_frameF m m' fs' l : forall p y, frameF fs' m m' ->
  (forall q s, (q, s, true) ∈ placed y l -> fs' !! q = None) -> regs m p y l -> regs m' p y l.
Proof.
  intros p y [F1 F2] Hb. apply regs_same. intros q s b Hin. split; [apply F2|].
  intros ->. by eapply F1, Hb.
Qed.
Lemma chain_frameF m m' fs' l p y : frameF fs' m m' ->
  (forall q s, (q, s, true) ∈ placed y l -> fs' !! q = None) -> chain m p y l -> chain m' p y l.
Proof.
  intros HF Hb [K1 K2]. split; [by eapply regs_frameF|]. eapply sentinel_same; [apply HF | done].
Qed.
Lemma regs_insert_ne m l p y q hd : Forall regOk l -> q < y \/ y + lsize l <= q ->
  regs m p y l -> regs (<[q := hd]> m) p y l.
Proof.
  intros Hl Hq. apply regs_same. intros q' s b Hin%rplaced_range; [|done].
  unfold hdrSame. by rewrite !lookup_insert_ne by lia.
Qed.
Lemma chain_insert_ne m l p y q hd : Forall regOk l -> q < y \/ y + lsize l < q ->
  chain m p y l -> chain (<[q := hd]> m) p y l.
Proof.
  intros Hl Hq [K1 K2]. split; [apply regs_insert_ne; [done|lia|done]|].
  pose proof (lsize_nonneg l Hl). eapply sentinel_same; [|done]. by rewrite lookup_insert_ne by lia.
Qed.
Lemma hdrAt_frameF m m' fs' q sz p : frameF fs' m m' -> hdrAt m q sz p false -> hdrAt m' q sz p false.
Proof. intros [_ F2]. apply hdrAt_same. split; [apply F2 | done]. Qed.
Lemma hdrAt_insert_ne m q q' hd sz p b : q' <> q -> hdrAt m q sz p b -> hdrAt (<[q' := hd]> m) q sz p b.
Proof. intros Hne. apply hdrAt_same. unfold hdrSame. by rewrite !lookup_insert_ne. Qed.
Lemma hdrAt_insert m q hd sz p b : m_addrNext hd = q + sz -> m_addrPrev hd = p ->
  (b = true -> m_szNext hd = HEAP_MARKER_BUSY) -> hdrAt (<[q := hd]> m) q sz p b.
Proof. intros. exists hd. by rewrite lookup_insert_eq. Qed.

Lemma bucket_range sz : 32 <= sz < 2 ^ 21 -> (bucket sz < HeapLogTableSize)%nat.
Proof. intros Hs. unfold bucket, HeapLogTableSize. pose proof (Z.log2_lt_pow2 sz 21 ltac:(lia)). lia. Qed.

Lemma deleteMemRegion_spec fs ls h a sz : 
  Lists HeapLogTableSize fs ls (hdrs h) (m_freeListTable h) -> fs !! a = Some sz -> 32 <= sz < 2 ^ 21 ->
  exists m' t' ls', deleteMemRegion a (bucket sz) h
      = Ok (mkHeap m' t' (m_virtualMemorySize h) (m_vmm h)) /\
    Lists HeapLogTableSize (delete a fs) ls' m' t' /\ frameF (delete a fs) (hdrs h) m'.
Proof.
  intros HL Ha Hs. destruct (lists_delete _ _ _ _ _ _ _ HL Ha (bucket_range sz Hs))
    as (hd & m' & hd' & ls' & Et & Eu & HL' & HF).
  unfold deleteMemRegion. rewrite (arr_get_Some _ _ _ Et). ostep. rewrite Eu. ostep.
  rewrite (arr_set_Some _ _ _ _ Et). ostep. by exists m', (<[bucket sz := hd']> (m_freeListTable h)), ls'.
Qed.

Lemma insertRegion_spec fs ls h a sz hd :
  Lists HeapLogTableSize fs ls (hdrs h) (m_freeListTable h) -> fs !! a = None -> a <> nullptr ->
  hdrs h !! a = Some hd -> 32 <= sz < 2 ^ 21 ->
  exists m' t' ls', insertRegion a (bucket sz) h
      = Ok (mkHeap m' t' (m_virtualMemorySize h) (m_vmm h)) /\
    Lists HeapLogTableSize (<[a := sz]> fs) ls' m' t' /\ frameF (<[a := sz]> fs) (hdrs h) m'.
Proof.
  intros HL Ha Ha0 Hd Hs. destruct (lists_insert _ _ _ _ _ _ sz _ HL Ha Ha0 Hd (bucket_range sz Hs))
    as (hd0 & m' & ls' & Et & Eu & HL' & HF).
  unfold insertRegion. rewrite (arr_get_Some _ _ _ Et). ostep. rewrite Eu. ostep.
  rewrite (arr_set_Some _ _ _ _ Et). ostep. by exists m', (<[bucket sz := a]> (m_freeListTable h)), ls'.
Qed.

Lemma hdrSize_eq a sz hd : m_addrNext hd = a + sz -> 0 <= sz < 2 ^ 64 -> hdrSize a hd = sz.
Proof. intros E Hs. unfold hdrSize. rewrite E. replace (a + sz - a) with sz by lia. by apply u64_small. Qed.

Lemma addMemRegion_spec fs ls h a sz p b :
  Lists HeapLogTableSize fs ls (hdrs h) (m_freeListTable h) -> fs !! a = None -> a <> nullptr ->
  hdrAt (hdrs h) a sz p b -> 32 <= sz < 2 ^ 21 ->
  exists m' t' ls', addMemRegion a h = Ok (mkHeap m' t' (m_virtualMemorySize h) (m_vmm h)) /\
    Lists HeapLogTableSize (<[a := sz]> fs) ls' m' t' /\ frameF (<[a := sz]> fs) (hdrs h) m'.
Proof.
  intros HL Ha Ha0 (hd & Hd & En & _ & _) Hs. unfold addMemRegion. rewrite (deref_Some _ _ _ Hd). ostep.
  rewrite (hdrSize_eq a sz) by (done || lia). rewrite bsr_pos by lia. ostep.
  by eapply insertRegion_spec.
Qed.

(** The lists do not see address fields, nor busy headers. *)
Lemma lists_insert_hdr fs ls m t q hd' : Lists HeapLogTableSize fs ls m t ->
  fs !! q = None \/ (exists hd, m !! q = Some hd /\ m_szNext hd' = m_szNext hd /\ m_szPrev hd' = m_szPrev hd) ->
  Lists HeapLogTableSize fs ls (<[q := hd']> m) t.
Proof.
  intros HL Hq. eapply lists_ext; [done|]. intros x nd [s Hx] Hnd.
  destruct (decide (x = q)) as [->|].
  - destruct Hq as [Hq|(hd & Hm & E1 & E2)]; [congruence|]. simplify_eq.
    exists hd'. by rewrite lookup_insert_eq.
  - exists nd. by rewrite lookup_insert_ne.
Qed.

(** What one knows of a block around one of its regions. *)
Record around B fs h base l1 sz b l2 : Prop := {
  a_ok : Forall regOk l1 /\ regOk (sz, b) /\ Forall regOk l2;
  a_pos : 0 < base /\ base mod 32 = 0 /\ base + lsize l1 + sz + lsize l2 + 32 <= vm_top;
  a_chain : regs (hdrs h) nullptr base l1 /\
    chain (hdrs h) (lastAddr nullptr base l1) (base + lsize l1) ((sz, b) :: l2);
  a_busy1 : forall q s, (q, s, true) ∈ placed base l1 -> fs !! q = None;
  a_busy2 : forall q s, (q, s, true) ∈ placed (base + lsize l1 + sz) l2 -> fs !! q = None;
  a_fs : forall q s, base <= q <= base + lsize l1 + sz + lsize l2 ->
    fs !! q = Some s <-> (q, s, false) ∈ placed base l1 \/ (q = base + lsize l1 /\ s = sz /\ b = false) \/
      (q, s, false) ∈ placed (base + lsize l1 + sz) l2
}.

Lemma HInv_around B fs ls h base l1 sz b l2 : HInv B fs ls h ->
  B !! base = Some (l1 ++ (sz, b) :: l2) -> around B fs h base l1 sz b l2.
Proof.
  intros HI Hb. destruct (h_reg _ _ _ _ HI _ _ Hb) as (Hok & _).
  destruct (h_blk _ _ _ _ HI _ _ Hb) as (? & Hal & n & _ & ? & ?).
  pose proof (h_chain _ _ _ _ HI _ _ Hb) as Hc. apply chain_app in Hc as [Hc1 Hc2].
  pose proof Hok as Hok'. apply Forall_app in Hok' as [Hok1 Hok2]. apply Forall_cons in Hok2 as [Hok0 Hok2].
  rewrite lsize_app, lsize_cons in *.
  assert (Hpl : placed base (l1 ++ (sz, b) :: l2) = placed base l1 ++ (base + lsize l1, sz, b) :: placed (base + lsize l1 + sz) l2)
    by by rewrite rplaced_app.
  split; try done.
  - split_and!; [lia | | lia]. unfold PAGE_SIZE in Hal. Z.div_mod_to_equations. lia.
  - intros q s Hin. apply (HInv_busy_fs _ _ _ _ _ _ q s HI Hb). rewrite Hpl. apply elem_of_app. by left.
  - intros q s Hin. apply (HInv_busy_fs _ _ _ _ _ _ q s HI Hb). rewrite Hpl. apply elem_of_app. right. by right.
  - intros q s Hq. rewrite (h_fs _ _ _ _ HI). split.
    + intros (base' & l' & Hb' & Hin). pose proof (HInv_place _ _ _ _ _ _ _ _ _ HI Hb' Hin).
      assert (base = base') as <-.
      { eapply (HInv_block _ _ _ _ _ _ _ _ q HI Hb Hb'); rewrite ?lsize_app, ?lsize_cons; lia. }
      assert (l' = l1 ++ (sz, b) :: l2) as -> by congruence. rewrite Hpl in Hin.
      apply elem_of_app in Hin as [?|[[= -> -> <-]|?]%elem_of_cons]; naive_solver.
    + intros Hin. exists base, (l1 ++ (sz, b) :: l2). split; [done|]. rewrite Hpl.
      rewrite elem_of_app, elem_of_cons. destruct Hin as [?|[(-> & -> & ->)|?]]; auto.
Qed.

(** A block with a free region is an ordinary one. *)
Lemma HInv_small B fs ls h base l1 sz l2 : HInv B fs ls h ->
  B !! base = Some (l1 ++ (sz, false) :: l2) -> lsize (l1 ++ (sz, false) :: l2) < 2 ^ 21.
Proof.
  intros HI Hb. destruct (h_reg _ _ _ _ HI _ _ Hb) as (_ & _ & _ & [?|[s E]]); [done|].
  by destruct l1 as [|r [|r' l1]].
Qed.

Lemma coalesced_busy f l1 sz b sz' l2 :
  coalesced f (l1 ++ (sz, b) :: l2) -> coalesced f (l1 ++ (sz', true) :: l2).
Proof.
  rewrite !coalesced_app. cbn [coalesced]. intros (K1 & _ & K3). rewrite orb_true_r.
  split_and!; try done. by eapply coalesced_weaken.
Qed.

Lemma setBusy_spec h q hd : hdrs h !! q = Some hd -> setBusy q h =
  Ok (setHdrs h (<[q := mkHdr HEAP_MARKER_BUSY (m_szPrev hd) (m_addrNext hd) (m_addrPrev hd)]> (hdrs h))).
Proof. intros E. unfold setBusy. by rewrite (deref_Some _ _ _ E). Qed.

(** An exact fit. *)
Lemma allocEqual_spec B fs ls h base l1 sz l2 : HInv B fs ls h ->
  B !! base = Some (l1 ++ (sz, false) :: l2) ->
  exists h' fs' ls', allocEqual (bucket sz) (base + lsize l1) h = Ok (base + lsize l1 + MemRegionAlign, h') /\
    HInv (<[base := l1 ++ (sz, true) :: l2]> B) fs' ls' h' /\ m_vmm h' = m_vmm h.
Proof.
  intros HI Hb. destruct (HInv_around _ _ _ _ _ _ _ _ _ HI Hb) as [(Hok1 & (Ho1 & Ho2 & Ho3) & Hok2) Hpos [Hc1 Hc2] Hb1 Hb2 Hfs].
  cbn in Ho1, Ho2, Ho3. specialize (Ho3 eq_refl). set (a := base + lsize l1) in *.
  pose proof (lsize_nonneg l1 Hok1) as Hn1. pose proof (lsize_nonneg l2 Hok2) as Hn2.
  assert (Ha : fs !! a = Some sz) by (apply Hfs; [lia|]; right; left; done).
  destruct (deleteMemRegion_spec fs ls h a sz (h_lists _ _ _ _ HI) Ha) as (m1 & t1 & ls1 & Ed & HL1 & HF1); [lia|].
  apply chain_cons in Hc2 as [Hat Hc2].
  assert (Hat1 : hdrAt m1 a sz (lastAddr nullptr base l1) false) by (by eapply hdrAt_frameF).
  destruct Hat1 as (hd & Hhd & En & Ep & _).
  unfold allocEqual. rewrite Ed. ostep. erewrite setBusy_spec by exact Hhd. ostep.
  unfold setHdrs; cbn [hdrs m_freeListTable m_virtualMemorySize m_vmm].
  eexists _, (delete a fs), ls1. split; [done|]. split; [|done].
  eapply rebuild; try done; cbn [hdrs m_freeListTable m_vmm].
  - rewrite !lsize_app, !lsize_cons. lia.
  - apply Forall_app. split; [done|]. constructor; [|done]. split_and!; cbn; (done || lia).
  - eapply coalesced_busy. by eapply (h_reg _ _ _ _ HI).
  - exists sz. apply elem_of_app. right. by left.
  - by eapply HInv_small.
  - rewrite lsize_app, lsize_cons. eapply outside_trans; [|apply outside_insert; subst a; lia].
    eapply outside_frameF; [exact HF1|]. intros q Hq. apply lookup_delete_ne. subst a. lia.
  - assert (Hd1 : forall q s, (q, s, true) ∈ placed base l1 -> delete a fs !! q = None).
    { intros q s Hin. apply lookup_delete_None. right. by eapply Hb1. }
    assert (Hd2 : forall q s, (q, s, true) ∈ placed (a + sz) l2 -> delete a fs !! q = None).
    { intros q s Hin. apply lookup_delete_None. right. by eapply Hb2. }
    apply chain_app. fold a. split.
    + apply regs_insert_ne; [done | subst a; lia|]. by eapply regs_frameF.
    + apply chain_cons. split; [by apply hdrAt_insert|].
      apply chain_insert_ne; [done | lia |]. by eapply chain_frameF.
  - intros q Hq. apply lookup_delete_ne. subst a. rewrite lsize_app, lsize_cons in Hq. lia.
  - intros q s Hq. rewrite lsize_app, lsize_cons in Hq. rewrite rplaced_app, elem_of_app. cbn [placed]. fold a.
    rewrite elem_of_cons. destruct (decide (q = a)) as [->|Hqa].
    + rewrite lookup_delete_eq. split; [done|]. intros [Hin|[[=]|Hin]].
      * apply rplaced_range in Hin; [subst a; lia|done].
      * apply rplaced_range in Hin; [lia|done].
    + rewrite lookup_delete_ne by done. rewrite Hfs by lia. naive_solver.
  - eapply lists_insert_hdr; [done|]. left. apply lookup_delete_eq.
Qed.

(** A larger region: its front is taken and the rest stays free. *)
Lemma allocMore_spec B fs ls h base l1 sz l2 size : HInv B fs ls h ->
  B !! base = Some (l1 ++ (sz, false) :: l2) -> 32 <= size < sz -> size mod 32 = 0 ->
  exists h' fs' ls', allocMore (base + lsize l1) size h = Ok (base + lsize l1 + MemRegionAlign, h') /\
    HInv (<[base := l1 ++ (size, true) :: (sz - size, false) :: l2]> B) fs' ls' h' /\ m_vmm h' = m_vmm h.
Proof.
  intros HI Hb Hsize Hmod.
  destruct (HInv_around _ _ _ _ _ _ _ _ _ HI Hb) as [(Hok1 & (Ho1 & Ho2 & Ho3) & Hok2) Hpos [Hc1 Hc2] Hb1 Hb2 Hfs].
  cbn in Ho1, Ho2, Ho3. specialize (Ho3 eq_refl). set (a := base + lsize l1) in *.
  pose proof (lsize_nonneg l1 Hok1) as Hn1. pose proof (lsize_nonneg l2 Hok2) as Hn2.
  assert (Hrest : 32 <= sz - size /\ (sz - size) mod 32 = 0) by (Z.div_mod_to_equations; lia).
  assert (Ha : fs !! a = Some sz) by (apply Hfs; [lia|]; right; left; done).
  destruct (deleteMemRegion_spec fs ls h a sz (h_lists _ _ _ _ HI) Ha) as (m1 & t1 & ls1 & Ed & HL1 & HF1); [lia|].
  apply chain_cons in Hc2 as [Hat Hc2].
  assert (Hd1 : forall q s, (q, s, true) ∈ placed base l1 -> delete a fs !! q = None).
  { intros q s Hin. apply lookup_delete_None. right. by eapply Hb1. }
  assert (Hd2 : forall q s, (q, s, true) ∈ placed (a + sz) l2 -> delete a fs !! q = None).
  { intros q s Hin. apply lookup_delete_None. right. by eapply Hb2. }
  assert (Hf0 : fs !! (a + size) = None).
  { destruct (fs !! (a + size)) eqn:E; [|done]. apply Hfs in E; [|subst a; lia].
    destruct E as [Hin|[(? & _)|Hin]]; [|lia|]; apply rplaced_range in Hin; (done || subst a; lia). }
  (* the headers *)
  pose proof Hat as (hd & Hhd & En & Ep & _). unfold allocMore. rewrite (deref_Some _ _ _ Hhd). ostep.
  rewrite (hdrSize_eq a sz) by (done || lia). rewrite bsr_pos by lia. ostep. rewrite Ed. ostep.
  eapply hdrAt_frameF in Hat; [|exact HF1]. eapply chain_frameF in Hc2; [|exact HF1|exact Hd2].
  unfold initHdr. destruct (Z.eqb_spec (a + size) nullptr); [unfold nullptr in *; subst a; lia|]. ostep.
  unfold setHdrs; cbn [hdrs m_freeListTable m_virtualMemorySize m_vmm].
  set (o := default _ _). set (m2 := <[a + size := _]> m1).
  assert (Hat2 : hdrAt m2 a sz (lastAddr nullptr base l1) false) by (apply hdrAt_insert_ne; [lia|done]).
  assert (Hc2' : chain m2 a (a + sz) l2) by (apply chain_insert_ne; [done|lia|done]).
  destruct Hat2 as (hd2 & Hhd2 & En2 & Ep2 & _). unfold setAddrNext. cbn [hdrs].
    rewrite (deref_Some _ _ _ Hhd2). ostep. unfold setHdrs; cbn [hdrs m_freeListTable m_virtualMemorySize m_vmm].
  set (m3 := <[a := _]> m2).
  assert (Hc3 : chain m3 a (a + sz) l2) by (apply chain_insert_ne; [done|lia|done]).
  destruct (chain_head _ _ _ _ Hc3) as (hd3 & Hhd3 & _). unfold setAddrPrev. cbn [hdrs]. rewrite En.
  rewrite (deref_Some _ _ _ Hhd3). ostep. unfold setHdrs; cbn [hdrs m_freeListTable m_virtualMemorySize m_vmm].
  pose proof (chain_setPrev _ _ (a + size) _ _ _ Hc3 Hok2 Hhd3) as Hc4. set (m4 := <[a + sz := _]> m3) in *.
  assert (HL4 : Lists HeapLogTableSize (delete a fs) ls1 m4 t1).
  { eapply lists_insert_hdr; [|right; by exists hd3]. eapply lists_insert_hdr; [|right; by exists hd2].
    eapply lists_insert_hdr; [done|]. left. rewrite lookup_delete_ne by lia. done. }
  assert (Hf4 : hdrAt m4 (a + size) (sz - size) a false).
  { do 2 (apply hdrAt_insert_ne; [lia|]). apply hdrAt_insert; cbn; (done || lia). }
  assert (Ha4 : m4 !! a = Some (mkHdr (m_szNext hd2) (m_szPrev hd2) (a + size) (m_addrPrev hd2))).
  { unfold m4, m3. rewrite lookup_insert_ne by lia. apply lookup_insert_eq. }
  set (h4 := mkHeap m4 t1 (m_virtualMemorySize h) (m_vmm h)).
  destruct (addMemRegion_spec (delete a fs) ls1 h4 (a + size) (sz - size) a false)
    as (m5 & t5 & ls5 & -> & HL5 & HF5); [done | rewrite lookup_delete_ne by lia; done | done | done | lia |].
  ostep. cbn [m_virtualMemorySize m_vmm h4 hdrs] in *.
  set (fs' := <[a + size := sz - size]> (delete a fs)) in *.
  assert (Hfa : fs' !! a = None) by (unfold fs'; rewrite lookup_insert_ne by lia; apply lookup_delete_eq).
  assert (Ha5 : m5 !! a = Some (mkHdr (m_szNext hd2) (m_szPrev hd2) (a + size) (m_addrPrev hd2)))
    by (destruct HF5 as [HF5 _]; by rewrite HF5).
  erewrite setBusy_spec by exact Ha5. ostep. unfold setHdrs; cbn [hdrs m_freeListTable m_virtualMemorySize m_vmm m_szPrev m_addrNext m_addrPrev].
  assert (Hd1' : forall q s, (q, s, true) ∈ placed base l1 -> fs' !! q = None).
  { intros q s Hin. unfold fs'. rewrite lookup_insert_ne; [by eapply Hd1|].
    apply rplaced_range in Hin; [subst a; lia | done]. }
  assert (Hd2' : forall q s, (q, s, true) ∈ placed (a + sz) l2 -> fs' !! q = None).
  { intros q s Hin. unfold fs'. rewrite lookup_insert_ne; [by eapply Hd2|].
    apply rplaced_range in Hin; [lia | done]. }
  eexists _, fs', ls5. split; [done|]. split; [|done].
  eapply rebuild; try done; cbn [hdrs m_freeListTable m_vmm].
  - rewrite !lsize_app, !lsize_cons. lia.
  - apply Forall_app. split; [done|]. constructor; [|constructor; [|done]]; split_and!; cbn; (done || lia).
  - destruct (h_reg _ _ _ _ HI _ _ Hb) as (_ & Hco & _). rewrite coalesced_app in *. cbn [coalesced] in *.
    rewrite orb_true_r. naive_solver.
  - exists size. apply elem_of_app. right. by left.
  - by eapply HInv_small.
  - rewrite lsize_app, lsize_cons.
    eapply outside_trans; [|apply outside_insert; subst a; lia].
    eapply outside_trans; [|eapply outside_frameF; [exact HF5|]].
    + eapply outside_trans; [|apply outside_insert; subst a; lia].
      eapply outside_trans; [|apply outside_insert; subst a; lia].
      eapply outside_trans; [|apply outside_insert; subst a; lia].
      eapply outside_frameF; [exact HF1|]. intros q Hq. apply lookup_delete_ne. subst a. lia.
    + intros q Hq. unfold fs'. rewrite lookup_insert_ne, lookup_delete_ne; (done || subst a; lia).
  - apply chain_app. fold a. split.
    + apply regs_insert_ne; [done | subst a; lia|]. eapply regs_frameF; [exact HF5 | done |].
      do 3 (apply regs_insert_ne; [done | subst a; lia|]). by eapply regs_frameF.
    + apply chain_cons. split; [by apply hdrAt_insert|]. apply chain_cons. split.
      * apply hdrAt_insert_ne; [lia|]. by eapply hdrAt_frameF.
      * replace (a + size + (sz - size)) with (a + sz) by lia.
        apply chain_insert_ne; [done | lia |]. by eapply chain_frameF.
  - intros q Hq. rewrite lsize_app, lsize_cons in Hq. unfold fs'.
    rewrite lookup_insert_ne, lookup_delete_ne; (done || subst a; lia).
  - intros q s Hq. rewrite lsize_app, lsize_cons in Hq. rewrite rplaced_app, elem_of_app. cbn [placed]. fold a.
    rewrite !elem_of_cons. replace (a + size + (sz - size)) with (a + sz) by lia.
    unfold fs'. destruct (decide (q = a + size)) as [->|Hqf]; [|destruct (decide (q = a)) as [->|Hqa]].
    + rewrite lookup_insert_eq. split; [intros [= <-]; auto|]. intros [Hin|[[=]|[[= ->]|Hin]]]; try lia; [|done|].
      * apply rplaced_range in Hin; [subst a; lia|done].
      * apply rplaced_range in Hin; [lia|done].
    + rewrite lookup_insert_ne, lookup_delete_eq by lia. split; [done|]. intros [Hin|[[=]|[[=]|Hin]]]; try lia.
      * apply rplaced_range in Hin; [subst a; lia|done].
      * apply rplaced_range in Hin; [lia|done].
    + rewrite lookup_insert_ne, lookup_delete_ne by lia. rewrite Hfs by lia. naive_solver.
  - eapply lists_insert_hdr; [done|]. by left.
Qed.

(** ** Searching *)

Lemma scanFit_spec B fs ls h size k : HInv B fs ls h ->
  forall n cur minRegion minDelta prev suf,
  seg (hdrs h) prev cur suf -> (forall q, q ∈ suf -> q ∈ ls k) ->
  minRegion = nullptr \/ (exists s, fs !! minRegion = Some s /\ size < s) -> 0 < minDelta ->
  exists r, scanFit (hdrs h) n size cur minRegion minDelta = Ok r /\
    match r with
    | inl region => fs !! region = Some size
    | inr region => region = nullptr \/ exists s, fs !! region = Some s /\ size < s
    end.
Proof.
  intros HI. induction n as [|n IH]; intros cur minR minD prev suf Hseg Hsub Hmin HminD; cbn [scanFit].
  { by eexists. }
  destruct (Z.eqb_spec cur nullptr); [by eexists|].
  destruct (seg_head _ _ _ _ Hseg) as [suf' ->]; [done|].
  destruct Hseg as (_ & _ & hd & Hhd & _ & Hseg).
  assert (Hcur : cur ∈ ls k) by (apply Hsub; by left).
  apply (t_mem _ _ _ _ _ (h_lists _ _ _ _ HI)) in Hcur as (s & Hs & _).
  destruct (HInv_free _ _ _ _ _ _ HI Hs) as (_ & _ & _ & ? & ? & Hsr & _).
  assert (En : m_addrNext hd = cur + s).
  { apply (h_fs _ _ _ _ HI) in Hs as (base & l & Hb & (l1 & l2 & -> & ->)%placed_elem).
    destruct (HInv_around _ _ _ _ _ _ _ _ _ HI Hb) as [_ _ [_ [(hd0 & Hd & E & _) _]%chain_cons] _ _ _].
    congruence. }
  rewrite (deref_Some _ _ _ Hhd). ostep. rewrite (hdrSize_eq cur s) by (done || lia).
  assert (Hsub' : forall q, q ∈ suf' -> q ∈ ls k) by (intros q ?; apply Hsub; by right).
  destruct (Z.leb_spec size s); [|by eapply IH].
  destruct (Z.ltb_spec (s - size) minD); [|by eapply IH].
  destruct (Z.eqb_spec (s - size) 0).
  - eexists. split; [done|]. cbn. rewrite Hs. f_equal. lia.
  - eapply IH; try done; [|lia]. right. exists s. split; [done|lia].
Qed.

Lemma scanLarger_spec B fs ls h : HInv B fs ls h -> forall n idx, (idx + n <= HeapLogTableSize)%nat ->
  exists region, scanLarger (m_freeListTable h) n idx = Ok region /\
    (region = nullptr \/ exists s, fs !! region = Some s /\ (idx <= bucket s)%nat).
Proof.
  intros HI. pose proof (h_lists _ _ _ _ HI) as [Hlen Hseg _ Hmem].
  induction n as [|n IH]; intros idx Hi; cbn [scanLarger]; [eexists; split; [done|by left]|].
  destruct (lookup_lt_is_Some_2 (m_freeListTable h) idx) as [r Hr]; [lia|].
  rewrite (arr_get_Some _ _ _ Hr). ostep. destruct (Z.eqb_spec r nullptr); cbn [negb].
  - destruct (IH (S idx)) as (region & -> & Hres); [lia|]. eexists. split; [done|].
    destruct Hres as [->|(s & ? & ?)]; [by left|]. right. exists s. split; [done|lia].
  - eexists. split; [done|]. right. destruct (seg_head _ _ _ _ (Hseg _ _ Hr)) as [l' El]; [done|].
    assert (Hin : r ∈ ls idx) by (rewrite El; by left). apply Hmem in Hin as (s & Hs & <-).
    exists s. split; [done|lia].
Qed.

(** ** New blocks *)

Lemma allocNew_spec B fs ls h size : HInv B fs ls h -> 64 <= size < HEAP_MEM_REGION_LIMIT -> size mod 32 = 0 ->
  exists p h', allocNew size h = Ok (p, h') /\
    ((p = nullptr /\ (vm_alloc (m_vmm h) HEAP_ALLOC_UNIT_SIZE).1 = nullptr /\ HInv B fs ls h') \/
     exists base fs' ls', p = base + MemRegionAlign /\ B !! base = None /\
       HInv (<[base := [(size, true); (HEAP_ALLOC_UNIT_SIZE - 32 - size, false)]]> B) fs' ls' h').
Proof.
  intros HI Hsize Hmod. unfold allocNew.
  destruct (vm_alloc (m_vmm h) HEAP_ALLOC_UNIT_SIZE) as [base v] eqn:Ev.
  destruct (Z.eqb_spec base nullptr) as [->|Hb0].
  { eexists _, _. split; [done|]. left. split_and!; [done..|].
    pose proof (vm_alloc_fail (m_vmm h) HEAP_ALLOC_UNIT_SIZE) as Hf. rewrite Ev in Hf. specialize (Hf eq_refl).
    destruct HI as [I1 I2 I3 I4 I5 I6]. split; try done. cbn in *. rewrite Hf. done. }
  destruct (vm_alloc_new _ _ _ _ Ev Hb0) as (Hpos & Hal & Hlim & Hvb & Hnew); [done..|].
  unfold HEAP_ALLOC_UNIT_SIZE, HEAP_MEM_REGION_LIMIT, MemRegionAlign in *.
  set (l := [(size, true); (0x101000 - 32 - size, false)]).
  assert (Hls : lsize l = 0x100FE0) by (cbn; lia).
  assert (Hout0 : forall q, base <= q <= base + lsize l -> fs !! q = None).
  { intros q Hq. destruct (fs !! q) eqn:E; [|done]. apply (h_fs _ _ _ _ HI) in E as (b & k & Hk & Hin).
    pose proof (HInv_place _ _ _ _ _ _ _ _ _ HI Hk Hin). destruct (h_blk _ _ _ _ HI _ _ Hk) as (_ & _ & m & Hm & ? & _).
    destruct (Hnew _ _ Hm); lia. }
  unfold initHdr, initNull. cbn [hdrs setVms setVmm setHdrs].
  destruct (Z.eqb_spec base nullptr); [done|]. ostep.
  destruct (Z.eqb_spec (base + size) nullptr); [unfold nullptr in *; lia|]. ostep.
  destruct (Z.eqb_spec (base + 0x101000 - 32) nullptr); [unfold nullptr in *; lia|]. ostep.
  unfold setVms, setVmm, setHdrs. cbn [hdrs m_freeListTable m_virtualMemorySize m_vmm].
  set (m1 := <[base := _]> (hdrs h)). set (m2 := <[base + size := _]> m1). set (m3 := <[base + 0x101000 - 32 := _]> m2).
  replace (base + 0x101000 - 32 - (base + size)) with (0x101000 - 32 - size) by lia.
  rewrite (u64_small (0x101000 - 32 - size)) by lia. rewrite bsr_pos by lia. ostep.
  assert (HL3 : Lists HeapLogTableSize fs ls m3 (m_freeListTable h)).
  { do 3 (eapply lists_insert_hdr; [|left; apply Hout0; lia]). apply (h_lists _ _ _ _ HI). }
  assert (Hf3 : hdrAt m3 (base + size) (0x101000 - 32 - size) base false).
  { apply hdrAt_insert_ne; [lia|]. apply hdrAt_insert; cbn; (done || lia). }
  pose proof Hf3 as (hdf & Hhdf & _).
  destruct (insertRegion_spec fs ls (mkHeap m3 (m_freeListTable h) (u64 (m_virtualMemorySize h + 0x101000)) v)
    (base + size) (0x101000 - 32 - size) hdf) as (m4 & t4 & ls4 & -> & HL4 & HF4);
    [done | apply Hout0; lia | done | done | lia |]. ostep.
  set (fs' := <[base + size := _]> fs) in *. cbn [hdrs m_virtualMemorySize m_vmm] in *.
  assert (Hfb : fs' !! base = None) by (unfold fs'; rewrite lookup_insert_ne by lia; apply Hout0; lia).
  assert (Hb4 : exists hd, m4 !! base = Some hd /\ m_addrNext hd = base + size /\ m_addrPrev hd = nullptr).
  { destruct HF4 as [HF4 _]. rewrite HF4 by done. unfold m3, m2, m1. rewrite !lookup_insert_ne by lia.
    rewrite lookup_insert_eq. by eexists. }
  destruct Hb4 as (hdb & Hhdb & Enb & Epb). erewrite setBusy_spec by exact Hhdb. ostep.
  unfold setHdrs. cbn [hdrs m_freeListTable m_virtualMemorySize m_vmm]. eexists _, _. split; [done|]. right.
  exists base, fs', ls4. split; [done|].
  eapply (add_block B fs ls h base l 0x101000); try done; cbn [hdrs m_freeListTable m_vmm].
  - lia.
  - repeat constructor; cbn; try done; try lia.
  - exists size. by left.
  - left. lia.
  - eapply outside_trans; [|apply outside_insert; lia]. eapply outside_trans; [|eapply outside_frameF; [exact HF4|]].
    + eapply outside_trans; [|apply outside_insert; lia]. eapply outside_trans; [|apply outside_insert; lia].
      apply outside_insert. lia.
    + intros q Hq. apply lookup_insert_ne. lia.
  - apply chain_cons. split; [by apply hdrAt_insert|]. apply chain_cons. split.
    + apply hdrAt_insert_ne; [lia|]. by eapply hdrAt_frameF.
    + split; [done|]. cbn [lsize foldr]. eapply sentinel_same; [|eapply sentinel_same; [apply HF4|]].
      * rewrite lookup_insert_ne by lia. done.
      * unfold m3. replace (base + size + (0x101000 - 32 - size) + 0) with (base + 0x101000 - 32) by lia.
        eexists. by rewrite lookup_insert_eq.
  - intros q Hq. apply lookup_insert_ne. lia.
  - intros q s Hq. cbn [placed l]. rewrite !elem_of_cons, elem_of_nil. unfold fs'.
    destruct (decide (q = base + size)) as [->|].
    + rewrite lookup_insert_eq. split; [intros [= <-]; auto|]. intros [[=]|[[= ->]|[]]]; try lia. done.
    + rewrite lookup_insert_ne, Hout0 by lia. split; [done|]. intros [[=]|[[=]|[]]]; done.
  - eapply lists_insert_hdr; [done|]. by left.
Qed.

Lemma land_lnot_ones x k : 0 <= k -> Z.land x (Z.lnot (Z.ones k)) = x / 2 ^ k * 2 ^ k.
Proof.
  intros Hk. rewrite <- Z.ldiff_land, Z.ldiff_ones_r, Z.shiftl_mul_pow2, Z.shiftr_div_pow2 by lia. done.
Qed.
Lemma roundSize_spec size : 0 < size < 2 ^ 64 - 8192 ->
  size + 32 <= roundSize size < size + 64 /\ 64 <= roundSize size /\ roundSize size mod 32 = 0.
Proof.
  intros Hs. unfold roundSize, MemRegionAlign. rewrite u64_small by lia.
  change (32 - 1) with (Z.ones 5). rewrite land_lnot_ones by lia. change (2 ^ 5) with 32.
  replace (size + 32 * 2 - 1) with (size + 63) by lia.
  Z.div_mod_to_equations. lia.
Qed.
Lemma alignHi_spec x : 0 <= x < 2 ^ 64 - 4096 -> x <= alignHi x < x + 4096 /\ alignHi x mod 4096 = 0.
Proof.
  intros Hx. unfold alignHi. change PAGE_MASK with (Z.ones 12). rewrite u64_small by (change (Z.ones 12) with 4095; lia).
  rewrite land_lnot_ones by lia. change (2 ^ 12) with 4096.
  change (Z.ones 12) with 4095. Z.div_mod_to_equations. lia.
Qed.
Lemma alignLo_spec x : 0 <= x -> x - 4096 < alignLo x <= x /\ alignLo x mod 4096 = 0.
Proof.
  intros Hx. unfold alignLo. change PAGE_MASK with (Z.ones 12).
  rewrite land_lnot_ones by lia. change (2 ^ 12) with 4096. Z.div_mod_to_equations. lia.
Qed.

Lemma allocHuge_spec B fs ls h size : HInv B fs ls h ->
  HEAP_MEM_REGION_LIMIT <= size < 2 ^ 64 - 8128 -> size mod 32 = 0 ->
  (allocHuge size h = Fault /\ (vm_alloc (m_vmm h) (alignHi (size + MemRegionAlign))).1 = nullptr) \/
  exists base h' fs' ls', allocHuge size h = Ok (base + MemRegionAlign, h') /\ B !! base = None /\
    HInv (<[base := [(size, true)]]> B) fs' ls' h'.
Proof.
  intros HI Hsize Hmod. unfold allocHuge. unfold HEAP_MEM_REGION_LIMIT, MemRegionAlign in *.
  rewrite (u64_small (size + 32)) by lia. destruct (alignHi_spec (size + 32)) as [Hn Hn'] ; [lia|].
  set (n := alignHi (size + 32)) in *. destruct (vm_alloc (m_vmm h) n) as [base v] eqn:Ev.
  destruct (Z.eq_dec base nullptr) as [->|Hb0].
  { left. unfold initHdr. cbn [Z.eqb nullptr]. done. }
  right. destruct (vm_alloc_new _ _ _ _ Ev Hb0) as (Hpos & Hal & Hlim & Hvb & Hnew); [lia | done |].
  set (l := [(size, true)]). assert (Hls : lsize l = size) by (cbn; lia).
  assert (Hout0 : forall q, base <= q <= base + size -> fs !! q = None).
  { intros q Hq. destruct (fs !! q) eqn:E; [|done]. apply (h_fs _ _ _ _ HI) in E as (b & k & Hk & Hin).
    pose proof (HInv_place _ _ _ _ _ _ _ _ _ HI Hk Hin). destruct (h_blk _ _ _ _ HI _ _ Hk) as (_ & _ & m & Hm & ? & _).
    destruct (Hnew _ _ Hm); lia. }
  unfold initHdr, initNull. cbn [hdrs setVms setVmm setHdrs].
  destruct (Z.eqb_spec base nullptr); [done|]. ostep.
  destruct (Z.eqb_spec (base + size) nullptr); [unfold nullptr in *; lia|]. ostep.
  unfold setVms, setVmm, setHdrs. cbn [hdrs m_freeListTable m_virtualMemorySize m_vmm].
  set (m1 := <[base := _]> (hdrs h)). set (m2 := <[base + size := _]> m1).
  assert (Hb2 : exists hd, m2 !! base = Some hd /\ m_addrNext hd = base + size /\ m_addrPrev hd = nullptr).
  { unfold m2, m1. rewrite lookup_insert_ne by lia. rewrite lookup_insert_eq. by eexists. }
  destruct Hb2 as (hdb & Hhdb & Enb & Epb). erewrite setBusy_spec by exact Hhdb. ostep.
  unfold setHdrs. cbn [hdrs m_freeListTable m_virtualMemorySize m_vmm]. eexists base, _, fs, ls. split; [done|].
  eapply (add_block B fs ls h base l n); try done; cbn [hdrs m_freeListTable m_vmm]; rewrite ?Hls.
  - lia.
  - repeat constructor; cbn; (done || lia).
  - exists size. by left.
  - right. by exists size.
  - do 2 (eapply outside_trans; [|apply outside_insert; lia]). apply outside_insert. lia.
  - apply chain_cons. split; [by apply hdrAt_insert|]. split; [done|]. cbn [lsize foldr].
    rewrite Z.add_0_r. eexists. unfold m2. rewrite lookup_insert_ne by lia. by rewrite lookup_insert_eq.
  - intros q s Hq. rewrite Hout0 by done. cbn [placed l]. rewrite elem_of_cons, elem_of_nil.
    split; [done|]. intros [[=]|[]].
  - do 3 (eapply lists_insert_hdr; [|left; apply Hout0; lia]). apply (h_lists _ _ _ _ HI).
Qed.

(** ** Busy regions *)

Lemma busyAt_insert B base l x s : busyAt (<[base := l]> B) x s <->
  (x, s, true) ∈ placed base l \/ exists b k, b <> base /\ B !! b = Some k /\ (x, s, true) ∈ placed b k.
Proof.
  unfold busyAt. split.
  - intros (b & k & Hk & Hin). rewrite lookup_insert_Some in Hk. destruct Hk as [[<- <-]|[? Hk]]; [by left|].
    right. by exists b, k.
  - intros [Hin|(b & k & Hne & Hk & Hin)].
    + exists base, l. by rewrite lookup_insert_eq.
    + exists b, k. by rewrite lookup_insert_ne.
Qed.
Lemma busyAt_split B base l x s : B !! base = Some l -> busyAt B x s <->
  (x, s, true) ∈ placed base l \/ exists b k, b <> base /\ B !! b = Some k /\ (x, s, true) ∈ placed b k.
Proof. intros Hb. rewrite <- busyAt_insert. by rewrite insert_id. Qed.
Lemma busyAt_new B base l x s : B !! base = None -> busyAt (<[base := l]> B) x s <->
  (x, s, true) ∈ placed base l \/ busyAt B x s.
Proof.
  intros Hb. rewrite busyAt_insert. unfold busyAt. split; (intros [?|(b & k & Hk)]; [by left|]; right).
  - naive_solver.
  - exists b, k. split; [|done]. intros ->. naive_solver.
Qed.

Lemma busy_disjoint B fs ls h x s y t : HInv B fs ls h -> busyAt B x s -> busyAt B y t -> x <> y ->
  x + s <= y \/ y + t <= x.
Proof.
  intros HI (b & l & Hb & Hin) (b' & l' & Hb' & Hin') Hne.
  pose proof (HInv_place _ _ _ _ _ _ _ _ _ HI Hb Hin). pose proof (HInv_place _ _ _ _ _ _ _ _ _ HI Hb' Hin').
  destruct (decide (b = b')) as [<-|Hbb]; [|destruct (h_dis _ _ _ _ HI _ _ _ _ Hb Hb' Hbb); lia].
  assert (l' = l) as -> by congruence. destruct (h_reg _ _ _ _ HI _ _ Hb) as [Hok _].
  apply placed_elem in Hin as (l1 & l2 & -> & ->). rewrite rplaced_app in Hin'. cbn [placed] in Hin'.
  apply Forall_app in Hok as [Hok1 Hok2]. apply Forall_cons in Hok2 as [_ Hok2].
  apply elem_of_app in Hin' as [Hin'|[[= -> ->]|Hin']%elem_of_cons]; [|done|];
    apply rplaced_range in Hin'; (done || lia).
Qed.

(** What an allocation of [n] bytes, header included, at [a] does to the busy regions. *)
Definition grants B B' (a n : Z) : Prop :=
  (forall x s, busyAt B' x s <-> busyAt B x s \/ (x = a /\ s = n)) /\
  (forall x s, busyAt B x s -> x + s <= a \/ a + n <= x).

Lemma grants_intro B fs ls h B' fs' ls' h' a n : HInv B fs ls h -> HInv B' fs' ls' h' ->
  (forall x s, busyAt B' x s <-> busyAt B x s \/ (x = a /\ s = n)) ->
  (forall s, ~ busyAt B a s) -> grants B B' a n.
Proof.
  intros HI HI' Hiff Hno. split; [done|]. intros x s Hx.
  eapply (busy_disjoint B'); [done | apply Hiff; by left | apply Hiff; by right |].
  intros ->. by eapply Hno.
Qed.

(** The same for a region that was free. *)
Lemma grants_region B fs ls h base l1 sz l2 n r l' fs' ls' h' : HInv B fs ls h ->
  B !! base = Some (l1 ++ (sz, false) :: l2) -> l' = l1 ++ (n, true) :: r ++ l2 ->
  HInv (<[base := l']> B) fs' ls' h' -> n + lsize r = sz -> Forall (fun x => x.2 = false) r ->
  grants B (<[base := l']> B) (base + lsize l1) n.
Proof.
  intros HI Hb -> HI' Hn Hr. eapply grants_intro; [done | done | |].
  - intros x s. rewrite busyAt_insert, (busyAt_split B _ _ _ _ Hb). rewrite !rplaced_app. cbn [placed].
    rewrite rplaced_app, !elem_of_app, !elem_of_cons, elem_of_app.
    replace (base + lsize l1 + n + lsize r) with (base + lsize l1 + sz) by lia.
    assert (Hnr : (x, s, true) ∈ placed (base + lsize l1 + n) r -> False).
    { intros (r1 & r2 & -> & _)%placed_elem. apply Forall_app in Hr as [_ Hr].
      by apply Forall_cons in Hr as [? _]. }
    naive_solver.
  - intros s (b & k & Hk & Hin). assert (Ha : fs !! (base + lsize l1) = Some sz).
    { apply (h_fs _ _ _ _ HI). exists base, (l1 ++ (sz, false) :: l2). split; [done|].
      apply placed_elem. by exists l1, l2. }
    pose proof (HInv_busy_fs _ _ _ _ _ _ _ _ HI Hk Hin). congruence.
Qed.

Lemma grants_block B fs ls h base n r fs' ls' h' : HInv B fs ls h -> B !! base = None ->
  HInv (<[base := (n, true) :: r]> B) fs' ls' h' -> Forall (fun x => x.2 = false) r ->
  grants B (<[base := (n, true) :: r]> B) base n.
Proof.
  intros HI Hb HI' Hr. eapply grants_intro; [done | done | |].
  - intros x s. rewrite (busyAt_new B base) by done. cbn [placed]. rewrite elem_of_cons.
    assert (Hnr : (x, s, true) ∈ placed (base + n) r -> False).
    { intros (r1 & r2 & -> & _)%placed_elem. apply Forall_app in Hr as [_ Hr].
      by apply Forall_cons in Hr as [? _]. }
    naive_solver.
  - intros s (b & k & Hk & Hin).
    pose proof (HInv_place _ _ _ _ _ _ _ _ _ HI Hk Hin) as Hp.
    assert (Hne : b <> base) by congruence.
    assert (Hk' : <[base := (n, true) :: r]> B !! b = Some k) by by rewrite lookup_insert_ne.
    assert (Hb' : <[base := (n, true) :: r]> B !! base = Some ((n, true) :: r)) by apply lookup_insert_eq.
    destruct (h_dis _ _ _ _ HI' _ _ _ _ Hk' Hb' Hne); [lia|].
    pose proof (lsize_nonneg _ (proj1 (h_reg _ _ _ _ HI' _ _ Hb'))). lia.
Qed.

(** ** Allocation *)

(** Where a free region is. *)
Lemma HInv_find B fs ls h a sz : HInv B fs ls h -> fs !! a = Some sz ->
  exists base l1 l2, B !! base = Some (l1 ++ (sz, false) :: l2) /\ a = base + lsize l1 /\ a mod 32 = 0.
Proof.
  intros HI (base & l & Hb & (l1 & l2 & -> & ->)%placed_elem)%(h_fs _ _ _ _ HI).
  exists base, l1, l2. split_and!; [done..|].
  destruct (HInv_around _ _ _ _ _ _ _ _ _ HI Hb) as [(Hok1 & _) (_ & Hal & _) _ _ _ _].
  rewrite Z.add_mod, Hal, (lsize_mod l1 Hok1) by lia. done.
Qed.

(** A request that succeeds: the pointer is aligned, its region is large enough and
    apart from every other, and the invariant holds again. *)
Definition granted B (size p : Z) h' : Prop :=
  exists B' fs' ls' n, HInv B' fs' ls' h' /\ p mod 32 = 0 /\ p <> nullptr /\ size + 32 <= n /\
    grants B B' (p - 32) n.

Lemma granted_more B fs ls h size rs a s : HInv B fs ls h -> size + 32 <= rs -> 64 <= rs -> rs mod 32 = 0 ->
  fs !! a = Some s -> rs < s -> exists p h', allocMore a rs h = Ok (p, h') /\ granted B size p h'.
Proof.
  intros HI Hsz H64 Hmod Ha Hlt. destruct (HInv_find _ _ _ _ _ _ HI Ha) as (base & l1 & l2 & Hb & -> & Hal).
  destruct (HInv_free _ _ _ _ _ _ HI Ha) as (_ & _ & _ & Hpos & _).
  destruct (allocMore_spec _ _ _ _ _ _ _ _ rs HI Hb) as (h' & fs' & ls' & E & HI' & _); [lia | done |].
  eexists _, h'. split; [exact E|]. eexists _, fs', ls', rs. split; [exact HI'|]. unfold MemRegionAlign, nullptr.
  split_and!; [rewrite Z.add_mod, Hal by lia; done | lia | lia |].
  replace (base + lsize l1 + 32 - 32) with (base + lsize l1) by lia.
  eapply (grants_region _ _ _ _ _ _ _ _ rs [(s - rs, false)]); try done; [|by constructor].
  cbn. lia.
Qed.

Lemma granted_block B fs ls h base n r fs' ls' h' size : HInv B fs ls h -> B !! base = None ->
  HInv (<[base := (n, true) :: r]> B) fs' ls' h' -> Forall (fun x => x.2 = false) r ->
  size + 32 <= n -> granted B size (base + MemRegionAlign) h'.
Proof.
  intros HI Hb HI' Hr Hn. eexists _, fs', ls', n. split; [exact HI'|].
  destruct (h_blk _ _ _ _ HI' base _ (lookup_insert_eq _ _ _)) as (Hpos & Hal & _).
  unfold MemRegionAlign, nullptr, PAGE_SIZE in *. split_and!; [Z.div_mod_to_equations; lia | lia | lia |].
  replace (base + 32 - 32) with base by lia. by eapply grants_block.
Qed.

Lemma heap_alloc_spec B fs ls h size : HInv B fs ls h -> 0 < size < 2 ^ 64 - 8192 ->
  (HEAP_MEM_REGION_LIMIT <= roundSize size /\ alloc size h = Fault /\
     (vm_alloc (m_vmm h) (alignHi (roundSize size + MemRegionAlign))).1 = nullptr) \/
  (exists h', alloc size h = Ok (nullptr, h') /\ HInv B fs ls h' /\
     (vm_alloc (m_vmm h) HEAP_ALLOC_UNIT_SIZE).1 = nullptr) \/
  (exists p h', alloc size h = Ok (p, h') /\ granted B size p h').
Proof.
  intros HI Hsize. destruct (roundSize_spec size Hsize) as (Hr1 & Hr2 & Hr3).
  unfold alloc. generalize g_heapMaxIterations as nIter. intros nIter.
  destruct (Z.eqb_spec size 0); [lia|]. set (rs := roundSize size) in *. cbv zeta. clearbody rs.
  destruct (Z.leb_spec HEAP_MEM_REGION_LIMIT rs) as [Hhuge|Hsmall].
  { destruct (allocHuge_spec B fs ls h rs HI) as [[E Hn]|(base & h' & fs' & ls' & E & Hb & HI')]; [lia | done | |].
    - left. by rewrite E.
    - right; right. eexists _, h'. split; [exact E|]. eapply granted_block; try done. lia. }
  right. rewrite bsr_pos by lia. ostep. pose proof (h_lists _ _ _ _ HI) as [Hlen Hseg _ _].
  assert (Hk : (bucket rs < HeapLogTableSize)%nat) by (apply bucket_range; unfold HEAP_MEM_REGION_LIMIT in *; lia).
  destruct (lookup_lt_is_Some_2 (m_freeListTable h) (bucket rs)) as [hd Hhd]; [lia|].
  rewrite (arr_get_Some _ _ _ Hhd). ostep.
  destruct (scanFit_spec _ _ _ _ rs (bucket rs) HI nIter hd nullptr size_max None (ls (bucket rs)))
    as (r & -> & Hr); [by apply Hseg | done | by left | done |]. ostep.
  destruct r as [a|a].
  - right. destruct (HInv_find _ _ _ _ _ _ HI Hr) as (base & l1 & l2 & Hb & -> & Hal).
    destruct (HInv_free _ _ _ _ _ _ HI Hr) as (_ & _ & _ & Hpos & _).
    destruct (allocEqual_spec _ _ _ _ _ _ _ _ HI Hb) as (h' & fs' & ls' & E & HI' & _).
    eexists _, h'. split; [exact E|]. eexists _, fs', ls', rs. split; [exact HI'|].
    unfold MemRegionAlign, nullptr. split_and!; [rewrite Z.add_mod, Hal by lia; done | lia | lia |].
    replace (base + lsize l1 + 32 - 32) with (base + lsize l1) by lia.
    eapply (grants_region _ _ _ _ _ _ _ _ rs []); try done. cbn. lia.
  - destruct (Z.eqb_spec a nullptr) as [->|Ha0]; cbn [negb].
    2: { right. destruct Hr as [->|(s & Hs & Hlt)]; [done|]. eapply granted_more; try done; lia. }
    destruct (scanLarger_spec _ _ _ _ HI (HeapLogTableSize - S (bucket rs)) (S (bucket rs)))
      as (a & -> & Ha); [lia|]. ostep.
    destruct (Z.eqb_spec a nullptr) as [->|Ha0]; cbn [negb].
    + destruct (allocNew_spec _ _ _ _ rs HI) as (p & h' & E & [(-> & Hf & HI')|(base & fs' & ls' & -> & Hb & HI')]);
        [lia | done | left; by exists h' | right].
      eexists _, h'. split; [exact E|]. eapply granted_block; try done; [by constructor | lia].
    + right. destruct Ha as [->|(s & Hs & Hbk)]; [done|]. eapply granted_more; try done; [lia|].
      destruct (HInv_free _ _ _ _ _ _ HI Hs) as (_ & _ & _ & _ & _ & Hsr & _).
      unfold bucket in Hbk. apply (Z.log2_lt_cancel rs s).
      pose proof (Z.log2_nonneg rs). pose proof (Z.log2_nonneg s). lia.
Qed.

End Inv.
