(* ===== verification/HeapFree.v ===== *)
(** * Correctness of the kernel heap: release, and the theorems

    [Heap::free] joins the region with its free neighbours, releases the pages
    that lie wholly inside the new free region, and gives a block without busy
    regions back to the virtual memory manager. *)

From S2P Require Import Prelude FreeList PhMem Paging Heap HeapInv.

Section Free.
Context {V : Type} `{VmmIface V}.
Implicit Types (B : gmap Z (list region)) (fs : gmap Z Z) (h : Heap (V:=V)).

(** Several neighbours [mid] become one free region. *)
Lemma merge_block B fs ls h base l1 mid l2 fs' ls' h' a0 s0 :
  HInv B fs ls h -> B !! base = Some (l1 ++ mid ++ l2) -> a0 = base + lsize l1 -> s0 = lsize mid ->
  32 <= s0 -> coalesced true (l1 ++ (s0, false) :: l2) -> (exists sz, (sz, true) ∈ l1 ++ l2) ->
  lsize (l1 ++ mid ++ l2) < 2 ^ 21 ->
  outside a0 (a0 + s0) fs (hdrs h) (hdrs h') ->
  hdrAt (hdrs h') a0 s0 (lastAddr nullptr base l1) false -> chain (hdrs h') a0 (a0 + s0) l2 ->
  fs' !! a0 = Some s0 -> (forall q, a0 < q < a0 + s0 -> fs' !! q = None) ->
  (forall q, q < a0 \/ a0 + s0 <= q -> fs' !! q = fs !! q) ->
  Lists HeapLogTableSize fs' ls' (hdrs h') (m_freeListTable h') ->
  vm_blocks (m_vmm h') = vm_blocks (m_vmm h) ->
  HInv (<[base := l1 ++ (s0, false) :: l2]> B) fs' ls' h'.
Proof.
  intros HI Hb Ea Es Hs Hco Hbz Hsm Hout Hat Hc2 Hf0 Hfm Hfo HL Hvm.
  destruct (h_reg _ _ _ _ HI _ _ Hb) as (Hok & _). pose proof (h_chain _ _ _ _ HI _ _ Hb) as Hc.
  apply chain_app in Hc as [Hc1 _].
  pose proof Hok as Hok'. apply Forall_app in Hok' as [Hok1 Hok'].
  apply Forall_app in Hok' as [Hokm Hok2].
  pose proof (lsize_nonneg l1 Hok1). pose proof (lsize_nonneg l2 Hok2).
  pose proof (lsize_mod mid Hokm) as Hmod. rewrite !lsize_app, <- Es in *.
  eapply rebuild; try done; rewrite ?lsize_app, ?lsize_cons, <- ?Es.
  - lia.
  - apply Forall_app. split; [done|]. constructor; [|done]. split_and!; cbn; (done || lia).
  - destruct Hbz as [sz Hin]. exists sz. apply elem_of_app in Hin as [?|?]; apply elem_of_app; [by left|].
    right. by right.
  - lia.
  - intros q Hq. apply Hout. lia.
  - apply chain_app. rewrite <- Ea. split; [|by apply chain_cons].
    eapply regs_same; [|exact Hc1]. intros q s b Hin. pose proof (rplaced_range _ _ _ _ _ Hok1 Hin).
    destruct (Hout q) as [K1 K2]; [lia|]. split; [done|]. intros ->. apply K2.
    eapply (HInv_busy_fs _ _ _ _ _ _ q s HI Hb). rewrite rplaced_app. apply elem_of_app. by left.
  - intros q Hq. apply Hfo. lia.
  - intros q s Hq. rewrite rplaced_app. cbn [placed]. rewrite elem_of_app, elem_of_cons, <- Ea.
    assert (Hpl : forall q s, base <= q <= base + (lsize l1 + (s0 + lsize l2)) ->
      fs !! q = Some s <-> (q, s, false) ∈ placed base (l1 ++ mid ++ l2)).
    { intros q' s' Hq'. rewrite (h_fs _ _ _ _ HI). split; [|by eauto].
      intros (b & k & Hk & Hin). pose proof (HInv_place _ _ _ _ _ _ _ _ _ HI Hk Hin).
      assert (base = b) as <- by (eapply (HInv_block _ _ _ _ _ _ _ _ q' HI Hb Hk); rewrite ?lsize_app; lia).
      congruence. }
    rewrite !rplaced_app in Hpl. setoid_rewrite elem_of_app in Hpl. setoid_rewrite elem_of_app in Hpl.
    rewrite <- Ea, <- Es in Hpl.
    assert (R1 : (q, s, false) ∈ placed base l1 -> q < a0).
    { intros Hin%rplaced_range; [lia|done]. }
    assert (Rm : (q, s, false) ∈ placed a0 mid -> a0 <= q < a0 + s0).
    { intros Hin%rplaced_range; [lia|done]. }
    assert (R2 : (q, s, false) ∈ placed (a0 + s0) l2 -> a0 + s0 <= q).
    { intros Hin%rplaced_range; [lia|done]. }
    destruct (decide (q = a0)) as [->|Hq0]; [|destruct (decide (a0 < q < a0 + s0))].
    + rewrite Hf0. split; [intros [= <-]; auto|]. intros [?%R1|[[= ->]|?%R2]]; [lia|done|lia].
    + rewrite Hfm by done. split; [done|]. intros [?%R1|[[=]|?%R2]]; lia.
    + rewrite Hfo by lia. rewrite Hpl by lia. split.
      * intros [?|[?%Rm|?]]; [by left|lia|right; by right].
      * intros [?|[[=]|?]]; [by left|lia|right; by right].
Qed.

(** A region that grows inside its size class stays listed. *)
Lemma lists_resize fs ls m t p s s' : Lists HeapLogTableSize fs ls m t -> fs !! p = Some s ->
  bucket s = bucket s' -> Lists HeapLogTableSize (<[p := s']> fs) ls m t.
Proof.
  intros [K1 K2 K3 K4] Hp Hb. split; try done. intros k q. rewrite K4.
  destruct (decide (q = p)) as [->|]; [|by rewrite lookup_insert_ne].
  rewrite lookup_insert_eq, Hp. split; intros (x & [= <-] & <-); eauto.
Qed.

Lemma updateMemRegion_spec fs ls h p sp s0 q :
  Lists HeapLogTableSize fs ls (hdrs h) (m_freeListTable h) -> fs !! p = Some sp -> p <> nullptr ->
  hdrAt (hdrs h) p s0 q false -> 32 <= sp < 2 ^ 21 -> 32 <= s0 < 2 ^ 21 ->
  exists m' t' ls', updateMemRegion p (bucket sp) h = Ok (mkHeap m' t' (m_virtualMemorySize h) (m_vmm h)) /\
    Lists HeapLogTableSize (<[p := s0]> fs) ls' m' t' /\ frameF (<[p := s0]> fs) (hdrs h) m'.
Proof.
  intros HL Hp Hp0 (hd & Hd & En & Ep & _) Hsp Hs0. unfold updateMemRegion.
  rewrite (deref_Some _ _ _ Hd). ostep. rewrite (hdrSize_eq p s0) by (done || lia). rewrite bsr_pos by lia. ostep.
  destruct (Nat.eqb_spec (bucket s0) (bucket sp)) as [E|E]; cbn [negb].
  - exists (hdrs h), (m_freeListTable h), ls. split; [by destruct h|]. split; [by eapply lists_resize|]. by split.
  - destruct (deleteMemRegion_spec _ _ _ _ _ HL Hp Hsp) as (m1 & t1 & ls1 & -> & HL1 & HF1). ostep.
    assert (Hd1 : m1 !! p = Some hd) by (destruct HF1 as [F1 _]; rewrite F1; [done | apply lookup_delete_eq]).
    destruct (insertRegion_spec (delete p fs) ls1 (mkHeap m1 t1 (m_virtualMemorySize h) (m_vmm h)) p s0 hd)
      as (m2 & t2 & ls2 & -> & HL2 & HF2); [done | apply lookup_delete_eq | done | done | done |].
    rewrite insert_delete_eq in HL2, HF2. exists m2, t2, ls2. split; [done|]. split; [done|].
    destruct HF1 as [F1 F2], HF2 as [G1 G2]. split; intros x.
    + intros Hx. rewrite G1 by done. apply F1. apply lookup_delete_None. right.
      rewrite lookup_insert_None in Hx. by destruct Hx.
    + by rewrite G2, F2.
Qed.

(** ** The pages given back *)

(** Nothing, or whole pages of the free region at [a0] of size [s0], its header apart. *)
Definition vmEffect h h' (a0 s0 : Z) : Prop :=
  m_vmm h' = m_vmm h \/
  exists x y, m_vmm h' = vm_freeRam (m_vmm h) x (y - x) /\ a0 + 32 <= x < y /\ y <= a0 + s0 /\
    x mod PAGE_SIZE = 0 /\ y mod PAGE_SIZE = 0.

Lemma vmEffect_blocks h h' a0 s0 : vmEffect h h' a0 s0 -> vm_blocks (m_vmm h') = vm_blocks (m_vmm h).
Proof. intros [->|(x & y & -> & _)]; [done | apply vm_freeRam_blocks]. Qed.

Lemma releaseRange_spec h x y a0 s0 : x mod PAGE_SIZE = 0 -> y mod PAGE_SIZE = 0 ->
  (x < y -> a0 + 32 <= x /\ y <= a0 + s0) ->
  hdrs (releaseRange x y h) = hdrs h /\ m_freeListTable (releaseRange x y h) = m_freeListTable h /\
  vmEffect h (releaseRange x y h) a0 s0.
Proof.
  intros Hx Hy Hr. unfold releaseRange. destruct (Z.ltb_spec x y); [|split_and!; [done..|by left]].
  split_and!; [done..|]. right. exists x, y. split_and!; (done || lia).
Qed.

(** The header of the region being freed and of its neighbours, as [clean...] reads them. *)
Lemma unionEnd_spec h a sz n sn hd hdn : hdrs h !! a = Some hd -> m_addrNext hd = n -> n = a + sz ->
  hdrs h !! n = Some hdn -> m_addrNext hdn = n + sn -> 0 <= sn -> 0 <= a -> 0 <= sz -> n + sn < 2 ^ 63 * 2 ->
  exists y, unionEnd a h = Ok y /\ y mod PAGE_SIZE = 0 /\ y <= n + sn.
Proof.
  intros Hd En Ea Hdn Enn Hsn Ha Hsz Hlim. unfold unionEnd. rewrite (deref_Some _ _ _ Hd). ostep. rewrite En.
  rewrite (deref_Some _ _ _ Hdn). ostep. rewrite (hdrSize_eq n sn) by (done || lia).
  eexists. split; [done|]. unfold PAGE_SIZE, PAGE_MASK. rewrite u64_small by lia.
  destruct (alignLo_spec (n + Z.min sn 4095)); [lia|]. split; [done|lia].
Qed.
Lemma unionBase_spec h a p sp hd : hdrs h !! a = Some hd -> m_addrPrev hd = p -> p + sp = a -> 32 <= sp ->
  0 < p -> a + 8192 < 2 ^ 64 ->
  exists x, unionBase (a + MemRegionAlign) a h = Ok x /\ x mod PAGE_SIZE = 0 /\ p + 32 <= x.
Proof.
  intros Hd Ep Ea Hsp Hp Hlim. unfold unionBase, MemRegionAlign, PAGE_SIZE. rewrite (deref_Some _ _ _ Hd). ostep. rewrite Ep.
  eexists. split; [done|]. destruct (alignLo_spec (a + 32)) as [Hl1 Hl2]; [lia|].
  rewrite (u64_small (p + 32)) by lia. rewrite (u64_small (alignLo (a + 32) + 4096)) by lia.
  destruct (Z.ltb_spec (alignLo (a + 32)) (p + 32)); [|lia].
  split; [|lia]. rewrite Z.add_mod, Hl2 by lia. done.
Qed.
(** ** Neighbours *)

Definition endBusy (l : list region) : Prop := default true (snd <$> last l) = true.
Definition headBusy (l : list region) : Prop := match l with (_, false) :: _ => False | _ => True end.

Lemma coalesced_free l1 s0 l2 : coalesced true l1 -> endBusy l1 -> coalesced true l2 -> headBusy l2 ->
  coalesced true (l1 ++ (s0, false) :: l2).
Proof.
  intros K1 K2 K3 K4. apply coalesced_app. split; [done|]. cbn [coalesced]. rewrite orb_false_r.
  split; [exact K2|]. destruct l2 as [|[s []] l2]; cbn in *; naive_solver.
Qed.
Lemma coalesced_cut l1 mid l2 : coalesced true (l1 ++ mid ++ l2) -> coalesced true l1 /\ coalesced true l2.
Proof.
  rewrite coalesced_app. intros [K1 K2]. split; [done|]. apply coalesced_app in K2 as [_ K2].
  by eapply coalesced_weaken.
Qed.
Lemma coalesced_before l1 s l2 : coalesced true (l1 ++ (s, false) :: l2) -> endBusy l1.
Proof. rewrite coalesced_app. intros [_ [K _]]. by rewrite orb_false_r in K. Qed.
Lemma coalesced_after l1 s l2 : coalesced true (l1 ++ (s, false) :: l2) -> headBusy l2.
Proof. rewrite coalesced_app. intros [_ [_ K]]. destruct l2 as [|[t []] l2]; cbn in *; naive_solver. Qed.
Lemma busy_left l1 l2 : endBusy l1 -> headBusy l2 -> l1 <> [] \/ l2 <> [] ->
  exists sz, (sz, true) ∈ l1 ++ l2.
Proof.
  intros K1 K2 K3. destruct (exists_last_or_nil l1) as [->|(l & [s b] & ->)].
  - destruct K3 as [?|K3]; [done|]. destruct l2 as [|[s []] l2]; [done| |done]. exists s. by left.
  - unfold endBusy in K1. rewrite last_snoc in K1. cbn in K1. subst b. exists s.
    apply elem_of_app. left. apply elem_of_app. right. by left.
Qed.

Lemma lastAddr_nil_iff l base : 0 < base -> Forall regOk l -> lastAddr nullptr base l = nullptr <-> l = [].
Proof.
  intros Hb Hl. destruct (exists_last_or_nil l) as [->|(k & [s b] & ->)]; [done|].
  rewrite lastAddr_snoc. apply Forall_app in Hl as [Hl _]. pose proof (lsize_nonneg k Hl).
  unfold nullptr. split; [lia|]. intros E. by destruct k.
Qed.

Lemma hdrAt_weaken m q sz p b : hdrAt m q sz p b -> hdrAt m q sz p false.
Proof. intros (hd & ? & ? & ? & _). by exists hd. Qed.

Lemma HInv_small2 B fs ls h base l : HInv B fs ls h -> B !! base = Some l -> length l <> 1%nat -> lsize l < 2 ^ 21.
Proof. intros HI Hb Hl. destruct (h_reg _ _ _ _ HI _ _ Hb) as (_ & _ & _ & [?|[s ->]]); done. Qed.

(** The outcome of a release. *)
Definition freed B h h' (a sz : Z) : Prop :=
  exists B' fs' ls', HInv B' fs' ls' h' /\
    (forall x s, busyAt B' x s <-> busyAt B x s /\ x <> a) /\
    ((exists a0 s0, fs' !! a0 = Some s0 /\ a0 <= a /\ a + sz <= a0 + s0 /\ vmEffect h h' a0 s0) \/
     (exists base, is_Some (B !! base) /\ B' = delete base B /\ m_vmm h' = vm_free (m_vmm h) base)).

Lemma freed_merge B fs ls h base l1 mid l2 a sz a0 s0 fs' ls' h' : HInv B fs ls h ->
  B !! base = Some (l1 ++ mid ++ l2) -> a0 = base + lsize l1 -> s0 = lsize mid ->
  (forall x s, (x, s, true) ∈ placed a0 mid <-> x = a /\ s = sz) ->
  HInv (<[base := l1 ++ (s0, false) :: l2]> B) fs' ls' h' ->
  fs' !! a0 = Some s0 -> vmEffect h h' a0 s0 -> freed B h h' a sz.
Proof.
  intros HI Hb Ea Es Hmid HI' Hf Hv.
  destruct (h_reg _ _ _ _ HI _ _ Hb) as (Hok & _). apply Forall_app in Hok as [Hok1 Hok].
  apply Forall_app in Hok as [Hokm Hok2].
  assert (Hm : (a, sz, true) ∈ placed a0 mid) by (by apply Hmid).
  pose proof (rplaced_range _ _ _ _ _ Hokm Hm) as Hr. rewrite <- Es in Hr.
  eexists _, fs', ls'. split; [exact HI'|]. split; [|left; exists a0, s0; split_and!; (done || lia)].
  intros x s. rewrite busyAt_insert, (busyAt_split B _ _ _ _ Hb). rewrite !rplaced_app. cbn [placed].
  rewrite !elem_of_app, elem_of_cons, <- Ea, <- Es. rewrite Hmid.
  assert (R1 : (x, s, true) ∈ placed base l1 -> x <> a) by (intros Hin%rplaced_range; [lia|done]).
  assert (R2 : (x, s, true) ∈ placed (a0 + s0) l2 -> x <> a) by (intros Hin%rplaced_range; [lia|done]).
  assert (R3 : forall b k, b <> base -> B !! b = Some k -> (x, s, true) ∈ placed b k -> x <> a).
  { intros b k Hne Hk Hin%(HInv_place _ _ _ _ _ _ _ _ _ HI Hk) ->. apply Hne. symmetry.
    eapply (HInv_block _ _ _ _ _ _ _ _ a HI Hb Hk); [|lia]. rewrite !lsize_app, <- Es.
    pose proof (lsize_nonneg l1 Hok1). pose proof (lsize_nonneg l2 Hok2). lia. }
  naive_solver.
Qed.

(** A block whose only busy region was the one at [a] goes back. *)
Lemma freed_block B fs ls h base l a sz fs' ls' h' : HInv B fs ls h -> B !! base = Some l ->
  (forall x s, (x, s, true) ∈ placed base l <-> x = a /\ s = sz) ->
  outside base (base + lsize l) fs (hdrs h) (hdrs h') ->
  (forall q, q < base \/ base + lsize l < q -> fs' !! q = fs !! q) ->
  (forall q, base <= q <= base + lsize l -> fs' !! q = None) ->
  Lists HeapLogTableSize fs' ls' (hdrs h') (m_freeListTable h') ->
  m_vmm h' = vm_free (m_vmm h) base -> freed B h h' a sz.
Proof.
  intros HI Hb Hl HF Hfo Hfi HL Hv.
  assert (HI' : HInv (delete base B) fs' ls' h').
  { eapply remove_block; try done. rewrite Hv. apply vm_free_blocks.
    destruct (h_blk _ _ _ _ HI _ _ Hb) as (_ & _ & m & Hm & _). eauto. }
  exists (delete base B), fs', ls'. split; [done|]. split; [|right; exists base; by rewrite Hb].
  intros x s. rewrite (busyAt_split B _ _ _ _ Hb), Hl.
  assert (R3 : forall b k, b <> base -> B !! b = Some k -> (x, s, true) ∈ placed b k -> x <> a).
  { intros b k Hne Hk Hin%(HInv_place _ _ _ _ _ _ _ _ _ HI Hk) ->. apply Hne. symmetry.
    assert (Hm : (a, sz, true) ∈ placed base l) by (by apply Hl).
    apply (HInv_place _ _ _ _ _ _ _ _ _ HI Hb) in Hm.
    eapply (HInv_block _ _ _ _ _ _ _ _ a HI Hb Hk); lia. }
  unfold busyAt. setoid_rewrite lookup_delete_Some. naive_solver.
Qed.

(** The end of every release that keeps the block: the joined region is put into the
    list of its class.  [m] and [fs1] are the headers and the free map before that. *)
Lemma finish_merge B fs ls h base l1 mid l2 a sz a0 s0 fs1 m ls' h' : HInv B fs ls h ->
  B !! base = Some (l1 ++ mid ++ l2) -> a0 = base + lsize l1 -> s0 = lsize mid ->
  (forall x s, (x, s, true) ∈ placed a0 mid <-> x = a /\ s = sz) ->
  endBusy l1 -> headBusy l2 -> l1 <> [] \/ l2 <> [] -> lsize (l1 ++ mid ++ l2) < 2 ^ 21 ->
  outside a0 (a0 + s0) fs (hdrs h) m ->
  hdrAt m a0 s0 (lastAddr nullptr base l1) false -> chain m a0 (a0 + s0) l2 ->
  (forall q, a0 < q < a0 + s0 -> fs1 !! q = None) ->
  (forall q, q < a0 \/ a0 + s0 <= q -> fs1 !! q = fs !! q) ->
  Lists HeapLogTableSize (<[a0 := s0]> fs1) ls' (hdrs h') (m_freeListTable h') ->
  frameF (<[a0 := s0]> fs1) m (hdrs h') -> vmEffect h h' a0 s0 -> freed B h h' a sz.
Proof.
  intros HI Hb Ea Es Hmid He Hh Hne Hsm Hout Hat Hc2 Hfm Hfo HL HF Hv.
  destruct (h_reg _ _ _ _ HI _ _ Hb) as (Hok & Hco & _). apply coalesced_cut in Hco as [Hco1 Hco2].
  apply Forall_app in Hok as [Hok1 Hok]. apply Forall_app in Hok as [Hokm Hok2].
  assert (Hm : (a, sz, true) ∈ placed a0 mid) by (by apply Hmid).
  pose proof (rplaced_range _ _ _ _ _ Hokm Hm) as Hr. rewrite <- Es in Hr.
  assert (Hoth : forall q, q <> a0 -> <[a0 := s0]> fs1 !! q = fs1 !! q) by (intros q Hq; by apply lookup_insert_ne).
  eapply (freed_merge B fs ls h base l1 mid l2 a sz a0 s0 (<[a0 := s0]> fs1) ls'); try done; [|apply lookup_insert_eq].
  eapply (merge_block B fs ls h base l1 mid l2); try done.
  - lia.
  - by apply coalesced_free.
  - by apply busy_left.
  - eapply outside_trans; [done|]. eapply outside_frameF; [exact HF|]. intros q Hq.
    rewrite Hoth, Hfo by lia. done.
  - by eapply hdrAt_frameF.
  - eapply chain_frameF; [exact HF| |done]. intros q s Hin.
    pose proof (rplaced_range _ _ _ _ _ Hok2 Hin). rewrite Hoth, Hfo by lia.
    eapply (HInv_busy_fs _ _ _ _ _ _ q s HI Hb). rewrite !rplaced_app, !elem_of_app, <- Ea, <- Es.
    right. by right.
  - apply lookup_insert_eq.
  - intros q Hq. rewrite Hoth by lia. by apply Hfm.
  - intros q Hq. rewrite Hoth by lia. by apply Hfo.
  - by eapply vmEffect_blocks.
Qed.

(** ** The cases of [free] *)

(** Both neighbours are busy or missing, but not both missing. *)
Lemma free_plain B fs ls h base l1 sz l2 : HInv B fs ls h -> B !! base = Some (l1 ++ (sz, true) :: l2) ->
  endBusy l1 -> headBusy l2 -> l1 <> [] \/ l2 <> [] ->
  let a := base + lsize l1 in
  exists h', (h ← cleanMemRegion (a + MemRegionAlign) a h; addMemRegion a h) = Ok h' /\ freed B h h' a sz.
Proof.
  intros HI Hb He Hh Hne a.
  destruct (HInv_around _ _ _ _ _ _ _ _ _ HI Hb) as [(Hok1 & (Ho1 & Ho2 & _) & Hok2) Hpos [Hc1 [Hat Hc2]%chain_cons] Hb1 Hb2 Hfs].
  fold a in Hat, Hc2, Hfs, Hb2. cbn in Ho1. pose proof (lsize_nonneg l1 Hok1). pose proof (lsize_nonneg l2 Hok2).
  assert (Hsm : lsize (l1 ++ [(sz, true)] ++ l2) < 2 ^ 21).
  { eapply HInv_small2; [done | exact Hb |]. rewrite length_app. cbn. destruct l1, l2; cbn; naive_solver lia. }
  assert (Hfa : fs !! a = None).
  { eapply (HInv_busy_fs _ _ _ _ _ _ a sz HI Hb). apply placed_elem. by exists l1, l2. }
  pose proof Hat as (hd & Hd & En & Ep & _). unfold cleanMemRegion. rewrite (deref_Some _ _ _ Hd). ostep. rewrite En.
  pose proof Hsm as Hsm'. rewrite !lsize_app, lsize_cons in Hsm'. change (lsize []) with 0 in Hsm'.
  unfold MemRegionAlign. destruct (alignHi_spec (a + 32)) as [Hx1 Hx2]; [subst a; lia|].
  destruct (alignLo_spec (a + sz)) as [Hy1 Hy2]; [subst a; lia|].
  destruct (releaseRange_spec h (alignHi (a + 32)) (alignLo (a + sz)) a sz Hx2 Hy2) as (Rh & Rt & Rv); [lia|].
  set (h1 := releaseRange _ _ h) in *. pose proof (h_lists _ _ _ _ HI) as HL.
  destruct (addMemRegion_spec fs ls h1 a sz (lastAddr nullptr base l1) true) as (m' & t' & ls' & E & HL' & HF);
    [by rewrite Rh, Rt | done | unfold nullptr; subst a; lia | by rewrite Rh | lia |].
  rewrite Rh in HF. eexists. split; [exact E|].
  eapply (finish_merge B fs ls h base l1 [(sz, true)] l2 a sz a sz fs (hdrs h)); try done.
  - cbn. lia.
  - intros x s. cbn [placed]. rewrite elem_of_cons, elem_of_nil. naive_solver.
  - by eapply hdrAt_weaken.
  - intros q Hq. destruct (fs !! q) eqn:Eq; [|done]. apply Hfs in Eq; [|subst a; lia].
    destruct Eq as [Hin|[(? & _)|Hin]]; [|lia|]; apply rplaced_range in Hin; (done || subst a; lia).
Qed.

(** What a header looks like to the code. *)
Lemma hdr_free B fs ls h base l1 sn l2 n : HInv B fs ls h -> B !! base = Some (l1 ++ (sn, false) :: l2) ->
  n = base + lsize l1 -> fs !! n = Some sn /\ exists hd, hdrs h !! n = Some hd /\ isBusy hd = false /\
    m_addrNext hd = n + sn /\ m_addrPrev hd = lastAddr nullptr base l1 /\ 32 <= sn < 2 ^ 21.
Proof.
  intros HI Hb ->. assert (Hf : fs !! (base + lsize l1) = Some sn).
  { apply (h_fs _ _ _ _ HI). exists base, (l1 ++ (sn, false) :: l2). split; [done|]. apply placed_elem. by exists l1, l2. }
  split; [done|]. destruct (HInv_free _ _ _ _ _ _ HI Hf) as (hd & Hd & Hnb & ? & ? & ? & _).
  destruct (HInv_around _ _ _ _ _ _ _ _ _ HI Hb) as [_ _ [_ [(hd' & Hd' & En & Ep & _) _]%chain_cons] _ _ _].
  simplify_eq. exists hd. split_and!; try done; try lia. unfold isBusy. by apply Z.eqb_neq.
Qed.

(** Joining [a] and the region after it: the address fields rewritten. *)
Lemma join_hdrs m a sz b sn p pn l2 hd : hdrAt m a sz p b -> m !! a = Some hd ->
  Forall regOk l2 -> 32 <= sz -> 32 <= sn -> chain m pn (a + sz + sn) l2 ->
  exists hdn, let m2 := <[a := mkHdr (m_szNext hd) (m_szPrev hd) (a + sz + sn) (m_addrPrev hd)]> m in
  m2 !! (a + sz + sn) = Some hdn /\
  let m3 := <[a + sz + sn := mkHdr (m_szNext hdn) (m_szPrev hdn) (m_addrNext hdn) a]> m2 in
  hdrAt m3 a (sz + sn) p false /\ chain m3 a (a + (sz + sn)) l2.
Proof.
  intros (hd' & Hd' & En & Ep & _) Hd Hl2 Hsz Hsn Hc. simplify_eq.
  set (m2 := <[a := _]> m). assert (Hc' : chain m2 pn (a + sz + sn) l2) by (apply chain_insert_ne; [done|lia|done]).
  destruct (chain_head _ _ _ _ Hc') as (hdn & Hdn & _). exists hdn. cbn zeta. split; [done|].
  split.
  - apply hdrAt_insert_ne; [lia|]. apply hdrAt_insert; cbn; (done || lia).
  - replace (a + (sz + sn)) with (a + sz + sn) by lia. eapply chain_setPrev; try done.
Qed.

Lemma setAddrNext_spec h q x hd : hdrs h !! q = Some hd -> setAddrNext q x h =
  Ok (setHdrs h (<[q := mkHdr (m_szNext hd) (m_szPrev hd) x (m_addrPrev hd)]> (hdrs h))).
Proof. intros E. unfold setAddrNext. by rewrite (deref_Some _ _ _ E). Qed.
Lemma setAddrPrev_spec h q x hd : hdrs h !! q = Some hd -> setAddrPrev q x h =
  Ok (setHdrs h (<[q := mkHdr (m_szNext hd) (m_szPrev hd) (m_addrNext hd) x]> (hdrs h))).
Proof. intros E. unfold setAddrPrev. by rewrite (deref_Some _ _ _ E). Qed.

(** Both address writes of a join, the lists and the frame included. *)
Lemma join_spec h fs ls a sz b sn p pn l2 :
  Lists HeapLogTableSize fs ls (hdrs h) (m_freeListTable h) ->
  hdrAt (hdrs h) a sz p b -> Forall regOk l2 -> 32 <= sz -> 32 <= sn ->
  chain (hdrs h) pn (a + sz + sn) l2 ->
  exists m3, (h ← setAddrNext a (a + sz + sn) h; setAddrPrev (a + sz + sn) a h) = Ok (setHdrs h m3) /\
    Lists HeapLogTableSize fs ls m3 (m_freeListTable h) /\ hdrAt m3 a (sz + sn) p false /\
    chain m3 a (a + (sz + sn)) l2 /\ forall fs0, outside a (a + (sz + sn)) fs0 (hdrs h) m3.
Proof.
  intros HL Hat Hl2 Hsz Hsn Hc. pose proof Hat as (hd & Hd & _).
  destruct (join_hdrs _ _ _ _ _ _ _ _ _ Hat Hd Hl2 Hsz Hsn Hc) as (hdn & Hdn & Hat3 & Hc3).
  rewrite (setAddrNext_spec _ _ _ _ Hd). ostep.
  erewrite setAddrPrev_spec by exact Hdn. eexists. split; [done|]. cbn [setHdrs hdrs m_freeListTable].
  split_and!; [| exact Hat3 | exact Hc3 |].
  - eapply lists_insert_hdr; [|right; by exists hdn]. eapply lists_insert_hdr; [done|right; by exists hd].
  - intros fs0. eapply outside_trans; apply outside_insert; lia.
Qed.

(** The region after is free, the one before busy or missing. *)
Lemma free_next B fs ls h base l1 sz sn l2 : HInv B fs ls h ->
  B !! base = Some (l1 ++ (sz, true) :: (sn, false) :: l2) -> endBusy l1 ->
  let a := base + lsize l1 in
  exists h', freeNextRegion (a + MemRegionAlign) a (lastAddr nullptr base l1) (a + sz) (a + sz + sn) h = Ok h' /\
    freed B h h' a sz.
Proof.
  intros HI Hb He a.
  destruct (HInv_around _ _ _ _ _ _ _ _ _ HI Hb) as [(Hok1 & (Ho1 & Ho2 & _) & Hok2) Hpos [Hc1 [Hat Hc2]%chain_cons] Hb1 Hb2 Hfs].
  fold a in Hat, Hc2, Hfs, Hb2. cbn in Ho1. apply chain_cons in Hc2 as [Hatn Hc2]. rewrite lsize_cons in Hpos, Hfs.
  apply Forall_cons in Hok2 as [(Hn1 & Hn2 & _) Hok2]. cbn in Hn1, Hn2.
  pose proof (lsize_nonneg l1 Hok1). pose proof (lsize_nonneg l2 Hok2).
  assert (Hb' : B !! base = Some ((l1 ++ [(sz, true)]) ++ (sn, false) :: l2)) by by rewrite <- app_assoc.
  destruct (h_reg _ _ _ _ HI _ _ Hb') as (_ & Hh%coalesced_after & _).
  destruct (hdr_free _ _ _ _ _ _ _ _ (a + sz) HI Hb') as (Hfn & hdn & Hdn & Hnb & Enn & _ & Hsn).
  { rewrite lsize_app. cbn. subst a. lia. }
  assert (Hsm : lsize (l1 ++ [(sz, true); (sn, false)] ++ l2) < 2 ^ 21).
  { pose proof (HInv_small _ _ _ _ _ _ _ _ HI Hb') as Hs. by rewrite <- app_assoc in Hs. }
  unfold freeNextRegion. rewrite (deref_Some _ _ _ Hdn). ostep. rewrite Hnb. cbn [negb].
  rewrite (hdrSize_eq _ sn) by (done || lia). rewrite bsr_pos by lia. ostep.
  destruct (deleteMemRegion_spec _ _ _ _ _ (h_lists _ _ _ _ HI) Hfn Hsn) as (m1 & t1 & ls1 & -> & HL1 & HF1). ostep.
  assert (Hoth : forall q, q <> a + sz -> delete (a + sz) fs !! q = fs !! q) by (intros; by apply lookup_delete_ne).
  eapply hdrAt_weaken, hdrAt_frameF in Hat; [|exact HF1]. eapply hdrAt_frameF in Hatn; [|exact HF1].
  eapply chain_frameF in Hc2; [|exact HF1|].
  2: { intros q s Hin. pose proof (rplaced_range _ _ _ _ _ Hok2 Hin). rewrite Hoth by lia. eapply Hb2. cbn [placed]. right. done. }
  destruct (chain_head _ _ _ _ Hc2) as (hnn & Hhnn & Hnn). cbn [hdrs].
  rewrite (deref_Some _ _ _ Hhnn). ostep.
  assert (Hmidn : forall q, a < q < a + (sz + sn) -> delete (a + sz) fs !! q = None).
  { intros q Hq. destruct (decide (q = a + sz)) as [->|]; [apply lookup_delete_eq|]. rewrite Hoth by done.
    destruct (fs !! q) eqn:Eq; [|done]. apply Hfs in Eq; [|subst a; lia]. cbn [placed] in Eq.
    destruct Eq as [Hin|[(? & _)|Hin]]; [|lia|]; [apply rplaced_range in Hin; (done || subst a; lia)|].
    apply elem_of_cons in Hin as [[=]|Hin]; [lia|]. apply rplaced_range in Hin; (done || lia). }
  assert (Hmid : forall x s, (x, s, true) ∈ placed a [(sz, true); (sn, false)] <-> x = a /\ s = sz).
  { intros x s. cbn [placed]. rewrite !elem_of_cons, elem_of_nil. naive_solver. }
  destruct ((lastAddr nullptr base l1 =? nullptr) && (m_addrNext hnn =? nullptr)) eqn:Ec.
  - apply andb_prop in Ec as [El%Z.eqb_eq En%Z.eqb_eq]. apply lastAddr_nil_iff in El; [|lia|done]. subst l1.
    assert (l2 = []) as -> by (destruct l2 as [|[s b] l2]; [done|]; apply Forall_cons in Hok2 as [[Hs _] _]; cbn in Hs;
      destruct Hnn as (Hnn & _); unfold nullptr in *; subst a; change (lsize []) with 0 in *; lia).
    assert (Ea : a = base) by (subst a; change (lsize []) with 0; lia). rewrite Ea in *.
    eexists. split; [done|]. 
    eapply (freed_block B fs ls h base _ base sz (delete (base + sz) fs) ls1); try done.
    + eapply outside_frameF; [exact HF1|]. intros q Hq. apply Hoth. cbn in Hq. lia.
    + intros q Hq. apply Hoth. cbn in Hq. lia.
    + intros q Hq. cbn in Hq. destruct (decide (q = base)) as [->|Hqa].
      * rewrite Hoth by lia. eapply (HInv_busy_fs _ _ _ _ _ _ base sz HI Hb). by left.
      * destruct (decide (q = base + (sz + sn))) as [->|]; [|apply Hmidn; lia].
        rewrite Hoth by lia. destruct (fs !! (base + (sz + sn))) eqn:Eq; [|done].
        apply Hfs in Eq; [|cbn; lia]. cbn [placed app] in Eq. rewrite !elem_of_cons, !elem_of_nil in Eq.
        destruct Eq as [[]|[(? & _)|[[=]|[]]]]; lia.
  - assert (Hne : l1 <> [] \/ l2 <> []).
    { destruct l1; [|by left]. destruct l2; [|by right]. cbn in Hnn. rewrite Hnn in Ec. done. }
    pose proof Hat as (hd1 & Hd1 & En1 & _). pose proof Hatn as (hdn1 & Hdn1 & Enn1 & _).
    pose proof Hsm as Hsm'. rewrite !lsize_app, !lsize_cons in Hsm'. change (lsize []) with 0 in Hsm'.
    set (h1 := mkHeap m1 t1 (m_virtualMemorySize h) (m_vmm h)).
    destruct (unionEnd_spec h1 a sz (a + sz) sn hd1 hdn1) as (y & Ey & Hy1 & Hy2); try done; try (subst a; lia).
    unfold cleanMemRegionUN. rewrite Ey. ostep. unfold MemRegionAlign.
    destruct (alignHi_spec (a + 32)) as [Hx1 Hx2]; [subst a; lia|].
    destruct (releaseRange_spec h1 (alignHi (a + 32)) y a (sz + sn) Hx2 Hy1) as (Rh & Rt & Rv); [lia|].
    set (h2 := releaseRange _ _ h1) in *. cbn [h1 hdrs m_freeListTable] in Rh, Rt.
    destruct (join_spec h2 (delete (a + sz) fs) ls1 a sz false sn (lastAddr nullptr base l1) (a + sz) l2)
      as (m3 & Ej & HL3 & Hat3 & Hc3 & Hout3); [by rewrite Rh, Rt | by rewrite Rh | done | lia | lia | by rewrite Rh |].
    rewrite <- (bind_assoc _ (fun h => setAddrPrev (a + sz + sn) a h) (fun h => addMemRegion a h)), Ej.
    ostep. rewrite Rt in HL3.
    destruct (addMemRegion_spec (delete (a + sz) fs) ls1 (setHdrs h2 m3) a (sz + sn) (lastAddr nullptr base l1) false)
      as (m4 & t4 & ls4 & E4 & HL4 & HF4); [cbn; by rewrite Rt | | unfold nullptr; subst a; lia | done | lia |].
    { rewrite Hoth by lia. eapply (HInv_busy_fs _ _ _ _ _ _ a sz HI Hb). apply placed_elem. by eexists l1, _. }
    eexists. split; [exact E4|].
    eapply (finish_merge B fs ls h base l1 [(sz, true); (sn, false)] l2 a sz a (sz + sn) (delete (a + sz) fs) m3); try done.
    + cbn. lia.
    + rewrite Rh in Hout3. eapply outside_trans; [|apply Hout3].
      eapply outside_frameF; [exact HF1|]. intros q Hq. apply Hoth. lia.
    + intros q Hq. apply Hoth. lia.
Qed.

(** The region before is free, the one after busy or missing: the block stays. *)
Lemma free_prev B fs ls h base l1 sp sz l2 : HInv B fs ls h ->
  B !! base = Some (l1 ++ (sp, false) :: (sz, true) :: l2) -> headBusy l2 -> l1 <> [] \/ l2 <> [] ->
  let p := base + lsize l1 in let a := p + sp in
  exists h', (h ← cleanMemRegionUP (a + MemRegionAlign) a h;
              h ← (if decide (l2 = []) then setAddrNext p (a + sz) h
                   else h ← setAddrNext p (a + sz) h; setAddrPrev (a + sz) p h);
              updateMemRegion p (bucket sp) h) = Ok h' /\ freed B h h' a sz.
Proof.
  intros HI Hb Hh Hne p a.
  destruct (HInv_around _ _ _ _ _ _ _ _ _ HI Hb) as [(Hok1 & (Ho1 & Ho2 & _) & Hok2) Hpos [Hc1 [Hatp Hc2]%chain_cons] Hb1 Hb2 Hfs].
  fold p a in Hatp, Hc2, Hfs, Hb2. cbn in Ho1. apply chain_cons in Hc2 as [Hat Hc2]. rewrite lsize_cons in Hpos, Hfs.
  apply Forall_cons in Hok2 as [(Hn1 & Hn2 & _) Hok2]. cbn in Hn1, Hn2.
  pose proof (lsize_nonneg l1 Hok1). pose proof (lsize_nonneg l2 Hok2).
  destruct (h_reg _ _ _ _ HI _ _ Hb) as (_ & Hco & _). pose proof (coalesced_before _ _ _ Hco) as He.
  destruct (hdr_free _ _ _ _ _ _ _ _ p HI Hb eq_refl) as (Hfp & _ & _ & _ & _ & _ & Hsp).
  pose proof (HInv_small _ _ _ _ _ _ _ _ HI Hb) as Hsm. pose proof Hsm as Hsm'. rewrite lsize_app, !lsize_cons in Hsm'.
  pose proof Hat as (hd & Hd & En & Ep & _).
  destruct (unionBase_spec h a p sp hd) as (x & Ex & Hx1 & Hx2); try done; [subst a p; lia..|].
  unfold cleanMemRegionUP. rewrite Ex. ostep. rewrite (deref_Some _ _ _ Hd). ostep. rewrite En.
  destruct (alignLo_spec (a + sz)) as [Hy1 Hy2]; [subst a p; lia|].
  destruct (releaseRange_spec h x (alignLo (a + sz)) p (sp + sz) Hx1 Hy2) as (Rh & Rt & Rv); [subst a; lia|].
  set (h2 := releaseRange _ _ h) in *.
  assert (Hj : exists m3, (if decide (l2 = []) then setAddrNext p (a + sz) h2
      else h ← setAddrNext p (a + sz) h2; setAddrPrev (a + sz) p h) = Ok (setHdrs h2 m3) /\
    Lists HeapLogTableSize fs ls m3 (m_freeListTable h) /\ hdrAt m3 p (sp + sz) (lastAddr nullptr base l1) false /\
    chain m3 p (p + (sp + sz)) l2 /\ outside p (p + (sp + sz)) fs (hdrs h) m3).
  { destruct (decide (l2 = [])) as [El|El].
    - pose proof Hatp as (hdp & Hdp & Enp & Epp & _).
      erewrite setAddrNext_spec by (rewrite Rh; exact Hdp). eexists. split; [done|]. rewrite Rh. split_and!.
      + eapply lists_insert_hdr; [apply (h_lists _ _ _ _ HI) | right; by exists hdp].
      + apply hdrAt_insert; cbn; (done || subst a; lia).
      + rewrite El in *. split; [done|]. destruct Hc2 as [_ Hc2]. eapply sentinel_same; [|replace (p + (sp + sz)) with (a + sz) by (subst a; lia); exact Hc2].
        change (lsize []) with 0. rewrite lookup_insert_ne by lia. done.
      + apply outside_insert. lia.
    - destruct (join_spec h2 fs ls p sp false sz (lastAddr nullptr base l1) a l2)
        as (m3 & Ej & HL3 & Hat3 & Hc3 & Hout3); rewrite ?Rh, ?Rt; try done; try lia; [apply (h_lists _ _ _ _ HI)|].
      exists m3. rewrite Rt in HL3. rewrite Rh in Hout3. split; [exact Ej|]. by split_and!. }
  destruct Hj as (m3 & -> & HL3 & Hat3 & Hc3 & Hout3). ostep.
  destruct (updateMemRegion_spec fs ls (setHdrs h2 m3) p sp (sp + sz) (lastAddr nullptr base l1))
    as (m4 & t4 & ls4 & E4 & HL4 & HF4); [cbn; by rewrite Rt | done | unfold nullptr; subst p; lia | done | lia | lia |].
  eexists. split; [exact E4|].
  eapply (finish_merge B fs ls h base l1 [(sp, false); (sz, true)] l2 a sz p (sp + sz) fs m3); try done.
  - cbn. lia.
  - intros x' s. cbn [placed]. rewrite !elem_of_cons, elem_of_nil. naive_solver.
  - intros q Hq. destruct (fs !! q) eqn:Eq; [|done]. apply Hfs in Eq; [|subst a p; lia]. cbn [placed] in Eq.
    destruct Eq as [Hin|[(? & _)|Hin]]; [|lia|]; [apply rplaced_range in Hin; (done || subst p; lia)|].
    apply elem_of_cons in Hin as [[=]|Hin]. apply rplaced_range in Hin; (done || subst a; lia).
Qed.

(** Both neighbours are free. *)
Lemma free_both B fs ls h base l1 sp sz sn l2 : HInv B fs ls h ->
  B !! base = Some (l1 ++ (sp, false) :: (sz, true) :: (sn, false) :: l2) ->
  let p := base + lsize l1 in let a := p + sp in
  exists h', freePrevFree (a + MemRegionAlign) a p (a + sz) (a + sz + sn) h = Ok h' /\ freed B h h' a sz.
Proof.
  intros HI Hb p a.
  destruct (HInv_around _ _ _ _ _ _ _ _ _ HI Hb) as [(Hok1 & (Ho1 & Ho2 & _) & Hok2) Hpos [Hc1 [Hatp Hc2]%chain_cons] Hb1 Hb2 Hfs].
  fold p a in Hatp, Hc2, Hfs, Hb2. cbn in Ho1. apply chain_cons in Hc2 as [Hat Hc2]. apply chain_cons in Hc2 as [Hatn Hc2].
  rewrite !lsize_cons in Hpos, Hfs.
  apply Forall_cons in Hok2 as [(Hz1 & Hz2 & _) Hok2]. apply Forall_cons in Hok2 as [(Hn1 & Hn2 & _) Hok2]. cbn in Hn1, Hn2, Hz1, Hz2.
  pose proof (lsize_nonneg l1 Hok1). pose proof (lsize_nonneg l2 Hok2).
  assert (Hb' : B !! base = Some ((l1 ++ [(sp, false); (sz, true)]) ++ (sn, false) :: l2)) by by rewrite <- app_assoc.
  destruct (h_reg _ _ _ _ HI _ _ Hb) as (_ & Hco & _). pose proof (coalesced_before _ _ _ Hco) as He.
  destruct (h_reg _ _ _ _ HI _ _ Hb') as (_ & Hh%coalesced_after & _).
  destruct (hdr_free _ _ _ _ _ _ _ _ p HI Hb eq_refl) as (Hfp & hdp & Hdp & _ & Enp & Epp & Hsp).
  destruct (hdr_free _ _ _ _ _ _ _ _ (a + sz) HI Hb') as (Hfn & hdn & Hdn & Hnb & Enn & _ & Hsn).
  { rewrite lsize_app. cbn. subst a p. lia. }
  pose proof (HInv_small _ _ _ _ _ _ _ _ HI Hb) as Hsm. pose proof Hsm as Hsm'. rewrite lsize_app, !lsize_cons in Hsm'.
  unfold freePrevFree. rewrite (deref_Some _ _ _ Hdp). ostep. rewrite (hdrSize_eq p sp) by (done || lia).
  rewrite bsr_pos by lia. ostep.
  destruct (Z.eqb_spec (a + sz + sn) nullptr); [unfold nullptr in *; subst a p; lia|]. cbn [negb].
  rewrite (deref_Some _ _ _ Hdn). ostep. rewrite Hnb. cbn [negb].
  rewrite (hdrSize_eq _ sn) by (done || lia). rewrite bsr_pos by lia. ostep.
  destruct (deleteMemRegion_spec _ _ _ _ _ (h_lists _ _ _ _ HI) Hfn Hsn) as (m1 & t1 & ls1 & -> & HL1 & HF1). ostep.
  assert (Hoth : forall q, q <> a + sz -> delete (a + sz) fs !! q = fs !! q) by (intros; by apply lookup_delete_ne).
  eapply hdrAt_frameF in Hatp; [|exact HF1]. eapply hdrAt_weaken, hdrAt_frameF in Hat; [|exact HF1].
  eapply hdrAt_frameF in Hatn; [|exact HF1].
  eapply chain_frameF in Hc2; [|exact HF1|].
  2: { intros q s Hin. pose proof (rplaced_range _ _ _ _ _ Hok2 Hin). rewrite Hoth by lia. eapply Hb2. cbn [placed]. right. by right. }
  pose proof Hatp as (hdp1 & Hdp1 & Enp1 & Epp1 & _). cbn [hdrs]. rewrite (deref_Some _ _ _ Hdp1). ostep.
  destruct (chain_head _ _ _ _ Hc2) as (hnn & Hhnn & Hnn). rewrite (deref_Some _ _ _ Hhnn). ostep. rewrite Epp1.
  assert (Hfree : forall q, p <= q <= a + sz + sn + lsize l2 -> q < a + sz + sn \/ l2 = [] -> q <> p -> q <> a + sz -> fs !! q = None).
  { intros q Hq Hq' Hqp Hqn. destruct (fs !! q) eqn:Eq; [|done]. apply Hfs in Eq; [|subst a p; lia]. cbn [placed] in Eq.
    destruct Eq as [Hin|[(? & _)|Hin]]; [|lia|]; [apply rplaced_range in Hin; (done || subst p; lia)|].
    apply elem_of_cons in Hin as [[=]|[[=]|Hin]%elem_of_cons]; [lia|].
    destruct Hq' as [Hq'| ->]; [|by apply elem_of_nil in Hin]. apply rplaced_range in Hin; (done || subst a; lia). }
  assert (Hfp1 : delete (a + sz) fs !! p = Some sp) by (rewrite Hoth by (subst a; lia); done).
  assert (Hp0 : p <> nullptr) by (unfold nullptr; subst p; lia).
  assert (Hon : forall q, q < p \/ p + (sp + (sz + sn)) <= q -> q <> a + sz) by (intros; subst a; lia).
  assert (Hin : forall q, p < q < p + (sp + (sz + sn)) -> p <= q <= a + sz + sn + lsize l2 /\ q < a + sz + sn)
    by (intros; subst a; lia).
  assert (Hlo : 0 < p /\ 0 <= a /\ 0 <= sz /\ 0 <= sn /\ a + 8192 < 2 ^ 64 /\ a + sz + sn < 2 ^ 63 * 2)
    by (subst a p; lia).
  assert (Hs1 : 32 <= sz + sn) by lia.
  assert (Enn' : p + sp + (sz + sn) = a + sz + sn) by (subst a; lia).
  assert (Hs0 : 32 <= sp + (sz + sn) < 2 ^ 21) by lia.
  assert (Hmid : forall x s, (x, s, true) ∈ placed p [(sp, false); (sz, true); (sn, false)] <-> x = a /\ s = sz).
  { intros x s. cbn [placed]. rewrite !elem_of_cons, elem_of_nil. naive_solver. }
  destruct ((lastAddr nullptr base l1 =? nullptr) && (m_addrNext hnn =? nullptr)) eqn:Ec.
  - apply andb_prop in Ec as [El%Z.eqb_eq En%Z.eqb_eq]. apply lastAddr_nil_iff in El; [|lia|done]. subst l1.
    assert (l2 = []) as -> by (destruct l2 as [|[s b] l2]; [done|]; apply Forall_cons in Hok2 as [[Hs _] _]; cbn in Hs;
      destruct Hnn as (Hnn & _); unfold nullptr in *; subst a p; change (lsize []) with 0 in *; lia).
    assert (Ea : p = base) by (subst p; change (lsize []) with 0; lia).
    set (h1 := setVms _ _).
    destruct (deleteMemRegion_spec (delete (a + sz) fs) ls1 h1 p sp HL1 Hfp1 Hsp)
      as (m2 & t2 & ls2 & -> & HL2 & HF2). ostep.
    eexists. split; [done|]. cbn [h1 hdrs setVms] in HF2.
    eapply (freed_block B fs ls h base _ a sz (delete p (delete (a + sz) fs)) ls2); try done;
      cbn [hdrs m_freeListTable m_vmm setVmm].
    + intros x s. cbn [app]. rewrite <- Ea. apply Hmid.
    + eapply outside_trans; (eapply outside_frameF; [eassumption|]); intros q Hq; cbn in Hq.
      * apply Hoth. subst a. lia.
      * rewrite lookup_delete_ne, Hoth; (done || subst a; lia).
    + intros q Hq. cbn in Hq. rewrite lookup_delete_ne, Hoth; (done || subst a; lia).
    + intros q Hq. cbn in Hq. destruct (decide (q = p)) as [->|Hqp]; [apply lookup_delete_eq|].
      rewrite lookup_delete_ne by done. destruct (decide (q = a + sz)) as [->|]; [apply lookup_delete_eq|].
      rewrite Hoth by done. apply Hfree; [cbn; subst a; lia | by right | done | done].
    + cbn. by rewrite Ea.
  - assert (Hne : l1 <> [] \/ l2 <> []).
    { destruct l1; [|by left]. destruct l2; [|by right]. cbn in Hnn. rewrite Hnn in Ec. done. }
    pose proof Hat as (hd1 & Hd1 & En1 & Ep1 & _). pose proof Hatn as (hdn1 & Hdn1 & Enn1 & _).
    set (h1 := mkHeap m1 t1 (m_virtualMemorySize h) (m_vmm h)).
    destruct (unionBase_spec h1 a p sp hd1) as (x & Ex & Hx1 & Hx2); [done | done | done | exact Ho1 | apply Hlo | apply Hlo |].
    destruct (unionEnd_spec h1 a sz (a + sz) sn hd1 hdn1) as (y & Ey & Hy1 & Hy2);
      [done | done | done | done | done | apply Hlo | apply Hlo | apply Hlo | apply Hlo |].
    unfold cleanMemRegionUNP. rewrite Ex. ostep. rewrite Ey. ostep.
    destruct (releaseRange_spec h1 x y p (sp + (sz + sn)) Hx1 Hy1) as (Rh & Rt & Rv);
      [intros _; split; [exact Hx2 | by rewrite Z.add_assoc, Enn']|].
    set (h2 := releaseRange _ _ h1) in *. cbn [h1 hdrs m_freeListTable] in Rh, Rt.
    destruct (join_spec h2 (delete (a + sz) fs) ls1 p sp false (sz + sn) (lastAddr nullptr base l1) (a + sz) l2)
      as (m3 & Ej & HL3 & Hat3 & Hc3 & Hout3);
      [rewrite Rh, Rt; exact HL1 | rewrite Rh; exact Hatp | exact Hok2 | exact Ho1 | exact Hs1 | rewrite Rh, Enn'; exact Hc2 |].
    rewrite Enn' in Ej.
    rewrite <- (bind_assoc _ (fun h => setAddrPrev (a + sz + sn) p h) (fun h => updateMemRegion p _ h)), Ej.
    ostep. rewrite Rt in HL3.
    destruct (updateMemRegion_spec (delete (a + sz) fs) ls1 (setHdrs h2 m3) p sp (sp + (sz + sn)) (lastAddr nullptr base l1))
      as (m4 & t4 & ls4 & E4 & HL4 & HF4);
      [cbn [setHdrs hdrs m_freeListTable]; by rewrite Rt | exact Hfp1 | exact Hp0 | exact Hat3 | exact Hsp | exact Hs0 |].
    eexists. split; [exact E4|].
    eapply (finish_merge B fs ls h base l1 [(sp, false); (sz, true); (sn, false)] l2 a sz p (sp + (sz + sn)) (delete (a + sz) fs) m3); try done.
    + cbn. by rewrite Z.add_0_r.
    + rewrite Rh in Hout3. eapply outside_trans; [|apply Hout3].
      eapply outside_frameF; [exact HF1|]. intros q Hq. apply Hoth, Hon. clear -Hq. lia.
    + intros q Hq. destruct (decide (q = a + sz)) as [->|]; [apply lookup_delete_eq|].
      destruct (Hin q Hq). rewrite Hoth by done. apply Hfree; [done | by left | clear -Hq; lia | done].
    + intros q Hq. by apply Hoth, Hon.
Qed.

Lemma hdr_busy m a sz p hd : hdrAt m a sz p true -> m !! a = Some hd -> isBusy hd = true.
Proof. intros (hd' & Hd & _ & _ & Hb) E. simplify_eq. unfold isBusy. rewrite Hb by done. done. Qed.

(** [free] when the region before is busy or missing. *)
Lemma free_tail B fs ls h base l1 sz l2 hn : HInv B fs ls h ->
  B !! base = Some (l1 ++ (sz, true) :: l2) -> endBusy l1 ->
  let a := base + lsize l1 in
  hdrs h !! (a + sz) = Some hn ->
  exists h', (if negb (m_addrNext hn =? nullptr)
      then freeNextRegion (a + MemRegionAlign) a (lastAddr nullptr base l1) (a + sz) (m_addrNext hn) h
      else if lastAddr nullptr base l1 =? nullptr then Ok (releaseBlock a (a + sz) h)
      else h ← cleanMemRegion (a + MemRegionAlign) a h; addMemRegion a h) = Ok h' /\ freed B h h' a sz.
Proof.
  intros HI Hb He a Hhn.
  destruct (HInv_around _ _ _ _ _ _ _ _ _ HI Hb) as [(Hok1 & (Ho1 & Ho2 & _) & Hok2) Hpos [Hc1 [Hat Hc2]%chain_cons] Hb1 Hb2 Hfs].
  fold a in Hat, Hc2, Hfs, Hb2. cbn in Ho1. pose proof (lsize_nonneg l1 Hok1). pose proof (lsize_nonneg l2 Hok2).
  destruct l2 as [|[sn bn] l2].
  - destruct (chain_head _ _ _ _ Hc2) as (hn' & Hhn' & En). simplify_eq. rewrite En. cbn [negb Z.eqb nullptr].
    destruct (Z.eqb_spec (lastAddr nullptr base l1) nullptr) as [El|El].
    + apply lastAddr_nil_iff in El; [|lia|done]. subst l1.
      assert (Ea : a = base) by (subst a; change (lsize []) with 0; lia). rewrite Ea in *.
      eexists. split; [done|]. eapply (freed_block B fs ls h base _ base sz fs ls); try done.
      * intros x s. cbn [app placed]. rewrite elem_of_cons, elem_of_nil. naive_solver.
      * intros q Hq. destruct (fs !! q) as [s|] eqn:Eq; [|done]. apply Hfs in Eq; [|cbn in *; lia].
        cbn [placed] in Eq. rewrite !elem_of_nil in Eq. naive_solver.
      * apply (h_lists _ _ _ _ HI).
    + apply (free_plain B fs ls h base l1 sz []); try done. left. by intros ->.
  - destruct (chain_head _ _ _ _ Hc2) as (hn' & Hhn' & En & _ & Hbz). simplify_eq. rewrite En.
    apply Forall_cons in Hok2 as [(Hs & _) _]. cbn in Hs.
    destruct (Z.eqb_spec (a + sz + sn) nullptr); [unfold nullptr in *; subst a; lia|]. cbn [negb].
    destruct bn; [|by eapply free_next].
    unfold freeNextRegion. rewrite (deref_Some _ _ _ Hhn). ostep.
    replace (isBusy hn) with true by (unfold isBusy; rewrite Hbz; done). cbn [negb].
    apply (free_plain B fs ls h base l1 sz ((sn, true) :: l2)); try done. by right.
Qed.

(** [free] when the region before is free. *)
Lemma free_joined B fs ls h base l1 sp sz l2 hn : HInv B fs ls h ->
  B !! base = Some (l1 ++ (sp, false) :: (sz, true) :: l2) ->
  let p := base + lsize l1 in let a := p + sp in
  hdrs h !! (a + sz) = Some hn ->
  exists h', freePrevFree (a + MemRegionAlign) a p (a + sz) (m_addrNext hn) h = Ok h' /\ freed B h h' a sz.
Proof.
  intros HI Hb p a Hhn.
  destruct (HInv_around _ _ _ _ _ _ _ _ _ HI Hb) as [(Hok1 & (Ho1 & Ho2 & _) & Hok2) Hpos [Hc1 [Hatp Hc2]%chain_cons] Hb1 Hb2 Hfs].
  fold p a in Hatp, Hc2, Hfs, Hb2. cbn in Ho1. apply chain_cons in Hc2 as [Hat Hc2]. rewrite lsize_cons in Hpos, Hfs.
  apply Forall_cons in Hok2 as [(Hn1 & Hn2 & _) Hok2]. cbn in Hn1, Hn2.
  pose proof (lsize_nonneg l1 Hok1). pose proof (lsize_nonneg l2 Hok2).
  destruct (hdr_free _ _ _ _ _ _ _ _ p HI Hb eq_refl) as (Hfp & hdp & Hdp & _ & Enp & Epp & Hsp).
  destruct l2 as [|[sn bn] l2].
  - destruct (chain_head _ _ _ _ Hc2) as (hn' & Hhn' & En). simplify_eq. rewrite En.
    pose proof (free_prev B fs ls h base l1 sp sz [] HI Hb) as Hfree. cbn zeta in Hfree. fold p a in Hfree.
    unfold freePrevFree. rewrite (deref_Some _ _ _ Hdp). ostep. rewrite (hdrSize_eq p sp) by (done || lia).
    rewrite bsr_pos by lia. ostep. cbn [negb Z.eqb nullptr]. rewrite Epp.
    destruct (Z.eqb_spec (lastAddr nullptr base l1) nullptr) as [El|El]; [|].
    + apply lastAddr_nil_iff in El; [|lia|done]. subst l1.
      assert (Ea : p = base) by (subst p; change (lsize []) with 0; lia).
      set (h1 := setVms _ _).
      destruct (deleteMemRegion_spec fs ls h1 p sp (h_lists _ _ _ _ HI) Hfp Hsp)
        as (m2 & t2 & ls2 & -> & HL2 & HF2). ostep.
      assert (Hoth : forall q, q <> p -> delete p fs !! q = fs !! q) by (intros; by apply lookup_delete_ne).
      eexists. split; [done|]. cbn [h1 hdrs setVms] in HF2.
      eapply (freed_block B fs ls h base _ a sz (delete p fs) ls2); try done;
        cbn [hdrs m_freeListTable m_vmm setVmm].
      * intros x s. cbn [app placed]. rewrite !elem_of_cons, elem_of_nil. subst a. rewrite <- Ea. naive_solver.
      * eapply outside_frameF; [exact HF2|]. intros q Hq. apply Hoth. cbn in Hq. lia.
      * intros q Hq. apply Hoth. cbn in Hq. lia.
      * intros q Hq. destruct (decide (q = p)) as [->|Hqp]; [apply lookup_delete_eq|]. rewrite Hoth by done.
        destruct (fs !! q) as [s|] eqn:Eq; [|done]. apply Hfs in Eq; [|cbn in *; lia].
        cbn [placed] in Eq. rewrite elem_of_cons, !elem_of_nil in Eq. naive_solver.
      * by rewrite Ea.
    + destruct (Hfree) as (h' & E & Hf); [done | left; by intros -> |]. exists h'. split; [|done]. exact E.
  - destruct (chain_head _ _ _ _ Hc2) as (hn' & Hhn' & En & _ & Hbz). simplify_eq. rewrite En.
    apply Forall_cons in Hok2 as [(Hs & _) _]. cbn in Hs.
    destruct bn; [|by eapply free_both].
    pose proof (free_prev B fs ls h base l1 sp sz ((sn, true) :: l2) HI Hb) as Hfree. cbn zeta in Hfree. fold p a in Hfree.
    unfold freePrevFree. rewrite (deref_Some _ _ _ Hdp). ostep. rewrite (hdrSize_eq p sp) by (done || lia).
    rewrite bsr_pos by lia. ostep.
    destruct (Z.eqb_spec (a + sz + sn) nullptr); [unfold nullptr in *; subst a p; lia|]. cbn [negb].
    rewrite (deref_Some _ _ _ Hhn). ostep.
    replace (isBusy hn) with true by (unfold isBusy; rewrite Hbz; done). cbn [negb].
    destruct Hfree as (h' & E & Hf); [done | by right |]. exists h'. split; [|done].
    rewrite <- E. apply bind_ext. intros h0. destruct (decide _); [done|]. by rewrite bind_assoc.
Qed.

Lemma heap_free_spec B fs ls h a sz : HInv B fs ls h -> busyAt B a sz ->
  exists h', free (a + MemRegionAlign) h = Ok h' /\ freed B h h' a sz.
Proof.
  intros HI (base & l & Hb & (l1 & l2 & -> & ->)%placed_elem).
  destruct (HInv_around _ _ _ _ _ _ _ _ _ HI Hb) as [(Hok1 & (Ho1 & _) & Hok2) Hpos [Hc1 [Hat Hc2]%chain_cons] _ _ _].
  cbn in Ho1. pose proof Hat as (hd & Hd & En & Ep & _). destruct (chain_head _ _ _ _ Hc2) as (hn & Hhn & _).
  unfold free. replace (base + lsize l1 + MemRegionAlign - MemRegionAlign) with (base + lsize l1) by lia.
  rewrite (deref_Some _ _ _ Hd). ostep. rewrite En, Ep, (deref_Some _ _ _ Hhn). ostep.
  destruct (exists_last_or_nil l1) as [->|(k & [sp bp] & ->)].
  - cbn [lastAddr negb Z.eqb nullptr]. ostep.
    by apply (free_tail B fs ls h base [] sz l2 hn).
  - rewrite lastAddr_snoc. pose proof Hok1 as [Hokk Hokp]%Forall_app. pose proof (lsize_nonneg k Hokk).
    destruct (Z.eqb_spec (base + lsize k) nullptr); [unfold nullptr in *; lia|]. cbn [negb].
    apply regs_app in Hc1 as [_ [Hatp _]]. pose proof Hatp as (hdp & Hdp & _).
    rewrite (deref_Some _ _ _ Hdp). ostep. destruct bp.
    + rewrite (hdr_busy _ _ _ _ _ Hatp Hdp). cbn [negb].
      pose proof (free_tail B fs ls h base (k ++ [(sp, true)]) sz l2 hn HI Hb) as Hf. cbn zeta in Hf.
      rewrite lastAddr_snoc in Hf. destruct (Z.eqb_spec (base + lsize k) nullptr); [done|].
      apply Hf; [|done]. unfold endBusy. by rewrite last_snoc.
    + assert (Hb' : B !! base = Some (k ++ (sp, false) :: (sz, true) :: l2)) by (by rewrite <- app_assoc in Hb).
      destruct (hdr_free _ _ _ _ _ _ _ _ _ HI Hb' eq_refl) as (_ & hdp' & Hdp' & Hnb & _).
      assert (hdp' = hdp) as -> by congruence. rewrite Hnb. cbn [negb].
      assert (Ea : base + lsize (k ++ [(sp, false)]) = base + lsize k + sp) by (rewrite lsize_app; cbn; lia).
      rewrite Ea in *. by apply (free_joined B fs ls h base k sp sz l2 hn).
Qed.

End Free.

(** ** The theorems *)

Section Theorems.
Context {V : Type} `{VmmIface V}.
Implicit Types (B : gmap Z (list region)) (fs : gmap Z Z) (h : Heap (V:=V)).

(** C28: [Heap::alloc] on a well-formed heap, for requests below 2^64 - 8192 bytes (above,
    the rounding of the size wraps around).  A request that succeeds returns an
    aligned pointer to a region that holds the request and its header, apart from
    every busy region, and nothing else becomes busy or free to the callers.  It
    returns null, the heap unchanged, only when the virtual memory manager refuses a
    new block of [HEAP_ALLOC_UNIT_SIZE]; it faults only for a huge request whose own
    block, rounded to pages, the manager refuses. *)
Theorem heap_alloc_correct B fs ls h size : HInv B fs ls h -> 0 < size < 2 ^ 64 - 8192 ->
  (HEAP_MEM_REGION_LIMIT <= roundSize size /\ alloc size h = Fault /\
     (vm_alloc (m_vmm h) (alignHi (roundSize size + MemRegionAlign))).1 = nullptr) \/
  (exists h', alloc size h = Ok (nullptr, h') /\ HInv B fs ls h' /\
     (vm_alloc (m_vmm h) HEAP_ALLOC_UNIT_SIZE).1 = nullptr) \/
  (exists p h' B' fs' ls' n, alloc size h = Ok (p, h') /\ HInv B' fs' ls' h' /\
     p mod 32 = 0 /\ p <> nullptr /\ size + 32 <= n /\
     (forall x s, busyAt B' x s <-> busyAt B x s \/ (x = p - 32 /\ s = n)) /\
     (forall x s, busyAt B x s -> x + s <= p - 32 \/ p - 32 + n <= x)).
Proof.
  intros HI Hs. destruct (heap_alloc_spec B fs ls h size HI Hs) as [?|[?|(p & h' & E & Hg)]]; [by left|right; by left|].
  right; right. destruct Hg as (B' & fs' & ls' & n & HI' & H1 & H2 & H3 & H4 & H5).
  exists p, h', B', fs', ls', n. done.
Qed.

(** C29: [Heap::free] of a pointer to a busy region returns, and afterwards that
    region, and no other, is not busy any more.  The invariant holds again: in
    particular no two free regions touch.  The region is part of a free one, of
    which at most whole pages behind its header are given back, or it was the last
    busy region of its block, which goes back to the virtual memory manager. *)
Theorem heap_free_correct B fs ls h p sz : HInv B fs ls h -> busyAt B (p - 32) sz ->
  exists h' B' fs' ls', free p h = Ok h' /\ HInv B' fs' ls' h' /\
    (forall x s, busyAt B' x s <-> busyAt B x s /\ x <> p - 32) /\
    ((exists a0 s0, fs' !! a0 = Some s0 /\ a0 <= p - 32 /\ p - 32 + sz <= a0 + s0 /\ vmEffect h h' a0 s0) \/
     (exists base, is_Some (B !! base) /\ B' = delete base B /\ m_vmm h' = vm_free (m_vmm h) base)).
Proof.
  intros HI Hb. destruct (heap_free_spec B fs ls h (p - 32) sz HI Hb) as (h' & E & B' & fs' & ls' & HI' & K1 & K2).
  unfold MemRegionAlign in E. replace (p - 32 + 32) with p in E by lia.
  exists h', B', fs', ls'. done.
Qed.

(** The histories of a heap; [live] has the size of every request not yet freed.
    Between the calls other users of the virtual memory manager may change its
    state, as long as the blocks with a live request in them stay allocated. *)
Definition emptyHeap (v : V) : Heap (V:=V) := mkHeap ∅ (replicate HeapLogTableSize nullptr) 0 v.

Inductive hreach : Heap (V:=V) -> gmap Z Z -> Prop :=
| hr_init v : hreach (emptyHeap v) ∅
| hr_alloc h live size p h' : hreach h live -> 0 < size < 2 ^ 64 - 8192 -> alloc size h = Ok (p, h') ->
    hreach h' (if p =? nullptr then live else <[p := size]> live)
| hr_free h live p size h' : hreach h live -> live !! p = Some size -> free p h = Ok h' ->
    hreach h' (delete p live)
| hr_others h live v : hreach h live ->
    (forall q m p, vm_blocks (m_vmm h) !! q = Some m -> is_Some (live !! p) -> q <= p < q + m ->
       vm_blocks v !! q = Some m) ->
    hreach (setVmm h v) live.

Lemma emptyHeap_inv v : HInv ∅ ∅ (fun _ => []) (emptyHeap v).
Proof.
  split; try (intros *; rewrite lookup_empty; done).
  - intros a sz. rewrite lookup_empty. split; [done|]. intros (? & ? & E & _). by rewrite lookup_empty in E.
  - split; [done | | constructor |].
    + intros k x Hk. apply lookup_replicate in Hk as [-> _]. done.
    + intros k p. rewrite elem_of_nil. split; [done|]. intros (sz & E & _). by rewrite lookup_empty in E.
Qed.

(** The requests in flight are the busy regions, each with room for it. *)
Definition tracks (live : gmap Z Z) B : Prop :=
  (forall p size, live !! p = Some size -> exists n, busyAt B (p - 32) n /\ size + 32 <= n) /\
  (forall x n, busyAt B x n -> is_Some (live !! (x + 32))) /\
  (forall p, is_Some (live !! p) -> p mod 32 = 0).

Lemma busy_size B fs ls h x s t : HInv B fs ls h -> busyAt B x s -> busyAt B x t -> s = t.
Proof.
  intros HI (b & l & Hb & Hin) (b' & l' & Hb' & Hin').
  pose proof (HInv_place _ _ _ _ _ _ _ _ _ HI Hb Hin). pose proof (HInv_place _ _ _ _ _ _ _ _ _ HI Hb' Hin').
  assert (b = b') as <- by (eapply (HInv_block _ _ _ _ _ _ _ _ x HI Hb Hb'); lia).
  assert (l' = l) as -> by congruence. destruct (h_reg _ _ _ _ HI _ _ Hb) as [Hok _].
  by destruct (placed_fun _ _ _ _ _ _ _ Hok Hin Hin').
Qed.

(** Every block has a busy region, so a request of the caller. *)
Lemma others_inv B fs ls h live v : HInv B fs ls h -> tracks live B ->
  (forall q m p, vm_blocks (m_vmm h) !! q = Some m -> is_Some (live !! p) -> q <= p < q + m ->
     vm_blocks v !! q = Some m) -> HInv B fs ls (setVmm h v).
Proof.
  intros HI (_ & T2 & _) Hv. pose proof HI as [I1 I2 I3 I4 I5 I6]. split; try done.
  intros base l Hb. destruct (I1 _ _ Hb) as (? & ? & n & Hn & Hl & ?). split_and!; try done.
  exists n. split_and!; try done. cbn. destruct (I3 _ _ Hb) as (Hok & _ & (sz & Hsz) & _).
  apply list_elem_of_split in Hsz as (l1 & l2 & El).
  assert (Hx : (base + lsize l1, sz, true) ∈ placed base l).
  { rewrite El, rplaced_app. apply elem_of_app. right. by left. }
  pose proof (HInv_place _ _ _ _ _ _ _ _ _ HI Hb Hx) as Hp.
  eapply (Hv base n (base + lsize l1 + 32)); [done | apply T2 with sz; by exists base, l | lia].
Qed.

Lemma hreach_inv h live : hreach h live -> exists B fs ls, HInv B fs ls h /\ tracks live B.
Proof.
  induction 1 as [v | h live size p h' _ (B & fs & ls & HI & T1 & T2 & T3) Hs E
    | h live p size h' _ (B & fs & ls & HI & T1 & T2 & T3) Hp E
    | h live v _ (B & fs & ls & HI & T) Hv].
  - exists ∅, ∅, (fun _ => []). split; [apply emptyHeap_inv|]. split_and!.
    + intros p size. by rewrite lookup_empty.
    + intros x n (? & ? & Hx & _). by rewrite lookup_empty in Hx.
    + intros p [? Hp]. by rewrite lookup_empty in Hp.
  - destruct (heap_alloc_spec B fs ls h size HI Hs) as [(_ & E' & _)|[(h1 & E' & HI' & _)|(p1 & h1 & E' & Hg)]];
      rewrite E' in E; simplify_eq; [by exists B, fs, ls|].
    destruct Hg as (B' & fs' & ls' & n & HI' & Hal & Hp0 & Hn & Hiff & _).
    destruct (Z.eqb_spec p nullptr); [done|]. exists B', fs', ls'. split; [done|]. split_and!.
    + intros q s [[<- <-]|[Hne Hq]]%lookup_insert_Some.
      * exists n. split; [|done]. apply Hiff. by right.
      * destruct (T1 q s Hq) as (n' & Hb & ?). exists n'. split; [|done]. apply Hiff. by left.
    + intros x s [Hb|[-> _]]%Hiff.
      * destruct (decide (x + 32 = p)) as [->|]; [rewrite lookup_insert_eq | rewrite lookup_insert_ne by done]; eauto.
      * replace (p - 32 + 32) with p by lia. rewrite lookup_insert_eq. eauto.
    + intros q [s [[<- <-]|[Hne Hq]]%lookup_insert_Some]; [done|]. apply T3. eauto.
  - destruct (T1 p size Hp) as (n & Hb & _).
    destruct (heap_free_spec B fs ls h (p - 32) n HI Hb) as (h1 & E' & B' & fs' & ls' & HI' & Hiff & _).
    unfold MemRegionAlign in E'. replace (p - 32 + 32) with p in E' by lia. rewrite E' in E. simplify_eq.
    exists B', fs', ls'. split; [done|]. split_and!.
    + intros q s [Hne Hq]%lookup_delete_Some. destruct (T1 q s Hq) as (n' & Hb' & ?).
      exists n'. split; [|done]. apply Hiff. split; [done|lia].
    + intros x s [Hx Hne]%Hiff. rewrite lookup_delete_ne by lia. eauto.
    + intros q [s [_ Hq]%lookup_delete_Some]. apply T3. eauto.
  - exists B, fs, ls. split; [by eapply others_inv | done].
Qed.

(** C30: after every sequence of [alloc] and [free] calls that frees only what was
    allocated, the memory of two requests in flight never overlaps, every pointer in
    flight can be freed without a fault, and every request below the huge limit
    returns. *)
Theorem heap_safe h live : hreach h live ->
  (forall p s q t, live !! p = Some s -> live !! q = Some t -> p <> q -> p + s <= q \/ q + t <= p) /\
  (forall p s, live !! p = Some s -> p mod 32 = 0 /\ exists h', free p h = Ok h') /\
  (forall size, 0 < size -> roundSize size < HEAP_MEM_REGION_LIMIT -> size < 2 ^ 64 - 8192 ->
     exists r, alloc size h = Ok r).
Proof.
  intros (B & fs & ls & HI & T1 & T2 & T3)%hreach_inv. split_and!.
  - intros p s q t Hp Hq Hne. destruct (T1 _ _ Hp) as (n & Hbp & ?), (T1 _ _ Hq) as (m & Hbq & ?).
    destruct (busy_disjoint _ _ _ _ _ _ _ _ HI Hbp Hbq); lia.
  - intros p s Hp. split; [apply T3; eauto|]. destruct (T1 _ _ Hp) as (n & Hbp & _).
    destruct (heap_free_spec B fs ls h (p - 32) n HI Hbp) as (h1 & E' & _).
    unfold MemRegionAlign in E'. replace (p - 32 + 32) with p in E' by lia. eauto.
  - intros size K1 K2 K3. destruct (heap_alloc_spec B fs ls h size HI) as [(? & _)|[(h1 & E' & _)|(p1 & h1 & E' & _)]];
      [lia | lia | eauto | eauto].
Qed.
End Theorems.

(** ** A manager for the witnesses: blocks one after the other *)

Module Demo.
Definition blocksTop (bl : gmap Z Z) : Z := map_fold (fun q m acc => Z.max (q + m) acc) 0 bl.
Definition nextBase (bl : gmap Z Z) : Z := (blocksTop bl / PAGE_SIZE + 1) * PAGE_SIZE.
Definition bump_alloc (bl : gmap Z Z) (n : Z) : Z * gmap Z Z :=
  if nextBase bl + n <=? vm_top then (nextBase bl, <[nextBase bl := n]> bl) else (nullptr, bl).

Lemma blocksTop_ge bl : 0 <= blocksTop bl /\ forall q m, bl !! q = Some m -> q + m <= blocksTop bl.
Proof.
  unfold blocksTop. apply (map_fold_weak_ind (fun r bl => 0 <= r /\ forall q m, bl !! q = Some m -> q + m <= r)).
  - split; [done|]. intros q m. by rewrite lookup_empty.
  - intros i x m r Hi [IH1 IH2]. split; [lia|]. intros q k [[<- <-]|[_ Hq]]%lookup_insert_Some; [lia|].
    apply IH2 in Hq. lia.
Qed.

#[export, refine] Instance bump : VmmIface (gmap Z Z) := {
  vm_alloc := bump_alloc;
  vm_free := fun bl p => delete p bl;
  vm_freeRam := fun bl _ _ => bl;
  vm_blocks := fun bl => bl
}.
Proof.
  - intros v n. unfold bump_alloc. destruct (_ <=? _); [|done]. cbn. intros E.
    destruct (blocksTop_ge v) as [Hge _]. unfold nextBase, PAGE_SIZE, nullptr in E. exfalso.
    pose proof (Z.div_pos (blocksTop v) 4096 Hge ltac:(lia)). lia.
  - intros v n p v' E Hp Hn _. unfold bump_alloc in E. destruct (Z.leb_spec (nextBase v + n) vm_top); [|by simplify_eq].
    injection E as <- <-. destruct (blocksTop_ge v) as [Hge Hq]. unfold nextBase, PAGE_SIZE in *.
    split_and!; try done.
    + pose proof (Z.div_pos (blocksTop v) 4096 Hge ltac:(lia)). lia.
    + apply Z.mod_mul. lia.
    + intros q m Hqm. left. apply Hq in Hqm. Z.div_mod_to_equations. lia.
  - done.
  - done.
Defined.

Definition h0 : Heap (V:=gmap Z Z) := emptyHeap ∅.
Definition run (m : outcome (Z * Heap (V:=gmap Z Z))) : Heap := match m with Ok (_, h) => h | _ => h0 end.
Definition ptr (m : outcome (Z * Heap (V:=gmap Z Z))) : Z := match m with Ok (p, _) => p | _ => 0 end.

Lemma heap_alloc_correct_witness :
  exists p h' B' fs' ls' n, alloc 100 h0 = Ok (p, h') /\ HInv B' fs' ls' h' /\
     p mod 32 = 0 /\ p <> nullptr /\ 100 + 32 <= n /\
     (forall x s, busyAt B' x s <-> busyAt ∅ x s \/ (x = p - 32 /\ s = n)).
Proof.
  destruct (heap_alloc_correct ∅ ∅ (fun _ => []) h0 100) as [(H & _)|[(h' & _ & _ & H)|(p & h' & B' & fs' & ls' & n & H)]];
    [apply emptyHeap_inv | lia | by vm_compute in H | by vm_compute in H |].
  exists p, h', B', fs', ls', n. destruct H as (H1 & H2 & H3 & H4 & H5 & H6 & _). exact (conj H1 (conj H2 (conj H3 (conj H4 (conj H5 H6))))).
Defined.

(** Two allocations from the first block, and the release of the first. *)
Lemma alloc_two :
  ptr (alloc 100 h0) = 4128 /\ ptr (alloc 5000 (run (alloc 100 h0))) = 4288 /\
  (fun h => m_freeListTable h !! 7%nat) <$> (match free 4128 (run (alloc 5000 (run (alloc 100 h0)))) with
     | Ok h => Some h | _ => None end) = Some (Some 4096).
Proof. vm_compute. done. Qed.

Lemma alloc_one_reach : hreach (run (alloc 100 h0)) {[4128 := 100]}.
Proof.
  assert (Hp : ptr (alloc 100 h0) = 4128) by apply alloc_two.
  destruct (alloc 100 h0) as [[p h']| | |] eqn:E; [|done..]. cbn in Hp. subst p.
  apply (hr_alloc h0 ∅ 100 4128 h'); [constructor | lia | done].
Qed.

Lemma heap_free_correct_witness :
  exists B fs ls n, HInv B fs ls (run (alloc 100 h0)) /\ busyAt B (4128 - 32) n /\
  exists h' B' fs' ls', free 4128 (run (alloc 100 h0)) = Ok h' /\ HInv B' fs' ls' h' /\
    (forall x s, busyAt B' x s <-> busyAt B x s /\ x <> 4128 - 32) /\
    ((exists a0 s0, fs' !! a0 = Some s0 /\ a0 <= 4128 - 32 /\ 4128 - 32 + n <= a0 + s0 /\
        vmEffect (run (alloc 100 h0)) h' a0 s0) \/
     (exists base, is_Some (B !! base) /\ B' = delete base B /\
        m_vmm h' = vm_free (m_vmm (run (alloc 100 h0))) base)).
Proof.
  destruct (hreach_inv _ _ alloc_one_reach) as (B & fs & ls & HI & T1 & _).
  destruct (T1 4128 100 eq_refl) as (n & Hb & _).
  exists B, fs, ls, n. split; [exact HI|]. split; [exact Hb|].
  exact (heap_free_correct B fs ls (run (alloc 100 h0)) 4128 n HI Hb).
Defined.

Lemma heap_safe_witness :
  hreach (run (alloc 100 h0)) {[4128 := 100]} /\ exists h', free 4128 (run (alloc 100 h0)) = Ok h'.
Proof.
  split; [exact alloc_one_reach|].
  exact (proj2 (proj1 (proj2 (heap_safe (run (alloc 100 h0)) {[4128 := 100]} alloc_one_reach)) 4128 100 eq_refl)).
Defined.

(** A huge request that the manager refuses writes through the null pointer. *)
Lemma allocHuge_null : alloc (2 ^ 61) (emptyHeap (V:=gmap Z Z) {[4096 := 2 ^ 63 * 2 - 2 ^ 60]}) = Fault.
Proof. vm_compute. done. Qed.
End Demo.
