(* ===== verification/Event.v ===== *)
(** * Events (kernel/EventObject.cpp, kernel/EventObject.h)

    Threads that wait for an [EventObject] hang in a doubly linked list that runs
    through their task records: a task has up to 64 [EventsInfo] slots, one per
    event it waits for, and the links of a list live in the slots that name its
    event.  [set] wakes the first waiter of an auto-reset event and all waiters of
    a manual-reset one.

    Every operation runs under the event's spin lock (and the task's while it
    touches it), so each is one step here.  The tasks [set] wakes are handed to
    [TaskManager::addWaitTask] in the order of [woken].  A wait has two halves: the
    call up to the point where the thread sleeps, and, once it has been woken, the
    read of [m_waitEventResult]. *)

From S2P Require Import Prelude Task.

Definition WaitInfinite : Z := size_max.
Definition WaitError : Z := 0xFFFFFFFF.
Definition WaitTimeout : Z := 0x102.

(** ** Task records *)

(** The fields the events change. *)
Definition withWait (t : Task) (infos : list EventsInfo) (count : nat) (result need : Z)
    (st : TaskState) (wake : Z) (ready : bool) : Task :=
  mkTask (m_stackTop t) (m_threadLocalData t) (m_priorityQueueIndex t) (m_realtimeNext t)
    infos count result need st wake (m_kernel t) (m_useFpu t)
    (m_idle t) (m_desiredMaxWait t) ready (m_pagingManager t).
Definition setInfos (infos : list EventsInfo) (count : nat) (t : Task) : Task :=
  withWait t infos count (m_waitEventResult t) (m_needWaitEvents t) (m_state t) (m_wakeTime t)
    (m_readyForSleep t).
Definition setNeed (need : Z) (t : Task) : Task :=
  withWait t (m_waitEventsInfo t) (m_waitEventCount t) (m_waitEventResult t) need (m_state t)
    (m_wakeTime t) (m_readyForSleep t).
Definition setResult (result : Z) (t : Task) : Task :=
  withWait t (m_waitEventsInfo t) (m_waitEventCount t) result (m_needWaitEvents t) (m_state t)
    (m_wakeTime t) (m_readyForSleep t).
Definition setTaskState (st : TaskState) (wake : Z) (t : Task) : Task :=
  withWait t (m_waitEventsInfo t) (m_waitEventCount t) (m_waitEventResult t) (m_needWaitEvents t)
    st wake (m_readyForSleep t).
Definition setReady (ready : bool) (t : Task) : Task :=
  withWait t (m_waitEventsInfo t) (m_waitEventCount t) (m_waitEventResult t) (m_needWaitEvents t)
    (m_state t) (m_wakeTime t) ready.

(** ** Events *)

Record EventObject : Type := mkEventObject {
  m_set : bool;
  m_manualReset : bool;
  m_waitTaskListTail : Z;
  m_waitTaskListHead : Z;
  m_locked : bool }.

(** The hooks of [EventObject] itself. *)
Definition baseHook {X} (_ _ : Z) (x : X) : bool * X := (true, x).

Section Events.

(** What a subclass adds: [onWaitBegin] and [onWakeSingleThread], with its own
    state of type [X].  The arguments are the event and the task. *)
Context {X : Type} (onWaitBegin onWakeSingleThread : Z -> Z -> X -> bool * X).

Record ES : Type := mkES {
  tasks : gmap Z Task;
  objs : gmap Z EventObject;
  woken : list Z;
  ext : X;
  now : Z }.

Definition setTasks (s : ES) (ts : gmap Z Task) : ES := mkES ts (objs s) (woken s) (ext s) (now s).
Definition setObjs (s : ES) (os : gmap Z EventObject) : ES := mkES (tasks s) os (woken s) (ext s) (now s).
Definition setExt (s : ES) (x : X) : ES := mkES (tasks s) (objs s) (woken s) x (now s).

Definition updTask (p : Z) (f : Task -> Task) (s : ES) : outcome ES :=
  t ← deref (tasks s) p;
  Ok (setTasks s (<[p := f t]> (tasks s))).
Definition updObj (o : Z) (f : EventObject -> EventObject) (s : ES) : outcome ES :=
  ob ← deref (objs s) o;
  Ok (setObjs s (<[o := f ob]> (objs s))).

Definition oSet (b : bool) (ob : EventObject) : EventObject :=
  mkEventObject b (m_manualReset ob) (m_waitTaskListTail ob) (m_waitTaskListHead ob) (m_locked ob).
Definition oHead (h : Z) (ob : EventObject) : EventObject :=
  mkEventObject (m_set ob) (m_manualReset ob) (m_waitTaskListTail ob) h (m_locked ob).
Definition oTail (t : Z) (ob : EventObject) : EventObject :=
  mkEventObject (m_set ob) (m_manualReset ob) t (m_waitTaskListHead ob) (m_locked ob).
Definition oLock (b : bool) (ob : EventObject) : EventObject :=
  mkEventObject (m_set ob) (m_manualReset ob) (m_waitTaskListTail ob) (m_waitTaskListHead ob) b.

(** The first of the task's [n] slots that names the event. *)
Fixpoint findInfo (o : Z) (l : list EventsInfo) (n : nat) : option nat :=
  match n, l with
  | S n, i :: l => if ei_object i =? o then Some O else S <$> findInfo o l n
  | _, _ => None
  end.

Definition taskEventInfo (o p : Z) (s : ES) : outcome nat :=
  t ← deref (tasks s) p;
  match findInfo o (m_waitEventsInfo t) (m_waitEventCount t) with
  | Some idx => Ok idx
  | None => Panic
  end.

Definition getInfo (p : Z) (idx : nat) (s : ES) : outcome EventsInfo :=
  t ← deref (tasks s) p;
  arr_get (m_waitEventsInfo t) idx.
Definition setInfo (p : Z) (idx : nat) (f : EventsInfo -> EventsInfo) (s : ES) : outcome ES :=
  t ← deref (tasks s) p;
  i ← arr_get (m_waitEventsInfo t) idx;
  infos ← arr_set (m_waitEventsInfo t) idx (f i);
  Ok (setTasks s (<[p := setInfos infos (m_waitEventCount t) t]> (tasks s))).
Definition iNext (x : Z) (i : EventsInfo) : EventsInfo := mkEventsInfo x (ei_prev i) (ei_object i).
Definition iPrev (x : Z) (i : EventsInfo) : EventsInfo := mkEventsInfo (ei_next i) x (ei_object i).
Definition iObject (x : Z) (i : EventsInfo) : EventsInfo := mkEventsInfo (ei_next i) (ei_prev i) x.

(** [taskEventInfo(p)->m_next = x], [taskEventInfo(p)->m_prev = x] *)
Definition setNextOf (o p x : Z) (s : ES) : outcome ES :=
  idx ← taskEventInfo o p s; setInfo p idx (iNext x) s.
Definition setPrevOf (o p x : Z) (s : ES) : outcome ES :=
  idx ← taskEventInfo o p s; setInfo p idx (iPrev x) s.

Definition insertTask (o p : Z) (s : ES) : outcome ES :=
  t ← deref (tasks s) p;
  ob ← deref (objs s) o;
  infos ← arr_set (m_waitEventsInfo t) (m_waitEventCount t)
            (mkEventsInfo nullptr (m_waitTaskListTail ob) o);
  let s := setTasks s (<[p := setInfos infos (S (m_waitEventCount t)) t]> (tasks s)) in
  s ← (if negb (m_waitTaskListTail ob =? nullptr) then setNextOf o (m_waitTaskListTail ob) p s
       else updObj o (oHead p) s);
  updObj o (oTail p) s.

(** [info] is a slot of a waiting task; it is taken out of the list of its event. *)
Definition excludeEventFromTask (info : EventsInfo) (s : ES) : outcome ES :=
  let o := ei_object info in
  if negb (ei_next info =? nullptr) then
    s ← setPrevOf o (ei_next info) (ei_prev info) s;
    if negb (ei_prev info =? nullptr) then setNextOf o (ei_prev info) (ei_next info) s
    else updObj o (oHead (ei_next info)) s
  else
    s ← (if negb (ei_prev info =? nullptr) then setNextOf o (ei_prev info) nullptr s
         else updObj o (oHead nullptr) s);
    updObj o (oTail (ei_prev info)) s.

(** The slots from [idx] on, [n] of them: every slot but the one of [o] is taken out
    of its event's list; the index of the slot of [o]. *)
Fixpoint excludeLoop (o p : Z) (n idx : nat) (result : option nat) (s : ES)
    : outcome (option nat * ES) :=
  match n with
  | O => Ok (result, s)
  | S n =>
      info ← getInfo p idx s;
      if ei_object info =? o then excludeLoop o p n (S idx) (Some idx) s
      else if negb (ei_object info =? nullptr) then
        s ← excludeEventFromTask info s;
        excludeLoop o p n (S idx) result s
      else excludeLoop o p n (S idx) result s
  end.
Definition excludeEventsFromTask (o p : Z) (s : ES) : outcome (nat * ES) :=
  t ← deref (tasks s) p;
  '(r, s) ← excludeLoop o p (m_waitEventCount t) 0 None s;
  match r with Some idx => Ok (idx, s) | None => Panic end.

(** [TaskManager::addWaitTask]: the task is made runnable. *)
Definition addWaitTask (p : Z) (s : ES) : outcome ES :=
  s ← updTask p (fun t => setTaskState Wait (u64 (now s + m_desiredMaxWait t)) t) s;
  Ok (mkES (tasks s) (objs s) (woken s ++ [p]) (ext s) (now s)).

Definition sleeping (t : Task) : bool :=
  bool_decide (m_state t = Sleep) || bool_decide (m_state t = TimedSleep).

(** One turn of the loop of [set] for the task at the head: the new head, and
    whether the loop goes on. *)
Definition serve (o : Z) (manualReset : bool) (task : Z) (s : ES) : outcome (Z * bool * ES) :=
  t ← deref (tasks s) task;
  if negb (sleeping t) then
    idx ← taskEventInfo o task s;
    info ← getInfo task idx s;
    Ok (ei_next info, true, s)
  else if 1 <? m_needWaitEvents t then
    idx ← taskEventInfo o task s;
    s ← updTask task (setNeed (m_needWaitEvents t - 1)) s;
    s ← setInfo task idx (iObject nullptr) s;
    info ← getInfo task idx s;
    Ok (ei_next info, manualReset, s)
  else
    let '(ok, x) := if manualReset then (true, ext s) else onWakeSingleThread o task (ext s) in
    let s := setExt s x in
    if negb ok then Ok (task, false, s)
    else
      '(idx, s) ← excludeEventsFromTask o task s;
      t ← deref (tasks s) task;
      s ← updTask task (setInfos (m_waitEventsInfo t) 0) s;
      s ← updTask task (setResult (Z.of_nat idx)) s;
      s ← addWaitTask task s;
      info ← getInfo task idx s;
      Ok (ei_next info, manualReset, s).

(** [while (m_waitTaskListHead != nullptr)]; the flag [m_set] is cleared when an
    auto-reset event leaves the loop by [break].  Every turn takes a task off the
    list, so the number of tasks bounds the turns. *)
Fixpoint serveLoop (fuel : nat) (o : Z) (s : ES) : outcome ES :=
  ob ← deref (objs s) o;
  let head := m_waitTaskListHead ob in
  if head =? nullptr then Ok s
  else
    match fuel with
    | O => NoFuel
    | S fuel =>
        '(next, continue, s) ← serve o (m_manualReset ob) head s;
        if continue : bool then
          s ← updObj o (oHead next) s;
          serveLoop fuel o s
        else
          s ← updObj o (oSet false) s;
          updObj o (oHead next) s
    end.

Definition set (o : Z) (s : ES) : outcome ES :=
  ob ← deref (objs s) o;
  if m_set ob then Ok s
  else
    s ← updObj o (oSet true) s;
    s ← serveLoop (size (tasks s)) o s;
    ob ← deref (objs s) o;
    if negb (m_waitTaskListHead ob =? nullptr) then setPrevOf o (m_waitTaskListHead ob) nullptr s
    else updObj o (oTail nullptr) s.

(** ** Waiting *)

(** [TaskManager::prepareToSleep] *)
Definition prepareToSleep (p timeout : Z) (s : ES) : outcome (bool * ES) :=
  t ← deref (tasks s) p;
  if bool_decide (m_state t = Terminated) then Ok (false, s)
  else
    s ← updTask p (setReady true) s;
    s ← (if negb (timeout =? WaitInfinite)
         then updTask p (setTaskState TimedSleep (u64 (now s + timeout))) s
         else updTask p (fun t => setTaskState Sleep (m_wakeTime t) t) s);
    s ← updTask p (setResult WaitError) s;
    Ok (true, s).

(** Up to the sleep: [inl] is a result that is returned at once, [inr] means the task
    is in the list and [m_waitEventResult] is returned when it runs again. *)
Definition waitExStatus (o p timeout : Z) (s : ES) : outcome ((Z + unit) * ES) :=
  ob ← deref (objs s) o;
  if m_set ob then
    s ← (if negb (m_manualReset ob) then updObj o (oSet false) s else Ok s);
    Ok (inl 0, s)
  else
    let '(go, x) := onWaitBegin o p (ext s) in
    let s := setExt s x in
    if negb go then Ok (inl 0, s)
    else if timeout =? 0 then Ok (inl WaitTimeout, s)
    else
      '(ok, s) ← prepareToSleep p timeout s;
      if negb ok then Ok (inl WaitError, s)
      else
        s ← updTask p (setResult WaitError) s;
        s ← insertTask o p s;
        Ok (inr tt, s).

Definition waitResult (p : Z) (s : ES) : outcome Z := t ← deref (tasks s) p; Ok (m_waitEventResult t).

(** [wait]: the status as a boolean. *)
Definition statusOk (status : Z) : bool := status <? WaitTimeout.

(** A timed-out task leaves every list. *)
Fixpoint excludeAllLoop (p : Z) (n idx : nat) (s : ES) : outcome ES :=
  match n with
  | O => Ok s
  | S n =>
      info ← getInfo p idx s;
      s ← (if negb (ei_object info =? nullptr) then excludeEventFromTask info s else Ok s);
      excludeAllLoop p n (S idx) s
  end.
Definition excludeTaskFromWaiting (p reason : Z) (s : ES) : outcome ES :=
  s ← updTask p (setResult reason) s;
  t ← deref (tasks s) p;
  s ← excludeAllLoop p (m_waitEventCount t) 0 s;
  t ← deref (tasks s) p;
  updTask p (setInfos (m_waitEventsInfo t) 0) s.

(** Used by the condition variable, which moves a waiter to the list of its mutex. *)
Definition excludeFromTask (o p : Z) (s : ES) : outcome ES :=
  t ← deref (tasks s) p;
  s ← (match findInfo o (m_waitEventsInfo t) (m_waitEventCount t) with
       | Some idx =>
           info ← getInfo p idx s;
           s ← excludeEventFromTask info s;
           setInfo p idx (iObject nullptr) s
       | None => Ok s
       end);
  updTask p (fun t => setNeed (u32 (m_needWaitEvents t - 1)) t) s.

(** The mutex's [onAddTaskToWaitList] is a parameter here. *)
Definition addTaskToWaitList (onAdd : Z -> X -> bool * X) (o p : Z) (s : ES) : outcome (bool * ES) :=
  let '(ok, x) := onAdd p (ext s) in
  let s := setExt s x in
  if negb ok then Ok (false, s)
  else
    s ← insertTask o p s;
    s ← updTask p (fun t => setNeed (u32 (m_needWaitEvents t + 1)) t) s;
    Ok (true, s).

(** ** [waitMultiple]

    The spin locks of the objects are held across the loop, so they are part of the
    state: taking a lock that is held never returns ([Fault]). *)

Definition lockObj (o : Z) (s : ES) : outcome ES :=
  ob ← deref (objs s) o;
  if m_locked ob then Fault else updObj o (oLock true) s.
Definition unlockObj (o : Z) (s : ES) : outcome ES := updObj o (oLock false) s.

(** [for (unlockIdx = 0; unlockIdx < idx; ++unlockIdx) obj->m_spin.unlock();] *)
Fixpoint unlockTimes (n : nat) (o : Z) (s : ES) : outcome ES :=
  match n with
  | O => Ok s
  | S n => s ← unlockObj o s; unlockTimes n o s
  end.

(** The first loop: [inl] is the early return, [inr] the [needWait] array and the
    number of objects that are set. *)
Fixpoint waitMultipleLoop (p : Z) (waitAll : bool) (todo : list Z) (idx : nat) (needWait : list bool)
    (setCount : Z) (s : ES) : outcome ((Z + (list bool * Z)) * ES) :=
  match todo with
  | [] => Ok (inr (needWait, setCount), s)
  | o :: todo =>
      s ← lockObj o s;
      ob ← deref (objs s) o;
      let '(isSet, s) :=
        if m_set ob then (true, s)
        else let '(go, x) := onWaitBegin o p (ext s) in (negb go, setExt s x) in
      if isSet : bool then
        if negb waitAll then
          s ← (if m_set ob && negb (m_manualReset ob) then updObj o (oSet false) s else Ok s);
          s ← unlockTimes idx o s;
          Ok (inl (Z.of_nat idx), s)
        else
          s ← unlockObj o s;
          waitMultipleLoop p waitAll todo (S idx) (needWait ++ [false]) (setCount + 1) s
      else waitMultipleLoop p waitAll todo (S idx) (needWait ++ [true]) setCount s
  end.

(** The lambda [unlockAll]. *)
Fixpoint unlockAll (insert : bool) (p : Z) (objects : list Z) (needWait : list bool) (s : ES) : outcome ES :=
  match objects, needWait with
  | o :: objects, w :: needWait =>
      s ← (if w : bool then
             s ← (if insert then insertTask o p s else Ok s);
             unlockObj o s
           else Ok s);
      unlockAll insert p objects needWait s
  | _, _ => Ok s
  end.

Definition waitMultiple (p : Z) (objects : list Z) (waitAll : bool) (timeout : Z) (s : ES)
    : outcome ((Z + unit) * ES) :=
  '(r, s) ← waitMultipleLoop p waitAll objects 0 [] 0 s;
  match r with
  | inl status => Ok (inl status, s)
  | inr (needWait, setCount) =>
      if setCount =? Z.of_nat (length objects) then
        s ← unlockAll false p objects needWait s; Ok (inl 0, s)
      else if timeout =? 0 then
        s ← unlockAll false p objects needWait s; Ok (inl WaitTimeout, s)
      else
        '(ok, s) ← prepareToSleep p timeout s;
        if negb ok then
          s ← unlockAll false p objects needWait s; Ok (inl WaitError, s)
        else
          s ← unlockAll true p objects needWait s;
          s ← updTask p (setNeed (if waitAll then Z.of_nat (length objects) else 1)) s;
          Ok (inr tt, s)
  end.

(** [kevent::waitMultiple]: the number of objects is checked first. *)
Definition keventWaitMultiple (p : Z) (objects : list Z) (waitAll : bool) (timeout : Z) (s : ES)
    : outcome ((Z + unit) * ES) :=
  if (Nat.eqb (length objects) 0) || (Nat.ltb TaskWaitEventsMax (length objects)) then Ok (inl WaitError, s)
  else waitMultiple p objects waitAll timeout s.

(** Taking a task out of one list (private, without a caller in the tree). *)
Definition removeTask (o p : Z) (s : ES) : outcome ES :=
  idx ← taskEventInfo o p s;
  info ← getInfo p idx s;
  if negb (ei_next info =? nullptr) then
    s ← setPrevOf o (ei_next info) (ei_prev info) s;
    if negb (ei_prev info =? nullptr) then setNextOf o (ei_prev info) (ei_next info) s
    else updObj o (oHead (ei_next info)) s
  else
    s ← updObj o (oTail (ei_prev info)) s;
    if negb (ei_prev info =? nullptr) then setNextOf o (ei_prev info) nullptr s
    else updObj o (oHead nullptr) s.

(** The destructor: an event with waiters must not be destroyed. *)
Definition destroyEvent (o : Z) (s : ES) : outcome ES :=
  ob ← deref (objs s) o;
  if negb (m_waitTaskListHead ob =? nullptr) then Panic
  else Ok (setObjs s (delete o (objs s))).

End Events.

(** [EventObject::EventObject], with the defaults of the members. *)
Definition newEventObject (isSet manualReset : bool) : EventObject :=
  mkEventObject isSet manualReset nullptr nullptr false.
