(* ===== verification/EventCore.v ===== *)
(** * Events: what the scheduler sees of them

    The operations on events change only the waiting fields of a task (slots, counts
    and result), except that [set] makes the tasks it wakes runnable.  [core] is the
    rest of a task; the lemmas follow the code of each operation. *)

From S2P Require Import Prelude Task Event.

Definition core (t : Task) : Task :=
  withWait t [] 0 0 0 (m_state t) (m_wakeTime t) (m_readyForSleep t).

(** What a task woken at time [now] becomes. *)
Definition coreWoken (now : Z) (t : Task) : Task :=
  core (setTaskState Wait (u64 (now + m_desiredMaxWait t)) t).

Lemma core_Some (t x : Task) : core <$> Some t = Some x -> core t = x.
Proof. apply (inj Some). Qed.
Lemma core_Some2 (t t' : Task) : core <$> Some t = core <$> Some t' -> core t = core t'.
Proof. apply (inj Some). Qed.

Section EventCore.
Context {X : Type}.
Implicit Types s : @ES X.

Record CoreEq (s s' : @ES X) : Prop := mkCoreEq {
  ce_tasks : forall p, core <$> tasks s !! p = core <$> tasks s' !! p;
  ce_woken : woken s = woken s';
  ce_now : now s = now s';
  ce_objs : forall o, is_Some (objs s !! o) <-> is_Some (objs s' !! o) }.

#[export] Instance CoreEq_equiv : Equivalence CoreEq.
Proof.
  split.
  - intros s. by split.
  - intros s s' [? ? ? ?]. by split.
  - intros s s' s'' [? ? ? ?] [? ? ? ?]. split; intros; etrans; eauto.
Qed.

Lemma CoreEq_task s p t t' : tasks s !! p = Some t -> core t' = core t ->
  CoreEq s (setTasks s (<[p := t']> (tasks s))).
Proof.
  intros E Ec. split; try done. intros x. cbn [setTasks tasks].
  destruct (decide (x = p)) as [->|]; [rewrite lookup_insert_eq, E; cbn; by rewrite Ec | by rewrite lookup_insert_ne].
Qed.

Lemma updTask_core p f s s' : (forall t, core (f t) = core t) -> updTask p f s = Ok s' -> CoreEq s s'.
Proof.
  unfold updTask. intros Hf H. bind_inv H. injection H as <-. unfold deref in E.
  destruct (tasks s !! p) as [t|] eqn:Et; [|done]. injection E as <-. by eapply CoreEq_task.
Qed.
Lemma updObj_core o f s s' : updObj o f s = Ok s' -> CoreEq s s'.
Proof.
  unfold updObj. intros H. bind_inv H. injection H as <-. split; try done. intros o'. cbn [setObjs objs].
  unfold deref in E. destruct (objs s !! o) as [ob|] eqn:Eo; [|done].
  destruct (decide (o' = o)) as [->|]; [rewrite lookup_insert_eq, Eo; split; eauto | by rewrite lookup_insert_ne].
Qed.

Lemma setInfo_core p idx f s s' : setInfo p idx f s = Ok s' -> CoreEq s s'.
Proof.
  unfold setInfo. intros H. bind_inv H. injection H as <-. unfold deref in E.
  destruct (tasks s !! p) as [t|] eqn:Et; [|done]. injection E as <-. by eapply CoreEq_task.
Qed.
Lemma setNextOf_core o p x s s' : setNextOf o p x s = Ok s' -> CoreEq s s'.
Proof. unfold setNextOf. intros H. bind_inv H. by eapply setInfo_core. Qed.
Lemma setPrevOf_core o p x s s' : setPrevOf o p x s = Ok s' -> CoreEq s s'.
Proof. unfold setPrevOf. intros H. bind_inv H. by eapply setInfo_core. Qed.

#[local] Hint Resolve updObj_core setInfo_core setNextOf_core setPrevOf_core : ecore.

Lemma excludeEventFromTask_core i s s' : excludeEventFromTask i s = Ok s' -> CoreEq s s'.
Proof.
  unfold excludeEventFromTask. destruct (negb (ei_next i =? nullptr)); intros H; bind_inv H;
    destruct (negb (ei_prev i =? nullptr)); etrans; eauto with ecore.
Qed.
#[local] Hint Resolve excludeEventFromTask_core : ecore.

Lemma excludeLoop_core o p n : forall idx r s r' s', excludeLoop o p n idx r s = Ok (r', s') -> CoreEq s s'.
Proof.
  induction n as [|n IH]; intros idx r s r' s'; cbn [excludeLoop]; [by intros [= _ <-]|].
  intros H. apply bind_Ok in H as (i & _ & H). destruct (_ =? _); [by eapply IH|].
  destruct (negb _); [|by eapply IH]. bind_inv H. etrans; eauto with ecore.
Qed.
Lemma excludeAllLoop_core p n : forall idx s s', excludeAllLoop p n idx s = Ok s' -> CoreEq s s'.
Proof.
  induction n as [|n IH]; intros idx s s'; cbn [excludeAllLoop]; [by intros [= <-]|].
  intros H. bind_inv H. destruct (negb _); [|injection E0 as <-; by eapply IH]. etrans; eauto with ecore.
Qed.

Lemma excludeTaskFromWaiting_core p reason s s' : excludeTaskFromWaiting p reason s = Ok s' -> CoreEq s s'.
Proof.
  unfold excludeTaskFromWaiting. intros H. bind_inv H.
  etrans; [by eapply updTask_core; [|exact E]|]. etrans; [by eapply excludeAllLoop_core|].
  by eapply updTask_core; [|exact H].
Qed.

Lemma excludeEventsFromTask_core o p s idx s' : excludeEventsFromTask o p s = Ok (idx, s') -> CoreEq s s'.
Proof.
  unfold excludeEventsFromTask. intros H. apply bind_Ok in H as (t & _ & H). apply bind_Ok in H as ([r s1] & E & H).
  destruct r; [|done]. injection H as _ <-. by eapply excludeLoop_core.
Qed.

(** ** [set] *)

(** The tasks [l] were woken, in this order, and nothing else changed. *)
Record Woke (s s' : @ES X) (l : list Z) : Prop := mkWoke {
  wo_woken : woken s' = woken s ++ l;
  wo_now : now s = now s';
  wo_nodup : NoDup l;
  wo_in : forall p, p ∈ l -> exists t, tasks s !! p = Some t /\ sleeping t = true /\
    core <$> tasks s' !! p = Some (coreWoken (now s) t);
  wo_out : forall p, p ∉ l -> core <$> tasks s !! p = core <$> tasks s' !! p;
  wo_objs : forall o, is_Some (objs s !! o) <-> is_Some (objs s' !! o) }.

Lemma Woke_core s s' : CoreEq s s' -> Woke s s' [].
Proof. intros [? ? ? ?]. split; try done; [by rewrite app_nil_r | apply NoDup_nil_2 | set_solver]. Qed.

Lemma core_sleeping t t' : core t = core t' -> sleeping t = sleeping t'.
Proof. unfold core, withWait, sleeping. by intros [= _ _ _ _ -> _]. Qed.
Lemma coreWoken_core n t t' : core t = core t' -> coreWoken n t = coreWoken n t'.
Proof. unfold coreWoken, core, setTaskState, withWait. cbn. by intros [= -> -> -> -> _ _ -> -> -> -> -> ->]. Qed.
Lemma coreWoken_awake n t t' : core t' = coreWoken n t -> sleeping t' = false.
Proof. unfold coreWoken, core, setTaskState, withWait, sleeping. cbn. by intros [= _ _ _ _ -> _]. Qed.

Lemma Woke_trans s1 s2 s3 l1 l2 : Woke s1 s2 l1 -> Woke s2 s3 l2 -> Woke s1 s3 (l1 ++ l2).
Proof.
  intros [W1 N1 D1 I1 O1 B1] [W2 N2 D2 I2 O2 B2].
  assert (Hdis : forall p, p ∈ l1 -> p ∉ l2).
  { intros p H1 H2. destruct (I1 p H1) as (t & _ & _ & E). destruct (I2 p H2) as (t' & Et' & Hs & _).
    rewrite Et' in E. apply core_Some in E. by rewrite (coreWoken_awake _ _ _ E) in Hs. }
  split.
  - by rewrite W2, W1, app_assoc.
  - congruence.
  - apply NoDup_app. split; [done|]. split; [exact Hdis | done].
  - intros p [Hp|Hp]%elem_of_app.
    + destruct (I1 p Hp) as (t & Et & Hs & E). exists t. split; [done|]. split; [done|].
      by rewrite <- (O2 p (Hdis p Hp)).
    + destruct (I2 p Hp) as (t & Et & Hs & E). assert (Hp1 : p ∉ l1) by (intros H1; by apply (Hdis p H1)).
      pose proof (O1 p Hp1) as E1. rewrite Et in E1. destruct (tasks s1 !! p) as [t1|]; [|done]. apply core_Some2 in E1.
      exists t1. split; [done|]. split; [by rewrite (core_sleeping _ _ E1)|]. rewrite N1, (coreWoken_core _ _ _ E1). done.
  - intros p [? ?]%not_elem_of_app. rewrite O1 by done. by apply O2.
  - intros o. by rewrite B1, B2.
Qed.

Context (onWakeSingleThread : Z -> Z -> X -> bool * X).

Lemma serve_Woke o m p s r c s' : serve onWakeSingleThread o m p s = Ok (r, c, s') ->
  exists l, Woke s s' l.
Proof.
  unfold serve. intros H. apply bind_Ok in H as (t & Et & H).
  destruct (negb (sleeping t)) eqn:Hs.
  { bind_inv H. injection H as _ _ <-. exists []. by apply Woke_core. }
  destruct (1 <? m_needWaitEvents t).
  { bind_inv H. injection H as _ _ <-. exists []. apply Woke_core.
    etrans; [by eapply updTask_core; [|exact E0] | eauto with ecore]. }
  destruct (if m then (true, ext s) else onWakeSingleThread o p (ext s)) as [ok x].
  destruct (negb ok). { injection H as _ _ <-. exists []. apply Woke_core. by split. }
  apply bind_Ok in H as ([idx s1] & E1 & H). bind_inv H. injection H as _ _ <-. exists [p].
  assert (HC : CoreEq s a1).
  { etrans; [|by eapply updTask_core; [|exact E2]]. etrans; [|by eapply updTask_core; [|exact E0]].
    etrans; [|by eapply excludeEventsFromTask_core]. by split. }
  unfold addWaitTask in E3. apply bind_Ok in E3 as (s2 & E3 & E5). injection E5 as <-.
  unfold updTask in E3. apply bind_Ok in E3 as (t1 & Et1 & E3). injection E3 as <-.
  unfold deref in Et, Et1. destruct (tasks s !! p) as [tt|] eqn:Etp; [|done]. injection Et as ->.
  destruct (tasks a1 !! p) as [tt1|] eqn:Etp1; [|done]. injection Et1 as ->.
  assert (Ec : core t = core t1).
  { pose proof (ce_tasks _ _ HC p) as Ep. rewrite Etp, Etp1 in Ep. by apply core_Some2. }
  split; cbn [tasks woken now setTasks].
  - by rewrite (ce_woken _ _ HC).
  - apply (ce_now _ _ HC).
  - apply NoDup_singleton.
  - intros y ->%list_elem_of_singleton. exists t. split; [done|]. split; [by destruct (sleeping t)|].
    rewrite lookup_insert_eq. cbn [fmap option_fmap option_map]. f_equal.
    rewrite (coreWoken_core _ _ _ Ec), (ce_now _ _ HC). done.
  - intros y Hy. rewrite lookup_insert_ne by set_solver. apply (ce_tasks _ _ HC).
  - apply (ce_objs _ _ HC).
Qed.

Lemma serveLoop_Woke fuel o : forall s s', serveLoop onWakeSingleThread fuel o s = Ok s' -> exists l, Woke s s' l.
Proof.
  induction fuel as [|fuel IH]; intros s s' H; cbn [serveLoop] in H; apply bind_Ok in H as (ob & _ & H);
    destruct (_ =? _); try done.
  1, 2: injection H as <-; exists []; by apply Woke_core.
  apply bind_Ok in H as ([[r c] s1] & E & H). apply serve_Woke in E as [l Hl]. destruct c.
  - bind_inv H. apply IH in H as [l' Hl']. exists (l ++ [] ++ l'). eapply Woke_trans; [done|].
    eapply Woke_trans; [|done]. apply Woke_core. eauto with ecore.
  - bind_inv H. exists (l ++ []). eapply Woke_trans; [done|]. apply Woke_core. etrans; eauto with ecore.
Qed.

Lemma set_Woke o s s' : set onWakeSingleThread o s = Ok s' -> exists l, Woke s s' l.
Proof.
  unfold set. intros H. apply bind_Ok in H as (ob & _ & H).
  destruct (m_set ob). { injection H as <-. exists []. by apply Woke_core. }
  bind_inv H. apply serveLoop_Woke in E0 as [l Hl]. exists ([] ++ l ++ []).
  eapply Woke_trans; [apply Woke_core; eauto with ecore|]. eapply Woke_trans; [done|].
  apply Woke_core. destruct (negb _); eauto with ecore.
Qed.

End EventCore.
