(* ===== verification/EventInv.v ===== *)
(** * The wait lists of events: invariant and primitive updates

    The list of an event is a doubly linked segment whose links live in the slots
    of the waiting tasks.  [slot s o p] is the slot of task [p] for event [o]; every
    list operation is a few updates of slots and of the event's two ends, and the
    lemmas below say what each does to [slot] and to the ends. *)

From S2P Require Import Prelude Task Event.

(** ** Doubly linked segments

    [dseg o f pp q nn]: the tasks [q] are linked through [f] for event [o], the
    first one's predecessor is [pp] and the last one's successor is [nn]. *)
Fixpoint dseg (o : Z) (f : Z -> option EventsInfo) (pp : Z) (q : list Z) (nn : Z) : Prop :=
  match q with
  | [] => True
  | p :: q => f p = Some (mkEventsInfo (default nn (head q)) pp o) /\ dseg o f p q nn
  end.

Lemma dseg_app o f q1 : forall pp q2 nn,
  dseg o f pp (q1 ++ q2) nn <->
  dseg o f pp q1 (default nn (head q2)) /\ dseg o f (default pp (last q1)) q2 nn.
Proof.
  induction q1 as [|p q1 IH]; intros pp q2 nn; [by cbn; tauto|].
  cbn [app dseg]. rewrite IH.
  replace (default (default nn (head q2)) (head q1)) with (default nn (head (q1 ++ q2)))
    by (by destruct q1).
  replace (default pp (last (p :: q1))) with (default p (last q1)); [tauto|].
  destruct (exists_last_or_nil q1) as [->|(l & x & ->)]; [done|].
  by rewrite app_comm_cons, !last_snoc.
Qed.

Lemma dseg_ext o f g pp q nn :
  (forall p, p ∈ q -> f p = g p) -> dseg o f pp q nn -> dseg o g pp q nn.
Proof.
  revert pp. induction q as [|p q IH]; intros pp E; [done|]. cbn [dseg]. intros [H1 H2].
  rewrite <- E by left. split; [done|]. apply IH; [|done]. intros x Hx. apply E. by right.
Qed.

Lemma dseg_elem o f pp q nn p : dseg o f pp q nn -> p ∈ q -> exists i, f p = Some i.
Proof.
  revert pp. induction q as [|x q IH]; intros pp; [by intros _ ?%elem_of_nil|].
  intros [H1 H2] [->|?]%elem_of_cons; eauto.
Qed.

(** Re-linking the predecessor of the first element. *)
Lemma dseg_setPrev o f g pp p q nn i :
  dseg o f pp (p :: q) nn -> f p = Some i -> p ∉ q ->
  g p = Some (mkEventsInfo (ei_next i) nullptr o) -> (forall x, x <> p -> g x = f x) ->
  dseg o g nullptr (p :: q) nn.
Proof.
  intros [H1 H2] Hi Hq Hg Ho. simplify_eq. split; [done|].
  eapply dseg_ext; [|done]. intros x Hx. symmetry. apply Ho. by intros ->.
Qed.

(** Taking an element out of the middle: its neighbours are linked to each other. *)
Definition unlinked (f g : Z -> option EventsInfo) (l1 l2 : list Z) : Prop :=
  (forall x i, head l2 = Some x -> f x = Some i -> g x = Some (iPrev (default nullptr (last l1)) i)) /\
  (forall x i, last l1 = Some x -> f x = Some i -> g x = Some (iNext (default nullptr (head l2)) i)) /\
  (forall x, head l2 <> Some x -> last l1 <> Some x -> g x = f x).

Lemma dseg_remove o f g l1 p l2 :
  NoDup (l1 ++ p :: l2) -> dseg o f nullptr (l1 ++ p :: l2) nullptr -> unlinked f g l1 l2 ->
  dseg o g nullptr (l1 ++ l2) nullptr.
Proof.
  intros Hnd Hd (Hh & Hl & Ho).
  apply NoDup_app in Hnd as (Hn1 & Hdis & Hn2). apply NoDup_cons in Hn2 as [Hp Hn2].
  apply dseg_app in Hd as [H1 H2]. cbn [head default dseg] in H1, H2. destruct H2 as [_ H2].
  apply dseg_app. split.
  - destruct (exists_last_or_nil l1) as [->|(k & x & ->)]; [done|].
    apply NoDup_app in Hn1 as (_ & Hk & _).
    apply dseg_app in H1 as [H1 [H1' _]]. cbn [head default dseg] in *.
    apply dseg_app. cbn [head default dseg]. split.
    + eapply dseg_ext; [|exact H1]. intros y Hy. symmetry. apply Ho.
      * intros E. apply (Hdis y); [set_solver|]. right. by apply head_Some_elem_of.
      * rewrite last_snoc. intros [= ->]. apply (Hk y Hy). set_solver.
    + split; [|done]. rewrite (Hl x _ ltac:(by rewrite last_snoc) H1'). done.
  - destruct l2 as [|x l2]; [done|]. cbn [head dseg] in *. destruct H2 as [H2 H2'].
    apply NoDup_cons in Hn2 as [Hx Hn2]. split.
    + rewrite (Hh x _ eq_refl H2). done.
    + eapply dseg_ext; [|exact H2']. intros y Hy. symmetry. apply Ho.
      * intros [= ->]. done.
      * intros E. apply (Hdis y); [by apply last_Some_elem_of | set_solver].
Qed.

Section EventInv.
Context {X : Type}.
Notation ES := (@ES X).
Implicit Types s : ES.

(** ** Slots *)
Definition slotOf (o : Z) (t : Task) : option EventsInfo :=
  idx ← findInfo o (m_waitEventsInfo t) (m_waitEventCount t); m_waitEventsInfo t !! idx.
Definition slot (s : ES) (o p : Z) : option EventsInfo := t ← tasks s !! p; slotOf o t.

Lemma findInfo_Some o l n idx :
  findInfo o l n = Some idx -> (idx < n)%nat /\ exists i, l !! idx = Some i /\ ei_object i = o.
Proof.
  revert l idx. induction n as [|n IH]; intros [|i l] idx; cbn [findInfo]; try done.
  destruct (Z.eqb_spec (ei_object i) o) as [E|E].
  - intros [= <-]. split; [lia|]. by exists i.
  - destruct (findInfo o l n) as [k|] eqn:F; cbn; [|done]. intros [= <-].
    destruct (IH _ _ F) as (? & j & ? & ?). split; [lia|]. by exists j.
Qed.

Lemma findInfo_None o l n idx i :
  findInfo o l n = None -> (idx < n)%nat -> l !! idx = Some i -> ei_object i <> o.
Proof.
  revert l idx. induction n as [|n IH]; intros [|j l] idx; cbn [findInfo]; try done; [lia|].
  destruct (Z.eqb_spec (ei_object j) o) as [E|E]; [done|].
  destruct (findInfo o l n) eqn:F; cbn; [done|]. intros _ Hi.
  destruct idx as [|idx]; cbn; [by intros [= ->]|]. apply (IH l idx F). lia.
Qed.

Lemma findInfo_objects o l l' n :
  ei_object <$> l = ei_object <$> l' -> findInfo o l n = findInfo o l' n.
Proof.
  revert l l'. induction n as [|n IH]; intros [|i l] [|i' l'] E; try done.
  cbn in E. injection E as E1 E2. cbn [findInfo]. rewrite E1. by rewrite (IH _ _ E2).
Qed.

(** ** What list operations leave alone: everything but links and list ends. *)
Definition norm (t : Task) : Task :=
  setInfos ((fun i => mkEventsInfo 0 0 (ei_object i)) <$> m_waitEventsInfo t) (m_waitEventCount t) t.
Definition normO (ob : EventObject) : EventObject := oHead 0 (oTail 0 ob).

Record Frame (s s' : ES) : Prop := mkFrame {
  fr_tasks : forall p, norm <$> tasks s !! p = norm <$> tasks s' !! p;
  fr_objs : forall o, normO <$> objs s !! o = normO <$> objs s' !! o;
  fr_woken : woken s = woken s';
  fr_ext : ext s = ext s';
  fr_now : now s = now s' }.

#[export] Instance Frame_equiv : Equivalence Frame.
Proof.
  split.
  - intros s. by split.
  - intros s s' [? ? ? ? ?]. by split.
  - intros s s' s'' [? ? ? ? ?] [? ? ? ? ?]. split; intros; etrans; eauto.
Qed.

Lemma norm_objects t t' : norm t = norm t' ->
  ei_object <$> m_waitEventsInfo t = ei_object <$> m_waitEventsInfo t' /\
  m_waitEventCount t = m_waitEventCount t' /\ m_state t = m_state t' /\
  m_needWaitEvents t = m_needWaitEvents t'.
Proof.
  unfold norm, setInfos, withWait. intros [= _ _ _ _ E Ec _ En Es _]. repeat split; try done.
  clear -E. revert E. generalize (m_waitEventsInfo t) (m_waitEventsInfo t').
  induction l as [|i l IH]; intros [|i' l'] E; try done. cbn in *. injection E as E1 E2.
  f_equal; auto.
Qed.

(** ** Primitive updates *)
Lemma updTask_Ok p f s t : tasks s !! p = Some t ->
  updTask p f s = Ok (setTasks s (<[p := f t]> (tasks s))).
Proof. intros E. unfold updTask. by rewrite (deref_Some _ _ _ E). Qed.
Lemma updObj_Ok o f s ob : objs s !! o = Some ob ->
  updObj o f s = Ok (setObjs s (<[o := f ob]> (objs s))).
Proof. intros E. unfold updObj. by rewrite (deref_Some _ _ _ E). Qed.

(** One link of the slot of [p] for [o] is rewritten. *)
Definition relink (o p : Z) (g : EventsInfo -> EventsInfo) (s s' : ES) : Prop :=
  Frame s s' /\ objs s' = objs s /\
  (forall o' p', slot s' o' p' = if decide (o' = o /\ p' = p) then g <$> slot s o p else slot s o' p') /\
  (forall p', p' <> p -> tasks s' !! p' = tasks s !! p').

Lemma setInfo_relink o p g s t idx :
  (forall i, ei_object (g i) = ei_object i) -> tasks s !! p = Some t ->
  findInfo o (m_waitEventsInfo t) (m_waitEventCount t) = Some idx ->
  exists s', setInfo p idx g s = Ok s' /\ relink o p g s s'.
Proof.
  intros Hg Et Hf. destruct (findInfo_Some _ _ _ _ Hf) as (Hlt & i & Hi & Ho).
  unfold setInfo. rewrite (deref_Some _ _ _ Et). ostep. rewrite (arr_get_Some _ _ _ Hi). ostep.
  rewrite (arr_set_Some _ _ (g i) _ Hi). ostep. eexists. split; [reflexivity|].
  set (l := m_waitEventsInfo t) in *.
  assert (El : ei_object <$> <[idx := g i]> l = ei_object <$> l).
  { rewrite list_fmap_insert, Hg. apply list_insert_id. by rewrite list_lookup_fmap, Hi. }
  split; [|split; [done|split]].
  - split; try done. intros p'. cbn [setTasks tasks]. destruct (decide (p' = p)) as [->|];
      [rewrite lookup_insert_eq, Et | by rewrite lookup_insert_ne].
    cbn. f_equal. unfold norm, setInfos, withWait.
    cbn [m_stackTop m_threadLocalData m_priorityQueueIndex m_realtimeNext m_waitEventsInfo
      m_waitEventCount m_waitEventResult m_needWaitEvents m_state m_wakeTime m_kernel m_useFpu
      m_idle m_desiredMaxWait m_readyForSleep m_pagingManager].
    f_equal. rewrite list_fmap_insert. cbn. rewrite Hg. symmetry. apply list_insert_id.
    fold l. by rewrite list_lookup_fmap, Hi.
  - intros o' p'. unfold slot. cbn [setTasks tasks].
    destruct (decide (p' = p)) as [->|]; [|rewrite lookup_insert_ne by done; by rewrite decide_False by tauto].
    rewrite lookup_insert_eq, Et. cbn [mbind option_bind]. unfold slotOf. unfold setInfos at 1 2 3, withWait.
    cbn [m_waitEventsInfo m_waitEventCount]. rewrite (findInfo_objects o' _ l _ El). fold l.
    destruct (decide (o' = o)) as [->|Hne].
    + rewrite decide_True by done. rewrite Hf. cbn.
      rewrite list_lookup_insert_eq by (by eapply lookup_lt_Some). by rewrite Hi.
    + rewrite decide_False by tauto. destruct (findInfo o' l _) as [k|] eqn:Fk; [|done]. cbn.
      rewrite list_lookup_insert_ne; [done|]. intros <-.
      destruct (findInfo_Some _ _ _ _ Fk) as (_ & j & ? & ?). congruence.
  - intros p' Hp. cbn [setTasks tasks]. by rewrite lookup_insert_ne.
Qed.

Lemma slot_findInfo s o p i : slot s o p = Some i ->
  exists t idx, tasks s !! p = Some t /\ m_waitEventsInfo t !! idx = Some i /\
    findInfo o (m_waitEventsInfo t) (m_waitEventCount t) = Some idx /\
    taskEventInfo o p s = Ok idx /\ getInfo p idx s = Ok i /\ ei_object i = o.
Proof.
  unfold slot, slotOf, taskEventInfo, getInfo. destruct (tasks s !! p) as [t|] eqn:Et; [|done]. cbn.
  destruct (findInfo o _ _) as [idx|] eqn:F; cbn; [|done]. intros Hi. exists t, idx.
  destruct (findInfo_Some _ _ _ _ F) as (_ & j & Hj & Ho).
  rewrite (deref_Some _ _ _ Et). ostep. rewrite F, (arr_get_Some _ _ _ Hi). naive_solver.
Qed.

Lemma setNextOf_spec o p x s i : slot s o p = Some i ->
  exists s', setNextOf o p x s = Ok s' /\ relink o p (iNext x) s s'.
Proof.
  intros (t & idx & Et & _ & F & E & _)%slot_findInfo. unfold setNextOf. rewrite E. ostep.
  by eapply setInfo_relink.
Qed.
Lemma setPrevOf_spec o p x s i : slot s o p = Some i ->
  exists s', setPrevOf o p x s = Ok s' /\ relink o p (iPrev x) s s'.
Proof.
  intros (t & idx & Et & _ & F & E & _)%slot_findInfo. unfold setPrevOf. rewrite E. ostep.
  by eapply setInfo_relink.
Qed.

(** The ends of the list of one event are rewritten. *)
Definition reend (o : Z) (f : EventObject -> EventObject) (s s' : ES) : Prop :=
  tasks s' = tasks s /\ objs s' = alter f o (objs s) /\
  woken s' = woken s /\ ext s' = ext s /\ now s' = now s.

Lemma updObj_spec o f s ob : objs s !! o = Some ob ->
  exists s', updObj o f s = Ok s' /\ reend o f s s'.
Proof.
  intros E. rewrite (updObj_Ok _ _ _ _ E). eexists. split; [reflexivity|].
  repeat split; try done. cbn. symmetry. apply map_eq. intros o'.
  destruct (decide (o' = o)) as [->|];
    [by rewrite lookup_alter_eq, E, lookup_insert_eq | by rewrite lookup_alter_ne, lookup_insert_ne].
Qed.

Lemma reend_Frame o f s s' : (forall ob, normO (f ob) = normO ob) -> reend o f s s' -> Frame s s'.
Proof.
  intros Hf (Et & Eo & ? & ? & ?). split; try done; [by rewrite Et|]. intros o'. rewrite Eo.
  destruct (decide (o' = o)) as [->|]; [rewrite lookup_alter_eq | by rewrite lookup_alter_ne].
  destruct (objs s !! o); [|done]. cbn. by rewrite Hf.
Qed.

Lemma reend_slot o f s s' : reend o f s s' -> forall o' p, slot s' o' p = slot s o' p.
Proof. intros (E & _) o' p. unfold slot. by rewrite E. Qed.

(** ** Wait lists *)

(** The waiters of [o] are [q], in this order. *)
Definition EvList (s : ES) (o : Z) (q : list Z) : Prop :=
  exists ob, objs s !! o = Some ob /\
    m_waitTaskListHead ob = default nullptr (head q) /\
    m_waitTaskListTail ob = default nullptr (last q) /\
    dseg o (slot s o) nullptr q nullptr /\ NoDup q /\ nullptr ∉ q.

(** In the loop of [set] the head is ahead of the rest: the first waiter still has a
    predecessor link, and the tail is stale once the list has run empty. *)
Definition EvLoose (s : ES) (o pp : Z) (q : list Z) : Prop :=
  exists ob, objs s !! o = Some ob /\
    (q <> [] -> m_waitTaskListTail ob = default nullptr (last q)) /\
    dseg o (slot s o) pp q nullptr /\ NoDup q /\ nullptr ∉ q.

Lemma EvList_loose s o q : EvList s o q -> EvLoose s o nullptr q.
Proof. intros (ob & ? & ? & ? & ?). exists ob. naive_solver. Qed.

Lemma EvList_slot s o q p : EvList s o q -> p ∈ q -> exists i, slot s o p = Some i.
Proof. intros (ob & _ & _ & _ & Hd & _) Hp. by eapply dseg_elem. Qed.
Lemma EvLoose_slot s o pp q p : EvLoose s o pp q -> p ∈ q -> exists i, slot s o p = Some i.
Proof. intros (ob & _ & _ & Hd & _) Hp. by eapply dseg_elem. Qed.

(** A list only depends on its event and on the slots that name it. *)
Lemma EvList_ext s s' o q :
  objs s' !! o = objs s !! o -> (forall p, p ∈ q -> slot s' o p = slot s o p) ->
  EvList s o q -> EvList s' o q.
Proof.
  intros Eo Es (ob & E & Hh & Ht & Hd & Hr). exists ob. rewrite Eo. repeat split; try done; try tauto.
  eapply dseg_ext; [|done]. intros p Hp. by rewrite Es.
Qed.
Lemma EvLoose_ext s s' o pp q :
  objs s' !! o = objs s !! o -> (forall p, p ∈ q -> slot s' o p = slot s o p) ->
  EvLoose s o pp q -> EvLoose s' o pp q.
Proof.
  intros Eo Es (ob & E & Ht & Hd & Hr). exists ob. rewrite Eo. repeat split; try done; try tauto.
  eapply dseg_ext; [|done]. intros p Hp. by rewrite Es.
Qed.

(** [p] leaves the list of [o]: what changes outside that list. *)
Definition outside (o p : Z) (s s' : ES) : Prop :=
  Frame s s' /\ tasks s' !! p = tasks s !! p /\
  (forall o', o' <> o -> objs s' !! o' = objs s !! o') /\
  (forall o' p', o' <> o -> slot s' o' p' = slot s o' p').

Lemma outside_relink o p s x g s1 : relink o x g s s1 -> x <> p -> outside o p s s1.
Proof.
  intros (Hf & Eo & Es & Et) Hx. split; [done|]. split; [by apply Et|].
  split; [by rewrite Eo|]. intros o' p' Ho. rewrite Es. by rewrite decide_False by tauto.
Qed.
Lemma outside_reend o p s f s1 :
  (forall ob, normO (f ob) = normO ob) -> reend o f s s1 -> outside o p s s1.
Proof.
  intros Hf H. pose proof (reend_slot _ _ _ _ H) as Hs. split; [by eapply reend_Frame|].
  destruct H as (Et & Eo & _). split; [by rewrite Et|]. split; [|by intros].
  intros o' Ho. by rewrite Eo, lookup_alter_ne.
Qed.
Lemma outsideList_trans o p s s1 s2 : outside o p s s1 -> outside o p s1 s2 -> outside o p s s2.
Proof.
  intros (? & ? & H1 & H2) (? & ? & H3 & H4). split; [by etrans|]. split; [congruence|].
  split; [intros; rewrite H3 by done; auto | intros; rewrite H4 by done; auto].
Qed.

Lemma head_elem {A} (l : list A) x : head l = Some x -> x ∈ l.
Proof. apply head_Some_elem_of. Qed.

(** The two half-updates of [excludeEventFromTask]. *)
Lemma fixNext_spec o s ob l1 p l2 :
  objs s !! o = Some ob -> m_waitTaskListHead ob = default nullptr (head (l1 ++ p :: l2)) ->
  (forall x, x ∈ l1 -> exists i, slot s o x = Some i) ->
  NoDup (l1 ++ p :: l2) -> nullptr ∉ l1 ++ p :: l2 ->
  exists s1, (if negb (default nullptr (last l1) =? nullptr)
              then setNextOf o (default nullptr (last l1)) (default nullptr (head l2)) s
              else updObj o (oHead (default nullptr (head l2))) s) = Ok s1 /\
    outside o p s s1 /\
    (forall x i, last l1 = Some x -> slot s o x = Some i ->
       slot s1 o x = Some (iNext (default nullptr (head l2)) i)) /\
    (forall x, last l1 <> Some x -> slot s1 o x = slot s o x) /\
    exists ob1, objs s1 !! o = Some ob1 /\
      m_waitTaskListTail ob1 = m_waitTaskListTail ob /\
      m_waitTaskListHead ob1 = default nullptr (head (l1 ++ l2)).
Proof.
  intros Eob Hh Hsl Hnd Hnull.
  destruct (exists_last_or_nil l1) as [->|(k & a & ->)].
  - cbn [last from_option head app]. rewrite Z.eqb_refl. cbn [negb].
    destruct (updObj_spec o (oHead (default nullptr (head l2))) s ob Eob) as (s1 & E & Hr).
    exists s1. split; [done|]. split; [by apply (outside_reend o p s (oHead (default nullptr (head l2))))|].
    split; [done|]. split; [intros; by rewrite (reend_slot _ _ _ _ Hr)|].
    destruct Hr as (_ & Eo & _). exists (oHead (default nullptr (head l2)) ob).
    rewrite Eo, lookup_alter_eq, Eob. done.
  - rewrite last_snoc. cbn [from_option id].
    assert (Ha : a ∈ (k ++ [a]) ++ p :: l2) by set_solver.
    destruct (Z.eqb_spec a nullptr) as [->|_]; [done|]. cbn [negb].
    destruct (Hsl a ltac:(set_solver)) as [i Hi].
    destruct (setNextOf_spec o a (default nullptr (head l2)) s i Hi) as (s1 & E & Hr).
    exists s1. split; [done|].
    assert (Hap : a <> p).
    { intros ->. apply NoDup_app in Hnd as (_ & Hdis & _). apply (Hdis p); set_solver. }
    split; [by eapply outside_relink|]. destruct Hr as (_ & Eo & Es & _).
    split; [intros x j [= <-] Hj; rewrite Es, decide_True by done; by rewrite Hj|].
    split; [intros x Hx; rewrite Es, decide_False; [done | naive_solver]|].
    exists ob. rewrite Eo. repeat split; try done. rewrite Hh. by destruct k.
Qed.

Lemma fixPrev_spec o s l1 p b l2 :
  EvList s o (l1 ++ p :: b :: l2) ->
  exists s1, setPrevOf o b (default nullptr (last l1)) s = Ok s1 /\ outside o p s s1 /\
    objs s1 = objs s /\
    (forall i, slot s o b = Some i -> slot s1 o b = Some (iPrev (default nullptr (last l1)) i)) /\
    (forall x, x <> b -> slot s1 o x = slot s o x).
Proof.
  intros Hl. pose proof Hl as (ob & Eob & Hh & Ht & Hd & Hnd & Hnull).
  destruct (EvList_slot _ _ _ b Hl ltac:(set_solver)) as [i Hi].
  destruct (setPrevOf_spec o b (default nullptr (last l1)) s i Hi) as (s1 & E & Hr).
  exists s1. split; [done|].
  assert (Hbp : b <> p).
  { intros ->. apply NoDup_app in Hnd as (_ & _ & Hnd). apply NoDup_cons in Hnd as [Hnd _].
    apply Hnd. left. }
  split; [by eapply outside_relink|]. destruct Hr as (_ & Eo & Es & _). split; [done|].
  split; [intros j Hj; rewrite Es, decide_True by done; by rewrite Hj|].
  intros x Hx. rewrite Es, decide_False; [done | naive_solver].
Qed.

Lemma EvList_info s o l1 p l2 i : EvList s o (l1 ++ p :: l2) -> slot s o p = Some i ->
  i = mkEventsInfo (default nullptr (head l2)) (default nullptr (last l1)) o.
Proof.
  intros (ob & _ & _ & _ & Hd & _) Hi. apply dseg_app in Hd as [_ [Hd _]]. congruence.
Qed.

Lemma excludeEventFromTask_spec o s l1 p l2 i :
  EvList s o (l1 ++ p :: l2) -> slot s o p = Some i ->
  exists s', excludeEventFromTask i s = Ok s' /\ outside o p s s' /\ EvList s' o (l1 ++ l2).
Proof.
  intros Hl Hi. rewrite (EvList_info _ _ _ _ _ _ Hl Hi). unfold excludeEventFromTask.
  cbn [ei_object ei_next ei_prev].
  pose proof Hl as (ob & Eob & Hh & Ht & Hd & Hnd & Hnull).
  assert (Hnd' : NoDup (l1 ++ l2)) by (apply NoDup_app in Hnd as (? & ? & [? ?]%NoDup_cons); apply NoDup_app; set_solver).
  assert (Hnull' : nullptr ∉ l1 ++ l2) by set_solver.
  assert (Hsl : forall x, x ∈ l1 -> exists j, slot s o x = Some j).
  { intros x Hx. eapply EvList_slot; [done|]. set_solver. }
  destruct l2 as [|b l2]; cbn [head from_option id].
  - rewrite Z.eqb_refl. cbn [negb].
    destruct (fixNext_spec o s ob l1 p [] Eob Hh Hsl Hnd Hnull)
      as (s1 & E1 & O1 & Hn & Ho & ob1 & Eob1 & Ht1 & Hh1).
    cbn [head from_option] in E1. rewrite E1. ostep.
    destruct (updObj_spec o (oTail (default nullptr (last l1))) s1 ob1 Eob1) as (s2 & E2 & R2).
    exists s2. split; [done|]. split; [eapply outsideList_trans; [done | by eapply outside_reend; [|exact R2]]|].
    exists (oTail (default nullptr (last l1)) ob1). pose proof R2 as (_ & Eo2 & _).
    rewrite Eo2, lookup_alter_eq, Eob1. repeat split; try done; [by rewrite app_nil_r|].
    eapply dseg_remove; [done|done|]. split; [done|]. split.
    + intros x j Hx Hj. rewrite (reend_slot _ _ _ _ R2). by apply Hn.
    + intros x _ Hx. rewrite (reend_slot _ _ _ _ R2). by apply Ho.
  - destruct (Z.eqb_spec b nullptr) as [->|_]; [set_solver|]. cbn [negb].
    destruct (fixPrev_spec o s l1 p b l2 Hl) as (s1 & E1 & O1 & Eo1 & Hp & Hpo).
    rewrite E1. ostep.
    assert (Hb : b ∉ l1). { intros Hb. apply NoDup_app in Hnd as (_ & Hdis & _). apply (Hdis b Hb). set_solver. }
    destruct (fixNext_spec o s1 ob l1 p (b :: l2)) as (s2 & E2 & O2 & Hn & Hno & ob2 & Eob2 & Ht2 & Hh2);
      try done; [by rewrite Eo1 | intros x Hx; rewrite Hpo; [auto | by intros ->]|].
    cbn [head from_option id] in E2. exists s2. split; [done|]. split; [by eapply outsideList_trans|].
    exists ob2. repeat split; try done.
    + rewrite Ht2, Ht. rewrite !last_app, !last_cons. by destruct (last l2).
    + eapply dseg_remove; [done|done|]. split; [|split].
      * intros x j [= <-] Hj. rewrite Hno; [by apply Hp|]. intros E. apply Hb. by apply last_Some_elem_of.
      * intros x j Hx Hj. apply Hn; [done|]. rewrite Hpo; [done|]. intros ->. apply Hb. by apply last_Some_elem_of.
      * intros x Hx1 Hx2. rewrite Hno by done. apply Hpo. naive_solver.
Qed.

(** ** A task leaves the lists it is in *)
Definition rm (p : Z) (q : list Z) : list Z := filter (fun x => x <> p) q.

Lemma rm_notin p q : p ∉ q -> rm p q = q.
Proof.
  unfold rm. induction q as [|x q IH]; intros Hp; [done|]. apply not_elem_of_cons in Hp as [? ?].
  rewrite filter_cons_True by done. by rewrite IH.
Qed.
Lemma rm_split p l1 l2 : NoDup (l1 ++ p :: l2) -> rm p (l1 ++ p :: l2) = l1 ++ l2.
Proof.
  intros (_ & Hd & Hn)%NoDup_app. apply NoDup_cons in Hn as [Hp _].
  unfold rm. rewrite filter_app, filter_cons_False by naive_solver.
  f_equal; apply rm_notin; [|done]. intros Hi. apply (Hd p Hi). left.
Qed.
Lemma rm_cons p q : NoDup (p :: q) -> rm p (p :: q) = q.
Proof. apply (rm_split p []). Qed.
Lemma elem_of_rm p q x : x ∈ rm p q <-> x <> p /\ x ∈ q.
Proof. unfold rm. rewrite list_elem_of_filter. tauto. Qed.
Lemma rm_idemp p q : rm p (rm p q) = rm p q.
Proof. apply rm_notin. rewrite elem_of_rm. tauto. Qed.

(** The slot [k] of a task is in use and names [o]. *)
Definition names (t : Task) (k : nat) (o : Z) : Prop :=
  (k < m_waitEventCount t)%nat /\ exists i, m_waitEventsInfo t !! k = Some i /\ ei_object i = o.

Definition distinct (t : Task) : Prop :=
  forall j k o, o <> nullptr -> names t j o -> names t k o -> j = k.

Lemma names_slot t k o i : distinct t -> o <> nullptr -> names t k o ->
  m_waitEventsInfo t !! k = Some i -> findInfo o (m_waitEventsInfo t) (m_waitEventCount t) = Some k.
Proof.
  intros Hd Ho Hn Hi. destruct (findInfo o _ _) as [k'|] eqn:F.
  - destruct (findInfo_Some _ _ _ _ F) as (? & j & ? & ?).
    f_equal. eapply Hd; [done | by split; [|exists j] | done].
  - exfalso. destruct Hn as (Hk & j & Hj & Hjo). exact (findInfo_None _ _ _ _ _ F Hk Hj Hjo).
Qed.

Lemma Frame_lookup s s' p t : Frame s s' -> tasks s !! p = Some t ->
  exists t', tasks s' !! p = Some t' /\ norm t = norm t'.
Proof.
  intros [H _ _ _ _] E. specialize (H p). rewrite E in H. destruct (tasks s' !! p) as [t'|]; [|done].
  exists t'. split; [done|]. cbn in H. congruence.
Qed.
Lemma Frame_obj s s' o ob : Frame s s' -> objs s' !! o = Some ob ->
  exists ob', objs s !! o = Some ob' /\ normO ob' = normO ob.
Proof.
  intros [_ H _ _ _] E. specialize (H o). rewrite E in H. destruct (objs s !! o) as [ob'|]; [|done].
  exists ob'. split; [done|]. cbn in H. congruence.
Qed.

(** The loop over the slots of [p]: it leaves the list of every event but [o]. *)
Lemma excludeLoop_spec o p t : distinct t -> (m_waitEventCount t <= length (m_waitEventsInfo t))%nat ->
  forall n idx r s Q, tasks s !! p = Some t -> objs s !! nullptr = None ->
  (idx + n)%nat = m_waitEventCount t ->
  (forall o' ob, o' <> o -> objs s !! o' = Some ob -> EvList s o' (Q o')) ->
  (forall k o', (idx <= k)%nat -> names t k o' -> o' <> nullptr -> o' <> o ->
     is_Some (objs s !! o') /\ p ∈ Q o') ->
  (forall o', o' <> o -> o' <> nullptr -> p ∈ Q o' -> exists k, (idx <= k)%nat /\ names t k o') ->
  exists r' s', excludeLoop o p n idx r s = Ok (r', s') /\ Frame s s' /\
    tasks s' !! p = Some t /\ objs s' !! o = objs s !! o /\
    (forall p', slot s' o p' = slot s o p') /\
    (forall o' ob, o' <> o -> objs s' !! o' = Some ob -> EvList s' o' (rm p (Q o'))) /\
    (forall k, (idx <= k)%nat -> o <> nullptr -> names t k o -> r' = Some k) /\
    ((forall k, (idx <= k)%nat -> names t k o -> False) -> r' = r).
Proof.
  intros Hdis Hlen. induction n as [|n IH]; intros idx r s Q Et Enull En HL Hn1 Hn2.
  { exists r, s. cbn [excludeLoop]. split; [done|]. split; [done|]. do 3 (split; [done|]). split.
    - intros o' ob Ho Eo. rewrite rm_notin; [by eapply HL|]. intros Hp.
      destruct (Hn2 o' Ho ltac:(congruence) Hp) as (k & ? & ? & ?). lia.
    - split; [|done]. intros k ? ? [? ?]. lia. }
  cbn [excludeLoop].
  destruct (lookup_lt_is_Some_2 (m_waitEventsInfo t) idx) as [i Hi]; [lia|].
  assert (Hname : names t idx (ei_object i)) by (split; [lia | by exists i]).
  unfold getInfo. rewrite (deref_Some _ _ _ Et). ostep. rewrite (arr_get_Some _ _ _ Hi). ostep.
  destruct (Z.eqb_spec (ei_object i) o) as [Eo|Eo].
  { destruct (IH (S idx) (Some idx) s Q Et Enull ltac:(lia) HL) as (r' & s' & E & ? & ? & ? & ? & ? & R1 & R2).
    - intros k o' ?. apply Hn1. lia.
    - intros o' Ho Ho' Hp. destruct (Hn2 o' Ho Ho' Hp) as (k & ? & Hk). exists k. split; [|done].
      destruct (decide (k = idx)) as [->|]; [|lia]. destruct Hk as (_ & j & ? & ?). congruence.
    - exists r', s'. do 6 (split; [done|]). split.
      + intros k Hk Ho Hkn. destruct (decide (k = idx)) as [->|]; [|apply R1; [lia|done..]].
        apply R2. intros k' ? Hk'. assert (k' = idx) by (eapply Hdis; eauto; by subst). lia.
      + intros Hno. exfalso. apply (Hno idx); [lia|]. by subst. }
  destruct (Z.eqb_spec (ei_object i) nullptr) as [En0|En0]; cbn [negb].
  { destruct (IH (S idx) r s Q Et Enull ltac:(lia) HL) as (r' & s' & E & ? & ? & ? & ? & HL' & R1 & R2).
    - intros k o' ?. apply Hn1. lia.
    - intros o' Ho Ho' Hp. destruct (Hn2 o' Ho Ho' Hp) as (k & ? & Hk). exists k. split; [|done].
      destruct (decide (k = idx)) as [->|]; [|lia]. destruct Hk as (_ & j & ? & ?). congruence.
    - exists r', s'. do 6 (split; [done|]). split.
      + intros k Hk Ho Hkn. destruct (decide (k = idx)) as [->|]; [|apply R1; [lia|done..]].
        destruct Hkn as (_ & j & ? & ?). congruence.
      + intros Hno. apply R2. intros k ?. apply Hno. lia. }
  destruct (Hn1 idx (ei_object i) ltac:(lia) Hname En0 Eo) as [[ob Eob] Hpq].
  pose proof (HL _ _ Eo Eob) as Hl.
  destruct (list_elem_of_split _ _ Hpq) as (l1 & l2 & El). rewrite El in Hl.
  assert (Hslot : slot s (ei_object i) p = Some i).
  { unfold slot, slotOf. rewrite Et. cbn. by rewrite (names_slot t idx _ i). }
  assert (Hnd : NoDup (l1 ++ p :: l2)) by (destruct Hl as (? & ? & ? & ? & ? & ? & ?); done).
  destruct (excludeEventFromTask_spec _ _ _ _ _ _ Hl Hslot) as (s1 & E1 & (Hf1 & Et1 & Eo1 & Es1) & Hl1).
  rewrite E1. ostep. rewrite <- (rm_split p l1 l2 Hnd), <- El in Hl1.
  set (e := ei_object i) in *.
  destruct (IH (S idx) r s1 (<[e := rm p (Q e)]> Q)) as (r' & s' & E & Hf & Et' & Eob' & Es' & HL' & R1 & R2).
  - by rewrite Et1.
  - rewrite Eo1; [done|congruence].
  - lia.
  - intros o' ob' Ho Hob. destruct (decide (o' = e)) as [->|Hne]; [by rewrite fn_lookup_insert|].
    rewrite fn_lookup_insert_ne by done. rewrite Eo1 in Hob by done.
    eapply EvList_ext; [by apply Eo1 | intros; by apply Es1 | by eapply HL].
  - intros k o' Hk Hkn Ho' Ho. assert (o' <> e).
    { intros ->. assert (k = idx) by (by eapply Hdis). lia. }
    rewrite fn_lookup_insert_ne, Eo1 by done. apply (Hn1 k); [lia|done..].
  - intros o' Ho Ho' Hp. destruct (decide (o' = e)) as [->|Hne].
    { rewrite fn_lookup_insert, elem_of_rm in Hp. tauto. }
    rewrite fn_lookup_insert_ne in Hp by done. destruct (Hn2 o' Ho Ho' Hp) as (k & ? & Hk). exists k.
    split; [|done]. destruct (decide (k = idx)) as [->|]; [|lia]. destruct Hk as (_ & j & ? & ?).
    exfalso. apply Hne. unfold e. congruence.
  - exists r', s'. split; [done|]. split; [by etrans|]. split; [done|].
    split; [rewrite Eob'; by apply Eo1|]. split; [intros p'; rewrite Es'; by apply Es1|]. split; [|split].
    + intros o' ob' Ho Hob. specialize (HL' o' ob' Ho Hob). destruct (decide (o' = e)) as [->|Hne].
      * by rewrite fn_lookup_insert, rm_idemp in HL'.
      * by rewrite fn_lookup_insert_ne in HL'.
    + intros k Hk Ho Hkn. destruct (decide (k = idx)) as [->|]; [|apply R1; [lia|done..]].
      exfalso. destruct Hkn as (_ & j & ? & ?). apply Eo. unfold e. congruence.
    + intros Hno. apply R2. intros k ?. apply Hno. lia.
Qed.
End EventInv.
