(* ===== verification/EventSpec.v ===== *)
(** * Events: the queue specification and its refinement

    What an event promises, without links and slots: a flag, a first-in first-out
    queue of waiting tasks, and for every task the number of sets it still needs.
    [Rel] relates the kernel's state to it; every operation of [Event] on related
    states returns (no panic, no fault) and simulates the operation here. *)

From S2P Require Import Prelude Task Event EventInv.

Section EventSpec.
Context {X : Type}.
Notation ES := (@ES X).
Implicit Types s : ES.

Record Spec : Type := mkSpec {
  sp_set : Z -> bool;
  sp_manual : Z -> bool;
  sp_queue : Z -> list Z;
  sp_need : Z -> Z;
  sp_woken : list Z;
  sp_ext : X }.
Implicit Types a : Spec.

Definition spSet (b : Z -> bool) (a : Spec) : Spec :=
  mkSpec b (sp_manual a) (sp_queue a) (sp_need a) (sp_woken a) (sp_ext a).
Definition spExt (x : X) (a : Spec) : Spec :=
  mkSpec (sp_set a) (sp_manual a) (sp_queue a) (sp_need a) (sp_woken a) x.
Definition spQueue (q : Z -> list Z) (a : Spec) : Spec :=
  mkSpec (sp_set a) (sp_manual a) q (sp_need a) (sp_woken a) (sp_ext a).

(** The first waiter [p] of [o] is served: it leaves this queue if it needs more
    sets, and every queue when it is woken. *)
Definition spServe (o : Z) (a : Spec) (p : Z) : Spec :=
  if 1 <? sp_need a p then
    mkSpec (sp_set a) (sp_manual a) (<[o := rm p (sp_queue a o)]> (sp_queue a))
      (<[p := sp_need a p - 1]> (sp_need a)) (sp_woken a) (sp_ext a)
  else
    mkSpec (sp_set a) (sp_manual a) (fun o' => rm p (sp_queue a o')) (sp_need a)
      (sp_woken a ++ [p]) (sp_ext a).

(** ** The relation *)

(** A task that is in some queue sleeps; its used slots name the events it is queued
    at, each once. *)
Record TaskRel (s : ES) (a : Spec) (p : Z) (t : Task) : Prop := mkTaskRel {
  tr_slots : length (m_waitEventsInfo t) = TaskWaitEventsMax;
  tr_count : (m_waitEventCount t <= TaskWaitEventsMax)%nat;
  tr_distinct : distinct t;
  tr_names : forall k o, names t k o -> o <> nullptr -> is_Some (objs s !! o) /\ p ∈ sp_queue a o;
  tr_sleeps : forall o, p ∈ sp_queue a o -> sleeping t = true;
  tr_need : m_needWaitEvents t = sp_need a p }.

(** [ex] is the event whose list the loop of [set] is walking, with the predecessor
    its first waiter still names. *)
Definition listAt (ex : option (Z * Z)) (s : ES) (o : Z) (q : list Z) : Prop :=
  match ex with
  | Some (e, pp) => if decide (o = e) then EvLoose s o pp q else EvList s o q
  | None => EvList s o q
  end.

Record Rel (ex : option (Z * Z)) (s : ES) (a : Spec) : Prop := mkRel {
  rel_null : tasks s !! nullptr = None /\ objs s !! nullptr = None;
  rel_list : forall o ob, objs s !! o = Some ob -> listAt ex s o (sp_queue a o);
  rel_queue : forall o p, p ∈ sp_queue a o -> is_Some (objs s !! o);
  rel_obj : forall o ob, objs s !! o = Some ob ->
    m_set ob = sp_set a o /\ m_manualReset ob = sp_manual a o;
  rel_task : forall p t, tasks s !! p = Some t -> TaskRel s a p t;
  rel_woken : woken s = sp_woken a;
  rel_ext : ext s = sp_ext a }.

Lemma listAt_slot ex s o q p : listAt ex s o q -> p ∈ q -> exists i, slot s o p = Some i.
Proof.
  unfold listAt. destruct ex as [[e pp]|]; [case_decide|]; eauto using EvList_slot, EvLoose_slot.
Qed.
Lemma listAt_NoDup ex s o q : listAt ex s o q -> NoDup q /\ nullptr ∉ q.
Proof.
  unfold listAt. destruct ex as [[e pp]|]; [case_decide|]; intros Hx;
    [destruct Hx as (? & ? & ? & ? & ?) | destruct Hx as (? & ? & ? & ? & ? & ?)..]; tauto.
Qed.
Lemma listAt_ext ex s s' o q :
  objs s' !! o = objs s !! o -> (forall p, p ∈ q -> slot s' o p = slot s o p) ->
  listAt ex s o q -> listAt ex s' o q.
Proof.
  unfold listAt. destruct ex as [[e pp]|]; [case_decide|]; eauto using EvList_ext, EvLoose_ext.
Qed.

(** A queued task exists and its slot is found. *)
Lemma Rel_waiter ex s a o p : Rel ex s a -> p ∈ sp_queue a o ->
  exists i t idx, slot s o p = Some i /\ tasks s !! p = Some t /\ m_waitEventsInfo t !! idx = Some i /\
    findInfo o (m_waitEventsInfo t) (m_waitEventCount t) = Some idx /\
    taskEventInfo o p s = Ok idx /\ getInfo p idx s = Ok i /\ ei_object i = o.
Proof.
  intros H Hp. destruct (rel_queue _ _ _ H _ _ Hp) as [ob Eob].
  destruct (listAt_slot _ _ _ _ _ (rel_list _ _ _ H _ _ Eob) Hp) as [i Hi].
  destruct (slot_findInfo _ _ _ _ Hi) as (t & idx & ?). by exists i, t, idx.
Qed.

Lemma TaskRel_queue_names s a o p t :
  (exists i, slot s o p = Some i) -> tasks s !! p = Some t -> exists k, names t k o.
Proof.
  intros [i (t' & idx & Et & Hi & F & _ & _ & Ho)%slot_findInfo] Et'. simplify_eq.
  exists idx. split; [by apply findInfo_Some in F as [? _] | by exists i].
Qed.

(** Tasks that differ in links only are equally well formed. *)
Lemma names_norm t t' k o : norm t = norm t' -> names t k o -> names t' k o.
Proof.
  intros (El & Ec & _)%norm_objects (Hk & i & Hi & Ho). split; [by rewrite <- Ec|].
  assert (E : (ei_object <$> m_waitEventsInfo t) !! k = Some o) by (by rewrite list_lookup_fmap, Hi, <- Ho).
  rewrite El, list_lookup_fmap in E. destruct (m_waitEventsInfo t' !! k) as [i'|]; [|done]. exists i'. by injection E.
Qed.
Lemma distinct_norm t t' : norm t = norm t' -> distinct t -> distinct t'.
Proof. intros E H j k o Ho Hj Hk. eapply H; eauto using names_norm. Qed.

Lemma TaskRel_norm s s' a a' p t t' :
  norm t = norm t' -> (forall o, is_Some (objs s !! o) -> is_Some (objs s' !! o)) ->
  (forall o, p ∈ sp_queue a o <-> p ∈ sp_queue a' o) -> sp_need a p = sp_need a' p ->
  TaskRel s a p t -> TaskRel s' a' p t'.
Proof.
  intros En Ho Hq Hn [? ? ? Hnm ? ?]. pose proof (norm_objects _ _ En) as (El & Ec & Es & Ene).
  split.
  - rewrite <- (length_fmap ei_object), <- El. by rewrite length_fmap.
  - by rewrite <- Ec.
  - by eapply distinct_norm.
  - intros k o Hk Hnull. destruct (Hnm k o) as [? ?]; [by eapply names_norm | done |].
    split; [auto | by apply Hq].
  - intros o Hp. unfold sleeping. rewrite <- Es. eapply tr_sleeps0. by apply Hq.
  - by rewrite <- Ene, <- Hn.
Qed.

Lemma Frame_objs_is_Some s s' o : Frame s s' -> is_Some (objs s !! o) <-> is_Some (objs s' !! o).
Proof.
  intros [_ H _ _ _]. specialize (H o).
  destruct (objs s !! o), (objs s' !! o); try discriminate H; split; eauto.
Qed.

(** ** Serving one waiter *)

(** Only the record of [p] changes. *)
Lemma slot_setTasks_ne s p t o p' : p' <> p -> slot (setTasks s (<[p := t]> (tasks s))) o p' = slot s o p'.
Proof. intros Hp. unfold slot. cbn [setTasks tasks]. by rewrite lookup_insert_ne. Qed.

Lemma EvLoose_tail s s' o pp p q :
  EvLoose s o pp (p :: q) -> objs s' !! o = objs s !! o ->
  (forall x, x <> p -> slot s' o x = slot s o x) -> EvLoose s' o p q.
Proof.
  intros (ob & Eob & Ht & [Hi Hd] & Hnd & Hnull) Eo Es. apply NoDup_cons in Hnd as [Hp Hnd].
  exists ob. rewrite Eo. repeat split; try done; [| |set_solver].
  - intros Hq. rewrite Ht by done. destruct q; [done|]. by rewrite last_cons_cons.
  - eapply dseg_ext; [|done]. intros x Hx. symmetry. apply Es. by intros ->.
Qed.

Lemma EvLoose_first s o pp p q i : EvLoose s o pp (p :: q) -> slot s o p = Some i ->
  ei_next i = default nullptr (head q).
Proof. intros (ob & _ & _ & [Hi _] & _) E. by simplify_eq. Qed.

Lemma Rel_loose e pp s a ob : Rel (Some (e, pp)) s a -> objs s !! e = Some ob ->
  EvLoose s e pp (sp_queue a e).
Proof. intros H E. pose proof (rel_list _ _ _ H _ _ E) as Hl. unfold listAt in Hl. by rewrite decide_True in Hl. Qed.
Lemma Rel_other e pp s a o ob : Rel (Some (e, pp)) s a -> o <> e -> objs s !! o = Some ob ->
  EvList s o (sp_queue a o).
Proof. intros H Ho E. pose proof (rel_list _ _ _ H _ _ E) as Hl. unfold listAt in Hl. by rewrite decide_False in Hl. Qed.

(** What both ways of serving share: [s1] differs from [s] in links outside the
    list of [e], then the record of [p] is replaced by [t']. *)
Lemma Rel_served e pp s s1 s2 a a' p q t' :
  Rel (Some (e, pp)) s a -> sp_queue a e = p :: q -> Frame s s1 ->
  objs s1 !! e = objs s !! e -> (forall x, slot s1 e x = slot s e x) ->
  (forall o ob, o <> e -> objs s1 !! o = Some ob -> EvList s1 o (sp_queue a' o)) ->
  tasks s2 = <[p := t']> (tasks s1) -> objs s2 = objs s1 ->
  woken s2 = sp_woken a' -> ext s2 = sp_ext a' ->
  sp_set a' = sp_set a -> sp_manual a' = sp_manual a -> sp_queue a' e = q ->
  (forall o x, x ∈ sp_queue a' o -> x ∈ sp_queue a o) ->
  (forall o x, x <> p -> x ∈ sp_queue a o -> x ∈ sp_queue a' o) ->
  (forall x, x <> p -> sp_need a' x = sp_need a x) ->
  (forall o, o <> e -> p ∈ sp_queue a' o -> slotOf o t' = slot s1 o p) ->
  TaskRel s2 a' p t' -> Rel (Some (e, p)) s2 a'.
Proof.
  intros HR Eq HF Eoe Ese HL Et2 Eo2 Ew Ex Eset Eman Eq' Hsub Hsup Hneed Hslot Htr.
  destruct (rel_queue _ _ _ HR e p ltac:(rewrite Eq; left)) as [ob Eob].
  assert (Hsl : forall o x, x <> p -> slot s2 o x = slot s1 o x).
  { intros o x Hx. unfold slot. by rewrite Et2, lookup_insert_ne. }
  pose proof (rel_null _ _ _ HR) as [Hn1 Hn2].
  assert (Hp0 : p <> nullptr).
  { intros ->. pose proof (listAt_NoDup _ _ _ _ (rel_list _ _ _ HR _ _ Eob)) as [_ H0]. rewrite Eq in H0. apply H0. left. }
  split.
  - split.
    + rewrite Et2, lookup_insert_ne by done. pose proof (fr_tasks _ _ HF nullptr) as E.
      rewrite Hn1 in E. by destruct (tasks s1 !! nullptr).
    + rewrite Eo2. destruct (objs s1 !! nullptr) eqn:E; [|done].
      destruct (Frame_obj _ _ _ _ HF E) as (? & ? & ?). congruence.
  - intros o ob2 Eob2. rewrite Eo2 in Eob2. unfold listAt. case_decide as Ho.
    + subst o. rewrite Eq'. eapply (EvLoose_tail s).
      * rewrite <- Eq. by eapply Rel_loose.
      * by rewrite Eo2.
      * intros x Hx. by rewrite Hsl, Ese.
    + eapply EvList_ext; [by rewrite Eo2 | | by eapply HL].
      intros x Hx. destruct (decide (x = p)) as [->|]; [|by apply Hsl].
      unfold slot at 1. rewrite Et2, lookup_insert_eq. by apply Hslot.
  - intros o x Hx. rewrite Eo2. rewrite <- (Frame_objs_is_Some s s1 o HF). eapply rel_queue; eauto.
  - intros o ob2 Eob2. rewrite Eo2 in Eob2. destruct (Frame_obj _ _ _ _ HF Eob2) as (ob' & E & En).
    rewrite Eset, Eman. destruct (rel_obj _ _ _ HR _ _ E) as [<- <-].
    unfold normO, oHead, oTail in En. by injection En.
  - intros x t Ex'. rewrite Et2 in Ex'. destruct (decide (x = p)) as [->|Hx].
    + rewrite lookup_insert_eq in Ex'. by simplify_eq.
    + rewrite lookup_insert_ne in Ex' by done. symmetry in HF.
      destruct (Frame_lookup _ _ _ _ HF Ex') as (t0 & E0 & En0).
      eapply (TaskRel_norm s s2 a a' x t0 t); [done | | | by rewrite Hneed | by eapply rel_task].
      * intros o. rewrite Eo2. by apply Frame_objs_is_Some.
      * intros o. split; eauto.
  - done.
  - done.
Qed.

(** The task needs more sets: its slot for [e] is given up. *)
Lemma serve_more_rel e pp s a p q t idx i :
  Rel (Some (e, pp)) s a -> sp_queue a e = p :: q -> 1 < sp_need a p ->
  tasks s !! p = Some t -> m_waitEventsInfo t !! idx = Some i ->
  findInfo e (m_waitEventsInfo t) (m_waitEventCount t) = Some idx ->
  Rel (Some (e, p))
    (setTasks s (<[p := setInfos (<[idx := iObject nullptr i]> (m_waitEventsInfo t)) (m_waitEventCount t)
                          (setNeed (m_needWaitEvents t - 1) t)]> (tasks s)))
    (spServe e a p).
Proof.
  intros HR Eq Hneed Et Hi Hf. unfold spServe. destruct (Z.ltb_spec 1 (sp_need a p)) as [_|]; [|lia].
  destruct (rel_queue _ _ _ HR e p ltac:(rewrite Eq; left)) as [ob Eob].
  assert (Hnd : NoDup (p :: q)) by (rewrite <- Eq; eapply listAt_NoDup; by eapply rel_list).
  apply NoDup_cons in Hnd as [Hpq Hnd].
  assert (Erm : rm p (sp_queue a e) = q).
  { rewrite Eq. apply rm_cons. by constructor. }
  assert (He0 : e <> nullptr). { intros ->. pose proof (rel_null _ _ _ HR) as [_ ?]. congruence. }
  destruct (findInfo_Some _ _ _ _ Hf) as (Hlt & i0 & Hi0 & Hie). assert (i0 = i) as -> by congruence.
  destruct (rel_task _ _ _ HR _ _ Et) as [Hlen Hc Hdis Hnm Hsl Hn].
  set (t' := setInfos _ _ _).
  assert (Hnames : forall k o, o <> nullptr -> names t' k o <-> names t k o /\ o <> e).
  { intros k o Ho. unfold names, t', setInfos, setNeed, withWait. cbn [m_waitEventsInfo m_waitEventCount].
    destruct (decide (k = idx)) as [->|Hk].
    - rewrite list_lookup_insert_eq by (by eapply lookup_lt_Some). split.
      + intros (_ & j & [= <-] & Ho'). cbn in Ho'. congruence.
      + intros ((_ & j & ? & ?) & ?). congruence.
    - rewrite list_lookup_insert_ne by done. split; [|tauto]. intros H. split; [done|].
      intros ->. apply Hk. eapply (Hdis k idx); [done | exact H | split; [done|by exists i]]. }
  eapply (Rel_served _ _ s s); try done; cbn [sp_queue sp_need].
  - intros o ob' Ho E. rewrite fn_lookup_insert_ne by done. by eapply Rel_other.
  - cbn. apply (rel_woken _ _ _ HR).
  - cbn. apply (rel_ext _ _ _ HR).
  - by rewrite fn_lookup_insert, Erm.
  - intros o x. destruct (decide (o = e)) as [->|].
    + rewrite fn_lookup_insert, elem_of_rm. tauto.
    + by rewrite fn_lookup_insert_ne.
  - intros o x Hx. destruct (decide (o = e)) as [->|].
    + rewrite fn_lookup_insert, elem_of_rm. tauto.
    + by rewrite fn_lookup_insert_ne.
  - intros x Hx. by rewrite fn_lookup_insert_ne.
  - intros o Ho Hp. rewrite fn_lookup_insert_ne in Hp by done.
    destruct (Rel_waiter _ _ _ _ _ HR Hp) as (j & t0 & k & Hs & E0 & Hj & Fk & _ & _ & Ej). simplify_eq.
    rewrite Hs. assert (Ho0 : ei_object j <> nullptr).
    { intros E. destruct (rel_queue _ _ _ HR _ _ Hp) as [? E']. rewrite E in E'. pose proof (rel_null _ _ _ HR) as [_ ?]. congruence. }
    assert (k <> idx) by (intros ->; congruence).
    assert (Hj' : m_waitEventsInfo t' !! k = Some j).
    { unfold t', setInfos, setNeed, withWait. cbn [m_waitEventsInfo]. by rewrite list_lookup_insert_ne. }
    unfold slotOf. rewrite (names_slot t' k (ei_object j) j); try done.
    + intros k1 k2 o' Ho' [H1 _]%Hnames [H2 _]%Hnames; try done. by eapply Hdis.
    + apply Hnames; [done|]. split; [|done]. apply findInfo_Some in Fk as [? _]. split; [done|]. by exists j.
  - split.
    + unfold t', setInfos, setNeed, withWait. cbn [m_waitEventsInfo]. by rewrite length_insert.
    + done.
    + intros k1 k2 o' Ho' [H1 _]%Hnames [H2 _]%Hnames; try done. by eapply Hdis.
    + intros k o Hk Ho. apply Hnames in Hk as [H1 H2]; [|done]. cbn [setTasks objs sp_queue].
      rewrite fn_lookup_insert_ne by done. by eapply Hnm.
    + intros o. cbn [sp_queue]. intros Ho.
      assert (Hq : p ∈ sp_queue a o).
      { destruct (decide (o = e)) as [->|]; [rewrite Eq; left | by rewrite fn_lookup_insert_ne in Ho]. }
      exact (Hsl o Hq).
    + cbn [sp_need]. rewrite fn_lookup_insert. unfold t', setInfos, setNeed, withWait. cbn [m_needWaitEvents]. by rewrite Hn.
Qed.

(** The record of a task that [set] wakes: it names no event, its result is the index
    of its slot and it is runnable. *)
Definition wokenTask (t : Task) (idx : nat) (now : Z) : Task :=
  setTaskState Wait (u64 (now + m_desiredMaxWait t)) (setResult (Z.of_nat idx) (setInfos (m_waitEventsInfo t) 0 t)).

Lemma Rel_setExt ex s a x : Rel ex s a -> Rel ex (setExt s x) (spExt x a).
Proof.
  intros [? HL ? ? HT ? ?]. split; try done.
  intros p t Et. specialize (HT p t Et). destruct HT. by split.
Qed.

(** Leaving all the other lists. *)
Lemma excludeEventsFromTask_spec e pp s a p q t idx :
  Rel (Some (e, pp)) s a -> sp_queue a e = p :: q -> tasks s !! p = Some t ->
  findInfo e (m_waitEventsInfo t) (m_waitEventCount t) = Some idx ->
  exists s1, excludeEventsFromTask e p s = Ok (idx, s1) /\ Frame s s1 /\ tasks s1 !! p = Some t /\
    objs s1 !! e = objs s !! e /\ (forall x, slot s1 e x = slot s e x) /\
    (forall o ob, o <> e -> objs s1 !! o = Some ob -> EvList s1 o (rm p (sp_queue a o))).
Proof.
  intros HR Eq Et Hf. destruct (rel_task _ _ _ HR _ _ Et) as [Hlen Hc Hdis Hnm Hsl Hn].
  destruct (rel_queue _ _ _ HR e p ltac:(rewrite Eq; left)) as [ob Eob].
  assert (He0 : e <> nullptr). { intros ->. pose proof (rel_null _ _ _ HR) as [_ ?]. congruence. }
  destruct (excludeLoop_spec e p t Hdis ltac:(lia) (m_waitEventCount t) 0 None s (sp_queue a))
    as (r & s1 & E & HF & Et1 & Eo1 & Es1 & HL & Hr & _); try done.
  - apply (rel_null _ _ _ HR).
  - intros o ob' Ho E. by eapply Rel_other.
  - intros k o _ Hk Ho _. by eapply Hnm.
  - intros o Ho Ho0 Hp. destruct (Rel_waiter _ _ _ _ _ HR Hp) as (i & t' & k & ? & ? & ? & Fk & _ & _ & ?).
    simplify_eq. exists k. split; [lia|]. apply findInfo_Some in Fk as [? _]. split; [done | by exists i].
  - exists s1. unfold excludeEventsFromTask. rewrite (deref_Some _ _ _ Et). ostep. rewrite E. ostep.
    destruct (findInfo_Some _ _ _ _ Hf) as (Hlt & i & Hi & Hie).
    rewrite (Hr idx); [|lia|done|by split; [|exists i]]. done.
Qed.

(** ** The flag and the ends *)
Lemma Rel_alter ex s s' a b f o ob :
  Rel ex s a -> objs s !! o = Some ob -> reend o f s s' ->
  m_manualReset (f ob) = m_manualReset ob -> m_set (f ob) = b o ->
  (forall o', o' <> o -> b o' = sp_set a o') ->
  listAt ex s' o (sp_queue a o) -> Rel ex s' (spSet b a).
Proof.
  intros HR Eob Hr Hm Hs Hb Hl. pose proof (reend_slot _ _ _ _ Hr) as Hsl.
  destruct Hr as (Et & Eo & Ew & Ex & _). destruct HR as [[Hn1 Hn2] HL HQ HO HT HW HE].
  assert (Hsome : forall o', is_Some (objs s !! o') <-> is_Some (objs s' !! o')).
  { intros o'. rewrite Eo. destruct (decide (o' = o)) as [->|].
    - rewrite lookup_alter_eq, Eob. split; eauto.
    - by rewrite lookup_alter_ne. }
  split.
  - rewrite Et, Eo, lookup_alter_ne; [done | congruence].
  - intros o' ob' E. destruct (decide (o' = o)) as [->|]; [done|].
    rewrite Eo, lookup_alter_ne in E by done.
    eapply listAt_ext; [by rewrite Eo, lookup_alter_ne | intros; apply Hsl | by eapply HL].
  - intros o' p Hp. apply Hsome. by eapply HQ.
  - intros o' ob' E. rewrite Eo in E. cbn [spSet sp_set sp_manual].
    destruct (decide (o' = o)) as [->|].
    + rewrite lookup_alter_eq, Eob in E. cbn in E. simplify_eq. destruct (HO o ob Eob) as [_ ?]. by rewrite Hm.
    + rewrite lookup_alter_ne in E by done. rewrite Hb by done. by apply HO.
  - intros p t Ep. rewrite Et in Ep. destruct (HT p t Ep) as [? ? ? Hnm ? ?]. split; try done.
    intros k o' Hk Ho'. destruct (Hnm k o' Hk Ho'). split; [by apply Hsome | done].
  - by rewrite Ew.
  - by rewrite Ex.
Qed.

Lemma Rel_set_ext ex s a b b' : (forall o, b o = b' o) -> Rel ex s (spSet b a) -> Rel ex s (spSet b' a).
Proof.
  intros E [? ? ? HO HT ? ?]. split; try done.
  - intros o ob Eob. destruct (HO o ob Eob). cbn [spSet sp_set sp_manual] in *. by rewrite <- E.
  - intros p t Et. destruct (HT p t Et). by split.
Qed.
Lemma spSet_id a : spSet (sp_set a) a = a.
Proof. by destruct a. Qed.

Lemma EvLoose_alter s s' o f pp q ob :
  reend o f s s' -> objs s !! o = Some ob -> m_waitTaskListTail (f ob) = m_waitTaskListTail ob ->
  EvLoose s o pp q -> EvLoose s' o pp q.
Proof.
  intros Hr Eob Ht (ob' & E & Hl & Hd & Hn). assert (ob' = ob) as -> by congruence. exists (f ob).
  pose proof Hr as (_ & Eo & _). rewrite Eo, lookup_alter_eq, Eob. split; [done|].
  rewrite Ht. split; [done|]. split; [|done].
  eapply dseg_ext; [|done]. intros x _. symmetry. by apply (reend_slot o f).
Qed.

(** The head is moved in the loop. *)
Lemma Rel_oHead o pp s a ob next : Rel (Some (o, pp)) s a -> objs s !! o = Some ob ->
  exists s', updObj o (oHead next) s = Ok s' /\ Rel (Some (o, pp)) s' a /\
    objs s' !! o = Some (oHead next ob) /\ tasks s' = tasks s.
Proof.
  intros HR Eob. destruct (updObj_spec o (oHead next) s ob Eob) as (s' & E & Hr).
  exists s'. split; [done|]. split.
  - rewrite <- (spSet_id a). eapply Rel_alter; [done | done | exact Hr | done | | done |].
    + exact (proj1 (rel_obj _ _ _ HR _ _ Eob)).
    + unfold listAt. rewrite decide_True by done.
      eapply EvLoose_alter; [exact Hr | done | done | by eapply Rel_loose].
  - destruct Hr as (-> & -> & _). by rewrite lookup_alter_eq, Eob.
Qed.

Lemma Rel_oSet ex s a o ob b : Rel ex s a -> objs s !! o = Some ob ->
  exists s', updObj o (oSet b) s = Ok s' /\ Rel ex s' (spSet (<[o := b]> (sp_set a)) a) /\
    objs s' !! o = Some (oSet b ob) /\ tasks s' = tasks s /\ ext s' = ext s /\ now s' = now s.
Proof.
  intros HR Eob. destruct (updObj_spec o (oSet b) s ob Eob) as (s' & E & Hr).
  exists s'. split; [done|].
  assert (Eo' : objs s' !! o = Some (oSet b ob)).
  { destruct Hr as (_ & -> & _). by rewrite lookup_alter_eq, Eob. }
  split; [|by destruct Hr as (? & ? & ? & ? & ?)].
  eapply Rel_alter; [done | done | exact Hr | done | by rewrite fn_lookup_insert | |].
  - intros o' Ho. by rewrite fn_lookup_insert_ne.
  - pose proof (rel_list _ _ _ HR _ _ Eob) as Hl. revert Hl. unfold listAt, EvLoose, EvList.
    assert (Hd : forall pp q nn, dseg o (slot s o) pp q nn -> dseg o (slot s' o) pp q nn).
    { intros pp q nn. apply dseg_ext. intros x _. symmetry. by apply (reend_slot o (oSet b)). }
    destruct ex as [[e pp]|]; [case_decide|]; intros (ob' & E' & Hl); simplify_eq; exists (oSet b ob);
      cbn [oSet m_waitTaskListHead m_waitTaskListTail]; naive_solver.
Qed.

(** The end of [set]: the first waiter forgets its predecessor, or the tail is reset. *)
Lemma set_finish o pp s a ob : Rel (Some (o, pp)) s a -> objs s !! o = Some ob ->
  m_waitTaskListHead ob = default nullptr (head (sp_queue a o)) ->
  exists s', (if negb (m_waitTaskListHead ob =? nullptr) then setPrevOf o (m_waitTaskListHead ob) nullptr s
              else updObj o (oTail nullptr) s) = Ok s' /\ Rel None s' a /\ Frame s s'.
Proof.
  intros HR Eob Hh. pose proof (Rel_loose _ _ _ _ _ HR Eob) as (ob' & E' & Ht & Hd & Hnd & Hnull).
  assert (ob' = ob) as -> by congruence. rewrite Hh. destruct (sp_queue a o) as [|p q] eqn:Eq; cbn [head from_option id].
  - rewrite Z.eqb_refl. cbn [negb]. destruct (updObj_spec o (oTail nullptr) s ob Eob) as (s' & E & Hr).
    exists s'. split; [done|]. pose proof Hr as (Et & Eo & _). split; [|by eapply (reend_Frame o (oTail nullptr))].
    assert (HR' : Rel (Some (o, pp)) s' (spSet (sp_set a) a)).
    { eapply Rel_alter; [done | done | exact Hr | done | exact (proj1 (rel_obj _ _ _ HR _ _ Eob)) | done |].
      unfold listAt. rewrite decide_True by done. rewrite Eq. exists (oTail nullptr ob).
      rewrite Eo, lookup_alter_eq, Eob. repeat split; done. }
    rewrite spSet_id in HR'. destruct HR' as [? HL ? ? ? ? ?]. split; try done.
    intros o' ob' Eo'. specialize (HL o' ob' Eo'). unfold listAt in *. case_decide; [|done]. subst.
    rewrite Eq. exists (oTail nullptr ob). rewrite Eo, lookup_alter_eq, Eob. repeat split; try done.
  - destruct (Z.eqb_spec p nullptr) as [->|_]; [set_solver|]. cbn [negb].
    destruct (EvLoose_slot s o pp (p :: q) p) as [i Hi]; [by exists ob | left |].
    destruct (setPrevOf_spec o p nullptr s i Hi) as (s' & E & HF & Eo & Es & Et).
    exists s'. split; [done|]. split; [|done].
    apply NoDup_cons in Hnd as Hnd'. destruct Hnd' as [Hpq _].
    destruct HR as [[Hn1 Hn2] HL HQ HO HT HW HE]. split; try done.
    + split; [|by rewrite Eo]. rewrite Et; [done|]. intros <-. set_solver.
    + intros o' ob' E1. rewrite Eo in E1. specialize (HL o' ob' E1). unfold listAt in *. case_decide as Ho; subst.
      * rewrite Eq. exists ob. rewrite Eo. split; [done|]. split; [done|]. split; [by apply Ht|]. split; [|done].
        eapply (dseg_setPrev o (slot s o) (slot s' o) pp p q); [done | done | done | |].
        -- rewrite Es, decide_True by done. rewrite Hi. cbn. destruct Hd as [Hd _]. by simplify_eq.
        -- intros x Hx. rewrite Es, decide_False; [done | naive_solver].
      * eapply EvList_ext; [by rewrite Eo | | done]. intros x _. by rewrite Es, decide_False by tauto.
    + intros o' x Hx. rewrite Eo. by eapply HQ.
    + intros o' ob' E1. rewrite Eo in E1. by apply HO.
    + intros x t Ex. symmetry in HF. destruct (Frame_lookup _ _ _ _ HF Ex) as (t0 & E0 & En).
      eapply (TaskRel_norm s s' a a x t0 t); try done; [by rewrite Eo | by apply HT].
    + rewrite <- (fr_woken _ _ HF). done.
    + rewrite <- (fr_ext _ _ HF). done.
Qed.

(** ** [set] simulates its specification *)
Lemma spExt_id a : spExt (sp_ext a) a = a.
Proof. by destruct a. Qed.
Lemma spServe_queue o a p : sp_queue (spServe o a p) o = rm p (sp_queue a o).
Proof. unfold spServe. destruct (_ <? _); cbn [sp_queue]; [by rewrite fn_lookup_insert | done]. Qed.
Lemma spServe_set o a b p : spServe o (spSet b a) p = spSet b (spServe o a p).
Proof. unfold spServe. cbn [spSet sp_need]. by destruct (_ <? _). Qed.
Lemma spServe_sets o a p : sp_set (spServe o a p) = sp_set a.
Proof. unfold spServe. by destruct (_ <? _). Qed.
Lemma fold_spServe_set o q : forall a b, fold_left (spServe o) q (spSet b a) = spSet b (fold_left (spServe o) q a).
Proof. induction q as [|p q IH]; intros a b; [done|]. cbn [fold_left]. by rewrite spServe_set, IH. Qed.

Lemma queue_length ex s a o : Rel ex s a -> (length (sp_queue a o) <= size (tasks s))%nat.
Proof.
  intros HR. destruct (sp_queue a o) as [|p q] eqn:Eq; [cbn; lia|].
  destruct (rel_queue _ _ _ HR o p ltac:(rewrite Eq; left)) as [ob Eob].
  pose proof (listAt_NoDup _ _ _ _ (rel_list _ _ _ HR _ _ Eob)) as [Hnd _]. rewrite <- Eq in *.
  rewrite <- size_dom, <- (size_list_to_set (C := gset Z)) by done. apply subseteq_size.
  intros x Hx. apply elem_of_list_to_set in Hx. apply elem_of_dom.
  destruct (Rel_waiter _ _ _ _ _ HR Hx) as (i & t & idx & _ & Et & _). eauto.
Qed.

Lemma Rel_loosen s a o : Rel None s a -> Rel (Some (o, nullptr)) s a.
Proof.
  intros [? HL ? ? ? ? ?]. split; try done. intros o' ob E. specialize (HL o' ob E).
  unfold listAt in *. case_decide; [|done]. by apply EvList_loose.
Qed.

(** ** Setting an event *)
Context (onWakeSingleThread : Z -> Z -> X -> bool * X).

Notation serve := (serve onWakeSingleThread).

Lemma serve_wake e pp s a (manual : bool) p q x :
  Rel (Some (e, pp)) s a -> sp_queue a e = p :: q -> sp_need a p <= 1 ->
  (if manual then (true, ext s) else onWakeSingleThread e p (ext s)) = (true, x) ->
  exists s2 t idx, serve e manual p s = Ok (default nullptr (head q), manual, s2) /\
    Rel (Some (e, p)) s2 (spServe e (spExt x a) p) /\ objs s2 !! e = objs s !! e /\
    tasks s !! p = Some t /\ findInfo e (m_waitEventsInfo t) (m_waitEventCount t) = Some idx /\
    tasks s2 !! p = Some (wokenTask t idx (now s)).
Proof.
  intros HR Eq Hneed Hhook. apply (Rel_setExt _ _ _ x) in HR.
  destruct (Rel_waiter _ _ _ e p HR) as (i & t & idx & Hsl & Et & Hi & Hf & Etei & Hgi & Hie);
    [cbn [spExt sp_queue]; rewrite Eq; left|].
  pose proof (rel_task _ _ _ HR _ _ Et) as Htr.
  destruct (rel_queue _ _ _ HR e p) as [ob Eob]; [cbn [spExt sp_queue]; rewrite Eq; left|].
  pose proof (Rel_loose _ _ _ _ _ HR Eob) as Hloose. cbn [spExt sp_queue] in Hloose. rewrite Eq in Hloose.
  assert (Hnd : NoDup (p :: q)) by (by destruct Hloose as (? & ? & ? & ? & ? & ?)).
  unfold Event.serve. change (tasks (setExt s x)) with (tasks s) in Et. rewrite (deref_Some _ _ _ Et). ostep.
  rewrite (tr_sleeps _ _ _ _ Htr e) by (cbn [spExt sp_queue]; rewrite Eq; left). cbn [negb].
  rewrite (tr_need _ _ _ _ Htr). cbn [spExt sp_need].
  destruct (Z.ltb_spec 1 (sp_need a p)) as [|_]; [lia|]. rewrite Hhook. cbn [negb].
  destruct (excludeEventsFromTask_spec e pp (setExt s x) (spExt x a) p q t idx HR Eq Et Hf)
    as (s1 & E1 & HF & Et1 & Eo1 & Es1 & HL1).
  rewrite E1. ostep. rewrite (deref_Some _ _ _ Et1). ostep.
  rewrite (updTask_Ok _ _ _ _ Et1). ostep.
  erewrite updTask_Ok by (cbn [setTasks tasks]; apply lookup_insert_eq). ostep.
  unfold addWaitTask. erewrite updTask_Ok by (cbn [setTasks tasks]; apply lookup_insert_eq). ostep.
  cbn [setTasks tasks objs woken ext now]. rewrite !insert_insert_eq.
  unfold getInfo. cbn [tasks]. rewrite (deref_Some _ _ _ (lookup_insert_eq _ _ _)). ostep.
  rewrite (arr_get_Some _ _ i) by exact Hi. ostep.
  rewrite (EvLoose_first _ _ _ _ _ _ Hloose Hsl).
  eexists _, t, idx. split; [reflexivity|]. split; [|split; [|split; [done|split; [done|]]]].
  - unfold spServe. cbn [spExt sp_need sp_set sp_manual sp_queue sp_woken sp_ext].
    destruct (Z.ltb_spec 1 (sp_need a p)) as [|_]; [lia|].
    eapply (Rel_served e pp _ s1 _ (spExt x a) _ p q); try done; cbn [sp_queue spExt sp_need].
    + cbn [woken sp_woken]. rewrite <- (fr_woken _ _ HF). f_equal. apply (rel_woken _ _ _ HR).
    + cbn [ext sp_ext]. by rewrite <- (fr_ext _ _ HF).
    + rewrite Eq. by apply rm_cons.
    + intros o y Hy. apply elem_of_rm in Hy. tauto.
    + intros o y Hy ?. apply elem_of_rm. tauto.
    + intros o _ Hp. apply elem_of_rm in Hp. tauto.
    + destruct Htr. split; [done | cbn; lia | | | | done].
      * intros j k o _ [? _]. cbn in *. lia.
      * intros k o [? _]. cbn in *. lia.
      * intros o Hp. cbn in Hp. apply elem_of_rm in Hp. tauto.
  - cbn [objs]. by rewrite Eo1.
  - cbn [tasks]. rewrite lookup_insert_eq. rewrite <- (fr_now _ _ HF). done.
Qed.

Lemma serve_more e pp s a manual p q :
  Rel (Some (e, pp)) s a -> sp_queue a e = p :: q -> 1 < sp_need a p ->
  exists s2, serve e manual p s = Ok (default nullptr (head q), manual, s2) /\
    Rel (Some (e, p)) s2 (spServe e a p) /\ objs s2 !! e = objs s !! e.
Proof.
  intros HR Eq Hneed.
  destruct (Rel_waiter _ _ _ e p HR) as (i & t & idx & Hsl & Et & Hi & Hf & Etei & Hgi & Hie);
    [rewrite Eq; left|].
  pose proof (rel_task _ _ _ HR _ _ Et) as Htr.
  destruct (rel_queue _ _ _ HR e p) as [ob Eob]; [rewrite Eq; left|].
  pose proof (Rel_loose _ _ _ _ _ HR Eob) as Hloose. rewrite Eq in Hloose.
  unfold Event.serve. rewrite (deref_Some _ _ _ Et). ostep.
  rewrite (tr_sleeps _ _ _ _ Htr e) by (rewrite Eq; left). cbn [negb].
  rewrite (tr_need _ _ _ _ Htr). destruct (Z.ltb_spec 1 (sp_need a p)) as [_|]; [|lia].
  rewrite Etei. ostep. rewrite (updTask_Ok _ _ _ _ Et). ostep.
  unfold setInfo. cbn [setTasks tasks]. rewrite (deref_Some _ _ _ (lookup_insert_eq _ _ _)). ostep.
  rewrite (arr_get_Some _ _ i) by exact Hi. ostep.
  rewrite (arr_set_Some _ _ _ i) by exact Hi. ostep. rewrite insert_insert_eq.
  unfold getInfo. cbn [setTasks tasks]. rewrite (deref_Some _ _ _ (lookup_insert_eq _ _ _)). ostep.
  rewrite (arr_get_Some _ _ (iObject nullptr i))
    by (apply list_lookup_insert_eq; by eapply lookup_lt_Some).
  ostep. cbn [iObject ei_next]. rewrite (EvLoose_first _ _ _ _ _ _ Hloose Hsl).
  eexists. split; [reflexivity|]. split; [|done].
  rewrite <- (tr_need _ _ _ _ Htr). exact (serve_more_rel e pp s a p q t idx i HR Eq Hneed Et Hi Hf).
Qed.

(** One turn for a manual-reset event. *)
Lemma serve_manual e pp s a p q : Rel (Some (e, pp)) s a -> sp_queue a e = p :: q ->
  exists s2, serve e true p s = Ok (default nullptr (head q), true, s2) /\
    Rel (Some (e, p)) s2 (spServe e a p) /\ objs s2 !! e = objs s !! e.
Proof.
  intros HR Eq. destruct (Z.ltb_spec 1 (sp_need a p)) as [H|H]; [by eapply serve_more|].
  destruct (serve_wake e pp s a true p q (ext s) HR Eq H eq_refl) as (s2 & t & idx & E & HR2 & Eo & _).
  exists s2. rewrite (rel_ext _ _ _ HR), spExt_id in HR2. done.
Qed.

Notation serveLoop := (serveLoop onWakeSingleThread).

Lemma serveLoop_manual o q : forall fuel s a pp ob,
  Rel (Some (o, pp)) s a -> sp_queue a o = q -> objs s !! o = Some ob ->
  m_waitTaskListHead ob = default nullptr (head q) -> m_manualReset ob = true -> (length q <= fuel)%nat ->
  exists s' pp' ob', serveLoop fuel o s = Ok s' /\ Rel (Some (o, pp')) s' (fold_left (spServe o) q a) /\
    objs s' !! o = Some ob' /\ m_waitTaskListHead ob' = nullptr /\
    sp_queue (fold_left (spServe o) q a) o = [].
Proof.
  induction q as [|p q IH]; intros fuel s a pp ob HR Eq Eob Hh Hm Hf.
  - exists s, pp, ob. cbn [head from_option] in Hh. cbn [fold_left]. split; [|done].
    destruct fuel; cbn [Event.serveLoop]; rewrite (deref_Some _ _ _ Eob); ostep; by rewrite Hh, Z.eqb_refl.
  - destruct fuel as [|fuel]; [cbn in Hf; lia|]. cbn [Event.serveLoop].
    rewrite (deref_Some _ _ _ Eob). ostep. cbn [head from_option id] in Hh. rewrite Hh.
    pose proof (listAt_NoDup _ _ _ _ (rel_list _ _ _ HR _ _ Eob)) as [Hnd Hnull]. rewrite Eq in Hnd, Hnull.
    destruct (Z.eqb_spec p nullptr) as [->|_]; [set_solver|]. rewrite Hm.
    destruct (serve_manual o pp s a p q HR Eq) as (s2 & E2 & HR2 & Eo2). rewrite E2. ostep.
    rewrite <- Eo2 in Eob.
    destruct (Rel_oHead o p s2 _ ob (default nullptr (head q)) HR2 Eob) as (s3 & E3 & HR3 & Eo3 & _).
    rewrite E3. ostep. cbn [fold_left].
    eapply (IH fuel s3 _ p (oHead (default nullptr (head q)) ob) HR3); try done; [|cbn in Hf; lia].
    rewrite spServe_queue, Eq. by apply rm_cons.
Qed.

(** The loop of an auto-reset event: one waiter, and the flag is cleared. *)
Definition spServeAuto (o : Z) (a : Spec) : Spec :=
  match sp_queue a o with
  | [] => a
  | p :: _ =>
      if 1 <? sp_need a p then spServe o a p
      else let '(ok, x) := onWakeSingleThread o p (sp_ext a) in
           if ok then spServe o (spExt x a) p else spExt x a
  end.

Lemma serveLoop_auto o p q fuel s a ob :
  Rel (Some (o, nullptr)) s a -> sp_queue a o = p :: q -> objs s !! o = Some ob ->
  m_waitTaskListHead ob = p -> m_manualReset ob = false ->
  exists s' pp ob', serveLoop (S fuel) o s = Ok s' /\
    Rel (Some (o, pp)) s' (spSet (<[o := false]> (sp_set a)) (spServeAuto o a)) /\
    objs s' !! o = Some ob' /\ m_waitTaskListHead ob' = default nullptr (head (sp_queue (spServeAuto o a) o)).
Proof.
  intros HR Eq Eob Hh Hm. cbn [Event.serveLoop]. rewrite (deref_Some _ _ _ Eob). ostep. rewrite Hh, Hm.
  pose proof (listAt_NoDup _ _ _ _ (rel_list _ _ _ HR _ _ Eob)) as [Hnd Hnull]. rewrite Eq in Hnd, Hnull.
  destruct (Z.eqb_spec p nullptr) as [->|_]; [set_solver|].
  assert (Hrest : forall next s2 pp a2, serve o false p s = Ok (next, false, s2) ->
    Rel (Some (o, pp)) s2 a2 -> objs s2 !! o = Some ob -> sp_set a2 = sp_set a ->
    next = default nullptr (head (sp_queue a2 o)) ->
    exists s' ob', ('(next, continue, s) ← serve o false p s;
      if (continue : bool) then s ← updObj o (oHead next) s; serveLoop fuel o s
      else s ← updObj o (oSet false) s; updObj o (oHead next) s) = Ok s' /\
      Rel (Some (o, pp)) s' (spSet (<[o := false]> (sp_set a)) a2) /\
      objs s' !! o = Some ob' /\ m_waitTaskListHead ob' = default nullptr (head (sp_queue a2 o))).
  { intros next s2 pp a2 E2 HR2 Eo2 Es2 Hn. rewrite E2. ostep.
    destruct (Rel_oSet _ _ _ o ob false HR2 Eo2) as (s3 & E3 & HR3 & Eo3 & _). rewrite E3. ostep.
    rewrite Es2 in HR3.
    destruct (Rel_oHead o pp s3 _ _ next HR3 Eo3) as (s4 & E4 & HR4 & Eo4 & _).
    exists s4, (oHead next (oSet false ob)). done. }
  unfold spServeAuto. rewrite Eq.
  destruct (Z.ltb_spec 1 (sp_need a p)) as [Hn|Hn].
  - destruct (serve_more o nullptr s a false p q HR Eq Hn) as (s2 & E2 & HR2 & Eo2).
    edestruct (Hrest _ _ _ _ E2 HR2) as (s' & ob' & ?); [by rewrite Eo2 | apply spServe_sets | | by exists s', p, ob'].
    rewrite spServe_queue, Eq. by rewrite (rm_cons p q Hnd).
  - destruct (onWakeSingleThread o p (sp_ext a)) as [ok x] eqn:Hk. rewrite <- (rel_ext _ _ _ HR) in Hk.
    destruct ok.
    + destruct (serve_wake o nullptr s a false p q x HR Eq Hn Hk) as (s2 & t & idx & E2 & HR2 & Eo2 & _).
      edestruct (Hrest _ _ _ _ E2 HR2) as (s' & ob' & ?); [by rewrite Eo2 | by rewrite spServe_sets | | by exists s', p, ob'].
      rewrite spServe_queue. cbn [spExt sp_queue]. rewrite Eq. by rewrite (rm_cons p q Hnd).
    + assert (E2 : serve o false p s = Ok (p, false, setExt s x)).
      { destruct (Rel_waiter _ _ _ o p HR) as (i & t & idx & Hsl & Et & _); [rewrite Eq; left|].
        pose proof (rel_task _ _ _ HR _ _ Et) as Htr.
        unfold Event.serve. rewrite (deref_Some _ _ _ Et). ostep.
        rewrite (tr_sleeps _ _ _ _ Htr o) by (rewrite Eq; left). cbn [negb].
        rewrite (tr_need _ _ _ _ Htr). destruct (Z.ltb_spec 1 (sp_need a p)) as [|_]; [lia|].
        by rewrite Hk. }
      edestruct (Hrest _ _ nullptr (spExt x a) E2) as (s' & ob' & ?);
        [by apply Rel_setExt | done | done | cbn [spExt sp_queue]; by rewrite Eq | by exists s', nullptr, ob'].
Qed.

(** A manual-reset event serves all waiters in order and stays set; an auto-reset
    event serves the first one, and is set only when nobody waits. *)
Definition spDoSet (o : Z) (a : Spec) : Spec :=
  if sp_set a o then a
  else if sp_manual a o then
    spSet (<[o := true]> (sp_set a)) (fold_left (spServe o) (sp_queue a o) a)
  else
    match sp_queue a o with
    | [] => spSet (<[o := true]> (sp_set a)) a
    | _ => spServeAuto o a
    end.

Lemma spServeAuto_sets o a : sp_set (spServeAuto o a) = sp_set a.
Proof.
  unfold spServeAuto. destruct (sp_queue a o); [done|]. destruct (_ <? _); [apply spServe_sets|].
  destruct (onWakeSingleThread _ _ _) as [[] ?]; [by rewrite spServe_sets | done].
Qed.

Lemma set_spec o s a ob : Rel None s a -> objs s !! o = Some ob ->
  exists s', set onWakeSingleThread o s = Ok s' /\ Rel None s' (spDoSet o a).
Proof.
  intros HR Eob. unfold set. rewrite (deref_Some _ _ _ Eob). ostep.
  destruct (rel_obj _ _ _ HR _ _ Eob) as [Es Em]. unfold spDoSet. rewrite Es.
  destruct (sp_set a o) eqn:Hset; [by exists s|].
  pose proof (rel_list _ _ _ HR _ _ Eob) as (ob' & E' & Hh & _). assert (ob' = ob) as -> by congruence.
  destruct (Rel_oSet _ _ _ o ob true HR Eob) as (s1 & E1 & HR1 & Eo1 & _). rewrite E1. ostep.
  pose proof (queue_length _ _ _ o HR1) as Hlen. cbn [spSet sp_queue] in Hlen.
  apply (Rel_loosen _ _ o) in HR1. set (a1 := spSet _ a) in HR1.
  assert (Hfin : forall s2 pp a2 ob2, serveLoop (size (tasks s1)) o s1 = Ok s2 -> Rel (Some (o, pp)) s2 a2 ->
    objs s2 !! o = Some ob2 -> m_waitTaskListHead ob2 = default nullptr (head (sp_queue a2 o)) ->
    exists s', (s ← serveLoop (size (tasks s1)) o s1; ob ← deref (objs s) o;
      if negb (m_waitTaskListHead ob =? nullptr) then setPrevOf o (m_waitTaskListHead ob) nullptr s
      else updObj o (oTail nullptr) s) = Ok s' /\ Rel None s' a2).
  { intros s2 pp a2 ob2 E2 HR2 Eo2 Hh2. rewrite E2. ostep. rewrite (deref_Some _ _ _ Eo2). ostep.
    destruct (set_finish o pp s2 a2 ob2 HR2 Eo2 Hh2) as (s' & ? & ? & _). by exists s'. }
  rewrite <- Em. destruct (m_manualReset ob) eqn:Hm.
  - destruct (serveLoop_manual o (sp_queue a o) (size (tasks s1)) s1 a1 nullptr (oSet true ob))
      as (s2 & pp & ob2 & E2 & HR2 & Eo2 & Hh2 & Hq); try done.
    unfold a1 in *. rewrite fold_spServe_set in HR2, Hq. eapply Hfin; [done | done | done |].
    by rewrite Hh2, Hq.
  - destruct (sp_queue a o) as [|p q] eqn:Eq.
    + eapply (Hfin s1 nullptr a1); [|done|done|].
      * cbn [head from_option] in Hh.
        destruct (size (tasks s1)); cbn [Event.serveLoop]; rewrite (deref_Some _ _ _ Eo1); ostep;
          cbn [oSet m_waitTaskListHead]; by rewrite Hh, Z.eqb_refl.
      * cbn [a1 spSet sp_queue oSet m_waitTaskListHead]. by rewrite Eq.
    + destruct (size (tasks s1)) as [|fuel]; [cbn in Hlen; lia|].
      destruct (serveLoop_auto o p q fuel s1 a1 (oSet true ob)) as (s2 & pp & ob2 & E2 & HR2 & Eo2 & Hh2); try done.
      assert (Ea : spServeAuto o a1 = spSet (sp_set a1) (spServeAuto o a)).
      { unfold spServeAuto, a1. cbn [spSet sp_queue sp_need sp_ext sp_set]. rewrite Eq.
        destruct (_ <? _); [by rewrite spServe_set|]. destruct (onWakeSingleThread _ _ _) as [[] ?]; [|done].
        by rewrite <- spServe_set. }
      rewrite Ea in HR2, Hh2. eapply Hfin; [done | | done | exact Hh2].
      rewrite <- (spSet_id (spServeAuto o a)).
      eapply (Rel_set_ext _ _ _ (<[o := false]> (sp_set a1))); [|exact HR2].
      intros o'. rewrite spServeAuto_sets. cbn [a1 spSet sp_set].
      destruct (decide (o' = o)) as [->|]; [by rewrite fn_lookup_insert | by rewrite !fn_lookup_insert_ne].
Qed.

End EventSpec.
