(* ===== verification/EventWait.v ===== *)
(** * Events: waiting, timing out, and the correctness theorems *)

From S2P Require Import Prelude Task Event EventCore EventInv EventSpec.

Section EventWait.
Context {X : Type}.
Notation ES := (@ES X).
Notation Spec := (@Spec X).
Implicit Types (s : ES) (a : Spec).

(** ** [insertTask] appends *)
Lemma findInfo_snoc o l i n : (n < length l)%nat ->
  findInfo o (<[n := i]> l) (S n) =
    match findInfo o l n with
    | Some k => Some k
    | None => if ei_object i =? o then Some n else None
    end.
Proof.
  revert l. induction n as [|n IH]; intros [|j l] Hn; cbn in Hn; try lia.
  - destruct l; cbn; by destruct (_ =? _).
  - change (<[S n := i]> (j :: l)) with (j :: <[n := i]> l).
    remember (S n) as m. cbn [findInfo]. subst m. cbn [findInfo]. rewrite IH by lia. destruct (ei_object j =? o); [done|].
    destruct (findInfo o l n); [done|]. by destruct (ei_object i =? o).
Qed.

(** The record of a task that is entered in the list of [o] after [tail]. *)
Definition entered (o tail : Z) (t : Task) : Task :=
  setInfos (<[m_waitEventCount t := mkEventsInfo nullptr tail o]> (m_waitEventsInfo t)) (S (m_waitEventCount t)) t.

Lemma slotOf_entered o tail t o' : (m_waitEventCount t < length (m_waitEventsInfo t))%nat ->
  (forall k, ~ names t k o) ->
  slotOf o' (entered o tail t) = if decide (o' = o) then Some (mkEventsInfo nullptr tail o) else slotOf o' t.
Proof.
  intros Hc Hn. unfold slotOf, entered, setInfos, withWait. cbn [m_waitEventsInfo m_waitEventCount].
  rewrite findInfo_snoc by done. cbn [ei_object]. destruct (decide (o' = o)) as [->|Ho].
  - destruct (findInfo o _ _) as [k|] eqn:F.
    { exfalso. apply (Hn k). apply findInfo_Some in F. done. }
    rewrite Z.eqb_refl. cbn. by apply list_lookup_insert_eq.
  - destruct (findInfo o' _ _) as [k|] eqn:F; cbn.
    + apply findInfo_Some in F as [? _]. apply list_lookup_insert_ne. lia.
    + destruct (Z.eqb_spec o o'); [congruence | done].
Qed.

Lemma names_entered o tail t k o' : (m_waitEventCount t < length (m_waitEventsInfo t))%nat ->
  names (entered o tail t) k o' -> (k = m_waitEventCount t /\ o' = o) \/ names t k o'.
Proof.
  intros Hc (Hk & i & Hi & Ho). unfold entered, setInfos, withWait in *.
  cbn [m_waitEventsInfo m_waitEventCount] in *.
  destruct (decide (k = m_waitEventCount t)) as [->|Hne].
  - rewrite list_lookup_insert_eq in Hi by done. simplify_eq. by left.
  - rewrite list_lookup_insert_ne in Hi by done. right. split; [lia | by exists i].
Qed.

(** The first half of the linking: the last waiter of [q], or the head, names [p]. *)
Definition linked (o p : Z) (q : list Z) (ob : EventObject) (s1 s2 : ES) (ob2 : EventObject) : Prop :=
  Frame s1 s2 /\ tasks s2 !! p = tasks s1 !! p /\
  (forall o', o' <> o -> objs s2 !! o' = objs s1 !! o') /\ objs s2 !! o = Some ob2 /\
  m_set ob2 = m_set ob /\ m_manualReset ob2 = m_manualReset ob /\
  m_waitTaskListHead ob2 = default nullptr (head (q ++ [p])) /\
  (forall o' x, o' <> o \/ x = p \/ last q <> Some x -> slot s2 o' x = slot s1 o' x) /\
  (forall x i, last q = Some x -> slot s1 o x = Some i -> slot s2 o x = Some (iNext p i)).

Lemma link_spec o p q s1 ob :
  objs s1 !! o = Some ob -> m_waitTaskListHead ob = default nullptr (head q) ->
  (forall x, x ∈ q -> exists i, slot s1 o x = Some i) -> nullptr ∉ q -> p ∉ q ->
  exists s2 ob2, (if negb (default nullptr (last q) =? nullptr)
                  then setNextOf o (default nullptr (last q)) p s1 else updObj o (oHead p) s1) = Ok s2 /\
    linked o p q ob s1 s2 ob2.
Proof.
  intros Eob Hh Hd Hnull Hp. unfold linked. destruct (exists_last_or_nil q) as [->|(k & y & ->)].
  - cbn [last from_option]. rewrite Z.eqb_refl. cbn [negb].
    destruct (updObj_spec o (oHead p) s1 ob Eob) as (s2 & E2 & Hr). exists s2, (oHead p ob).
    split; [done|]. split; [by eapply (reend_Frame o (oHead p))|].
    pose proof (reend_slot _ _ _ _ Hr) as Hrs. destruct Hr as (Et2 & Eo2 & _). rewrite Et2, Eo2.
    split; [done|]. split; [intros o' ?; by rewrite lookup_alter_ne|]. rewrite lookup_alter_eq, Eob.
    do 4 (split; [done|]). split; [intros; apply Hrs | done].
  - rewrite last_snoc. cbn [from_option id].
    destruct (Z.eqb_spec y nullptr) as [->|_]; [set_solver|]. cbn [negb].
    assert (Hyp : y <> p) by set_solver. destruct (Hd y ltac:(set_solver)) as [i Hi].
    destruct (setNextOf_spec o y p s1 i Hi) as (s2 & E2 & HF & Eo2 & Es2 & Et2). exists s2, ob.
    split; [done|]. split; [done|]. split; [by apply Et2|]. rewrite Eo2. do 4 (split; [done|]).
    split; [rewrite Hh; by destruct k|]. split.
    + intros o' x Hx. rewrite Es2, decide_False; [done | naive_solver].
    + intros x j [= <-] Hj. rewrite Es2, decide_True by done. by rewrite Hj.
Qed.

(** The list with its new last element. *)
Lemma dseg_snoc o f g q p :
  dseg o f nullptr q nullptr -> NoDup q -> p ∉ q ->
  g p = Some (mkEventsInfo nullptr (default nullptr (last q)) o) ->
  (forall x i, last q = Some x -> f x = Some i -> g x = Some (iNext p i)) ->
  (forall x, x <> p -> last q <> Some x -> g x = f x) -> dseg o g nullptr (q ++ [p]) nullptr.
Proof.
  intros Hd Hnd Hp Hgp Hgl Hgo. apply dseg_app. cbn [head from_option dseg]. split; [|done].
  destruct (exists_last_or_nil q) as [->|(k & y & ->)]; [done|].
  apply dseg_app in Hd as [Hd1 [Hd2 _]]. apply dseg_app. cbn [head from_option id dseg] in *. split.
  - eapply dseg_ext; [|exact Hd1]. intros x Hx. symmetry. apply Hgo; [intros ->; set_solver|].
    rewrite last_snoc. intros [= ->]. apply NoDup_app in Hnd as (_ & Hnd & _). apply (Hnd x Hx). left.
  - split; [|done]. rewrite (Hgl y _ ltac:(by rewrite last_snoc) Hd2). done.
Qed.

Lemma TaskRel_entered o p tail s s' a t : TaskRel s a p t -> sleeping t = true ->
  (m_waitEventCount t < TaskWaitEventsMax)%nat -> (forall k, ~ names t k o) -> is_Some (objs s' !! o) ->
  (forall o', is_Some (objs s !! o') -> is_Some (objs s' !! o')) ->
  TaskRel s' (spQueue (<[o := sp_queue a o ++ [p]]> (sp_queue a)) a) p (entered o tail t).
Proof.
  intros [Hlen _ Hdis Hnm _ Hneed] Hsl Hc Hno Ho Hsome. split; cbn [spQueue sp_queue sp_need].
  - unfold entered, setInfos, withWait. cbn [m_waitEventsInfo]. by rewrite length_insert.
  - unfold entered, setInfos, withWait. cbn [m_waitEventCount]. lia.
  - intros k1 k2 o' Ho' H1 H2. apply names_entered in H1; [|lia]. apply names_entered in H2; [|lia].
    destruct H1 as [[-> ->]|H1], H2 as [[-> ?]|H2]; try done; [by destruct (Hno k2) | subst; by destruct (Hno k1)|].
    by eapply Hdis.
  - intros k o' Hk Ho'. apply names_entered in Hk; [|lia]. destruct (decide (o' = o)) as [->|Hne].
    + rewrite fn_lookup_insert. split; [done | set_solver].
    + destruct Hk as [[_ ?]|Hk]; [done|]. rewrite fn_lookup_insert_ne by done.
      destruct (Hnm k o' Hk Ho'). auto.
  - intros _ _. exact Hsl.
  - exact Hneed.
Qed.

(** From the linked state to the new relation. *)
Lemma Rel_entered o p s a ob t s2 ob2 s3 : let q := sp_queue a o in
  let s1 := setTasks s (<[p := entered o (default nullptr (last q)) t]> (tasks s)) in
  Rel None s a -> objs s !! o = Some ob -> tasks s !! p = Some t -> sleeping t = true ->
  (m_waitEventCount t < TaskWaitEventsMax)%nat -> p ∉ q -> (forall k, ~ names t k o) -> p <> nullptr ->
  (forall o' x, slot s1 o' x = if decide (o' = o /\ x = p)
     then Some (mkEventsInfo nullptr (default nullptr (last q)) o) else slot s o' x) ->
  linked o p q ob s1 s2 ob2 -> reend o (oTail p) s2 s3 ->
  Rel None s3 (spQueue (<[o := q ++ [p]]> (sp_queue a)) a).
Proof.
  intros q s1 HR Eob Et Hsl Hc Hp Hno Hp0 Hs1 (HF & Et2 & Eo2 & Eob2 & Hset & Hman & Hh2 & Hs2 & Hs2') Hr3.
  pose proof (rel_list _ _ _ HR _ _ Eob) as (_ & _ & _ & _ & Hd & Hnd & Hnull).
  pose proof (rel_null _ _ _ HR) as [Hn1 Hn2].
  pose proof (reend_slot _ _ _ _ Hr3) as Hrs3. destruct Hr3 as (Et3 & Eo3 & Ew3 & Ex3 & En3).
  assert (Hsome : forall o', is_Some (objs s !! o') <-> is_Some (objs s3 !! o')).
  { intros o'. rewrite Eo3. destruct (decide (o' = o)) as [->|];
      [rewrite lookup_alter_eq, Eob2, Eob; split; eauto | rewrite lookup_alter_ne by done; by rewrite Eo2]. }
  assert (Hother : forall x tx, x <> p -> tasks s3 !! x = Some tx -> exists t0, tasks s !! x = Some t0 /\ norm t0 = norm tx).
  { intros x tx Hx Ex. rewrite Et3 in Ex. symmetry in HF. destruct (Frame_lookup _ _ _ _ HF Ex) as (t0 & Et0 & En0).
    exists t0. unfold s1 in Et0. cbn [setTasks tasks] in Et0. by rewrite lookup_insert_ne in Et0. }
  split; cbn [spQueue sp_queue sp_set sp_manual sp_woken sp_ext].
  - split; [|rewrite Eo3, lookup_alter_ne by congruence; rewrite Eo2 by congruence; done].
    destruct (tasks s3 !! nullptr) as [tx|] eqn:E; [|done]. destruct (Hother nullptr tx) as (? & ? & _); [done..|congruence].
  - intros o' ob' Eo'. unfold listAt. destruct (decide (o' = o)) as [->|Ho].
    + rewrite fn_lookup_insert. exists (oTail p ob2). rewrite Eo3, lookup_alter_eq, Eob2. split; [done|].
      split; [done|]. split; [by rewrite last_snoc|]. split; [|split; [|set_solver]].
      * eapply (dseg_snoc o (slot s o)); [done | done | done | | |].
        -- rewrite Hrs3, Hs2 by tauto. by rewrite Hs1, decide_True.
        -- intros x i Hx Hi. rewrite Hrs3. apply Hs2'; [done|]. rewrite Hs1, decide_False; [done|].
           intros [_ ->]. apply Hp. by apply last_Some_elem_of.
        -- intros x Hx Hlast. rewrite Hrs3, Hs2 by tauto. rewrite Hs1, decide_False by tauto. done.
      * apply NoDup_app. split; [done|]. split; [|apply NoDup_singleton]. intros x Hx ->%list_elem_of_singleton. done.
    + rewrite fn_lookup_insert_ne by done. rewrite Eo3, lookup_alter_ne, Eo2 in Eo' by done.
      eapply (EvList_ext s); [by rewrite Eo3, lookup_alter_ne, Eo2 | | exact (rel_list _ _ _ HR _ _ Eo')].
      intros x _. rewrite Hrs3, Hs2 by tauto. by rewrite Hs1, decide_False by tauto.
  - intros o' x Hx. apply Hsome. destruct (decide (o' = o)) as [->|]; [eauto|].
    rewrite fn_lookup_insert_ne in Hx by done. by eapply (rel_queue _ _ _ HR).
  - intros o' ob' Eo'. rewrite Eo3 in Eo'. destruct (decide (o' = o)) as [->|].
    + rewrite lookup_alter_eq, Eob2 in Eo'. injection Eo' as <-. destruct (rel_obj _ _ _ HR _ _ Eob).
      cbn [oTail m_set m_manualReset]. split; congruence.
    + rewrite lookup_alter_ne, Eo2 in Eo' by done. by eapply (rel_obj _ _ _ HR).
  - intros x tx Ex. destruct (decide (x = p)) as [->|Hx].
    + rewrite Et3, Et2 in Ex. unfold s1 in Ex. cbn [setTasks tasks] in Ex. rewrite lookup_insert_eq in Ex. injection Ex as <-.
      eapply (TaskRel_entered o p _ s); [by eapply rel_task | done | done | done | apply Hsome; eauto | intros; by apply Hsome].
    + destruct (Hother x tx Hx Ex) as (t0 & Et0 & En0).
      eapply (TaskRel_norm s s3 a _ x t0 tx); [done | intros; by apply Hsome | | done | by eapply rel_task].
      intros o'. cbn [spQueue sp_queue]. destruct (decide (o' = o)) as [->|];
        [rewrite fn_lookup_insert; set_solver | by rewrite fn_lookup_insert_ne].
  - rewrite Ew3, <- (fr_woken _ _ HF). apply (rel_woken _ _ _ HR).
  - rewrite Ex3, <- (fr_ext _ _ HF). apply (rel_ext _ _ _ HR).
Qed.

Lemma insertTask_spec o p s a ob t :
  Rel None s a -> objs s !! o = Some ob -> tasks s !! p = Some t -> sleeping t = true ->
  (m_waitEventCount t < TaskWaitEventsMax)%nat -> p ∉ sp_queue a o ->
  exists s', insertTask o p s = Ok s' /\ Rel None s' (spQueue (<[o := sp_queue a o ++ [p]]> (sp_queue a)) a) /\
    tasks s' !! p = Some (entered o (default nullptr (last (sp_queue a o))) t) /\ now s' = now s /\
    (forall o', m_locked <$> objs s' !! o' = m_locked <$> objs s !! o').
Proof.
  intros HR Eob Et Hsl Hc Hp. pose proof (rel_task _ _ _ HR _ _ Et) as [Hlen _ Hdis Hnm _ _].
  pose proof (rel_list _ _ _ HR _ _ Eob) as (ob0 & E0 & Hh & Ht & Hd & Hnd & Hnull).
  assert (ob0 = ob) as -> by congruence. pose proof (rel_null _ _ _ HR) as [Hn1 Hn2].
  assert (Ho0 : o <> nullptr) by congruence. assert (Hp0 : p <> nullptr) by congruence.
  assert (Hno : forall k, ~ names t k o). { intros k Hk. by destruct (Hnm k o Hk Ho0). }
  unfold insertTask. rewrite (deref_Some _ _ _ Et). ostep. rewrite (deref_Some _ _ _ Eob). ostep.
  destruct (lookup_lt_is_Some_2 (m_waitEventsInfo t) (m_waitEventCount t)) as [j Hj]; [lia|].
  rewrite (arr_set_Some _ _ _ _ Hj). ostep. rewrite Ht. fold (entered o (default nullptr (last (sp_queue a o))) t).
  set (s1 := setTasks s _).
  assert (Hs1 : forall o' x, slot s1 o' x =
    if decide (o' = o /\ x = p) then Some (mkEventsInfo nullptr (default nullptr (last (sp_queue a o))) o) else slot s o' x).
  { intros o' x. unfold slot, s1. cbn [setTasks tasks]. destruct (decide (x = p)) as [->|];
      [|rewrite lookup_insert_ne by done; by rewrite decide_False by tauto].
    rewrite lookup_insert_eq, Et. cbn [mbind option_bind]. rewrite slotOf_entered by (done || lia).
    repeat case_decide; naive_solver. }
  destruct (link_spec o p (sp_queue a o) s1 ob Eob Hh) as (s2 & ob2 & E2 & Hlk); [|done|done|].
  { intros x Hx. rewrite Hs1, decide_False; [by eapply dseg_elem|]. intros [_ ->]. done. }
  rewrite E2. ostep. pose proof Hlk as (HF & Et2 & Eo2 & Eob2 & _).
  destruct (updObj_spec o (oTail p) s2 ob2 Eob2) as (s3 & E3 & Hr3).
  exists s3. split; [done|]. split; [by eapply (Rel_entered o p s a ob t s2 ob2 s3)|].
  pose proof Hr3 as (Et3 & Eo3 & _ & _ & En3).
  split; [rewrite Et3, Et2; unfold s1; cbn [setTasks tasks]; by rewrite lookup_insert_eq|].
  split; [by rewrite En3, <- (fr_now _ _ HF)|].
  assert (HF3 : Frame s1 s3) by (etrans; [exact HF | by eapply (reend_Frame o (oTail p))]).
  intros o'. pose proof (fr_objs _ _ HF3 o') as E. cbn [s1 setTasks objs] in E.
  destruct (objs s !! o') as [x|], (objs s3 !! o') as [y|]; try done. cbn in E |- *.
  unfold normO, oHead, oTail in E. by injection E as _ _ ->.
Qed.

(** ** Updates of one task record that the events do not look at *)
Lemma Rel_task_upd ex s a p t t' : Rel ex s a -> tasks s !! p = Some t ->
  m_waitEventsInfo t' = m_waitEventsInfo t -> m_waitEventCount t' = m_waitEventCount t ->
  m_needWaitEvents t' = m_needWaitEvents t -> (forall o, p ∈ sp_queue a o -> sleeping t' = true) ->
  Rel ex (setTasks s (<[p := t']> (tasks s))) a.
Proof.
  intros HR Et Ei Ec En Hs. pose proof (rel_null _ _ _ HR) as [Hn1 Hn2].
  destruct HR as [_ HL HQ HO HT HW HE].
  assert (Hn : forall k o, names t' k o <-> names t k o) by (intros; unfold names; by rewrite Ei, Ec).
  split; try done.
  - split; [|done]. cbn [setTasks tasks]. rewrite lookup_insert_ne; [done | congruence].
  - intros o ob Eo. eapply (listAt_ext _ s); [done | | by eapply HL]. intros x _. unfold slot. cbn [setTasks tasks].
    destruct (decide (x = p)) as [->|]; [|by rewrite lookup_insert_ne].
    rewrite lookup_insert_eq, Et. cbn. unfold slotOf. by rewrite Ei, Ec.
  - intros x tx. cbn [setTasks tasks]. destruct (decide (x = p)) as [->|].
    + rewrite lookup_insert_eq. intros [= <-]. destruct (HT p t Et) as [? ? Hd Hnm _ ?]. split.
      * by rewrite Ei.
      * by rewrite Ec.
      * intros j k o Ho Hj Hk. apply Hn in Hj. apply Hn in Hk. by eapply Hd.
      * intros k o Hk. apply Hn in Hk. by apply (Hnm k).
      * done.
      * by rewrite En.
    + rewrite lookup_insert_ne by done. intros Ex. by destruct (HT x tx Ex).
Qed.

(** A task that names no event is in no queue. *)
Lemma Rel_idle ex s a p t o : Rel ex s a -> tasks s !! p = Some t -> m_waitEventCount t = 0%nat ->
  p ∉ sp_queue a o.
Proof.
  intros HR Et Ec Hp. destruct (Rel_waiter _ _ _ _ _ HR Hp) as (i & t' & idx & _ & Et' & _ & Hf & _).
  simplify_eq. apply findInfo_Some in Hf as [? _]. lia.
Qed.

(** ** A timeout *)
Lemma excludeAllLoop_eq p n : forall idx s r,
  excludeAllLoop p n idx s = ('(_, s) ← excludeLoop nullptr p n idx r s; Ok s).
Proof.
  induction n as [|n IH]; intros idx s r; [done|]. cbn [excludeAllLoop excludeLoop].
  destruct (getInfo p idx s) as [i| | |]; try done. ostep.
  destruct (Z.eqb_spec (ei_object i) nullptr) as [_|_]; cbn [negb]; [ostep; apply IH|].
  destruct (excludeEventFromTask i s) as [s1| | |]; try done. ostep. apply IH.
Qed.

Definition spTimeout (p : Z) (a : Spec) : Spec := spQueue (fun o => rm p (sp_queue a o)) a.

Lemma timeout_spec p reason s a t : Rel None s a -> tasks s !! p = Some t ->
  exists s', excludeTaskFromWaiting p reason s = Ok s' /\ Rel None s' (spTimeout p a) /\
    tasks s' !! p = Some (setInfos (m_waitEventsInfo t) 0 (setResult reason t)) /\
    (forall o, is_Some (objs s !! o) <-> is_Some (objs s' !! o)).
Proof.
  intros HR Et. unfold excludeTaskFromWaiting. rewrite (updTask_Ok _ _ _ _ Et). ostep.
  assert (HR1 : Rel None (setTasks s (<[p := setResult reason t]> (tasks s))) a).
  { eapply Rel_task_upd; eauto. intros o Ho. exact (tr_sleeps _ _ _ _ (rel_task _ _ _ HR _ _ Et) o Ho). }
  revert HR1. set (t1 := setResult reason t). set (s1 := setTasks s _). intros HR1.
  assert (Et1 : tasks s1 !! p = Some t1) by (unfold s1; cbn [setTasks tasks]; by rewrite lookup_insert_eq).
  rewrite (deref_Some _ _ _ Et1). ostep.
  pose proof (rel_task _ _ _ HR1 _ _ Et1) as [Hlen Hc Hdis Hnm Hsl Hn]. pose proof (rel_null _ _ _ HR1) as [Hn1 Hn2].
  rewrite (excludeAllLoop_eq _ _ _ _ None).
  destruct (excludeLoop_spec nullptr p t1 Hdis ltac:(lia) (m_waitEventCount t1) 0 None s1 (sp_queue a))
    as (r & s2 & E & HF & Et2 & Eo2 & Es2 & HL2 & _); try done.
  - intros o ob _ Eo. exact (rel_list _ _ _ HR1 _ _ Eo).
  - intros k o _ Hk Ho _. by eapply Hnm.
  - intros o Ho _ Hp. destruct (Rel_waiter _ _ _ _ _ HR1 Hp) as (i & t' & k & ? & ? & ? & Fk & _ & _ & ?).
    simplify_eq. exists k. split; [lia|]. apply findInfo_Some in Fk as [? _]. split; [done | by exists i].
  - rewrite E. ostep. rewrite (deref_Some _ _ _ Et2). ostep. rewrite (updTask_Ok _ _ _ _ Et2).
    eexists. split; [reflexivity|].
    split; [|split; [cbn [setTasks tasks]; by rewrite lookup_insert_eq | intros o; exact (Frame_objs_is_Some s1 s2 o HF)]].
    assert (Hp0 : p <> nullptr) by congruence.
    split; cbn [spTimeout spQueue sp_queue sp_set sp_manual sp_woken sp_ext setTasks tasks objs woken ext].
    + split; [|by rewrite Eo2]. rewrite lookup_insert_ne by done. pose proof (fr_tasks _ _ HF nullptr) as E0.
      rewrite Hn1 in E0. by destruct (tasks s2 !! nullptr).
    + intros o ob Eo. eapply (EvList_ext s2); [done | | apply (HL2 o ob)]; [|congruence|done].
      intros x Hx. apply elem_of_rm in Hx as [? _]. by apply slot_setTasks_ne.
    + intros o x [_ Hx]%elem_of_rm. apply (Frame_objs_is_Some _ _ _ HF). by eapply (rel_queue _ _ _ HR1).
    + intros o ob Eo. destruct (Frame_obj _ _ _ _ HF Eo) as (ob' & E' & En).
      destruct (rel_obj _ _ _ HR1 _ _ E') as [<- <-]. unfold normO, oHead, oTail in En. by injection En.
    + intros x tx. destruct (decide (x = p)) as [->|Hx].
      * rewrite lookup_insert_eq. intros [= <-]. split; try done.
        -- cbn. lia.
        -- intros j k o _ [? _]. cbn in *. lia.
        -- intros k o [? _]. cbn in *. lia.
        -- intros o [? _]%elem_of_rm. done.
      * rewrite lookup_insert_ne by done. intros Ex. pose proof HF as HF'. symmetry in HF'.
        destruct (Frame_lookup _ _ _ _ HF' Ex) as (t0 & E0 & En0).
        eapply (TaskRel_norm s1 _ a _ x t0 tx); [done | | | done | by eapply (rel_task _ _ _ HR1)].
        -- intros o. apply (Frame_objs_is_Some s1 s2 o HF).
        -- intros o. cbn [spTimeout spQueue sp_queue]. rewrite elem_of_rm. tauto.
    + rewrite <- (fr_woken _ _ HF). apply (rel_woken _ _ _ HR1).
    + rewrite <- (fr_ext _ _ HF). apply (rel_ext _ _ _ HR1).
Qed.

(** ** Going to sleep *)
Definition asleep (timeout now : Z) (t : Task) : Task :=
  setResult WaitError
    (if negb (timeout =? WaitInfinite) then setTaskState TimedSleep (u64 (now + timeout)) (setReady true t)
     else setTaskState Sleep (m_wakeTime t) (setReady true t)).

Lemma asleep_sleeping timeout now t : sleeping (asleep timeout now t) = true.
Proof. unfold asleep. by destruct (_ =? _). Qed.
Lemma asleep_fields timeout now t :
  m_waitEventsInfo (asleep timeout now t) = m_waitEventsInfo t /\
  m_waitEventCount (asleep timeout now t) = m_waitEventCount t /\
  m_needWaitEvents (asleep timeout now t) = m_needWaitEvents t.
Proof. unfold asleep. by destruct (_ =? _). Qed.

Lemma prepareToSleep_run s p t timeout : tasks s !! p = Some t -> m_state t <> Terminated ->
  prepareToSleep p timeout s = Ok (true, setTasks s (<[p := asleep timeout (now s) t]> (tasks s))).
Proof.
  intros Et Hst. unfold prepareToSleep. rewrite (deref_Some _ _ _ Et). ostep.
  rewrite bool_decide_eq_false_2 by done. rewrite (updTask_Ok _ _ _ _ Et). ostep.
  unfold asleep. destruct (_ =? _); cbn [negb];
    (erewrite updTask_Ok by (cbn [setTasks tasks]; apply lookup_insert_eq); ostep;
     erewrite updTask_Ok by (cbn [setTasks tasks]; apply lookup_insert_eq); ostep;
     cbn [setTasks tasks objs woken ext now]; by rewrite !insert_insert_eq).
Qed.

Lemma prepareToSleep_spec ex s a p t timeout :
  Rel ex s a -> tasks s !! p = Some t -> m_state t <> Terminated ->
  exists s', prepareToSleep p timeout s = Ok (true, s') /\ Rel ex s' a /\
    s' = setTasks s (<[p := asleep timeout (now s) t]> (tasks s)).
Proof.
  intros HR Et Hst. eexists. split; [by apply prepareToSleep_run|]. split; [|done].
  pose proof (asleep_fields timeout (now s) t) as (? & ? & ?). eapply Rel_task_upd; eauto using asleep_sleeping.
Qed.

(** ** The operations and their specification *)
Context (onWaitBegin onWakeSingleThread : Z -> Z -> X -> bool * X).

Inductive Call : Type :=
| CWait (o p timeout : Z)      (* task [p] calls [waitExStatus] *)
| CSet (o : Z)                 (* [set] *)
| CTimeout (p : Z).            (* the scheduler takes a task that slept too long *)

(** What a call returns at once: nothing, a status, or "asleep". *)
Definition call (c : Call) (s : ES) : outcome (option (Z + unit) * ES) :=
  match c with
  | CWait o p timeout =>
      '(r, s) ← waitExStatus onWaitBegin o p timeout s; Ok (Some r, s)
  | CSet o => s ← set onWakeSingleThread o s; Ok (None, s)
  | CTimeout p => s ← excludeTaskFromWaiting p WaitTimeout s; Ok (None, s)
  end.

Definition spWait (o p timeout : Z) (a : Spec) : (Z + unit) * Spec :=
  if sp_set a o then
    (inl 0, if sp_manual a o then a else spSet (<[o := false]> (sp_set a)) a)
  else
    let '(go, x) := onWaitBegin o p (sp_ext a) in
    let a := spExt x a in
    if negb go then (inl 0, a)
    else if timeout =? 0 then (inl WaitTimeout, a)
    else (inr tt, spQueue (<[o := sp_queue a o ++ [p]]> (sp_queue a)) a).

Definition spCall (c : Call) (a : Spec) : option (Z + unit) * Spec :=
  match c with
  | CWait o p timeout => let '(r, a) := spWait o p timeout a in (Some r, a)
  | CSet o => (None, spDoSet onWakeSingleThread o a)
  | CTimeout p => (None, spTimeout p a)
  end.

(** A wait is called by a running task (it is in no list and not terminated). *)
Definition enabled (c : Call) (s : ES) : Prop :=
  match c with
  | CWait o p _ => is_Some (objs s !! o) /\
      exists t, tasks s !! p = Some t /\ m_waitEventCount t = 0%nat /\ m_state t <> Terminated
  | CSet o => is_Some (objs s !! o)
  | CTimeout p => is_Some (tasks s !! p)
  end.

Lemma wait_spec o p timeout s a ob t :
  Rel None s a -> objs s !! o = Some ob -> tasks s !! p = Some t -> m_waitEventCount t = 0%nat ->
  m_state t <> Terminated ->
  exists s', waitExStatus onWaitBegin o p timeout s = Ok (fst (spWait o p timeout a), s') /\
    Rel None s' (snd (spWait o p timeout a)).
Proof.
  intros HR Eob Et Ec Hst. unfold waitExStatus, spWait. rewrite (deref_Some _ _ _ Eob). ostep.
  destruct (rel_obj _ _ _ HR _ _ Eob) as [<- <-]. destruct (m_set ob) eqn:Hset.
  { destruct (m_manualReset ob); cbn [negb]; ostep; [by exists s|].
    destruct (Rel_oSet _ _ _ o ob false HR Eob) as (s1 & E1 & HR1 & _). rewrite E1. ostep. by exists s1. }
  rewrite <- (rel_ext _ _ _ HR). destruct (onWaitBegin o p (ext s)) as [go x].
  apply (Rel_setExt _ _ _ x) in HR. destruct go; cbn [negb]; [|by eexists].
  destruct (timeout =? 0); [by eexists|].
  destruct (prepareToSleep_spec _ _ _ p t timeout HR Et Hst) as (s1 & E1 & HR1 & Es1). rewrite E1. ostep.
  set (t1 := asleep timeout (now (setExt s x)) t) in *.
  assert (Et1 : tasks s1 !! p = Some t1) by (rewrite Es1; cbn [setTasks tasks]; by rewrite lookup_insert_eq).
  rewrite (updTask_Ok _ _ _ _ Et1). ostep. set (s2 := setTasks s1 _).
  pose proof (asleep_fields timeout (now (setExt s x)) t) as (Ei1 & Ec1 & _). fold t1 in Ei1, Ec1.
  pose proof (asleep_sleeping timeout (now (setExt s x)) t) as Hs1. fold t1 in Hs1.
  assert (HR2 : Rel None s2 (spExt x a)) by (eapply Rel_task_upd; eauto).
  destruct (insertTask_spec o p s2 (spExt x a) ob (setResult WaitError t1)) as (s3 & E3 & HR3 & _).
  - done.
  - unfold s2. cbn [setTasks objs]. by rewrite Es1.
  - unfold s2. cbn [setTasks tasks]. by rewrite lookup_insert_eq.
  - exact Hs1.
  - change (m_waitEventCount (setResult WaitError t1)) with (m_waitEventCount t1). rewrite Ec1, Ec. unfold TaskWaitEventsMax. lia.
  - eapply (Rel_idle None s2 (spExt x a) p (setResult WaitError t1) o HR2).
    + unfold s2. cbn [setTasks tasks]. by rewrite lookup_insert_eq.
    + change (m_waitEventCount (setResult WaitError t1)) with (m_waitEventCount t1). by rewrite Ec1.
  - rewrite E3. ostep. by exists s3.
Qed.

Lemma call_spec c s a : Rel None s a -> enabled c s ->
  exists s', call c s = Ok (fst (spCall c a), s') /\ Rel None s' (snd (spCall c a)).
Proof.
  intros HR He. destruct c as [o p timeout|o|p]; cbn [call spCall enabled] in *.
  - destruct He as ([ob Eob] & t & Et & Ec & Hst).
    destruct (wait_spec o p timeout s a ob t) as (s' & E & HR'); try done. rewrite E. ostep.
    exists s'. by destruct (spWait o p timeout a).
  - destruct He as [ob Eob]. destruct (set_spec onWakeSingleThread o s a ob HR Eob) as (s' & E & HR'). rewrite E.
    by exists s'.
  - destruct He as [t Et]. destruct (timeout_spec p WaitTimeout s a t HR Et) as (s' & E & HR' & _). rewrite E. by exists s'.
Qed.

(** ** Correctness *)

(** C31: events refine the queue specification.  On related states every call that is
    enabled returns (no panic, no fault, and the loop of [set] ends), gives the result
    the specification gives, and leaves related states: waiters are served first in,
    first out, a set of an auto-reset event wakes one waiter or is remembered, a
    manual-reset event wakes all, and a timeout takes the task out of every queue. *)
Theorem event_refines (c : Call) (s : ES) (a : Spec) :
  Rel None s a -> enabled c s ->
  exists s', call c s = Ok (fst (spCall c a), s') /\ Rel None s' (snd (spCall c a)).
Proof. apply call_spec. Qed.

End EventWait.

Section Wake.
Context {X : Type} (onWakeSingleThread : Z -> Z -> X -> bool * X).

Lemma norm_result t t' : norm t = norm t' ->
  m_waitEventCount t = m_waitEventCount t' /\ m_waitEventResult t = m_waitEventResult t' /\ m_state t = m_state t'.
Proof. unfold norm, setInfos, withWait. by intros [= _ _ _ _ _ Ec Er _ Es _]. Qed.

Lemma set_wake_spec (o p : Z) q (x : X) (s : @ES X) (a : @Spec X) ob :
  Rel None s a -> objs s !! o = Some ob -> m_set ob = false -> m_manualReset ob = false ->
  sp_queue a o = p :: q -> sp_need a p <= 1 -> onWakeSingleThread o p (ext s) = (true, x) ->
  exists s' t t' idx, set onWakeSingleThread o s = Ok s' /\
    tasks s !! p = Some t /\ findInfo o (m_waitEventsInfo t) (m_waitEventCount t) = Some idx /\
    tasks s' !! p = Some t' /\ norm t' = norm (wokenTask t idx (now s)) /\ is_Some (objs s' !! o).
Proof.
  intros HR Eob Hs Hm Eq Hneed Hk. unfold set. rewrite (deref_Some _ _ _ Eob). ostep. rewrite Hs.
  pose proof (rel_list _ _ _ HR _ _ Eob) as (ob' & E' & Hh & _). assert (ob' = ob) as -> by congruence.
  destruct (Rel_oSet _ _ _ o ob true HR Eob) as (s1 & E1 & HR1 & Eo1 & Et1 & Ex1 & En1). rewrite E1. ostep.
  pose proof (queue_length _ _ _ o HR1) as Hlen. cbn [spSet sp_queue] in Hlen. rewrite Eq in Hlen, Hh.
  destruct (size (tasks s1)) as [|fuel]; [cbn in Hlen; lia|].
  apply (Rel_loosen _ _ o) in HR1. set (a1 := spSet _ a) in HR1.
  pose proof (listAt_NoDup _ _ _ _ (rel_list _ _ _ HR _ _ Eob)) as [Hnd Hnull]. rewrite Eq in Hnd, Hnull.
  destruct (serve_wake onWakeSingleThread o nullptr s1 a1 false p q x)
    as (s2 & t & idx & E2 & HR2 & Eo2 & Et & Hf & Et2); try done; [by rewrite Ex1|].
  cbn [serveLoop]. rewrite (deref_Some _ _ _ Eo1). ostep. cbn [oSet m_waitTaskListHead m_manualReset].
  rewrite Hh. cbn [head from_option id]. destruct (Z.eqb_spec p nullptr) as [->|_]; [set_solver|].
  rewrite Hm, E2. ostep. rewrite Eo1 in Eo2.
  destruct (Rel_oSet _ _ _ o _ false HR2 Eo2) as (s3 & E3 & HR3 & Eo3 & Et3 & _). rewrite E3. ostep.
  destruct (Rel_oHead o p s3 _ _ (default nullptr (head q)) HR3 Eo3) as (s4 & E4 & HR4 & Eo4 & Et4). rewrite E4. ostep.
  rewrite (deref_Some _ _ _ Eo4). ostep.
  destruct (set_finish o p s4 _ _ HR4 Eo4) as (s' & E5 & _ & Hfin).
  { cbn [spSet sp_queue oHead m_waitTaskListHead]. rewrite spServe_queue. cbn [spExt a1 spSet sp_queue].
    rewrite Eq. by rewrite rm_cons. }
  rewrite E5. destruct (Frame_lookup _ _ p (wokenTask t idx (now s1)) Hfin) as (t' & Et' & En'); [by rewrite Et4, Et3|].
  rewrite Et1 in Et. rewrite En1 in En'. exists s', t, t', idx. repeat (split; [done|]).
  apply (Frame_objs_is_Some _ _ _ Hfin). rewrite Eo4. eauto.
Qed.

(** Setting an auto-reset event serves its first waiter. *)
Lemma set_auto_spec (o p : Z) (q : list Z) (s : @ES X) (a : @Spec X) (ob : EventObject) :
  Rel None s a -> objs s !! o = Some ob -> m_set ob = false -> m_manualReset ob = false ->
  sp_queue a o = p :: q ->
  exists s', set onWakeSingleThread o s = Ok s' /\ Rel None s' (spServeAuto onWakeSingleThread o a) /\
    m_set <$> objs s' !! o = Some false.
Proof.
  intros HR Eob Hs Hm Eq. destruct (set_spec onWakeSingleThread o s a ob HR Eob) as (s' & E & HR').
  destruct (rel_obj _ _ _ HR _ _ Eob) as [Es Em].
  assert (Hsp : spDoSet onWakeSingleThread o a = spServeAuto onWakeSingleThread o a).
  { unfold spDoSet. by rewrite <- Es, <- Em, Hs, Hm, Eq. }
  rewrite Hsp in HR'. exists s'. do 2 (split; [done|]). destruct (set_Woke onWakeSingleThread o s s' E) as [l HW].
  destruct (proj1 (wo_objs _ _ _ HW o)) as [ob' Eob']; [eauto|]. rewrite Eob'. cbn.
  destruct (rel_obj _ _ _ HR' _ _ Eob') as [-> _]. by rewrite spServeAuto_sets, <- Es, Hs.
Qed.

(** C32: what setting an auto-reset event does on which tasks wait.  The set returns, the
    event stays unset, and only the task that has waited longest is concerned.  If that
    task needs no more than this one set and the event's hook lets it through, it alone
    is woken: it becomes runnable, it is in no list any more, its wait returns the index
    of the slot the event was entered in, and it is handed to the scheduler once.
    Otherwise nobody is woken: a task that needs more sets (it waits for all of several
    events, or an earlier such wait that timed out has left its count behind) leaves
    this event's queue only, and one the hook holds back stays where it is.  In every
    case all other tasks keep their place in every queue. *)
Theorem set_wakes_first (o p : Z) (q : list Z) (s : @ES X) (a : @Spec X) (ob : EventObject) :
  Rel None s a -> objs s !! o = Some ob -> m_set ob = false -> m_manualReset ob = false ->
  sp_queue a o = p :: q ->
  exists s', set onWakeSingleThread o s = Ok s' /\ m_set <$> objs s' !! o = Some false /\
    if (sp_need a p <=? 1) && fst (onWakeSingleThread o p (ext s)) then
      exists t t' idx i, tasks s !! p = Some t /\ (idx < m_waitEventCount t)%nat /\
        m_waitEventsInfo t !! idx = Some i /\ ei_object i = o /\
        tasks s' !! p = Some t' /\ m_state t' = Wait /\ m_waitEventResult t' = Z.of_nat idx /\
        m_waitEventCount t' = 0%nat /\ woken s' = woken s ++ [p] /\
        (forall o', is_Some (objs s' !! o') -> EvList s' o' (rm p (sp_queue a o')))
    else
      woken s' = woken s /\
      (forall o', is_Some (objs s' !! o') ->
         EvList s' o' (if bool_decide (o' = o) && (1 <? sp_need a p) then q else sp_queue a o')).
Proof.
  intros HR Eob Hs Hm Eq. destruct (set_auto_spec o p q s a ob HR Eob Hs Hm Eq) as (s' & E & HR' & Hset).
  exists s'. do 2 (split; [done|]). unfold spServeAuto in HR'. rewrite Eq, <- (rel_ext _ _ _ HR) in HR'.
  destruct (Z.leb_spec (sp_need a p) 1) as [Hneed|Hneed]; destruct (Z.ltb_spec 1 (sp_need a p)); try lia; cbn [andb].
  - destruct (onWakeSingleThread o p (ext s)) as [[] x] eqn:Hk; cbn [fst].
    + destruct (set_wake_spec o p q x s a ob) as (s'' & t & t' & idx & E' & Et & Hf & Et' & En & _); try done.
      rewrite E in E'. injection E' as <-. destruct (findInfo_Some _ _ _ _ Hf) as (Hlt & i & Hi & Hio).
      assert (Hsv : spServe o (spExt x a) p = mkSpec (sp_set a) (sp_manual a)
        (fun o' => rm p (sp_queue a o')) (sp_need a) (sp_woken a ++ [p]) x).
      { unfold spServe. cbn [spExt sp_need]. destruct (Z.ltb_spec 1 (sp_need a p)); [lia | done]. }
      rewrite Hsv in HR'. exists t, t', idx, i. do 5 (split; [done|]).
      destruct (norm_result _ _ En) as (Ec & Er & Est).
      do 3 (split; [done|]). split; [by rewrite (rel_woken _ _ _ HR'), (rel_woken _ _ _ HR)|].
      intros o' [ob1 Eob1]. exact (rel_list _ _ _ HR' _ _ Eob1).
    + split; [rewrite (rel_woken _ _ _ HR'), (rel_woken _ _ _ HR); done|]. intros o' [ob1 Eob1].
      rewrite andb_false_r. exact (rel_list _ _ _ HR' _ _ Eob1).
  - unfold spServe in HR'. destruct (Z.ltb_spec 1 (sp_need a p)) as [_|]; [|lia].
    split; [rewrite (rel_woken _ _ _ HR'), (rel_woken _ _ _ HR); done|]. intros o' [ob1 Eob1].
    pose proof (proj1 (listAt_NoDup _ _ _ _ (rel_list _ _ _ HR _ _ Eob))) as Hnd. rewrite Eq in Hnd.
    pose proof (rel_list _ _ _ HR' _ _ Eob1) as HL. cbn [sp_queue] in HL. rewrite andb_true_r.
    case_bool_decide as Eo.
    + subst o'. rewrite fn_lookup_insert, Eq, rm_cons in HL by done. exact HL.
    + rewrite fn_lookup_insert_ne in HL by done. exact HL.
Qed.

End Wake.

(** ** [waitMultiple] *)
Section WaitMultiple.
Context {X : Type}.
Implicit Types (s : @ES X) (a : @Spec X).

Definition lockedIn (s : @ES X) (o : Z) : option bool := m_locked <$> objs s !! o.

(** Locking and unlocking an object changes nothing else. *)
Lemma lock_spec s a o ob b : Rel None s a -> objs s !! o = Some ob ->
  exists s', updObj o (oLock b) s = Ok s' /\ Rel None s' a /\ tasks s' = tasks s /\ ext s' = ext s /\
    now s' = now s /\ lockedIn s' o = Some b /\ (forall o', o' <> o -> objs s' !! o' = objs s !! o').
Proof.
  intros HR Eob. destruct (updObj_spec o (oLock b) s ob Eob) as (s' & E & Hr). exists s'. split; [done|].
  pose proof (reend_slot _ _ _ _ Hr) as Hsl. pose proof Hr as (Et & Eo & _ & Ex & En). split; [|split; [done|]].
  - rewrite <- (spSet_id a). eapply Rel_alter; [done | done | exact Hr | done | | done |].
    + exact (proj1 (rel_obj _ _ _ HR _ _ Eob)).
    + destruct (rel_list _ _ _ HR _ _ Eob) as (ob' & E' & Hl). assert (ob' = ob) as -> by congruence.
      exists (oLock b ob). rewrite Eo, lookup_alter_eq, Eob. split; [done|].
      destruct Hl as (? & ? & Hd & ?). do 2 (split; [done|]). split; [|done].
      eapply dseg_ext; [|done]. intros x _. symmetry. apply Hsl.
  - split; [done|]. split; [done|]. unfold lockedIn. rewrite Eo, lookup_alter_eq, Eob. split; [done|].
    intros o' ?. by rewrite lookup_alter_ne.
Qed.

(** An object that [waitMultiple] has to wait for. *)
Definition unsetFree (s : @ES X) (o : Z) : Prop :=
  exists ob, objs s !! o = Some ob /\ m_set ob = false /\ m_locked ob = false.

Lemma unsetFree_ext s s' o : objs s' !! o = objs s !! o -> unsetFree s o -> unsetFree s' o.
Proof. unfold unsetFree. by intros ->. Qed.

(** The first loop over objects none of which is set. *)
Lemma waitMultipleLoop_unset p waitAll todo rest : forall idx nw c s a,
  Rel None s a -> NoDup todo -> (forall o, o ∈ todo -> unsetFree s o) ->
  exists s', waitMultipleLoop baseHook p waitAll (todo ++ rest) idx nw c s =
      waitMultipleLoop baseHook p waitAll rest (idx + length todo) (nw ++ replicate (length todo) true) c s' /\
    Rel None s' a /\ tasks s' = tasks s /\ ext s' = ext s /\ now s' = now s /\
    (forall o, o ∈ todo -> lockedIn s' o = Some true) /\
    (forall o, o ∉ todo -> objs s' !! o = objs s !! o).
Proof.
  induction todo as [|o todo IH]; intros idx nw c s a HR Hnd Hfree.
  - exists s. cbn [app length replicate]. rewrite app_nil_r, Nat.add_0_r.
    do 5 (split; [done|]). split; [set_solver | done].
  - apply NoDup_cons in Hnd as [Ho Hnd]. destruct (Hfree o ltac:(left)) as (ob & Eob & Hs & Hl).
    cbn [app waitMultipleLoop]. unfold lockObj. rewrite (deref_Some _ _ _ Eob). ostep. rewrite Hl.
    destruct (lock_spec s a o ob true HR Eob) as (s1 & E1 & HR1 & Et1 & Ex1 & En1 & Hk1 & Eo1). rewrite E1. ostep.
    unfold lockedIn in Hk1. destruct (objs s1 !! o) as [ob1|] eqn:Eob1; [|done]. rewrite (deref_Some _ _ _ Eob1). ostep.
    assert (Hs1 : m_set ob1 = false).
    { destruct (rel_obj _ _ _ HR1 _ _ Eob1) as [-> _]. by destruct (rel_obj _ _ _ HR _ _ Eob) as [<- _]. }
    rewrite Hs1. cbn [baseHook negb].
    assert (Hse : setExt s1 (ext s1) = s1) by (by destruct s1). rewrite Hse.
    destruct (IH (S idx) (nw ++ [true]) c s1 a HR1 Hnd) as (s' & E' & HR' & Et' & Ex' & En' & Hk' & Eo').
    { intros o' Ho'. eapply unsetFree_ext; [apply Eo1; by intros -> | apply Hfree; by right]. }
    exists s'. rewrite E'. split; [f_equal; [cbn; lia | by rewrite <- app_assoc]|]. split; [done|].
    rewrite Et', Ex', En'. split; [done|]. split; [done|]. split; [done|]. split.
    + intros o' [->|Ho']%elem_of_cons; [|by apply Hk']. unfold lockedIn. rewrite Eo' by done. by rewrite Eob1.
    + intros o' [? ?]%not_elem_of_cons. rewrite Eo' by done. by apply Eo1.
Qed.

Lemma unlockTimes_spec n : forall o s a ob, Rel None s a -> objs s !! o = Some ob ->
  exists s', unlockTimes n o s = Ok s' /\ Rel None s' a /\
    lockedIn s' o = Some (if n is O then m_locked ob else false) /\
    (forall o', o' <> o -> objs s' !! o' = objs s !! o').
Proof.
  induction n as [|n IH]; intros o s a ob HR Eob; cbn [unlockTimes].
  - exists s. unfold lockedIn. by rewrite Eob.
  - unfold unlockObj. destruct (lock_spec s a o ob false HR Eob) as (s1 & E1 & HR1 & _ & _ & _ & Hk1 & Eo1).
    rewrite E1. ostep. unfold lockedIn in Hk1. destruct (objs s1 !! o) as [ob1|] eqn:Eob1; [|done].
    destruct (IH o s1 a ob1 HR1 Eob1) as (s' & E' & HR' & Hk' & Eo'). exists s'. split; [done|]. split; [done|].
    split; [|intros o' Ho; rewrite Eo' by done; by apply Eo1]. cbn in Hk1. destruct n; congruence.
Qed.

(** Task [p] is appended to the queues of the objects. *)
Definition enter (p : Z) (objects : list Z) (Q : Z -> list Z) : Z -> list Z :=
  fold_left (fun Q o => <[o := Q o ++ [p]]> Q) objects Q.

(** The slots from [c] on name the objects in order. *)
Definition namesFrom (t : Task) (c : nat) (objects : list Z) : Prop :=
  forall i o, objects !! i = Some o -> exists info, m_waitEventsInfo t !! (c + i)%nat = Some info /\ ei_object info = o.

Lemma unlockAll_insert p objects : forall s a t,
  Rel None s a -> tasks s !! p = Some t -> sleeping t = true ->
  (m_waitEventCount t + length objects <= TaskWaitEventsMax)%nat -> NoDup objects ->
  (forall o, o ∈ objects -> is_Some (objs s !! o) /\ p ∉ sp_queue a o) ->
  exists s' t', unlockAll true p objects (replicate (length objects) true) s = Ok s' /\
    Rel None s' (spQueue (enter p objects (sp_queue a)) a) /\ tasks s' !! p = Some t' /\
    sleeping t' = true /\ m_state t' = m_state t /\ m_waitEventResult t' = m_waitEventResult t /\
    m_waitEventCount t' = (m_waitEventCount t + length objects)%nat /\
    (forall i, (i < m_waitEventCount t)%nat -> m_waitEventsInfo t' !! i = m_waitEventsInfo t !! i) /\
    namesFrom t' (m_waitEventCount t) objects /\
    (forall o, o ∈ objects -> lockedIn s' o = Some false) /\
    (forall o, o ∉ objects -> lockedIn s' o = lockedIn s o).
Proof.
  induction objects as [|o objects IH]; intros s a t HR Et Hs Hc Hnd Ho.
  { exists s, t. cbn [unlockAll length]. split; [done|]. split; [by destruct a|]. rewrite Nat.add_0_r.
    do 6 (split; [done|]). split; [by intros i o ?%list_lookup_nil_Some || (intros i o; by rewrite lookup_nil)|].
    split; [set_solver | done]. }
  apply NoDup_cons in Hnd as [Hon Hnd]. cbn [length] in Hc. destruct (Ho o ltac:(left)) as [[ob Eob] Hp].
  cbn [length replicate unlockAll].
  destruct (insertTask_spec o p s a ob t) as (s1 & E1 & HR1 & Et1 & _ & Hlk1); try done; [lia|].
  rewrite E1. ostep. set (t1 := entered o _ t) in Et1.
  assert (is_Some (objs s1 !! o)) as [ob1 Eob1].
  { specialize (Hlk1 o). rewrite Eob in Hlk1. destruct (objs s1 !! o); [eauto | done]. }
  unfold unlockObj. destruct (lock_spec s1 _ o ob1 false HR1 Eob1) as (s2 & E2 & HR2 & Et2 & _ & _ & Hk2 & Eo2).
  rewrite E2. ostep.
  assert (Hi1 : forall i, (i < m_waitEventCount t)%nat -> m_waitEventsInfo t1 !! i = m_waitEventsInfo t !! i).
  { intros i Hi. apply list_lookup_insert_ne. lia. }
  destruct (IH s2 _ t1 HR2) as (s' & t' & E' & HR' & Et' & Hs' & Hst' & Hr' & Hc' & Hi' & Hn' & Hk' & Hko');
    [by rewrite Et2 | done | cbn; lia | done | |].
  { intros o' Ho'. assert (o' <> o) by (by intros ->). destruct (Ho o' ltac:(by right)) as [[ob' Eob'] ?]. split.
    - rewrite Eo2 by done. specialize (Hlk1 o'). rewrite Eob' in Hlk1. destruct (objs s1 !! o'); [eauto | done].
    - cbn [spQueue sp_queue]. by rewrite fn_lookup_insert_ne. }
  change (m_waitEventCount t1) with (S (m_waitEventCount t)) in *.
  exists s', t'. split; [done|]. split; [exact HR'|]. do 4 (split; [done|]). split; [cbn; lia|].
  split; [intros i Hi; rewrite Hi' by lia; by apply Hi1|]. split; [|split].
  - intros [|i] o' Hi; cbn in Hi.
    + injection Hi as <-. exists (mkEventsInfo nullptr (default nullptr (last (sp_queue a o))) o). split; [|done].
      rewrite Nat.add_0_r, Hi' by lia. apply list_lookup_insert_eq.
      rewrite (tr_slots _ _ _ _ (rel_task _ _ _ HR _ _ Et)). lia.
    + destruct (Hn' i o' Hi) as (info & ? & ?). exists info. split; [|done]. by rewrite <- Nat.add_succ_comm.
  - intros o' [->|Ho']%elem_of_cons; [|by apply Hk']. by rewrite Hko'.
  - intros o' [? ?]%not_elem_of_cons. rewrite Hko' by done. unfold lockedIn. rewrite Eo2 by done. apply Hlk1.
Qed.

Lemma Rel_setNeed ex s a p t n : Rel ex s a -> tasks s !! p = Some t ->
  Rel ex (setTasks s (<[p := setNeed n t]> (tasks s)))
    (mkSpec (sp_set a) (sp_manual a) (sp_queue a) (<[p := n]> (sp_need a)) (sp_woken a) (sp_ext a)).
Proof.
  intros HR Et. pose proof (rel_null _ _ _ HR) as [Hn1 Hn2]. destruct HR as [_ HL HQ HO HT HW HE]. split; try done.
  - split; [|done]. cbn [setTasks tasks]. rewrite lookup_insert_ne; [done | congruence].
  - intros o ob Eo. eapply (listAt_ext _ s); [done | | by eapply HL]. intros x _. unfold slot. cbn [setTasks tasks].
    destruct (decide (x = p)) as [->|]; [by rewrite lookup_insert_eq, Et | by rewrite lookup_insert_ne].
  - intros x tx. cbn [setTasks tasks]. destruct (decide (x = p)) as [->|].
    + rewrite lookup_insert_eq. intros [= <-]. destruct (HT p t Et) as [? ? ? ? ? ?]. split; try done.
      cbn. by rewrite fn_lookup_insert.
    + rewrite lookup_insert_ne by done. intros Ex. destruct (HT x tx Ex) as [? ? ? ? ? ?]. split; try done.
      cbn. by rewrite fn_lookup_insert_ne.
Qed.

(** Waiting for any of several events.  A running task that calls [waitMultiple]
    (not [waitAll]) with up to 64 distinct events, none of them set or locked, and a
    non-zero timeout, goes to sleep and is the last waiter of each event; its slot [i]
    names the [i]-th event (so the index a later [set] returns is the caller's index),
    one set will wake it, and all the events' locks are free again. *)
Theorem wait_any_enters (p timeout : Z) (objects : list Z) (s : @ES X) (a : @Spec X) (t : Task) :
  Rel None s a -> tasks s !! p = Some t -> m_waitEventCount t = 0%nat -> m_state t <> Terminated ->
  NoDup objects -> (0 < length objects <= TaskWaitEventsMax)%nat -> (forall o, o ∈ objects -> unsetFree s o) ->
  timeout <> 0 ->
  exists s' t', waitMultiple baseHook p objects false timeout s = Ok (inr tt, s') /\
    Rel None s' (mkSpec (sp_set a) (sp_manual a) (enter p objects (sp_queue a)) (<[p := 1]> (sp_need a))
                   (sp_woken a) (sp_ext a)) /\
    tasks s' !! p = Some t' /\ sleeping t' = true /\ m_waitEventResult t' = WaitError /\
    m_waitEventCount t' = length objects /\ namesFrom t' 0 objects /\
    (forall o, o ∈ objects -> lockedIn s' o = Some false).
Proof.
  intros HR Et Hc Hst Hnd Hlen Hfree Hto. unfold waitMultiple.
  destruct (waitMultipleLoop_unset p false objects [] 0 [] 0 s a HR Hnd Hfree)
    as (s1 & E1 & HR1 & Et1 & _ & En1 & Hk1 & Eo1).
  rewrite app_nil_r in E1. rewrite E1. cbn [waitMultipleLoop]. ostep. cbn [app].
  destruct (Z.eqb_spec 0 (Z.of_nat (length objects))) as [|_]; [lia|].
  destruct (Z.eqb_spec timeout 0) as [|_]; [done|]. rewrite <- Et1 in Et.
  destruct (prepareToSleep_spec None s1 a p t timeout HR1 Et Hst) as (s2 & E2 & HR2 & Es2). rewrite E2. ostep. cbn [negb].
  pose proof (asleep_fields timeout (now s1) t) as (Ei & Ec & _).
  destruct (unlockAll_insert p objects s2 a (asleep timeout (now s1) t) HR2)
    as (s3 & t3 & E3 & HR3 & Et3 & Hs3 & _ & Hr3 & Hc3 & _ & Hn3 & Hk3 & _).
  - rewrite Es2. cbn [setTasks tasks]. by rewrite lookup_insert_eq.
  - apply asleep_sleeping.
  - rewrite Ec, Hc. cbn. lia.
  - done.
  - intros o Ho. split.
    + rewrite Es2. cbn [setTasks objs]. specialize (Hk1 o Ho). unfold lockedIn in Hk1. destruct (objs s1 !! o); [eauto | done].
    + by eapply (Rel_idle None s1 a p t).
  - rewrite E3. ostep. rewrite (updTask_Ok _ _ _ _ Et3). ostep. eexists _, _. split; [reflexivity|].
    split; [exact (Rel_setNeed _ _ _ _ _ _ HR3 Et3)|]. cbn [setTasks tasks]. rewrite lookup_insert_eq. split; [done|].
    split; [exact Hs3|]. split; [change (m_waitEventResult t3 = WaitError); rewrite Hr3; unfold asleep; by destruct (_ =? _)|].
    split; [change (m_waitEventCount t3 = length objects); by rewrite Hc3, Ec, Hc|].
    split; [rewrite Ec, Hc in Hn3; exact Hn3 | exact Hk3].
Qed.

(** C34: an event that is already set ends [waitMultiple] at once, and the locks go
    wrong.  When the first events [pre] are not set and the next one, [o], is set, the
    call returns the index of [o] and consumes an auto-reset flag; but the loop that
    should release the locks of [pre] unlocks [o] again and again, so every event of
    [pre] stays locked for good, and when [pre] is empty [o] itself does. *)
Theorem wait_any_leaves_locks (p timeout : Z) (pre post : list Z) (o : Z) (s : @ES X) (a : @Spec X) (ob : EventObject) :
  Rel None s a -> NoDup (pre ++ [o]) -> (forall o', o' ∈ pre -> unsetFree s o') ->
  objs s !! o = Some ob -> m_set ob = true -> m_locked ob = false ->
  exists s', waitMultiple baseHook p (pre ++ o :: post) false timeout s = Ok (inl (Z.of_nat (length pre)), s') /\
    (m_set <$> objs s' !! o) = Some (m_manualReset ob) /\
    (forall o', o' ∈ pre -> lockedIn s' o' = Some true) /\
    lockedIn s' o = Some (bool_decide (pre = [])).
Proof.
  intros HR Hnd Hfree Eob Hs Hl. apply NoDup_app in Hnd as (Hnd & Hdis & _).
  assert (Ho : o ∉ pre) by (intros Ho; apply (Hdis o Ho); left). unfold waitMultiple.
  destruct (waitMultipleLoop_unset p false pre (o :: post) 0 [] 0 s a HR Hnd Hfree)
    as (s1 & E1 & HR1 & _ & _ & _ & Hk1 & Eo1).
  rewrite E1. cbn [waitMultipleLoop]. rewrite <- (Eo1 o Ho) in Eob. unfold lockObj.
  rewrite (deref_Some _ _ _ Eob). ostep. rewrite Hl.
  destruct (lock_spec s1 a o ob true HR1 Eob) as (s2 & E2 & HR2 & _ & _ & _ & Hk2 & Eo2). rewrite E2. ostep.
  unfold lockedIn in Hk2. destruct (objs s2 !! o) as [ob2|] eqn:Eob2; [|done]. rewrite (deref_Some _ _ _ Eob2). ostep.
  destruct (rel_obj _ _ _ HR1 _ _ Eob) as [Es Em]. destruct (rel_obj _ _ _ HR2 _ _ Eob2) as [Es2 Em2].
  rewrite Es2, <- Es, Hs. cbn [negb andb].
  assert (exists s3 a3 ob3, (if negb (m_manualReset ob2) then updObj o (oSet false) s2 else Ok s2) = Ok s3 /\
    Rel None s3 a3 /\ objs s3 !! o = Some ob3 /\ m_set ob3 = m_manualReset ob /\ m_locked ob3 = true /\
    (forall o', o' <> o -> objs s3 !! o' = objs s2 !! o')) as (s3 & a3 & ob3 & E3 & HR3 & Eob3 & Hs3 & Hl3 & Eo3).
  { rewrite Em2, <- Em. cbn in Hk2. injection Hk2 as Hk2. destruct (m_manualReset ob) eqn:Hm; cbn [negb].
    - exists s2, a, ob2. repeat (split; [done|]). split; [congruence|]. done.
    - destruct (updObj_spec o (oSet false) s2 ob2 Eob2) as (s3' & E3' & _ & Hr & _).
      destruct (Rel_oSet _ _ _ o ob2 false HR2 Eob2) as (s3 & E3 & HR3 & Eo3 & _). rewrite E3' in E3. injection E3 as <-.
      rewrite E3'. eexists _, _, _. split; [done|]. split; [exact HR3|]. split; [done|]. split; [done|]. split; [done|].
      intros o' ?. by rewrite Hr, lookup_alter_ne. }
  rewrite E3. ostep. destruct (unlockTimes_spec (0 + length pre) o s3 a3 ob3 HR3 Eob3) as (s4 & E4 & HR4 & Hk4 & Eo4).
  rewrite E4. ostep. exists s4. split; [done|]. split; [|split].
  - unfold lockedIn in Hk4. destruct (objs s4 !! o) as [ob4|] eqn:Eob4; [|done]. cbn.
    destruct (rel_obj _ _ _ HR4 _ _ Eob4) as [-> _]. by destruct (rel_obj _ _ _ HR3 _ _ Eob3) as [<- _]; rewrite Hs3.
  - intros o' Ho'. assert (o' <> o) by (by intros ->). unfold lockedIn. rewrite Eo4, Eo3, Eo2 by done. by apply Hk1.
  - rewrite Hk4. destruct pre; cbn [length Nat.add]; [by rewrite Hl3 | done].
Qed.

End WaitMultiple.

(** ** Initial states, and runs on small systems *)

(** No task waits and no event has waiters. *)
Record Init {X} (s : @ES X) : Prop := mkInit {
  in_null : tasks s !! nullptr = None /\ objs s !! nullptr = None;
  in_tasks : forall p t, tasks s !! p = Some t ->
    length (m_waitEventsInfo t) = TaskWaitEventsMax /\ m_waitEventCount t = 0%nat;
  in_objs : forall o ob, objs s !! o = Some ob ->
    m_waitTaskListHead ob = nullptr /\ m_waitTaskListTail ob = nullptr }.

Definition initSpec {X} (s : @ES X) : @Spec X :=
  mkSpec (fun o => from_option m_set false (objs s !! o)) (fun o => from_option m_manualReset false (objs s !! o))
    (fun _ => []) (fun p => from_option m_needWaitEvents 0 (tasks s !! p)) (woken s) (ext s).

Lemma init_Rel {X} (s : @ES X) : Init s -> Rel None s (initSpec s).
Proof.
  intros [Hn Ht Ho]. split; cbn [initSpec sp_queue sp_set sp_manual sp_woken sp_ext]; try done.
  - intros o ob Eob. destruct (Ho o ob Eob). exists ob. repeat split; try done; [apply NoDup_nil_2 | set_solver].
  - intros o p Hp. set_solver.
  - intros o ob Eob. by rewrite Eob.
  - intros p t Et. destruct (Ht p t Et) as [? Ec]. split; try done.
    + rewrite Ec. lia.
    + intros j k o _ [? _]. lia.
    + intros k o [? _]. lia.
    + intros o Hp. cbn in Hp. set_solver.
    + cbn. by rewrite Et.
Qed.

Module Demo.

Definition newTask : Task :=
  mkTask 0 ∅ InvalidIndex nullptr (replicate TaskWaitEventsMax (mkEventsInfo 0 0 0)) 0 0 0 Active 0
    true false false 0 false 0.
Notation newEvent := (newEventObject false).

(** Tasks 16 and 32, an auto-reset event 256 and a manual-reset event 512; the hooks
    are those of [EventObject]. *)
Definition sys : @ES unit :=
  mkES {[16 := newTask; 32 := newTask]} {[256 := newEvent false; 512 := newEvent true]} [] tt 7.
Notation hook := (@baseHook unit).

Lemma sys_Init : Init sys.
Proof.
  split.
  - done.
  - intros p t. unfold sys. cbn [tasks]. rewrite lookup_insert_Some, lookup_singleton_Some. naive_solver.
  - intros o ob. unfold sys. cbn [objs]. rewrite lookup_insert_Some, lookup_singleton_Some. naive_solver.
Qed.

Definition run (c : Call) (s : @ES unit) : @ES unit :=
  match call hook hook c s with Ok (_, s) => s | _ => s end.
Definition both : @ES unit := run (CWait 256 32 WaitInfinite) (run (CWait 256 16 WaitInfinite) sys).
Definition bothSpec : @Spec unit :=
  snd (spCall hook hook (CWait 256 32 WaitInfinite) (snd (spCall hook hook (CWait 256 16 WaitInfinite) (initSpec sys)))).

Lemma run_Rel c s a : Rel None s a -> enabled c s -> Rel None (run c s) (snd (spCall hook hook c a)).
Proof. intros HR He. destruct (call_spec hook hook c s a HR He) as (s' & E & HR'). unfold run. by rewrite E. Qed.

Lemma both_Rel : Rel None both bothSpec.
Proof.
  apply run_Rel; [apply run_Rel; [apply init_Rel, sys_Init|]|]; (split; [eexists; reflexivity|]; eexists; split; [reflexivity|done]).
Qed.

Lemma event_refines_witness :
  exists s', call hook hook (CSet 256) both = Ok (None, s') /\ Rel None s' (snd (spCall hook hook (CSet 256) bothSpec)) /\
    sp_woken (snd (spCall hook hook (CSet 256) bothSpec)) = [16].
Proof.
  destruct (event_refines hook hook (CSet 256) both bothSpec) as (s' & E & HR).
  - exact both_Rel.
  - eexists. vm_compute. reflexivity.
  - exists s'. split; [exact E|]. split; [exact HR|]. vm_compute. reflexivity.
Defined.

Lemma set_wakes_first_witness :
  exists s' t', set hook 256 both = Ok s' /\ tasks s' !! 16 = Some t' /\ m_state t' = Wait /\
    m_waitEventResult t' = 0 /\ woken s' = [16].
Proof.
  destruct (set_wakes_first hook 256 16 [32] both bothSpec (mkEventObject false false 32 16 false))
    as (s' & E & _ & H).
  - exact both_Rel.
  - vm_compute. reflexivity.
  - reflexivity.
  - reflexivity.
  - vm_compute. reflexivity.
  - assert (Hb : (sp_need bothSpec 16 <=? 1) && fst (hook 256 16 (ext both)) = true) by (vm_compute; reflexivity).
    rewrite Hb in H. destruct H as (t & t' & idx & i & Et & Hlt & Hi & Ho & Et' & Hst & Hr & Hc & Hw & _).
    exists s', t'. split; [exact E|]. split; [exact Et'|]. split; [exact Hst|]. split; [|exact Hw].
    rewrite Hr. assert (m_waitEventCount t = 1%nat) as Hc1.
    { assert (tasks both !! 16 = Some t) as Et2 by exact Et. vm_compute in Et2. injection Et2 as <-. reflexivity. }
    rewrite Hc1 in Hlt. destruct idx as [|idx]; [reflexivity | lia].
Defined.

Lemma unsetFree_sys o : o ∈ [256; 512] -> unsetFree sys o.
Proof. intros Ho. repeat (apply elem_of_cons in Ho as [->|Ho]); [by eexists.. | by apply elem_of_nil in Ho]. Qed.

Lemma wait_any_enters_witness :
  exists s' t', waitMultiple hook 16 [256; 512] false 1000 sys = Ok (inr tt, s') /\
    tasks s' !! 16 = Some t' /\ sleeping t' = true /\ m_waitEventCount t' = 2%nat.
Proof.
  destruct (wait_any_enters 16 1000 [256; 512] sys (initSpec sys) newTask)
    as (s' & t' & E & _ & Et & Hs & _ & Hc & _).
  - apply init_Rel, sys_Init.
  - vm_compute. reflexivity.
  - reflexivity.
  - discriminate.
  - apply (bool_decide_eq_true_1 _). vm_compute. reflexivity.
  - cbn. unfold TaskWaitEventsMax. lia.
  - apply unsetFree_sys.
  - discriminate.
  - exists s', t'. split; [exact E|]. split; [exact Et|]. split; [exact Hs | exact Hc].
Defined.

(** Event 512 is set. *)
Definition sysSet : @ES unit :=
  mkES (tasks sys) {[256 := newEvent false; 512 := oSet true (newEvent true)]} [] tt 7.

Lemma sysSet_Init : Init sysSet.
Proof.
  destruct sys_Init as [[? ?] ? _]. split; [done | done |].
  intros o ob. unfold sysSet. cbn [objs]. rewrite lookup_insert_Some, lookup_singleton_Some. naive_solver.
Qed.

(** The call returns index 1; event 256 is left locked. *)
Lemma wait_any_leaves_locks_witness :
  exists s', waitMultiple hook 16 [256; 512] false WaitInfinite sysSet = Ok (inl 1, s') /\
    lockedIn s' 256 = Some true /\ lockedIn s' 512 = Some false.
Proof.
  destruct (wait_any_leaves_locks 16 WaitInfinite [256] [] 512 sysSet (initSpec sysSet) (oSet true (newEvent true)))
    as (s' & E & _ & Hpre & Ho).
  - apply init_Rel, sysSet_Init.
  - apply (bool_decide_eq_true_1 _). vm_compute. reflexivity.
  - intros o' ->%list_elem_of_singleton. by eexists.
  - vm_compute. reflexivity.
  - reflexivity.
  - reflexivity.
  - exists s'. split; [exact E|]. split; [apply Hpre; left | exact Ho].
Defined.

(** Waiting for all of an event that is set and one that is not: the task needs two
    sets but is in one list only, so setting the second event does not wake it, and it
    is then in no list at all. *)
Definition waitAllRun : outcome (bool * bool * list Z) :=
  '(_, s) ← waitMultiple hook 16 [512; 256] true WaitInfinite sysSet;
  s ← set hook 256 s;
  t ← deref (tasks s) 16;
  ob ← deref (objs s) 256;
  Ok (sleeping t, m_waitTaskListHead ob =? nullptr, woken s).
Lemma wait_all_is_never_woken : waitAllRun = Ok (true, true, []).
Proof. vm_compute. reflexivity. Qed.

(** A wait for all that timed out leaves the count of needed sets behind: the next
    plain wait of the task is not ended by the set of its event. *)
Definition staleNeedRun : outcome (bool * list Z) :=
  '(_, s) ← waitMultiple hook 16 [256; 512] true 10 sys;
  s ← excludeTaskFromWaiting 16 WaitTimeout s;
  '(_, s) ← waitExStatus hook 256 16 WaitInfinite s;
  s ← set hook 256 s;
  t ← deref (tasks s) 16;
  Ok (sleeping t, woken s).
Lemma stale_need_is_not_woken : staleNeedRun = Ok (true, []).
Proof. vm_compute. reflexivity. Qed.

End Demo.
