(* ===== verification/Sched.v ===== *)
(** * The scheduler (kernel/TaskManager.cpp, kernel/TaskManager.h)

    Every CPU runs one task.  Runnable tasks wait in the queue ordered by wake time or
    in the realtime list; tasks that sleep with a timeout are in a second queue.  A
    switch has two halves: [beginTaskSwitch] chooses the next task ([shedule]) on the
    old stack, [endTaskSwitch] files the old task and makes the new one current on the
    new stack.

    The state is the tasks and events of [Event] with the manager's queues and the
    CPU-local words of every CPU.  Spin locks and the atomic words are not part of the
    state: one call of a routine here is one step of one CPU.  What a call can do wrong
    with them on its own is in: the lock of the current task is held while the next one
    is chosen and locked ([lockTask]). *)

From S2P Require Import Prelude Task Event.

Import TaskPriorityQueue.

(** ** Task fields the scheduler writes *)
Definition withSched (t : Task) (stackTop idx rtNext : Z) (useFpu : bool) : Task :=
  mkTask stackTop (m_threadLocalData t) idx rtNext (m_waitEventsInfo t) (m_waitEventCount t)
    (m_waitEventResult t) (m_needWaitEvents t) (m_state t) (m_wakeTime t) (m_kernel t) useFpu
    (m_idle t) (m_desiredMaxWait t) (m_readyForSleep t) (m_pagingManager t).
Definition setStackTop (x : Z) (t : Task) : Task :=
  withSched t x (m_priorityQueueIndex t) (m_realtimeNext t) (m_useFpu t).
Definition setRealtimeNext (x : Z) (t : Task) : Task :=
  withSched t (m_stackTop t) (m_priorityQueueIndex t) x (m_useFpu t).
Definition setUseFpu (b : bool) (t : Task) : Task :=
  withSched t (m_stackTop t) (m_priorityQueueIndex t) (m_realtimeNext t) b.
(** [task->m_state = st] *)
Definition setState (st : TaskState) (t : Task) : Task := setTaskState st (m_wakeTime t) t.

(** ** State *)
Record IdleInfo : Type := mkIdleInfo {
  ii_task : Z;
  ii_run : bool;
  ii_nextIpiTime : Z }.

(** The CPU-local words, the current task (the GS base), the TS flag, the FPU
    registers and the page tables of one CPU. *)
Record Cpu : Type := mkCpu {
  c_current : Z;
  c_idleTask : Z;
  c_nextTask : Z;
  c_shedTime : Z;
  c_needSwitch : bool;
  c_lockCount : Z;
  c_tsFlag : bool;
  c_fpuRegs : Z;
  c_paging : Z }.

Section Sched.
Context {X : Type} (onWakeSingleThread : Z -> Z -> X -> bool * X).
(** The event [m_threadPrivate->m_terminateEvent] of a task, and the distance
    [offsetof(InterruptFullState, m_volatile)]. *)
Context (terminateEvent : Z -> Z) (volatileOffset : Z).

Record KS : Type := mkKS {
  k_es : @ES X;
  k_realtimeHead : Z;
  k_waitQueue : t;
  k_timedQueue : t;
  k_idleInfo : list IdleInfo;
  k_cpus : list Cpu;
  k_switchCount : Z;
  k_interval : Z;                 (* m_forcedTaskSwitchTimeInterval *)
  k_fpuData : gmap Z Z;           (* the saved FPU context of every task *)
  k_ipis : list Z                 (* CPUs that were sent a task-switch interrupt *) }.

Definition withEs (k : KS) (e : @ES X) : KS :=
  mkKS e (k_realtimeHead k) (k_waitQueue k) (k_timedQueue k) (k_idleInfo k) (k_cpus k)
    (k_switchCount k) (k_interval k) (k_fpuData k) (k_ipis k).
Definition withQueues (k : KS) (e : @ES X) (rt : Z) (wq tq : t) : KS :=
  mkKS e rt wq tq (k_idleInfo k) (k_cpus k) (k_switchCount k) (k_interval k) (k_fpuData k) (k_ipis k).
Definition withIdle (k : KS) (l : list IdleInfo) : KS :=
  mkKS (k_es k) (k_realtimeHead k) (k_waitQueue k) (k_timedQueue k) l (k_cpus k)
    (k_switchCount k) (k_interval k) (k_fpuData k) (k_ipis k).
Definition withCpus (k : KS) (l : list Cpu) : KS :=
  mkKS (k_es k) (k_realtimeHead k) (k_waitQueue k) (k_timedQueue k) (k_idleInfo k) l
    (k_switchCount k) (k_interval k) (k_fpuData k) (k_ipis k).
Definition withCount (k : KS) (n : Z) : KS :=
  mkKS (k_es k) (k_realtimeHead k) (k_waitQueue k) (k_timedQueue k) (k_idleInfo k) (k_cpus k)
    n (k_interval k) (k_fpuData k) (k_ipis k).
Definition withFpu (k : KS) (f : gmap Z Z) : KS :=
  mkKS (k_es k) (k_realtimeHead k) (k_waitQueue k) (k_timedQueue k) (k_idleInfo k) (k_cpus k)
    (k_switchCount k) (k_interval k) f (k_ipis k).
Definition withIpis (k : KS) (l : list Z) : KS :=
  mkKS (k_es k) (k_realtimeHead k) (k_waitQueue k) (k_timedQueue k) (k_idleInfo k) (k_cpus k)
    (k_switchCount k) (k_interval k) (k_fpuData k) l.

Definition k_tasks (k : KS) : gmap Z Task := tasks (k_es k).
Definition k_now (k : KS) : Z := now (k_es k).

Definition getTask (p : Z) (k : KS) : outcome Task := deref (k_tasks k) p.
Definition updT (p : Z) (f : Task -> Task) (k : KS) : outcome KS :=
  e ← updTask p f (k_es k); Ok (withEs k e).
Definition getCpu (c : nat) (k : KS) : outcome Cpu := arr_get (k_cpus k) c.
Definition updCpu (c : nat) (f : Cpu -> Cpu) (k : KS) : outcome KS :=
  x ← arr_get (k_cpus k) c;
  l ← arr_set (k_cpus k) c (f x);
  Ok (withCpus k l).
Definition updIdle (c : nat) (f : IdleInfo -> IdleInfo) (k : KS) : outcome KS :=
  x ← arr_get (k_idleInfo k) c;
  l ← arr_set (k_idleInfo k) c (f x);
  Ok (withIdle k l).

Definition cShedTime (x : Z) (c : Cpu) : Cpu :=
  mkCpu (c_current c) (c_idleTask c) (c_nextTask c) x (c_needSwitch c) (c_lockCount c) (c_tsFlag c) (c_fpuRegs c) (c_paging c).
Definition cNeed (b : bool) (c : Cpu) : Cpu :=
  mkCpu (c_current c) (c_idleTask c) (c_nextTask c) (c_shedTime c) b (c_lockCount c) (c_tsFlag c) (c_fpuRegs c) (c_paging c).
Definition cLock (x : Z) (c : Cpu) : Cpu :=
  mkCpu (c_current c) (c_idleTask c) (c_nextTask c) (c_shedTime c) (c_needSwitch c) x (c_tsFlag c) (c_fpuRegs c) (c_paging c).
Definition cNext (x : Z) (c : Cpu) : Cpu :=
  mkCpu (c_current c) (c_idleTask c) x (c_shedTime c) (c_needSwitch c) (c_lockCount c) (c_tsFlag c) (c_fpuRegs c) (c_paging c).
Definition cCurrent (x : Z) (c : Cpu) : Cpu :=
  mkCpu x (c_idleTask c) (c_nextTask c) (c_shedTime c) (c_needSwitch c) (c_lockCount c) (c_tsFlag c) (c_fpuRegs c) (c_paging c).
Definition cIdle (x : Z) (c : Cpu) : Cpu :=
  mkCpu (c_current c) x (c_nextTask c) (c_shedTime c) (c_needSwitch c) (c_lockCount c) (c_tsFlag c) (c_fpuRegs c) (c_paging c).
Definition cFpu (ts : bool) (regs : Z) (c : Cpu) : Cpu :=
  mkCpu (c_current c) (c_idleTask c) (c_nextTask c) (c_shedTime c) (c_needSwitch c) (c_lockCount c) ts regs (c_paging c).
Definition cPaging (x : Z) (c : Cpu) : Cpu :=
  mkCpu (c_current c) (c_idleTask c) (c_nextTask c) (c_shedTime c) (c_needSwitch c) (c_lockCount c) (c_tsFlag c) (c_fpuRegs c) x.
Definition iiRun (b : bool) (i : IdleInfo) : IdleInfo := mkIdleInfo (ii_task i) b (ii_nextIpiTime i).
Definition iiIpi (x : Z) (i : IdleInfo) : IdleInfo := mkIdleInfo (ii_task i) (ii_run i) x.

(** ** Making tasks runnable *)

(** The result of [push] is ignored, as in the source. *)
Definition pushWait (p : Z) (k : KS) : outcome KS :=
  '(_, ts, q) ← push (k_tasks k) (k_waitQueue k) p;
  Ok (withQueues k (setTasks (k_es k) ts) (k_realtimeHead k) q (k_timedQueue k)).
Definition pushTimed (p : Z) (k : KS) : outcome KS :=
  '(_, ts, q) ← push (k_tasks k) (k_timedQueue k) p;
  Ok (withQueues k (setTasks (k_es k) ts) (k_realtimeHead k) (k_waitQueue k) q).

Definition addWaitTask (p : Z) (k : KS) : outcome KS :=
  k ← updT p (setState Wait) k;
  k ← updT p (fun t => setTaskState (m_state t) (u64 (k_now k + m_desiredMaxWait t)) t) k;
  pushWait p k.

Definition addWaitTaskRealtime (p : Z) (k : KS) : outcome KS :=
  k ← updT p (setState PriorityWait) k;
  let head := k_realtimeHead k in
  k ← updT p (setRealtimeNext head) k;
  Ok (withQueues k (k_es k) p (k_waitQueue k) (k_timedQueue k)).

(** The tasks an event woke, pushed in the order [set] handed them over. *)
Fixpoint pushAll (l : list Z) (k : KS) : outcome KS :=
  match l with
  | [] => Ok k
  | p :: l => k ← pushWait p k; pushAll l k
  end.
Definition setEvent (o : Z) (k : KS) : outcome KS :=
  e ← set onWakeSingleThread o (k_es k);
  let l := woken e in
  pushAll l (withEs k (mkES (tasks e) (objs e) [] (ext e) (now e))).

(** ** Choosing the next task *)

(** The caller of [shedule] holds the spin lock of the current task, and the task that is
    chosen is locked too; a second [lock] of the same lock spins for ever. *)
Definition lockTask (currentTask p : Z) : outcome unit := if p =? currentTask then NoFuel else Ok tt.

(** Head of the realtime list: [inl] is the task to run. *)
Fixpoint realtimeLoop (fuel : nat) (currentTask : Z) (k : KS) : outcome ((Z + unit) * KS) :=
  let head := k_realtimeHead k in
  if head =? nullptr then Ok (inr tt, k)
  else
    match fuel with
    | O => NoFuel
    | S fuel =>
        t ← getTask head k;
        let k := withQueues k (k_es k) (m_realtimeNext t) (k_waitQueue k) (k_timedQueue k) in
        _ ← lockTask currentTask head;
        if bool_decide (m_state t = PriorityWait) then Ok (inl head, k)
        else realtimeLoop fuel currentTask k
    end.

(** Tasks whose sleep is over; one that is still asleep leaves its events and runs. *)
Fixpoint timedLoop (fuel : nat) (currentTask timepoint : Z) (k : KS) : outcome ((Z + unit) * KS) :=
  if empty (k_timedQueue k) then Ok (inr tt, k)
  else
    match fuel with
    | O => NoFuel
    | S fuel =>
        newTask ← minWakeTimeTask (k_timedQueue k);
        t ← getTask newTask k;
        if timepoint <=? m_wakeTime t then Ok (inr tt, k)
        else
          '(ts, q) ← pop (k_tasks k) (k_timedQueue k);
          let k := withQueues k (setTasks (k_es k) ts) (k_realtimeHead k) (k_waitQueue k) q in
          _ ← lockTask currentTask newTask;
          k ← updT newTask (set_priorityQueueIndex InvalidIndex) k;
          t ← getTask newTask k;
          if bool_decide (m_state t = TimedSleep) then
            e ← excludeTaskFromWaiting newTask WaitTimeout (k_es k);
            Ok (inl newTask, withEs k e)
          else timedLoop fuel currentTask timepoint k
    end.

Fixpoint waitLoop (fuel : nat) (currentTask : Z) (k : KS) : outcome ((Z + unit) * KS) :=
  if empty (k_waitQueue k) then Ok (inr tt, k)
  else
    match fuel with
    | O => NoFuel
    | S fuel =>
        newTask ← minWakeTimeTask (k_waitQueue k);
        '(ts, q) ← pop (k_tasks k) (k_waitQueue k);
        let k := withQueues k (setTasks (k_es k) ts) (k_realtimeHead k) q (k_timedQueue k) in
        _ ← lockTask currentTask newTask;
        k ← updT newTask (set_priorityQueueIndex InvalidIndex) k;
        t ← getTask newTask k;
        if bool_decide (m_state t = Wait) then Ok (inl newTask, k)
        else waitLoop fuel currentTask k
    end.

(** The part of [shedule] after the realtime list and the time slice, without the
    update of the next schedule time. *)
Definition sheduleQueues (c : nat) (currentTask timepoint : Z) (k : KS) : outcome (Z * KS) :=
  '(r, k) ← timedLoop (m_curSize (k_timedQueue k)) currentTask timepoint k;
  match r with
  | inl p => Ok (p, k)
  | inr _ =>
      '(r, k) ← waitLoop (m_curSize (k_waitQueue k)) currentTask k;
      match r with
      | inl p => Ok (p, k)
      | inr _ =>
          t ← getTask currentTask k;
          if bool_decide (m_state t = Active) then
            k ← (if m_idle t then updIdle c (iiRun true) k else Ok k);
            Ok (currentTask, k)
          else
            cpu ← getCpu c k;
            _ ← lockTask currentTask (c_idleTask cpu);
            k ← updIdle c (iiRun true) k;
            Ok (c_idleTask cpu, k)
      end
  end.

Definition shedule (c : nat) (currentTask : Z) (k : KS) : outcome (Z * KS) :=
  '(r, k) ← realtimeLoop (size (k_tasks k)) currentTask k;
  match r with
  | inl p => Ok (p, k)
  | inr _ =>
      let timepoint := k_now k in
      t ← getTask currentTask k;
      cpu ← getCpu c k;
      if negb (m_idle t) && bool_decide (m_state t = Active) && (timepoint <? c_shedTime cpu)
      then Ok (currentTask, k)
      else
        '(p, k) ← sheduleQueues c currentTask timepoint k;
        k ← updCpu c (cShedTime (u64 (timepoint + k_interval k))) k;
        Ok (p, k)
  end.

(** ** The switch *)
Definition beginTaskSwitch (c : nat) (currentStack : Z) (k : KS) : outcome (Z * KS) :=
  cpu ← getCpu c k;
  let currentTask := c_current cpu in
  k ← updT currentTask (setReady false) k;
  k ← updCpu c (cNeed false) k;
  '(newTask, k) ← shedule c currentTask k;
  if currentTask =? newTask then Ok (0, k)
  else
    k ← updCpu c (cNext newTask) k;
    k ← updT currentTask (setStackTop (u64 (currentStack - volatileOffset))) k;
    t ← getTask currentTask k;
    cpu ← getCpu c k;
    let k := if m_useFpu t then withFpu k (<[currentTask := c_fpuRegs cpu]> (k_fpuData k)) else k in
    tn ← getTask newTask k;
    Ok (m_stackTop tn, k).

(** The old task goes where its state says: the idle task nowhere, a running task back
    to the wait queue (with no extra delay when a realtime task displaces it), a
    sleeper with a timeout to the second queue. *)
Definition fileOldTask (c : nat) (oldTask newTask : Z) (k : KS) : outcome KS :=
  t ← getTask oldTask k;
  if m_idle t then updIdle c (iiRun false) k
  else if bool_decide (m_state t = Active) then
    tn ← getTask newTask k;
    let wake := if bool_decide (m_state tn = PriorityWait) then k_now k
                else u64 (k_now k + m_desiredMaxWait t) in
    k ← updT oldTask (setTaskState Wait wake) k;
    pushWait oldTask k
  else if bool_decide (m_state t = TimedSleep) then pushTimed oldTask k
  else Ok k.

Definition endTaskSwitch (c : nat) (k : KS) : outcome KS :=
  cpu ← getCpu c k;
  let oldTask := c_current cpu in
  let newTask := c_nextTask cpu in
  to ← getTask oldTask k;
  tn ← getTask newTask k;
  let needSwitchPaging := negb (m_kernel tn) && negb (m_pagingManager to =? m_pagingManager tn) in
  let oldTaskTerminated := negb (m_idle to) && bool_decide (m_state to = Terminated) in
  let k := withCount k (u64 (k_switchCount k + 1)) in
  k ← fileOldTask c oldTask newTask k;
  k ← (if oldTaskTerminated then setEvent (terminateEvent oldTask) k else Ok k);
  tn ← getTask newTask k;
  k ← (if m_useFpu tn then
         regs ← deref (k_fpuData k) newTask;
         updCpu c (cFpu false regs) k
       else updCpu c (fun x => cFpu true (c_fpuRegs x) x) k);
  k ← (if needSwitchPaging then updCpu c (cPaging (m_pagingManager tn)) k else Ok k);
  k ← updT newTask (setState Active) k;
  updCpu c (cCurrent newTask) k.

(** The end of an interrupt handler that switches: the choice on the old stack, then
    (when there is a new stack) the second half on the new one. *)
Definition taskSwitch (c : nat) (currentStack : Z) (k : KS) : outcome KS :=
  '(newStack, k) ← beginTaskSwitch c currentStack k;
  if newStack =? 0 then Ok k else endTaskSwitch c k.

(** ** The rest of the interface *)
Definition needTaskSwitch (c : nat) (k : KS) : outcome KS := updCpu c (cNeed true) k.

Definition disableTaskSwitchingOnCurrentCPU (c : nat) (k : KS) : outcome KS :=
  updCpu c (fun x => cLock (u64 (c_lockCount x + 1)) x) k.

(** The lock count is dropped unless this is the last lock and a switch is due. *)
Definition checkNeedTaskSwitch (c : nat) (k : KS) : outcome (bool * KS) :=
  cpu ← getCpu c k;
  if (1 <? c_lockCount cpu) || negb (c_needSwitch cpu) then
    k ← updCpu c (cLock (u64 (c_lockCount cpu - 1))) k;
    Ok (false, k)
  else Ok (true, k).

(** [tackManagerEndInterrupt]: switch requests are served until none is left or a new
    task has been chosen; the result is the new stack, 0 for none.  A turn that goes on
    clears the request, so two turns are enough. *)
Fixpoint endInterrupt (fuel : nat) (c : nat) (currentStack : Z) (k : KS) : outcome (Z * KS) :=
  match fuel with
  | O => NoFuel
  | S fuel =>
      '(go, k) ← checkNeedTaskSwitch c k;
      if (go : bool) then
        '(newStack, k) ← beginTaskSwitch c currentStack k;
        if negb (newStack =? 0) then Ok (newStack, k) else endInterrupt fuel c currentStack k
      else Ok (0, k)
  end.
Definition tackManagerEndInterrupt (c : nat) (currentStack : Z) (k : KS) : outcome (Z * KS) :=
  endInterrupt 2 c currentStack k.

Definition tackManagerEndTaskSwitch (c : nat) (k : KS) : outcome (bool * KS) :=
  k ← endTaskSwitch c k;
  cpu ← getCpu c k;
  if negb (c_needSwitch cpu) then
    k ← updCpu c (cLock 0) k;
    Ok (true, k)
  else Ok (false, k).

Definition terminateCurrentTask (c : nat) (k : KS) : outcome KS :=
  k ← disableTaskSwitchingOnCurrentCPU c k;
  cpu ← getCpu c k;
  t ← getTask (c_current cpu) k;
  if negb (bool_decide (m_state t = Active)) then Panic
  else
    k ← updT (c_current cpu) (setState Terminated) k;
    needTaskSwitch c k.

Definition onUseFpu (c : nat) (k : KS) : outcome (bool * KS) :=
  cpu ← getCpu c k;
  let task := c_current cpu in
  t ← getTask task k;
  if m_useFpu t then Ok (false, k)
  else
    regs ← deref (k_fpuData k) task;
    k ← updCpu c (cFpu false regs) k;
    k ← updT task (setUseFpu true) k;
    Ok (true, k).

Definition initCurrentCpu (c : nat) (firstTask : Z) (k : KS) : outcome KS :=
  k ← updT firstTask (setState Active) k;
  k ← updCpu c (cCurrent firstTask) k;
  k ← updCpu c (cShedTime (k_now k)) k;
  i ← arr_get (k_idleInfo k) c;
  k ← updCpu c (cIdle (ii_task i)) k;
  updCpu c (cLock 0) k.

(** [checkCpu] of [smpBalancing]: an idle CPU is claimed when its last interrupt is old
    enough. *)
Definition checkCpu (c : nat) (k : KS) : outcome (bool * KS) :=
  info ← arr_get (k_idleInfo k) c;
  if negb (ii_run info) then Ok (false, k)
  else
    k ← updIdle c (iiRun false) k;
    let curTime := k_now k in
    if curTime <? ii_nextIpiTime info then
      k ← updIdle c (iiRun true) k;
      Ok (false, k)
    else
      k ← updIdle c (iiIpi (u64 (curTime + k_interval k))) k;
      Ok (true, k).

Fixpoint balanceLoop (n : nat) (cpuId currCpuId : nat) (k : KS) : outcome (bool * KS) :=
  match n with
  | O => Ok (false, k)
  | S n =>
      if negb (Nat.eqb cpuId currCpuId) then
        '(ok, k) ← checkCpu cpuId k;
        if (ok : bool) then Ok (true, withIpis k (k_ipis k ++ [Z.of_nat cpuId]))
        else balanceLoop n (S cpuId) currCpuId k
      else balanceLoop n (S cpuId) currCpuId k
  end.

Definition smpBalancing (c : nat) (k : KS) : outcome KS :=
  '(mine, k) ← checkCpu c k;
  if (mine : bool) then needTaskSwitch c k
  else
    '(sent, k) ← balanceLoop (length (k_cpus k)) 0 c k;
    if (sent : bool) then Ok k else needTaskSwitch c k.

(** [onSystemTimerInterrupt]: this CPU and, by interrupt, all others. *)
Definition onSystemTimerInterrupt (c : nat) (k : KS) : outcome KS :=
  k ← needTaskSwitch c k;
  Ok (withIpis k (k_ipis k ++ map Z.of_nat (filter (fun i => i <> c) (seq 0 (length (k_cpus k)))))).

End Sched.
