(* ===== verification/SchedInv.v ===== *)
(** * The scheduler: invariant and the choice of the next task *)

From S2P Require Import Prelude Task TaskQueue Event EventCore EventInv EventSpec EventWait Sched.

Import TaskPriorityQueue.

(** ** The realtime list *)
Fixpoint rtseg (ts : gmap Z Task) (h : Z) (l : list Z) : Prop :=
  match l with
  | [] => h = nullptr
  | p :: l => h = p /\ p <> nullptr /\ exists t, ts !! p = Some t /\ rtseg ts (m_realtimeNext t) l
  end.

(** ** The queues

    The tasks of [hole] have been taken out of their queue and not been filed yet;
    every other task is in the wait queue exactly when its state is [Wait], and in
    the realtime list exactly when it is [PriorityWait]. *)
Record QInv (ts : gmap Z Task) (rtHead : Z) (wq tq : t) (rt hole : list Z) : Prop := mkQInv {
  qi_rt : rtseg ts rtHead rt;
  qi_rt_nodup : NoDup rt;
  qi_rt_state : forall p t, ts !! p = Some t -> p ∉ hole -> p ∈ rt <-> m_state t = PriorityWait;
  qi_wq : QOk ts wq;
  qi_wq_heap : QHeap ts wq;
  qi_wq_nodup : NoDup (queued wq);
  qi_wq_state : forall p t, ts !! p = Some t -> p ∉ hole -> p ∈ queued wq <-> m_state t = Wait;
  qi_hole : forall p, p ∈ hole -> p ∉ rt /\ p ∉ queued wq;
  qi_room : (size ts <= m_maxSize wq)%nat;
  qi_tq : QOk ts tq }.

(** Equal but for the recorded position. *)
Lemma frame_lookup ts ts' p t : frame ts ts' -> ts !! p = Some t ->
  exists t', ts' !! p = Some t' /\ set_priorityQueueIndex 0 t = set_priorityQueueIndex 0 t'.
Proof.
  intros Hf E. specialize (Hf p). rewrite E in Hf. destruct (ts' !! p) as [t'|]; [|done].
  exists t'. split; [done|]. cbn in Hf. congruence.
Qed.

(** The fields other than the recorded position agree. *)
Lemma frame_fields t t' : set_priorityQueueIndex 0 t = set_priorityQueueIndex 0 t' ->
  m_state t = m_state t' /\ m_wakeTime t = m_wakeTime t' /\ m_realtimeNext t = m_realtimeNext t' /\
  m_waitEventsInfo t = m_waitEventsInfo t' /\ m_waitEventCount t = m_waitEventCount t' /\
  m_needWaitEvents t = m_needWaitEvents t' /\ m_idle t = m_idle t'.
Proof. unfold set_priorityQueueIndex. by intros [=]. Qed.

(** The fields the queues depend on. *)
Definition sview (t : Task) : TaskState * Z * Z := (m_state t, m_wakeTime t, m_realtimeNext t).
Definition viewEq (ts ts' : gmap Z Task) : Prop := forall p, sview <$> ts !! p = sview <$> ts' !! p.

#[export] Instance viewEq_equiv : Equivalence viewEq.
Proof. split; [by intros ts p | intros ? ? H p; by rewrite H | intros ? ? ? H1 H2 p; by rewrite H1]. Qed.

Lemma view_lookup ts ts' p t : viewEq ts ts' -> ts !! p = Some t ->
  exists t', ts' !! p = Some t' /\ sview t = sview t'.
Proof.
  intros Hv E. specialize (Hv p). rewrite E in Hv. destruct (ts' !! p) as [t'|]; [|done].
  exists t'. split; [done|]. by apply (inj Some) in Hv.
Qed.

Lemma frame_view ts ts' : frame ts ts' -> viewEq ts ts'.
Proof.
  intros Hf p. specialize (Hf p). destruct (ts !! p) as [t|], (ts' !! p) as [t'|]; try done.
  apply (inj Some) in Hf. apply frame_fields in Hf as (E1 & E2 & E3 & _). cbn. unfold sview. by rewrite E1, E2, E3.
Qed.
Lemma core_view {X} (s s' : @ES X) : CoreEq s s' -> viewEq (tasks s) (tasks s').
Proof.
  intros [H _ _ _] p. specialize (H p). destruct (tasks s !! p) as [t|], (tasks s' !! p) as [t'|]; try done.
  apply core_Some2 in H. unfold core, withWait in H. cbn. unfold sview. by injection H as _ _ _ -> -> -> _.
Qed.

(** Equal but for the recorded position and the waiting fields. *)
Definition body (t : Task) : Task := set_priorityQueueIndex 0 (core t).
Definition bodyEq (ts ts' : gmap Z Task) : Prop := forall p, body <$> ts !! p = body <$> ts' !! p.

#[export] Instance bodyEq_equiv : Equivalence bodyEq.
Proof. split; [by intros ts p | intros ? ? H p; by rewrite H | intros ? ? ? H1 H2 p; by rewrite H1]. Qed.

Lemma body_lookup ts ts' p t : bodyEq ts ts' -> ts !! p = Some t ->
  exists t', ts' !! p = Some t' /\ body t = body t'.
Proof.
  intros Hv E. specialize (Hv p). rewrite E in Hv. destruct (ts' !! p) as [t'|]; [|done].
  exists t'. split; [done|]. by apply (inj Some) in Hv.
Qed.
Lemma body_fields t t' : body t = body t' ->
  sview t = sview t' /\ m_stackTop t = m_stackTop t' /\ m_useFpu t = m_useFpu t' /\ m_idle t = m_idle t' /\
  m_kernel t = m_kernel t' /\ m_pagingManager t = m_pagingManager t'.
Proof.
  unfold body, set_priorityQueueIndex, core, withWait, sview. cbn. intros [= -> _ -> -> -> -> -> -> _ _ ->]. done.
Qed.
Lemma body_view ts ts' : bodyEq ts ts' -> viewEq ts ts'.
Proof.
  intros Hb p. specialize (Hb p). destruct (ts !! p) as [t|], (ts' !! p) as [t'|]; try done.
  apply (inj Some) in Hb. apply body_fields in Hb as [E _]. cbn. by rewrite E.
Qed.
Lemma frame_body ts ts' : frame ts ts' -> bodyEq ts ts'.
Proof.
  intros Hf p. specialize (Hf p). destruct (ts !! p) as [t|], (ts' !! p) as [t'|]; try done.
  apply (inj Some) in Hf. cbn. f_equal. unfold body. unfold set_priorityQueueIndex in Hf.
  unfold set_priorityQueueIndex, core, withWait. cbn. by injection Hf as -> -> -> _ _ _ _ -> -> -> -> -> -> -> ->.
Qed.
Lemma core_body {X} (s s' : @ES X) : CoreEq s s' -> bodyEq (tasks s) (tasks s').
Proof.
  intros [H _ _ _] p. specialize (H p). destruct (tasks s !! p) as [t|], (tasks s' !! p) as [t'|]; try done.
  apply core_Some2 in H. cbn. f_equal. unfold body. by rewrite H.
Qed.

Lemma view_wake ts ts' p : viewEq ts ts' -> wake ts p = wake ts' p.
Proof.
  intros Hv. specialize (Hv p). unfold wake. destruct (ts !! p), (ts' !! p); try done.
  apply (inj Some) in Hv. unfold sview in Hv. cbn. congruence.
Qed.
Lemma view_is_Some ts ts' p : viewEq ts ts' -> is_Some (ts !! p) <-> is_Some (ts' !! p).
Proof. intros Hv. specialize (Hv p). destruct (ts !! p), (ts' !! p); try done. Qed.
Lemma view_dom ts ts' : viewEq ts ts' -> dom ts = dom ts'.
Proof. intros Hv. apply set_eq. intros p. rewrite !elem_of_dom. by apply view_is_Some. Qed.

Lemma QOk_view ts ts' q : viewEq ts ts' -> QOk ts q -> QOk ts' q.
Proof. intros Hv [? ? Hl]. split; try done. intros p Hp. apply (view_is_Some _ _ _ Hv). by apply Hl. Qed.
Lemma QHeap_view ts ts' q : viewEq ts ts' -> QHeap ts q -> QHeap ts' q.
Proof. intros Hv H i p c. rewrite <- !(view_wake _ _ _ Hv). apply H. Qed.

Lemma rtseg_view ts ts' l : forall h, viewEq ts ts' -> rtseg ts h l -> rtseg ts' h l.
Proof.
  induction l as [|p l IH]; intros h Hv; [done|]. cbn [rtseg]. intros (-> & Hp & t & Et & Hl).
  split; [done|]. split; [done|]. destruct (view_lookup _ _ _ _ Hv Et) as (t' & Et' & [= _ _ E]).
  exists t'. split; [done|]. rewrite <- E. by apply IH.
Qed.

Lemma QInv_view ts ts' h wq tq rt hole : viewEq ts ts' -> QInv ts h wq tq rt hole -> QInv ts' h wq tq rt hole.
Proof.
  intros Hv [? ? H1 ? ? ? H2 ? Hroom ?]. pose proof Hv as Hv'. symmetry in Hv'.
  split; eauto using rtseg_view, QOk_view, QHeap_view.
  - intros p t Et Hp. destruct (view_lookup _ _ _ _ Hv' Et) as (t' & Et' & [= -> _ _]). by apply H1.
  - intros p t Et Hp. destruct (view_lookup _ _ _ _ Hv' Et) as (t' & Et' & [= -> _ _]). by apply H2.
  - rewrite <- size_dom, <- (view_dom _ _ Hv), size_dom. done.
Qed.

Section SchedInv.
Context {X : Type}.
Notation ES := (@ES X).
Notation KS := (@KS X).
Notation Spec := (@Spec X).
Implicit Types (s : ES) (k : KS) (a : Spec).

Lemma Rel_frame ex s a ts' : frame (tasks s) ts' -> Rel ex s a -> Rel ex (setTasks s ts') a.
Proof.
  intros Hf [[Hn1 Hn2] HL HQ HO HT HW HE]. pose proof Hf as Hf'. symmetry in Hf'.
  assert (Hsl : forall o p, slot (setTasks s ts') o p = slot s o p).
  { intros o p. unfold slot. cbn [setTasks tasks]. destruct (tasks s !! p) as [t|] eqn:E.
    - destruct (frame_lookup _ _ _ _ Hf E) as (t' & -> & Ef).
      apply frame_fields in Ef as (_ & _ & _ & E1 & E2 & _). cbn. unfold slotOf. by rewrite E1, E2.
    - destruct (ts' !! p) as [t'|] eqn:E'; [|done]. destruct (frame_lookup _ _ _ _ Hf' E') as (? & ? & _). congruence. }
  split; try done.
  - split; [|done]. cbn [setTasks tasks]. specialize (Hf nullptr). rewrite Hn1 in Hf. by destruct (ts' !! nullptr).
  - intros o ob Eo. eapply (listAt_ext _ s); [done | intros; apply Hsl | by eapply HL].
  - intros p t' Et'. destruct (frame_lookup _ _ _ _ Hf' Et') as (t & Et & Ef).
    apply frame_fields in Ef as (E1 & _ & _ & E2 & E3 & E4 & _).
    destruct (HT p t Et) as [? ? Hd Hnm Hsl' ?].
    assert (Hn : forall i o, names t' i o <-> names t i o) by (intros; unfold names; by rewrite E2, E3).
    split.
    + by rewrite E2.
    + by rewrite E3.
    + intros j i o Ho Hj Hi. apply Hn in Hj. apply Hn in Hi. by eapply Hd.
    + intros i o Hi. apply Hn in Hi. by apply (Hnm i).
    + intros o Ho. unfold sleeping. rewrite E1. by apply (Hsl' o).
    + by rewrite E4.
Qed.

(** ** Invariant of the scheduler *)
Record SInv (k : KS) (rt hole : list Z) (a : Spec) : Prop := mkSInv {
  si_rel : Rel None (k_es k) a;
  si_woken : woken (k_es k) = [];
  si_q : QInv (k_tasks k) (k_realtimeHead k) (k_waitQueue k) (k_timedQueue k) rt hole }.

(** ** The realtime list *)
Lemma lockTask_other cur p : p <> cur -> lockTask cur p = Ok tt.
Proof. intros H. unfold lockTask. by destruct (Z.eqb_spec p cur). Qed.

Lemma realtimeLoop_spec fuel cur k rt hole a : SInv k rt hole a -> (rt <> [] -> 0 < fuel)%nat -> cur ∉ rt ->
  exists r k', realtimeLoop fuel cur k = Ok (r, k') /\
    match rt with
    | [] => r = inr tt /\ k' = k
    | p :: rt' => r = inl p /\ SInv k' rt' (p :: hole) a /\ p ∉ hole /\
        exists h, k' = withQueues k (k_es k) h (k_waitQueue k) (k_timedQueue k)
    end.
Proof.
  intros [HR HW HQ] Hf Hcur. destruct HQ as [Hrt Hnd Hst Hwq Hwh Hwn Hws Hho Hroom Htq].
  destruct rt as [|p rt'].
  - exists (inr tt), k. cbn [rtseg] in Hrt. destruct fuel; cbn [realtimeLoop]; by rewrite Hrt, Z.eqb_refl.
  - destruct fuel as [|fuel]; [exfalso; specialize (Hf ltac:(done)); lia|].
    cbn [rtseg] in Hrt. destruct Hrt as (Hh & Hp & t & Et & Hl). apply NoDup_cons in Hnd as [Hpr Hnd].
    cbn [realtimeLoop]. rewrite Hh. destruct (Z.eqb_spec p nullptr) as [|_]; [done|].
    unfold getTask. rewrite (deref_Some _ _ _ Et). ostep. rewrite lockTask_other by set_solver. ostep.
    assert (Hph : p ∉ hole). { intros Hin. apply Hho in Hin as [Hin _]. apply Hin. left. }
    assert (Hstp : m_state t = PriorityWait) by (apply (Hst p t Et Hph); left).
    rewrite bool_decide_eq_true_2 by done. eexists _, _. split; [reflexivity|]. split; [done|].
    split; [|split; [done | by eexists]]. split; [done | done |]. split; try done.
    + intros x tx Ex Hx. apply not_elem_of_cons in Hx as [Hx Hxh]. rewrite <- (Hst x tx Ex Hxh). set_solver.
    + intros x tx Ex Hx. apply not_elem_of_cons in Hx as [Hx Hxh]. by apply Hws.
    + intros x [->|Hx]%elem_of_cons.
      * split; [done|]. cbn [withQueues k_waitQueue]. intros Hin. apply (Hws p t Et Hph) in Hin. congruence.
      * destruct (Hho x Hx). set_solver.
Qed.

(** ** The wait queue *)
Lemma updT_Ok p f k t : k_tasks k !! p = Some t ->
  updT p f k = Ok (withEs k (setTasks (k_es k) (<[p := f t]> (k_tasks k)))).
Proof. intros E. unfold updT. by rewrite (updTask_Ok _ _ _ _ E). Qed.

Lemma SInv_frame k rt hole a ts' : frame (k_tasks k) ts' -> SInv k rt hole a ->
  SInv (withEs k (setTasks (k_es k) ts')) rt hole a.
Proof.
  intros Hf [HR HW HQ]. split; [by apply Rel_frame | done | by eapply QInv_view; [apply frame_view|]].
Qed.

Lemma waitLoop_spec cur k rt hole a : SInv k rt hole a -> cur ∉ queued (k_waitQueue k) ->
  exists r k', waitLoop (m_curSize (k_waitQueue k)) cur k = Ok (r, k') /\
    match r with
    | inr _ => queued (k_waitQueue k) = [] /\ k' = k
    | inl p => SInv k' rt (p :: hole) a /\ p ∉ hole /\ frame (k_tasks k) (k_tasks k') /\
        queued (k_waitQueue k) ≡ₚ p :: queued (k_waitQueue k') /\
        (forall r, r ∈ queued (k_waitQueue k) -> wake (k_tasks k) p <= wake (k_tasks k) r) /\
        exists e wq, k' = withQueues k e (k_realtimeHead k) wq (k_timedQueue k) /\ now e = k_now k /\
          (forall o, is_Some (objs (k_es k) !! o) -> is_Some (objs e !! o))
    end.
Proof.
  intros HS Hcur. pose proof HS as [HR HW [Hrt Hnd Hst Hwq Hwh Hwn Hws Hho Hroom Htq]].
  destruct (m_curSize (k_waitQueue k)) as [|n] eqn:Ec.
  { exists (inr tt), k. cbn [waitLoop]. unfold empty. rewrite Ec. split; [done|]. split; [|done]. unfold queued. by rewrite Ec. }
  cbn [waitLoop]. unfold empty. rewrite Ec. cbn [Nat.eqb].
  destruct (pop_loose _ _ Hwq) as (p & ts' & q' & Emin & Epop & HQ' & Hperm & Hf & Hmx & Hcs & Hheap); [lia|].
  destruct (Hheap Hwh) as [Hwh' Hmin]. rewrite Emin. ostep. rewrite Epop. ostep.
  assert (Hpq : p ∈ queued (k_waitQueue k)) by (rewrite Hperm; left).
  destruct (qo_live _ _ Hwq _ Hpq) as [tp Etp]. destruct (frame_lookup _ _ _ _ Hf Etp) as (t' & Et' & Eff).
  assert (Hph : p ∉ hole). { intros Hin. by apply Hho in Hin as [_ Hin]. }
  assert (Hstp : m_state tp = Wait) by (by apply (Hws p tp Etp Hph)).
  rewrite lockTask_other by (by intros ->). ostep.
  rewrite (updT_Ok _ _ _ t') by done. ostep. unfold getTask, k_tasks. cbn [withEs k_es setTasks tasks withQueues].
  rewrite (deref_Some _ _ _ (lookup_insert_eq _ _ _)). ostep.
  pose proof (frame_fields _ _ Eff) as (Est & _).
  replace (m_state (set_priorityQueueIndex InvalidIndex t')) with Wait by (rewrite <- Hstp, Est; done).
  rewrite bool_decide_eq_true_2 by done. eexists (inl p), _. split; [reflexivity|].
  assert (Hf2 : frame (tasks (k_es k)) (<[p:=set_priorityQueueIndex InvalidIndex t']> ts')).
  { etrans; [exact Hf | by apply frame_storeIndex]. }
  split; [|split; [done|split; [exact Hf2|split; [exact Hperm|split; [exact Hmin|by eexists _, _]]]]].
  split; [exact (Rel_frame _ _ _ _ Hf2 HR) | done |].
  eapply (QInv_view (tasks (k_es k))); [by apply frame_view|].
  assert (Hnd' : NoDup (p :: queued q')) by (by rewrite <- Hperm). apply NoDup_cons in Hnd' as [Hpn Hnd'].
  split; try done; cbn [withEs withQueues k_waitQueue].
  - intros x tx Ex Hx. apply not_elem_of_cons in Hx as [Hx Hxh]. by apply Hst.
  - eapply QOk_frame; [symmetry; exact Hf | done].
  - eapply QHeap_frame; [symmetry; exact Hf | done].
  - intros x tx Ex Hx. apply not_elem_of_cons in Hx as [Hx Hxh]. rewrite <- (Hws x tx Ex Hxh), Hperm. set_solver.
  - intros x [->|Hx]%elem_of_cons.
    + split; [|done]. intros Hin. apply (Hst p tp Etp Hph) in Hin. congruence.
    + destruct (Hho x Hx) as [? Hq]. split; [done|]. rewrite Hperm in Hq. set_solver.
  - by rewrite Hmx.
Qed.

(** ** Tasks whose sleep is over *)

(** [gone] has been taken off the queue of timed sleepers, which now holds [rest]: these
    tasks were due and did not sleep any more. *)
Record Passed (timepoint : Z) (k : KS) (gone rest : list Z) : Prop := mkPassed {
  pa_perm : queued (k_timedQueue k) ≡ₚ gone ++ rest;
  pa_gone : forall x, x ∈ gone -> exists t, k_tasks k !! x = Some t /\ m_wakeTime t < timepoint /\ m_state t <> TimedSleep }.

(** Nobody of [tq] is due: its first task is not, and none is if the queue was in order. *)
Definition noneDue (timepoint : Z) (k : KS) (tq : t) : Prop :=
  (forall p, minWakeTimeTask tq = Ok p -> queued tq <> [] -> timepoint <= wake (k_tasks k) p) /\
  (QHeap (k_tasks k) (k_timedQueue k) -> forall x, x ∈ queued tq -> timepoint <= wake (k_tasks k) x).

Lemma Passed_nil timepoint k : Passed timepoint k [] (queued (k_timedQueue k)).
Proof. split; [done|]. intros x Hx. by apply elem_of_nil in Hx. Qed.

(** One more task has been taken off the queue. *)
Lemma Passed_cons timepoint k k1 p t gone rest :
  queued (k_timedQueue k) ≡ₚ p :: queued (k_timedQueue k1) -> viewEq (k_tasks k) (k_tasks k1) ->
  k_tasks k !! p = Some t -> m_wakeTime t < timepoint -> m_state t <> TimedSleep ->
  Passed timepoint k1 gone rest -> Passed timepoint k (p :: gone) rest.
Proof.
  intros Hperm Hv Et Hw Hs [Hp Hg]. split; [by rewrite Hperm, Hp|]. intros x [->|Hx]%elem_of_cons; [by exists t|].
  destruct (Hg x Hx) as (t1 & E1 & Hw1 & Hs1). symmetry in Hv.
  destruct (view_lookup _ _ _ _ Hv E1) as (t0 & E0 & [= Ea Eb _]). exists t0. by rewrite <- Ea, <- Eb.
Qed.

(** A sleeper is either still queued or the one that is due. *)
Lemma Passed_sleeper timepoint k gone rest x t : Passed timepoint k gone rest ->
  x ∈ queued (k_timedQueue k) -> k_tasks k !! x = Some t -> m_state t = TimedSleep -> x ∈ rest.
Proof.
  intros [Hp Hg] Hx Et Hs. rewrite Hp in Hx. apply elem_of_app in Hx as [Hx|Hx]; [|done].
  destruct (Hg x Hx) as (t' & ? & _ & ?). congruence.
Qed.

Lemma noneDue_empty timepoint k : m_curSize (k_timedQueue k) = 0%nat -> noneDue timepoint k (k_timedQueue k).
Proof.
  intros E. assert (Hq : queued (k_timedQueue k) = []) by (unfold queued; by rewrite E).
  split; [by rewrite Hq|]. rewrite Hq. intros _ x Hx. by apply elem_of_nil in Hx.
Qed.

(** The current task has an entry of an earlier sleep in the queue of timed sleepers, and
    the loop comes to it: [rest] is what the queue holds then. *)
Definition ownEntry (timepoint cur : Z) (k : KS) : Prop :=
  wake (k_tasks k) cur < timepoint /\ exists gone rest, Passed timepoint k gone (cur :: rest).

Lemma timedLoop_spec timepoint cur fuel : forall k rt hole a,
  SInv k rt hole a -> (m_curSize (k_timedQueue k) <= fuel)%nat ->
  (timedLoop fuel cur timepoint k = NoFuel /\ ownEntry timepoint cur k) \/
  exists r k', timedLoop fuel cur timepoint k = Ok (r, k') /\ bodyEq (k_tasks k) (k_tasks k') /\
    (exists e tq, k' = withQueues k e (k_realtimeHead k) (k_waitQueue k) tq /\ now e = k_now k /\
       (forall o, is_Some (objs (k_es k) !! o) -> is_Some (objs e !! o))) /\
    match r with
    | inr _ => SInv k' rt hole a /\ frame (k_tasks k) (k_tasks k') /\
        (exists gone, Passed timepoint k gone (queued (k_timedQueue k'))) /\ noneDue timepoint k (k_timedQueue k')
    | inl p => SInv k' rt hole (spTimeout p a) /\ p <> cur /\
        (exists gone, Passed timepoint k gone (p :: queued (k_timedQueue k'))) /\
        (QHeap (k_tasks k) (k_timedQueue k) ->
           forall x, x ∈ queued (k_timedQueue k') -> wake (k_tasks k) p <= wake (k_tasks k) x) /\
        wake (k_tasks k) p < timepoint /\
        exists t t', k_tasks k !! p = Some t /\ m_state t = TimedSleep /\
          k_tasks k' !! p = Some t' /\ m_waitEventResult t' = WaitTimeout /\ m_waitEventCount t' = 0%nat
    end.
Proof.
  induction fuel as [|fuel IH]; intros k rt hole a HS Hf; pose proof HS as [HR HW HQ].
  { right. exists (inr tt), k. cbn [timedLoop]. unfold empty. replace (m_curSize (k_timedQueue k)) with 0%nat by lia.
    split; [done|]. split; [done|]. split; [exists (k_es k), (k_timedQueue k); by destruct k|].
    split; [done|]. split; [done|]. split; [exists []; apply Passed_nil | apply noneDue_empty; lia]. }
  cbn [timedLoop]. unfold empty. destruct (Nat.eqb_spec (m_curSize (k_timedQueue k)) 0) as [E0|E0].
  { right. exists (inr tt), k. split; [done|]. split; [done|]. split; [exists (k_es k), (k_timedQueue k); by destruct k|].
    split; [done|]. split; [done|]. split; [exists []; apply Passed_nil | by apply noneDue_empty]. }
  destruct (pop_loose _ _ (qi_tq _ _ _ _ _ _ HQ)) as (p & ts' & q' & Emin & Epop & HQ' & Hperm & Hfr & Hmx & Hcs & Hheap); [lia|].
  assert (Hpq : p ∈ queued (k_timedQueue k)) by (rewrite Hperm; left).
  destruct (qo_live _ _ (qi_tq _ _ _ _ _ _ HQ) _ Hpq) as [tp Etp].
  rewrite Emin. ostep. unfold getTask. rewrite (deref_Some _ _ _ Etp). ostep.
  assert (Hwk : wake (k_tasks k) p = m_wakeTime tp) by (unfold wake; by rewrite Etp).
  destruct (Z.leb_spec timepoint (m_wakeTime tp)) as [Hle|Hgt].
  { right. exists (inr tt), k. split; [done|]. split; [done|]. split; [exists (k_es k), (k_timedQueue k); by destruct k|].
    split; [done|]. split; [done|]. split; [exists []; apply Passed_nil|]. split.
    - intros p' Ep' _. rewrite Emin in Ep'. injection Ep' as <-. lia.
    - intros Hh x Hx. destruct (Hheap Hh) as [_ Hm]. specialize (Hm x Hx). fold (k_tasks k) in Hm. lia. }
  rewrite Epop. ostep. destruct (frame_lookup _ _ _ _ Hfr Etp) as (t' & Et' & Eff).
  destruct (decide (p = cur)) as [->|Hpc].
  { left. unfold lockTask. rewrite Z.eqb_refl. split; [done|]. split; [lia|]. exists [], (queued q').
    split; [exact Hperm|]. intros x Hx. by apply elem_of_nil in Hx. }
  rewrite lockTask_other by done. ostep. rewrite (updT_Ok _ _ _ t') by done. ostep. set (k1 := withEs _ _).
  assert (Hf2 : frame (k_tasks k) (k_tasks k1)).
  { etrans; [exact Hfr | by apply frame_storeIndex]. }
  assert (HS1 : SInv k1 rt hole a).
  { split; [exact (Rel_frame _ _ _ _ Hf2 HR) | exact HW |].
    eapply (QInv_view (k_tasks k)); [by apply frame_view|]. destruct HQ. split; try done.
    eapply QOk_frame; [symmetry; exact Hfr | done]. }
  assert (Et1 : k_tasks k1 !! p = Some (set_priorityQueueIndex InvalidIndex t')) by apply lookup_insert_eq.
  rewrite (deref_Some _ _ _ Et1). ostep. pose proof (frame_fields _ _ Eff) as (Est & _).
  change (m_state (set_priorityQueueIndex InvalidIndex t')) with (m_state t'). rewrite <- Est.
  destruct (decide (m_state tp = TimedSleep)) as [Hts|Hts].
  - rewrite bool_decide_eq_true_2 by done.
    destruct (timeout_spec p WaitTimeout (k_es k1) a _ (si_rel _ _ _ _ HS1) Et1) as (e & Ee & HRe & Ete & Hoe).
    rewrite Ee. ostep. pose proof (excludeTaskFromWaiting_core _ _ _ _ Ee) as HC.
    assert (Hv : bodyEq (k_tasks k) (tasks e)) by (etrans; [by apply frame_body | by apply core_body]).
    right. exists (inl p), (withEs k1 e). split; [done|]. split; [exact Hv|].
    split; [exists e, q'; split; [done|]; split; [by rewrite <- (ce_now _ _ HC) | intros o; apply (Hoe o)]|]. split; [|split; [done|split; [|split; [|split; [lia|]]]]].
    + split; [exact HRe | change (woken e = []); rewrite <- (ce_woken _ _ HC); exact (si_woken _ _ _ _ HS1) |].
      eapply (QInv_view (k_tasks k1)); [by apply core_view | exact (si_q _ _ _ _ HS1)].
    + exists []. split; [exact Hperm|]. intros x Hx. by apply elem_of_nil in Hx.
    + intros Hh x Hx. apply (Hheap Hh). rewrite Hperm. by right.
    + exists tp, (setInfos (m_waitEventsInfo (set_priorityQueueIndex InvalidIndex t')) 0 (setResult WaitTimeout (set_priorityQueueIndex InvalidIndex t'))). done.
  - rewrite bool_decide_eq_false_2 by done.
    assert (Hv1 := frame_view _ _ Hf2).
    assert (Hh1 : QHeap (k_tasks k) (k_timedQueue k) -> QHeap (k_tasks k1) (k_timedQueue k1)).
    { intros Hh. eapply QHeap_view; [|exact (proj1 (Hheap Hh))]. etrans; [symmetry; by apply frame_view | exact Hv1]. }
    assert (Hcons : forall gone rest, Passed timepoint k1 gone rest -> Passed timepoint k (p :: gone) rest).
    { intros gone rest Hx. eapply (Passed_cons _ k k1); [exact Hperm | exact Hv1 | exact Etp | lia | exact Hts | exact Hx]. }
    destruct (IH k1 rt hole a HS1) as [[E [Hw (gone & rest & Hg)]]|(r & k' & E & Hv & (e & tq & -> & Hnow & Hoe) & Hr)]; [cbn; lia| |].
    { left. split; [done|]. split; [by rewrite (view_wake _ _ _ Hv1)|]. exists (p :: gone), rest. by apply Hcons. }
    right. exists r, (withQueues k1 e (k_realtimeHead k1) (k_waitQueue k1) tq). split; [done|].
    split; [etrans; [by apply frame_body | exact Hv]|]. split; [by exists e, tq|]. destruct r as [x|].
    + destruct Hr as (? & Hne & (gone & Hx) & Hlow & Hw & t & t1 & Etx & Hst & ?). split; [done|]. split; [done|].
      split; [exists (p :: gone); by apply Hcons|].
      split; [intros Hh y Hy; rewrite !(view_wake _ _ _ Hv1); by apply Hlow; [apply Hh1|]|].
      split; [by rewrite (view_wake _ _ _ Hv1)|]. symmetry in Hv1.
      destruct (view_lookup _ _ _ _ Hv1 Etx) as (t0 & Et0 & [= E1 _ _]). exists t0, t1. by rewrite <- E1.
    + destruct Hr as (? & Hfr' & (gone & Hx) & [Hm1 Hm2]). split; [done|]. split; [by etrans|].
      split; [exists (p :: gone); by apply Hcons|]. split.
      * intros x ? Hq. rewrite (view_wake _ _ _ Hv1). by apply Hm1.
      * intros Hh x Hq. rewrite (view_wake _ _ _ Hv1). by apply Hm2; [apply Hh1|].
Qed.

(** ** [shedule] *)

(** The time slice of the running task lasts. *)
Definition inSlice (k : KS) (tc : Task) (cpu : Cpu) : bool :=
  negb (m_idle tc) && bool_decide (m_state tc = Active) && (k_now k <? c_shedTime cpu).

(** Who may run next, in the order of the source: the head of the realtime list; with
    no realtime task, the running task while its time slice lasts; once the slice is
    over, a task whose timed sleep is over; with no sleeper due, the runnable task that
    is due first; with nobody runnable, the running task if it is active, and the idle
    task otherwise.  [tq'] is the queue of timed sleepers left behind: it lost the
    sleeper that was chosen and, before it, only tasks that slept no longer; [a'] and
    [hole] describe the rest of the state left behind. *)
Inductive Choice (k : KS) (cur : Z) (tc : Task) (cpu : Cpu) (rt : list Z) (a : Spec) (tq' : t) :
    Z -> list Z -> list Z -> Spec -> Prop :=
| ChRealtime p rt' : rt = p :: rt' -> tq' = k_timedQueue k -> Choice k cur tc cpu rt a tq' p rt' [p] a
| ChSlice : rt = [] -> inSlice k tc cpu = true -> tq' = k_timedQueue k ->
    Choice k cur tc cpu rt a tq' cur [] [] a
| ChTimeout p t gone : rt = [] -> inSlice k tc cpu = false -> p <> cur ->
    Passed (k_now k) k gone (p :: queued tq') -> k_tasks k !! p = Some t -> m_state t = TimedSleep ->
    m_wakeTime t < k_now k ->
    (QHeap (k_tasks k) (k_timedQueue k) -> forall x, x ∈ queued tq' -> wake (k_tasks k) p <= wake (k_tasks k) x) ->
    Choice k cur tc cpu rt a tq' p [] [] (spTimeout p a)
| ChWait p gone : rt = [] -> inSlice k tc cpu = false ->
    Passed (k_now k) k gone (queued tq') -> noneDue (k_now k) k tq' -> p ∈ queued (k_waitQueue k) ->
    (forall r, r ∈ queued (k_waitQueue k) -> wake (k_tasks k) p <= wake (k_tasks k) r) ->
    Choice k cur tc cpu rt a tq' p [] [p] a
| ChKeep gone : rt = [] -> inSlice k tc cpu = false ->
    Passed (k_now k) k gone (queued tq') -> noneDue (k_now k) k tq' -> queued (k_waitQueue k) = [] ->
    m_state tc = Active -> Choice k cur tc cpu rt a tq' cur [] [] a
| ChIdle gone : rt = [] -> inSlice k tc cpu = false ->
    Passed (k_now k) k gone (queued tq') -> noneDue (k_now k) k tq' -> queued (k_waitQueue k) = [] ->
    m_state tc <> Active -> Choice k cur tc cpu rt a tq' (c_idleTask cpu) [] [] a.

Lemma updCpu_Ok c f k cpu : k_cpus k !! c = Some cpu ->
  updCpu c f k = Ok (withCpus k (<[c := f cpu]> (k_cpus k))).
Proof. intros E. unfold updCpu. rewrite (arr_get_Some _ _ _ E). ostep. by rewrite (arr_set_Some _ _ _ _ E). Qed.
Lemma updIdle_Ok c f k i : k_idleInfo k !! c = Some i ->
  updIdle c f k = Ok (withIdle k (<[c := f i]> (k_idleInfo k))).
Proof. intros E. unfold updIdle. rewrite (arr_get_Some _ _ _ E). ostep. by rewrite (arr_set_Some _ _ _ _ E). Qed.

(** What [shedule] leaves alone: all task fields of the scheduler, the clock, and the
    other CPUs. *)
Record Sched (c : nat) (k k' : KS) : Prop := mkSched {
  sh_body : bodyEq (k_tasks k) (k_tasks k');
  sh_now : k_now k' = k_now k;
  sh_cpus : exists f, k_cpus k' = alter f c (k_cpus k) /\ forall x, c_current (f x) = c_current x /\
    c_idleTask (f x) = c_idleTask x /\ c_fpuRegs (f x) = c_fpuRegs x;
  sh_idle : length (k_idleInfo k') = length (k_idleInfo k);
  sh_fpu : k_fpuData k' = k_fpuData k;
  sh_objs : forall o, is_Some (objs (k_es k) !! o) -> is_Some (objs (k_es k') !! o) }.

Lemma sheduleQueues_spec c cur k a tc cpu i :
  SInv k [] [] a -> k_tasks k !! cur = Some tc -> k_cpus k !! c = Some cpu -> k_idleInfo k !! c = Some i ->
  inSlice k tc cpu = false -> m_state tc <> Wait -> (cur = c_idleTask cpu -> m_state tc = Active) ->
  (sheduleQueues c cur (k_now k) k = NoFuel /\ ownEntry (k_now k) cur k) \/
  exists p k' hole a', sheduleQueues c cur (k_now k) k = Ok (p, k') /\
    Choice k cur tc cpu [] a (k_timedQueue k') p [] hole a' /\ SInv k' [] hole a' /\
    bodyEq (k_tasks k) (k_tasks k') /\ k_now k' = k_now k /\ k_cpus k' = k_cpus k /\
    k_interval k' = k_interval k /\ length (k_idleInfo k') = length (k_idleInfo k) /\
    k_fpuData k' = k_fpuData k /\ (forall o, is_Some (objs (k_es k) !! o) -> is_Some (objs (k_es k') !! o)).
Proof.
  intros HS Et Ec Ei Hns Hnw Hia. unfold sheduleQueues.
  destruct (timedLoop_spec (k_now k) cur (m_curSize (k_timedQueue k)) k [] [] a HS)
    as [[E1 Hown]|(r & k1 & E1 & Hv1 & (e & tq & Ek1 & Hn1 & Ho1) & Hr)]; [lia|left; by rewrite E1|right].
  rewrite E1. ostep. destruct r as [p|].
  { destruct Hr as (HS1 & Hpc & (gone & Hp) & Hlow & Hw & t & t' & Etp & Hst & _). exists p, k1, [], (spTimeout p a). split; [done|].
    split; [|split; [done|split; [done|rewrite Ek1; done]]].
    eapply ChTimeout; eauto. unfold wake in Hw. rewrite Etp in Hw. done. }
  destruct Hr as (HS1 & Hf1 & (gone & Hgone) & Hdue).
  assert (Hq1 : k_waitQueue k1 = k_waitQueue k) by (by rewrite Ek1).
  destruct (waitLoop_spec cur k1 [] [] a HS1) as (r & k2 & E2 & Hr).
  { rewrite Hq1. intros Hin. by apply (qi_wq_state _ _ _ _ _ _ (si_q _ _ _ _ HS) cur tc Et ltac:(set_solver)) in Hin. }
  rewrite E2. ostep. destruct r as [p|].
  { destruct Hr as (HS2 & _ & Hf2 & Hperm & Hmin & (e2 & wq & Ek2 & Hn2 & Hoe2)). exists p, k2, [p], a. split; [done|].
    split; [|split; [done|split; [by etrans; [exact Hv1 | apply frame_body]|]]].
    - rewrite Hq1 in Hmin, Hperm. rewrite Ek2. eapply ChWait; [done | done | exact Hgone | exact Hdue | rewrite Hperm; left |]. intros r Hr.
      rewrite !(view_wake _ _ _ (body_view _ _ Hv1)). by apply Hmin.
    - rewrite Ek2. subst k1. split; [exact (eq_trans Hn2 Hn1)|]. do 4 (split; [done|]). intros o Ho. apply Hoe2. by apply Ho1. }
  destruct Hr as (Hq & ->). rewrite Hq1 in Hq. destruct (frame_lookup _ _ _ _ Hf1 Et) as (tc1 & Et1 & Eff).
  unfold getTask. rewrite (deref_Some _ _ _ Et1). ostep. pose proof (frame_fields _ _ Eff) as (Est & _ & _ & _ & _ & _ & Eid).
  assert (Ei1 : k_idleInfo k1 !! c = Some i) by (by rewrite Ek1). assert (Ec1 : k_cpus k1 !! c = Some cpu) by (by rewrite Ek1).
  assert (HS2 : forall l, SInv (withIdle k1 l) [] [] a) by (intros l; by destruct HS1).
  rewrite <- Est, <- Eid. destruct (decide (m_state tc = Active)) as [Ha|Ha].
  - rewrite bool_decide_eq_true_2 by done. destruct (m_idle tc) eqn:Hidle.
    + rewrite (updIdle_Ok _ _ _ i) by done. ostep. eexists cur, _, [], a. split; [reflexivity|].
      split; [by eapply ChKeep|]. split; [apply HS2|]. cbn [withIdle k_cpus k_interval k_idleInfo]. rewrite length_insert, Ek1.
      split; [subst k1; exact Hv1|]. done.
    + ostep. exists cur, k1, [], a. split; [done|]. split; [by eapply ChKeep|]. split; [done|]. split; [done|]. by rewrite Ek1.
  - rewrite bool_decide_eq_false_2 by done. unfold getCpu. rewrite (arr_get_Some _ _ _ Ec1). ostep.
    rewrite lockTask_other by (intros Heq; apply Ha, Hia; done). ostep. rewrite (updIdle_Ok _ _ _ i) by done. ostep. eexists _, _, [], a. split; [reflexivity|].
    split; [by eapply ChIdle|]. split; [apply HS2|]. cbn [withIdle k_cpus k_interval k_idleInfo]. rewrite length_insert, Ek1.
    split; [subst k1; exact Hv1|]. done.
Qed.

Lemma SInv_cpus k rt hole a l : SInv k rt hole a -> SInv (withCpus k l) rt hole a.
Proof. by intros []. Qed.

(** When [shedule] does not return: it comes to the queue of timed sleepers and to an entry
    of the current task in it, whose lock is held already. *)
Definition selfLock (k : KS) (cur : Z) (tc : Task) (cpu : Cpu) (rt : list Z) : Prop :=
  rt = [] /\ inSlice k tc cpu = false /\ ownEntry (k_now k) cur k.

Lemma shedule_spec c cur k rt a tc cpu i :
  SInv k rt [] a -> k_tasks k !! cur = Some tc -> k_cpus k !! c = Some cpu -> k_idleInfo k !! c = Some i ->
  m_state tc <> Wait -> m_state tc <> PriorityWait -> (cur = c_idleTask cpu -> m_state tc = Active) ->
  (shedule c cur k = NoFuel /\ selfLock k cur tc cpu rt) \/
  exists p k' rt' hole a', shedule c cur k = Ok (p, k') /\
    Choice k cur tc cpu rt a (k_timedQueue k') p rt' hole a' /\ SInv k' rt' hole a' /\ Sched c k k' /\
    k_cpus k' = (if bool_decide (rt = []) && negb (inSlice k tc cpu)
                 then alter (cShedTime (u64 (k_now k + k_interval k))) c (k_cpus k) else k_cpus k).
Proof.
  intros HS Et Ec Ei Hnw Hnp Hia. unfold shedule.
  assert (Hsz : (rt <> [] -> 0 < size (k_tasks k))%nat).
  { intros _. rewrite <- size_dom. assert (Hin : cur ∈ dom (k_tasks k)) by (apply elem_of_dom; eauto).
    destruct (decide (size (dom (k_tasks k)) = 0%nat)) as [E|E]; [|lia]. apply size_empty_inv in E. set_solver. }
  destruct (realtimeLoop_spec (size (k_tasks k)) cur k rt [] a HS Hsz) as (r & k1 & E1 & Hr).
  { intros Hin. by apply (qi_rt_state _ _ _ _ _ _ (si_q _ _ _ _ HS) cur tc Et ltac:(set_solver)) in Hin. }
  rewrite E1. ostep.
  assert (Hid : forall k', bodyEq (k_tasks k) (k_tasks k') -> k_now k' = k_now k -> k_cpus k' = k_cpus k ->
    length (k_idleInfo k') = length (k_idleInfo k) -> k_fpuData k' = k_fpuData k ->
    (forall o, is_Some (objs (k_es k) !! o) -> is_Some (objs (k_es k') !! o)) -> Sched c k k').
  { intros k' ? ? Hc ? ? ?. split; try done. exists id. split; [|done]. rewrite Hc. symmetry. apply list_alter_id. done. }
  destruct rt as [|p rt'].
  2: { right. destruct Hr as (-> & HS1 & _ & h & ->). exists p, (withQueues k (k_es k) h (k_waitQueue k) (k_timedQueue k)), rt', [p], a.
       split; [done|]. split; [by apply ChRealtime|]. split; [done|]. split; [by apply Hid | done]. }
  destruct Hr as (-> & ->). unfold getTask, getCpu. rewrite (deref_Some _ _ _ Et), (arr_get_Some _ _ _ Ec). ostep.
  fold (inSlice k tc cpu). destruct (inSlice k tc cpu) eqn:Hb.
  { right. exists cur, k, [], [], a. split; [done|]. split; [by apply ChSlice|]. split; [done|]. split; [by apply Hid | done]. }
  destruct (sheduleQueues_spec c cur k a tc cpu i HS Et Ec Ei Hb Hnw Hia)
    as [[E2 Hown]|(p & k' & hole & a' & E2 & Hch & HS' & Hv & Hn & Hc & Hi & Hl & Hfp & Hob)]; [left; by rewrite E2|right].
  rewrite E2. ostep. rewrite <- Hc in Ec. rewrite (updCpu_Ok _ _ _ _ Ec). ostep.
  eexists p, _, [], hole, a'. split; [reflexivity|]. split; [done|]. split; [by apply SInv_cpus|].
  assert (Ecp : <[c := cShedTime (u64 (k_now k + k_interval k')) cpu]> (k_cpus k') =
    alter (cShedTime (u64 (k_now k + k_interval k))) c (k_cpus k)).
  { rewrite <- Hc, Hi. symmetry. apply list_eq. intros j. destruct (decide (j = c)) as [->|].
    - rewrite list_lookup_alter_eq, Ec. symmetry. apply list_lookup_insert_eq. by eapply lookup_lt_Some.
    - by rewrite list_lookup_alter_ne, list_lookup_insert_ne. }
  split; [|exact Ecp].
  split; [exact Hv | exact Hn | | exact Hl | exact Hfp | exact Hob]. cbn [withCpus k_cpus]. rewrite Ecp.
  by exists (cShedTime (u64 (k_now k + k_interval k))).
Qed.

(** C35: the choice of the next task.  On a well-formed scheduler state, for a current
    task that is in neither queue (and active, if it is the idle task), [shedule] either
    spins for ever, which happens only when the time slice is over and the loop over the
    queue of timed sleepers comes to an entry that an earlier sleep of the current task
    left there ([selfLock]; see [SchedSwitch.Demo.own_entry_deadlocks]), or it returns and follows the order of
    [Choice]: the head of the realtime list; without one, the running task exactly while
    its time slice lasts; after that a sleeper whose wake time has passed; only when the
    queue of timed sleepers is empty or its first task is not due (with the queue in
    heap order: when none of its tasks is due), the runnable task that is due first; and
    with no runnable task the running one if it is active, the idle task if not.  The
    chosen task leaves its queue.  The queue of timed sleepers loses the sleeper that
    was chosen, and before it only tasks that were due and slept no longer.  A new time
    slice starts exactly when the choice went past the slice check, and the realtime
    list and the wait queue keep their invariant. *)
Theorem shedule_correct (c : nat) (cur : Z) (k : KS) (rt : list Z) (a : Spec) (tc : Task) (cpu : Cpu) (i : IdleInfo) :
  SInv k rt [] a -> k_tasks k !! cur = Some tc -> k_cpus k !! c = Some cpu -> k_idleInfo k !! c = Some i ->
  m_state tc <> Wait -> m_state tc <> PriorityWait -> (cur = c_idleTask cpu -> m_state tc = Active) ->
  (shedule c cur k = NoFuel /\ selfLock k cur tc cpu rt) \/
  exists p k' rt' hole a', shedule c cur k = Ok (p, k') /\
    Choice k cur tc cpu rt a (k_timedQueue k') p rt' hole a' /\ SInv k' rt' hole a' /\ k_now k' = k_now k /\
    k_cpus k' = (if bool_decide (rt = []) && negb (inSlice k tc cpu)
                 then alter (cShedTime (u64 (k_now k + k_interval k))) c (k_cpus k) else k_cpus k) /\
    (forall q t, k_tasks k !! q = Some t -> exists t', k_tasks k' !! q = Some t' /\
       m_state t' = m_state t /\ m_wakeTime t' = m_wakeTime t).
Proof.
  intros HS Et Ec Ei Hnw Hnp Hia. destruct (shedule_spec c cur k rt a tc cpu i HS Et Ec Ei Hnw Hnp Hia)
    as [?|(p & k' & rt' & hole & a' & E & Hc & HS' & [Hv Hn _ _ _ _] & Hcp)]; [by left|right].
  exists p, k', rt', hole, a'. do 5 (split; [done|]). intros q t Eq.
  destruct (view_lookup _ _ _ _ (body_view _ _ Hv) Eq) as (t' & Eq' & [= H1 H2 _]). by exists t'.
Qed.

End SchedInv.
