(* ===== verification/SchedSwitch.v ===== *)
(** * The scheduler: task switches keep the queues right *)

From S2P Require Import Prelude Task TaskQueue Event EventCore EventInv EventSpec EventWait Sched SchedInv.

Import TaskPriorityQueue.

Section SchedSwitch.
Context {X : Type}.
Notation ES := (@ES X).
Notation KS := (@KS X).
Notation Spec := (@Spec X).
Implicit Types (s : ES) (k : KS) (a : Spec).

(** ** One task record is replaced *)

(** The waiting fields stay, and if the task may be in an event's queue it sleeps. *)
Definition waitSame (t t' : Task) : Prop :=
  m_waitEventsInfo t' = m_waitEventsInfo t /\ m_waitEventCount t' = m_waitEventCount t /\
  m_needWaitEvents t' = m_needWaitEvents t.

Lemma view_insert ts p t t' : ts !! p = Some t -> sview t' = sview t -> viewEq ts (<[p := t']> ts).
Proof.
  intros E Hs x. destruct (decide (x = p)) as [->|]; [rewrite lookup_insert_eq, E; cbn; by rewrite Hs | by rewrite lookup_insert_ne].
Qed.

(** A change the queues do not see. *)
Lemma SInv_updT k rt hole a p f t : SInv k rt hole a -> k_tasks k !! p = Some t ->
  sview (f t) = sview t -> waitSame t (f t) ->
  updT p f k = Ok (withEs k (setTasks (k_es k) (<[p := f t]> (k_tasks k)))) /\
  SInv (withEs k (setTasks (k_es k) (<[p := f t]> (k_tasks k)))) rt hole a.
Proof.
  intros [HR HW HQ] Et Hv (H1 & H2 & H3). split; [by apply updT_Ok|]. split; [|done|].
  - eapply Rel_task_upd; eauto. intros o Ho. pose proof (tr_sleeps _ _ _ _ (rel_task _ _ _ HR _ _ Et) o Ho) as Hs.
    unfold sleeping in *. injection Hv as -> _ _. done.
  - eapply QInv_view; [by eapply view_insert | exact HQ].
Qed.

(** Tasks [l] that are in no queue get new states: they must be filed. *)
Lemma QInv_unfile ts ts' h wq tq rt hole l :
  QInv ts h wq tq rt hole -> (forall p, p ∉ l -> sview <$> ts !! p = sview <$> ts' !! p) ->
  (forall p, p ∈ l -> is_Some (ts !! p) /\ is_Some (ts' !! p) /\ p ∉ rt /\ p ∉ queued wq) ->
  QInv ts' h wq tq rt (l ++ hole).
Proof.
  intros [Hrt ? Hst Hwq Hwh ? Hws Hho Hroom Htq] Hout Hin.
  assert (Hs : forall p, is_Some (ts !! p) <-> is_Some (ts' !! p)).
  { intros p. destruct (decide (p ∈ l)) as [Hp|Hp]; [destruct (Hin p Hp) as (? & ? & _); tauto|].
    specialize (Hout p Hp). by destruct (ts !! p), (ts' !! p). }
  assert (Hd : dom ts' = dom ts) by (apply set_eq; intros p; rewrite !elem_of_dom; by rewrite Hs).
  assert (Hlive : forall q, QOk ts q -> QOk ts' q).
  { intros q [? ? Hl]. split; try done. intros x Hx. apply Hs. by apply Hl. }
  assert (Hlk : forall p t', p ∉ l -> ts' !! p = Some t' -> exists t, ts !! p = Some t /\ sview t = sview t').
  { intros p t' Hp E. specialize (Hout p Hp). rewrite E in Hout. destruct (ts !! p) as [t|]; [|done].
    exists t. split; [done|]. by apply (inj Some) in Hout. }
  assert (Hwake : forall p, p ∉ l -> wake ts' p = wake ts p).
  { intros p Hp. specialize (Hout p Hp). unfold wake. destruct (ts !! p), (ts' !! p); try done.
    apply (inj Some) in Hout. unfold sview in Hout. cbn. congruence. }
  assert (Hql : forall j x, (j < m_curSize wq)%nat -> m_pointersArray wq !! j = Some x -> x ∉ l).
  { intros j x Hj Ex Hx. apply Hin in Hx as (_ & _ & _ & Hx). apply Hx. apply list_elem_of_lookup. exists j.
    unfold queued. by rewrite lookup_take_lt. }
  split; try done; auto.
  - assert (Hl : forall x, x ∈ rt -> x ∉ l) by (intros x H1 H2; by apply Hin in H2 as (_ & _ & H2 & _)).
    clear -Hrt Hl Hout. revert h Hrt. induction rt as [|x rt IH]; intros h; [done|]. cbn [rtseg].
    intros (? & ? & tx & Ex & Hlx). split; [done|]. split; [done|].
    pose proof (Hout x (Hl x ltac:(left))) as E. rewrite Ex in E. destruct (ts' !! x) as [tx'|]; [|done].
    apply (inj Some) in E. injection E as _ _ E. exists tx'. split; [done|]. rewrite <- E.
    apply IH; [|done]. intros y Hy. apply Hl. by right.
  - intros x tx Ex Hx. apply not_elem_of_app in Hx as [Hx Hxh].
    destruct (Hlk x tx Hx Ex) as (t & Et & [= <- _ _]). by apply Hst.
  - intros j x y Hj Hj0 Ex Ey. rewrite !Hwake; [by eapply Hwh | by eapply (Hql j); [lia|] |].
    eapply (Hql ((j - 1) / 2)%nat); [|done]. pose proof (Nat.Div0.div_le_upper_bound (j - 1) 2 (j - 1)). lia.
  - intros x tx Ex Hx. apply not_elem_of_app in Hx as [Hx Hxh].
    destruct (Hlk x tx Hx Ex) as (t & Et & [= <- _ _]). by apply Hws.
  - intros x [Hx|Hx]%elem_of_app; [by apply Hin in Hx as (_ & _ & ?) | by apply Hho].
  - by rewrite <- size_dom, Hd, size_dom.
Qed.

(** A task of the hole whose state needs no queue is filed. *)
Lemma QInv_file ts h wq tq rt hole p t :
  QInv ts h wq tq rt (p :: hole) -> ts !! p = Some t -> m_state t <> Wait -> m_state t <> PriorityWait ->
  QInv ts h wq tq rt hole.
Proof.
  intros [? ? Hst ? ? ? Hws Hho ? ?] Et H1 H2. destruct (Hho p ltac:(left)) as [Hr Hq]. split; try done.
  - intros x tx Ex Hx. destruct (decide (x = p)) as [->|]; [|apply Hst; [done | set_solver]].
    split; [done|]. intros E. congruence.
  - intros x tx Ex Hx. destruct (decide (x = p)) as [->|]; [|apply Hws; [done | set_solver]].
    split; [done|]. intros E. congruence.
  - intros x Hx. apply Hho. by right.
Qed.

(** ** Pushing *)
Lemma waitQueue_room ts h wq tq rt hole p :
  QInv ts h wq tq rt hole -> is_Some (ts !! p) -> p ∉ queued wq -> (m_curSize wq < m_maxSize wq)%nat.
Proof.
  intros HQ Hp Hn. pose proof (qi_wq _ _ _ _ _ _ HQ) as [Hlen Hsz Hl].
  assert (Hq : length (queued wq) = m_curSize wq) by (unfold queued; rewrite length_take; lia).
  assert (Hle : (length (p :: queued wq) <= size ts)%nat).
  { rewrite <- size_dom, <- (size_list_to_set (C := gset Z)) by (constructor; [done | apply (qi_wq_nodup _ _ _ _ _ _ HQ)]).
    apply subseteq_size. intros x Hx. apply elem_of_list_to_set in Hx. apply elem_of_dom.
    apply elem_of_cons in Hx as [->|Hx]; auto. }
  pose proof (qi_room _ _ _ _ _ _ HQ). cbn in Hle. lia.
Qed.

Lemma pushWait_spec k rt hole a p t :
  SInv k rt (p :: hole) a -> p ∉ hole -> k_tasks k !! p = Some t -> m_state t = Wait ->
  exists ts' q', pushWait p k = Ok (withQueues k (setTasks (k_es k) ts') (k_realtimeHead k) q' (k_timedQueue k)) /\
    frame (k_tasks k) ts' /\ p ∈ queued q' /\
    SInv (withQueues k (setTasks (k_es k) ts') (k_realtimeHead k) q' (k_timedQueue k)) rt hole a.
Proof.
  intros [HR HW HQ] Hph Et Hst. destruct (qi_hole _ _ _ _ _ _ HQ p ltac:(left)) as [Hr Hq].
  assert (Hp : is_Some (k_tasks k !! p)) by eauto.
  destruct (push_loose (k_tasks k) (k_waitQueue k) p (qi_wq _ _ _ _ _ _ HQ) Hp (waitQueue_room _ _ _ _ _ _ _ HQ Hp Hq))
    as (ts' & q' & E & HQ' & Hperm & Hf & Hmx & _ & Hheap).
  exists ts', q'. unfold pushWait. rewrite E. ostep. split; [done|]. split; [done|].
  split; [rewrite Hperm; left|]. split; [exact (Rel_frame _ _ _ _ Hf HR) | done |].
  eapply (QInv_view (k_tasks k)); [by apply frame_view|]. destruct HQ as [? ? Hs ? Hwh Hnd Hws Hho ? ?].
  pose proof Hf as Hf'. symmetry in Hf'. split; try done; cbn [withQueues k_waitQueue].
  - intros x tx Ex Hx. destruct (decide (x = p)) as [->|]; [|apply Hs; [done|set_solver]].
    split; [done|]. intros E'. congruence.
  - by eapply QOk_frame.
  - eapply QHeap_frame; [done | by apply Hheap].
  - rewrite Hperm. by constructor.
  - intros x tx Ex Hx. rewrite Hperm, elem_of_cons. destruct (decide (x = p)) as [->|].
    + split; [congruence | by left].
    + rewrite <- (Hws x tx Ex); [naive_solver | set_solver].
  - intros x Hx. destruct (Hho x ltac:(by right)). split; [done|]. rewrite Hperm, elem_of_cons. intros [->|?]; done.
  - by rewrite Hmx.
Qed.

Lemma pushTimed_spec k rt hole a p : SInv k rt hole a -> is_Some (k_tasks k !! p) ->
  exists ts' q', pushTimed p k = Ok (withQueues k (setTasks (k_es k) ts') (k_realtimeHead k) (k_waitQueue k) q') /\
    frame (k_tasks k) ts' /\
    (p ∈ queued q' \/ m_curSize q' = m_maxSize q') /\ (forall x, x ∈ queued (k_timedQueue k) -> x ∈ queued q') /\
    SInv (withQueues k (setTasks (k_es k) ts') (k_realtimeHead k) (k_waitQueue k) q') rt hole a.
Proof.
  intros HS Hp. pose proof HS as [HR HW HQ]. pose proof (qi_tq _ _ _ _ _ _ HQ) as Htq. unfold pushTimed.
  destruct (decide (m_curSize (k_timedQueue k) = m_maxSize (k_timedQueue k))) as [Ef|Ef].
  - exists (k_tasks k), (k_timedQueue k). unfold push. rewrite Ef, Nat.eqb_refl. ostep.
    split; [done|]. split; [done|]. split; [by right|]. split; [done|]. by destruct k as [[] ? ? ? ? ? ? ? ? ?].
  - destruct (push_loose (k_tasks k) (k_timedQueue k) p Htq Hp) as (ts' & q' & E & HQ' & Hperm & Hf & _).
    { destruct Htq. lia. }
    exists ts', q'. rewrite E. ostep. split; [done|]. split; [done|]. split; [left; rewrite Hperm; left|].
    split; [intros x Hx; rewrite Hperm; by right|].
    split; [exact (Rel_frame _ _ _ _ Hf HR) | done |].
    eapply (QInv_view (k_tasks k)); [by apply frame_view|]. destruct HQ. split; try done.
    eapply QOk_frame; [symmetry; exact Hf | done].
Qed.

Lemma pushAll_spec l : forall k rt hole a,
  SInv k rt (l ++ hole) a -> NoDup (l ++ hole) ->
  (forall p, p ∈ l -> exists t, k_tasks k !! p = Some t /\ m_state t = Wait) ->
  exists ts' q', pushAll l k = Ok (withQueues k (setTasks (k_es k) ts') (k_realtimeHead k) q' (k_timedQueue k)) /\
    frame (k_tasks k) ts' /\
    SInv (withQueues k (setTasks (k_es k) ts') (k_realtimeHead k) q' (k_timedQueue k)) rt hole a.
Proof.
  induction l as [|p l IH]; intros k rt hole a HS Hnd Hl.
  { exists (k_tasks k), (k_waitQueue k). cbn [pushAll]. cbn [app] in HS. by destruct k as [[] ? ? ? ? ? ? ? ? ?]. }
  cbn [app] in *. apply NoDup_cons in Hnd as [Hp Hnd]. destruct (Hl p ltac:(left)) as (t & Et & Hst).
  destruct (pushWait_spec k rt (l ++ hole) a p t HS Hp Et Hst) as (ts1 & q1 & E1 & Hf1 & _ & HS1).
  cbn [pushAll]. rewrite E1. ostep.
  destruct (IH _ rt hole a HS1 Hnd) as (ts2 & q2 & E2 & Hf2 & HS2).
  { intros x Hx. destruct (Hl x ltac:(by right)) as (tx & Ex & Hsx).
    destruct (frame_lookup _ _ _ _ Hf1 Ex) as (tx' & Ex' & E). apply frame_fields in E as (E & _). exists tx'. by rewrite <- E. }
  exists ts2, q2. rewrite E2. split; [done|]. split; [by etrans | exact HS2].
Qed.

(** ** Setting an event from the scheduler *)
Lemma spServe_shrinks o a p : forall o' x, x ∈ sp_queue (spServe o a p) o' -> x ∈ sp_queue a o'.
Proof.
  intros o' x. unfold spServe. destruct (_ <? _); cbn [sp_queue].
  - destruct (decide (o' = o)) as [->|]; [rewrite fn_lookup_insert, elem_of_rm; tauto | by rewrite fn_lookup_insert_ne].
  - rewrite elem_of_rm. tauto.
Qed.
Lemma spServe_wakes o a p x : x ∈ sp_woken (spServe o a p) -> x ∈ sp_woken a \/ x = p.
Proof. unfold spServe. destruct (_ <? _); cbn [sp_woken]; [by left | set_solver]. Qed.

Lemma spServe_fold o q : forall a,
  (forall o' x, x ∈ sp_queue (fold_left (spServe o) q a) o' -> x ∈ sp_queue a o') /\
  (forall x, x ∈ sp_woken (fold_left (spServe o) q a) -> x ∈ sp_woken a \/ x ∈ q).
Proof.
  induction q as [|p q IH]; intros a; cbn [fold_left]; [by split; [|left]|].
  destruct (IH (spServe o a p)) as [H1 H2]. split.
  - intros o' x Hx. eapply spServe_shrinks, H1, Hx.
  - intros x Hx. destruct (H2 x Hx) as [Hw|Hq]; [destruct (spServe_wakes _ _ _ _ Hw) as [?| ->]; [by left|] |]; set_solver.
Qed.

Section Hook.
Context (onWakeSingleThread : Z -> Z -> X -> bool * X).

Lemma spDoSet_shrinks o a :
  (forall o' x, x ∈ sp_queue (spDoSet onWakeSingleThread o a) o' -> x ∈ sp_queue a o') /\
  (forall x, x ∈ sp_woken (spDoSet onWakeSingleThread o a) -> x ∈ sp_woken a \/ x ∈ sp_queue a o).
Proof.
  unfold spDoSet. destruct (sp_set a o); [by split; [|left]|]. destruct (sp_manual a o); [apply (spServe_fold o (sp_queue a o) a)|].
  destruct (sp_queue a o) as [|p q] eqn:Eq; [by split; [|left]|]. unfold spServeAuto. rewrite Eq.
  assert (H : forall a1, sp_queue a1 = sp_queue a -> sp_woken a1 = sp_woken a ->
    (forall o' x, x ∈ sp_queue (spServe o a1 p) o' -> x ∈ sp_queue a o') /\
    (forall x, x ∈ sp_woken (spServe o a1 p) -> x ∈ sp_woken a \/ x ∈ p :: q)).
  { intros a1 E1 E2. split.
    - intros o' x Hx. apply spServe_shrinks in Hx. by rewrite E1 in Hx.
    - intros x Hx. destruct (spServe_wakes _ _ _ _ Hx) as [Hw| ->]; [left; by rewrite <- E2 | right; left]. }
  destruct (_ <? _); [by apply H|]. destruct (onWakeSingleThread o p (sp_ext a)) as [[] x]; [by apply H | by split; [|left]].
Qed.

Lemma setEvent_spec o k rt hole a ob :
  SInv k rt hole a -> objs (k_es k) !! o = Some ob -> NoDup hole ->
  (forall p o', p ∈ hole -> p ∉ sp_queue a o') ->
  exists k' a', setEvent onWakeSingleThread o k = Ok k' /\ SInv k' rt hole a' /\
    (forall o' x, x ∈ sp_queue a' o' -> x ∈ sp_queue a o') /\
    (forall p t, k_tasks k !! p = Some t -> exists t', k_tasks k' !! p = Some t' /\
       (m_state t' = m_state t \/ (m_state t' = Wait /\ p ∈ sp_queue a o)) /\
       m_useFpu t' = m_useFpu t /\ m_idle t' = m_idle t) /\
    k_cpus k' = k_cpus k /\ k_fpuData k' = k_fpuData k /\ k_now k' = k_now k /\
    k_timedQueue k' = k_timedQueue k /\ k_idleInfo k' = k_idleInfo k.
Proof.
  intros HS Eob Hnd Hhq. pose proof HS as [HR HW HQ].
  destruct (set_spec onWakeSingleThread o (k_es k) a ob HR Eob) as (e & Ee & HRe).
  destruct (set_Woke onWakeSingleThread o (k_es k) e Ee) as [l [Wl Nl Dl Il Ol _]].
  destruct (spDoSet_shrinks o a) as [Hq Hw]. rewrite HW in Wl. cbn [app] in Wl.
  assert (Hlq : forall x, x ∈ l -> x ∈ sp_queue a o).
  { intros x Hx. rewrite <- Wl, (rel_woken _ _ _ HRe) in Hx. apply Hw in Hx as [Hx|Hx]; [|done].
    rewrite <- (rel_woken _ _ _ HR), HW in Hx. set_solver. }
  unfold setEvent. rewrite Ee. ostep. rewrite Wl. set (k1 := withEs k _).
  set (a1 := mkSpec (sp_set (spDoSet onWakeSingleThread o a)) (sp_manual (spDoSet onWakeSingleThread o a))
    (sp_queue (spDoSet onWakeSingleThread o a)) (sp_need (spDoSet onWakeSingleThread o a)) [] (sp_ext (spDoSet onWakeSingleThread o a))).
  assert (Hcore : forall p t, k_tasks k !! p = Some t -> exists t', tasks e !! p = Some t' /\
    ((p ∉ l /\ core t' = core t) \/ (p ∈ l /\ core t' = coreWoken (now (k_es k)) t))).
  { intros p t Et. destruct (decide (p ∈ l)) as [Hp|Hp].
    - destruct (Il p Hp) as (t0 & Et0 & _ & E). unfold k_tasks in Et. rewrite Et in Et0. injection Et0 as <-.
      destruct (tasks e !! p) as [t'|]; [|done]. exists t'. split; [done|]. right. by apply core_Some in E.
    - specialize (Ol p Hp). unfold k_tasks in Et. rewrite Et in Ol. destruct (tasks e !! p) as [t'|]; [|done].
      exists t'. split; [done|]. left. by apply core_Some2 in Ol. }
  assert (HS1 : SInv k1 rt (l ++ hole) a1).
  { split; [|done|].
    - destruct HRe as [? HL ? ? HT ? ?]. split; try done. intros p t Et. by destruct (HT p t Et).
    - eapply QInv_unfile; [exact HQ | |].
      + intros p Hp. specialize (Ol p Hp). unfold k_tasks, k1. cbn [withEs k_es tasks].
        destruct (tasks (k_es k) !! p) as [t|], (tasks e !! p) as [t'|]; try done.
        apply core_Some2 in Ol. unfold core, withWait in Ol. cbn. unfold sview. by injection Ol as _ _ _ -> -> -> _.
      + intros p Hp. destruct (Il p Hp) as (t & Et & Hs & _).
        destruct (Hcore p t Et) as (t' & Et' & _). split; [eauto|]. split; [eauto|].
        assert (Hph : p ∉ hole) by (intros Hin; by apply (Hhq p o Hin), Hlq).
        unfold sleeping in Hs. split; intros Hin.
        * apply (qi_rt_state _ _ _ _ _ _ HQ p t Et Hph) in Hin. by rewrite Hin in Hs.
        * apply (qi_wq_state _ _ _ _ _ _ HQ p t Et Hph) in Hin. by rewrite Hin in Hs. }
  destruct (pushAll_spec l k1 rt hole a1 HS1) as (ts2 & q2 & E2 & Hf2 & HS2).
  { apply NoDup_app. split; [done|]. split; [|done]. intros x Hx Hh. by apply (Hhq x o Hh), Hlq. }
  { intros p Hp. destruct (Il p Hp) as (t & Et & _). destruct (Hcore p t Et) as (t' & Et' & [[? _]|[_ Ec]]); [done|].
    exists t'. split; [done|]. unfold core, coreWoken, core, setTaskState, withWait in Ec. cbn in Ec. by injection Ec. }
  eexists _, a1. split; [exact E2|]. split; [exact HS2|]. split; [exact Hq|]. split.
  { intros p t Et. destruct (Hcore p t Et) as (t' & Et' & Ht'). destruct (frame_lookup _ _ _ _ Hf2 Et') as (t2 & Et2 & Ef).
    exists t2. split; [done|]. assert (m_useFpu t2 = m_useFpu t' /\ m_idle t2 = m_idle t' /\ m_state t2 = m_state t') as (-> & -> & ->).
    { unfold set_priorityQueueIndex in Ef. by injection Ef. }
    destruct Ht' as [[_ Ec]|[Hp Ec]]; unfold coreWoken, core, setTaskState, withWait in Ec; cbn in Ec; injection Ec.
    - intros. split; [by left | done].
    - intros. split; [right; split; [done | by apply Hlq] | done]. }
  split; [done|]. split; [done|]. split; [exact (eq_sym Nl) | done].
Qed.
(** ** The old task is filed *)

(** Tasks stay, with their FPU use and idle mark; those of [P] keep their state. *)
Definition stays (P : Z -> Prop) (k k' : KS) : Prop :=
  forall p t, k_tasks k !! p = Some t -> exists t', k_tasks k' !! p = Some t' /\
    m_useFpu t' = m_useFpu t /\ m_idle t' = m_idle t /\ (P p -> m_state t' = m_state t).

Lemma stays_refl P k : stays P k k.
Proof. intros p t E. by exists t. Qed.
Lemma stays_trans (P : Z -> Prop) k1 k2 k3 : stays P k1 k2 -> stays P k2 k3 -> stays P k1 k3.
Proof.
  intros H1 H2 p t E. destruct (H1 p t E) as (t1 & E1 & ? & ? & Hs1). destruct (H2 p t1 E1) as (t2 & E2 & ? & ? & Hs2).
  exists t2. split; [done|]. split; [congruence|]. split; [congruence|]. intros HP. by rewrite Hs2, Hs1.
Qed.
Lemma stays_frame P k k' : frame (k_tasks k) (k_tasks k') -> stays P k k'.
Proof.
  intros Hf p t E. destruct (frame_lookup _ _ _ _ Hf E) as (t' & E' & Ef). exists t'. split; [done|].
  unfold set_priorityQueueIndex in Ef. by injection Ef.
Qed.
Lemma stays_insert (P : Z -> Prop) k k' p t t' : k_tasks k !! p = Some t -> k_tasks k' = <[p := t']> (k_tasks k) ->
  m_useFpu t' = m_useFpu t -> m_idle t' = m_idle t -> (P p -> m_state t' = m_state t) -> stays P k k'.
Proof.
  intros E Ek H1 H2 H3 x tx Ex. rewrite Ek. destruct (decide (x = p)) as [->|].
  - rewrite lookup_insert_eq. simplify_eq. by exists t'.
  - rewrite lookup_insert_ne by done. by exists tx.
Qed.

(** Where a task that leaves its CPU ends up. *)
Definition filed (old : Z) (to : Task) (k' : KS) : Prop :=
  exists t', k_tasks k' !! old = Some t' /\
    (m_idle to = false -> m_state to = Active -> m_state t' = Wait /\ old ∈ queued (k_waitQueue k')) /\
    (m_idle to = false -> m_state to = TimedSleep -> m_state t' = TimedSleep /\
       (old ∈ queued (k_timedQueue k') \/ m_curSize (k_timedQueue k') = m_maxSize (k_timedQueue k'))) /\
    (m_state to <> Active -> m_state t' = m_state to).

Lemma fileOldTask_spec c k rt hole a old new to tn i :
  SInv k rt hole a -> k_tasks k !! old = Some to -> old ∉ hole -> m_state to <> Wait -> m_state to <> PriorityWait ->
  k_tasks k !! new = Some tn -> k_idleInfo k !! c = Some i ->
  exists k', fileOldTask c old new k = Ok k' /\ SInv k' rt hole a /\ stays (fun p => p <> old) k k' /\
    filed old to k' /\ k_cpus k' = k_cpus k /\ k_fpuData k' = k_fpuData k /\ k_now k' = k_now k /\
    length (k_idleInfo k') = length (k_idleInfo k) /\
    (m_state to <> Active -> m_state to <> TimedSleep -> k_es k' = k_es k) /\
    (forall x, x ∈ queued (k_timedQueue k) -> x ∈ queued (k_timedQueue k')).
Proof.
  intros HS Et Hh Hw Hp Etn Ei. pose proof HS as [HR HW HQ]. unfold fileOldTask, getTask.
  rewrite (deref_Some _ _ _ Et). ostep. destruct (m_idle to) eqn:Hidle.
  { rewrite (updIdle_Ok _ _ _ _ Ei). eexists. split; [done|]. split; [by destruct HS|]. split; [exact (stays_refl _ k)|].
    split; [exists to; by rewrite Hidle|]. cbn [withIdle k_idleInfo]. by rewrite length_insert. }
  destruct (decide (m_state to = Active)) as [Ha|Ha].
  { rewrite bool_decide_eq_true_2 by done. rewrite (deref_Some _ _ _ Etn). ostep. set (w := if bool_decide _ then _ else _).
    rewrite (updT_Ok _ _ _ to) by done. ostep. set (t1 := setTaskState Wait w to). set (k1 := withEs k _).
    assert (Hnot : old ∉ rt /\ old ∉ queued (k_waitQueue k)).
    { split; intros Hin; [apply (qi_rt_state _ _ _ _ _ _ HQ old to Et Hh) in Hin | apply (qi_wq_state _ _ _ _ _ _ HQ old to Et Hh) in Hin]; done. }
    assert (HS1 : SInv k1 rt (old :: hole) a).
    { split; [|done|].
      - eapply Rel_task_upd; eauto. intros o Ho. pose proof (tr_sleeps _ _ _ _ (rel_task _ _ _ HR _ _ Et) o Ho) as Hs.
        unfold sleeping in Hs. by rewrite Ha in Hs.
      - apply (QInv_unfile _ _ _ _ _ _ _ [old] HQ).
        + intros p Hx. unfold k_tasks, k1. cbn [withEs k_es setTasks tasks]. rewrite lookup_insert_ne; [done | set_solver].
        + intros p ->%list_elem_of_singleton. split; [eauto|]. split; [|done].
          unfold k_tasks, k1. cbn [withEs k_es setTasks tasks]. rewrite lookup_insert_eq. eauto. }
    assert (Et1 : k_tasks k1 !! old = Some t1) by apply lookup_insert_eq.
    destruct (pushWait_spec k1 rt hole a old t1 HS1 Hh Et1 eq_refl) as (ts' & q' & E & Hf & Hq & HS2).
    rewrite E. eexists. split; [reflexivity|]. split; [exact HS2|].
    split; [eapply (stays_trans _ k k1); [by eapply (stays_insert _ k k1 old to t1) | by apply stays_frame]|].
    split; [|do 5 (split; [done|]); done].
    destruct (frame_lookup _ _ _ _ Hf Et1) as (t2 & Et2 & Ef). apply frame_fields in Ef as (Ef & _).
    exists t2. split; [exact Et2|]. split; [intros _ _; split; [by rewrite <- Ef | exact Hq]|].
    split; [intros _ ?; congruence | done]. }
  rewrite bool_decide_eq_false_2 by done. destruct (decide (m_state to = TimedSleep)) as [Hts|Hts].
  - rewrite bool_decide_eq_true_2 by done.
    destruct (pushTimed_spec k rt hole a old HS) as (ts' & q' & E & Hf & Hq & Hold & HS2); [eauto|].
    rewrite E. eexists. split; [reflexivity|]. split; [exact HS2|]. split; [by apply stays_frame|].
    split; [|do 5 (split; [done|]); exact Hold].
    destruct (frame_lookup _ _ _ _ Hf Et) as (t2 & Et2 & Ef). apply frame_fields in Ef as (Ef & _).
    exists t2. split; [exact Et2|]. split; [done|]. split; [intros _ _; split; [congruence | exact Hq] | by intros _].
  - rewrite bool_decide_eq_false_2 by done. exists k. split; [done|]. split; [done|]. split; [apply stays_refl|].
    split; [|done]. by exists to.
Qed.

(** ** The second half *)
Context (terminateEvent : Z -> Z) (volatileOffset : Z).
Notation endTaskSwitch := (endTaskSwitch onWakeSingleThread terminateEvent).
Notation beginTaskSwitch := (@beginTaskSwitch X volatileOffset).
Notation taskSwitch := (taskSwitch onWakeSingleThread terminateEvent volatileOffset).

(** The new task becomes active. *)
Lemma activate_spec k rt hole a new tn :
  SInv k rt hole a -> k_tasks k !! new = Some tn -> (forall o, new ∉ sp_queue a o) ->
  hole = [new] \/ (hole = [] /\ m_state tn <> Wait /\ m_state tn <> PriorityWait) ->
  exists k', updT new (setState Active) k = Ok k' /\ SInv k' rt [] a /\
    k_tasks k' = <[new := setState Active tn]> (k_tasks k) /\ k_cpus k' = k_cpus k /\
    k_waitQueue k' = k_waitQueue k /\ k_timedQueue k' = k_timedQueue k.
Proof.
  intros [HR HW HQ] Et Hq Hh. rewrite (updT_Ok _ _ _ tn) by done. eexists. split; [reflexivity|]. split; [|done].
  split; [|done|].
  - eapply Rel_task_upd; eauto. intros o Ho. by destruct (Hq o).
  - assert (Hnot : new ∉ rt /\ new ∉ queued (k_waitQueue k)).
    { destruct Hh as [->|(-> & H1 & H2)]; [by apply (qi_hole _ _ _ _ _ _ HQ), list_elem_of_singleton|].
      split; intros Hin; [apply (qi_rt_state _ _ _ _ _ _ HQ new tn Et ltac:(set_solver)) in Hin
        | apply (qi_wq_state _ _ _ _ _ _ HQ new tn Et ltac:(set_solver)) in Hin]; done. }
    assert (HQ' : QInv (<[new := setState Active tn]> (k_tasks k)) (k_realtimeHead k) (k_waitQueue k) (k_timedQueue k) rt ([new] ++ hole)).
    { apply (QInv_unfile _ _ _ _ _ _ _ [new] HQ).
      - intros p Hp. rewrite lookup_insert_ne; [done | set_solver].
      - intros p ->%list_elem_of_singleton. rewrite lookup_insert_eq. split; [eauto|]. by split; [eauto|]. }
    assert (Efile : forall h, QInv (<[new := setState Active tn]> (k_tasks k)) (k_realtimeHead k) (k_waitQueue k) (k_timedQueue k) rt (new :: h) ->
      QInv (<[new := setState Active tn]> (k_tasks k)) (k_realtimeHead k) (k_waitQueue k) (k_timedQueue k) rt h).
    { intros h Hx. eapply (QInv_file _ _ _ _ _ h new); [exact Hx | apply lookup_insert_eq | done | done]. }
    destruct Hh as [->|(-> & _)]; cbn [app] in HQ'; auto.
Qed.

(** What becomes of the other tasks: the end of the old task may wake sleepers, and
    nobody leaves the queue of timed sleepers. *)
Definition others (old new : Z) (to : Task) (k k' : KS) : Prop :=
  (forall q t, k_tasks k !! q = Some t -> q <> old -> q <> new -> exists t', k_tasks k' !! q = Some t' /\
     (m_state t' = m_state t \/ (m_state t' = Wait /\ sleeping t = true /\ m_state to = Terminated))) /\
  (forall x, x ∈ queued (k_timedQueue k) -> x ∈ queued (k_timedQueue k')).

(** The second half: SInv is back, the new task is current and active. *)
Lemma endTaskSwitch_spec c k rt hole a cpu old new to tn i :
  SInv k rt hole a -> k_cpus k !! c = Some cpu -> c_current cpu = old -> c_nextTask cpu = new -> old <> new ->
  k_tasks k !! old = Some to -> k_tasks k !! new = Some tn -> k_idleInfo k !! c = Some i ->
  old ∉ hole -> m_state to <> Wait -> m_state to <> PriorityWait ->
  hole = [new] \/ (hole = [] /\ m_state tn <> Wait /\ m_state tn <> PriorityWait) ->
  (forall o, new ∉ sp_queue a o) ->
  (m_state to = Terminated -> m_idle to = false -> is_Some (objs (k_es k) !! terminateEvent old)) ->
  (m_useFpu tn = true -> is_Some (k_fpuData k !! new)) ->
  exists k' a' t', endTaskSwitch c k = Ok k' /\ SInv k' rt [] a' /\ filed old to k' /\
    others old new to k k' /\
    c_current <$> k_cpus k' !! c = Some new /\ k_tasks k' !! new = Some t' /\ m_state t' = Active.
Proof.
  intros HS Ec Hold Hnew Hne Eto Etn Ei Hoh Hw Hp Hh Hq Hterm Hfpu. unfold endTaskSwitch, getCpu, getTask.
  rewrite (arr_get_Some _ _ _ Ec). ostep. rewrite Hold, Hnew, (deref_Some _ _ _ Eto), (deref_Some _ _ _ Etn). ostep.
  set (k0 := withCount k _). assert (HS0 : SInv k0 rt hole a) by (by destruct HS).
  destruct (fileOldTask_spec c k0 rt hole a old new to tn i HS0 Eto Hoh Hw Hp Etn Ei)
    as (k1 & E1 & HS1 & Hk1 & Hf1 & Ec1 & Efp1 & _ & _ & Ees1 & Htq1). rewrite E1. ostep.
  assert (exists k2 a2, (if negb (m_idle to) && bool_decide (m_state to = Terminated)
      then setEvent onWakeSingleThread (terminateEvent old) k1 else Ok k1) = Ok k2 /\ SInv k2 rt hole a2 /\
      stays (fun p => p = old \/ p = new) k1 k2 /\ (forall o, new ∉ sp_queue a2 o) /\
      k_cpus k2 = k_cpus k1 /\ k_fpuData k2 = k_fpuData k1 /\ k_timedQueue k2 = k_timedQueue k1 /\
      (m_state to <> Terminated -> k2 = k1) /\
      (forall p t, k_tasks k1 !! p = Some t -> exists t', k_tasks k2 !! p = Some t' /\
         (m_state t' = m_state t \/ (m_state t' = Wait /\ sleeping t = true /\ m_state to = Terminated))))
      as (k2 & a2 & E2 & HS2 & Hk2 & Hq2 & Ec2 & Efp2 & Etq2 & Eid2 & Hot2).
  { destruct (negb (m_idle to) && bool_decide (m_state to = Terminated)) eqn:Hb.
    2: { exists k1, a. do 2 (split; [done|]). split; [apply stays_refl|]. do 5 (split; [done|]). intros p t Et. exists t. tauto. }
    apply andb_true_iff in Hb as [Hidle%negb_true_iff Ht%bool_decide_eq_true].
    destruct (Hterm Ht Hidle) as [ob Eob].
    destruct (setEvent_spec (terminateEvent old) k1 rt hole a ob HS1) as (k2 & a2 & E2 & HS2 & Hsub & Hk2 & Ec2 & Efp2 & _ & Etq2 & _).
    - rewrite Ees1 by (rewrite Ht; done). exact Eob.
    - destruct Hh as [->|(-> & _)]; [apply NoDup_singleton | apply NoDup_nil_2].
    - intros p o' Hin. destruct Hh as [->|(-> & _)]; [apply list_elem_of_singleton in Hin as ->; apply Hq | by apply elem_of_nil in Hin].
    - exists k2, a2. split; [done|]. split; [done|]. split; [|split; [intros o Ho; by apply (Hq o), Hsub|]].
      + intros p t Et. destruct (Hk2 p t Et) as (t' & Et' & Hs & ? & ?). exists t'. do 3 (split; [done|]). intros Hpp.
        destruct Hs as [?|[? Hin]]; [done|]. exfalso. destruct Hpp as [->| ->]; [|by apply (Hq (terminateEvent old))].
        destruct Hf1 as (to1 & Eto1 & _ & _ & Hst1). unfold k_tasks in Eto1, Et. rewrite Et in Eto1. injection Eto1 as <-.
        pose proof (tr_sleeps _ _ _ _ (rel_task _ _ _ (si_rel _ _ _ _ HS1) _ _ Et) _ Hin) as Hsl.
        unfold sleeping in Hsl. rewrite Hst1, Ht in Hsl by (rewrite Ht; done). done.
      + do 3 (split; [done|]). split; [intros; congruence|]. intros p t Et. destruct (Hk2 p t Et) as (t' & Et' & Hs & _).
        exists t'. split; [done|]. destruct Hs as [?|[? Hin]]; [by left|]. right. split; [done|]. split; [exact (tr_sleeps _ _ _ _ (rel_task _ _ _ (si_rel _ _ _ _ HS1) _ _ Et) _ Hin) | done]. }
  rewrite E2. ostep. destruct (Hk1 new tn Etn) as (tn1 & Etn1 & Hu1 & Hi1 & Hs1).
  destruct (Hk2 new tn1 Etn1) as (tn2 & Etn2 & Hu2 & Hi2 & Hs2). rewrite (deref_Some _ _ _ Etn2). ostep.
  assert (Hf2 : filed old to k2).
  { destruct (decide (m_state to = Terminated)) as [Ht|Ht]; [|by rewrite Eid2].
    destruct Hf1 as (to1 & Eto1 & _ & _ & Hst1). destruct (Hk2 old to1 Eto1) as (to2 & Eto2 & _ & _ & Hst2).
    exists to2. rewrite Ht in *. do 3 (split; [done|]). intros _. rewrite Hst2 by tauto. by apply Hst1. }
  assert (Ec3 : k_cpus k2 !! c = Some cpu) by (by rewrite Ec2, Ec1).
  assert (exists cpu3, (if m_useFpu tn2 then regs ← deref (k_fpuData k2) new; updCpu c (cFpu false regs) k2
      else updCpu c (fun x => cFpu true (c_fpuRegs x) x) k2) = Ok (withCpus k2 (<[c := cpu3]> (k_cpus k2)))) as [cpu3 E3].
  { destruct (m_useFpu tn2) eqn:Hu; [|rewrite (updCpu_Ok _ _ _ _ Ec3); by eexists].
    destruct Hfpu as [regs Er]; [congruence|]. rewrite (deref_Some _ _ regs) by (by rewrite Efp2, Efp1). ostep.
    rewrite (updCpu_Ok _ _ _ _ Ec3). by eexists. }
  rewrite E3. ostep. assert (Hl : (c < length (k_cpus k2))%nat) by (by eapply lookup_lt_Some).
  assert (exists l4, (if negb (m_kernel tn) && negb (m_pagingManager to =? m_pagingManager tn)
      then updCpu c (cPaging (m_pagingManager tn2)) (withCpus k2 (<[c:=cpu3]> (k_cpus k2)))
      else Ok (withCpus k2 (<[c:=cpu3]> (k_cpus k2)))) = Ok (withCpus k2 l4) /\ length l4 = length (k_cpus k2)) as (l4 & E4 & Hl4).
  { destruct (negb _ && negb _).
    - rewrite (updCpu_Ok _ _ _ cpu3) by (cbn [withCpus k_cpus]; by apply list_lookup_insert_eq). eexists. split; [reflexivity|].
      cbn [withCpus k_cpus]. by rewrite !length_insert.
    - eexists. split; [reflexivity|]. by rewrite length_insert. }
  rewrite E4. ostep.
  destruct (activate_spec (withCpus k2 l4) rt hole a2 new tn2) as (k5 & E5 & HS5 & Et5 & Ec5 & Ewq5 & Etq5).
  - by apply SInv_cpus.
  - exact Etn2.
  - exact Hq2.
  - rewrite Hs2, Hs1 by (done || tauto). exact Hh.
  - rewrite E5. ostep. destruct (lookup_lt_is_Some_2 (k_cpus k5) c) as [cpu5 Ecpu5]; [rewrite Ec5; cbn [withCpus k_cpus]; lia|].
    rewrite (updCpu_Ok _ _ _ _ Ecpu5). eexists _, a2, _. split; [reflexivity|]. split; [by apply SInv_cpus|].
    split; [|split; [|split; [|split]]].
    + destruct Hf2 as (to2 & Eto2 & H1 & H2 & H3). exists to2. unfold k_tasks in *. cbn [withCpus k_es k_waitQueue k_timedQueue].
      rewrite Et5, lookup_insert_ne, Ewq5, Etq5 by done. done.
    + split.
      * intros q t Eq Hqo Hqn. destruct (Hk1 q t Eq) as (t1 & Eq1 & _ & _ & Hs). destruct (Hot2 q t1 Eq1) as (t2 & Eq2 & Hq').
        exists t2. unfold k_tasks in *. cbn [withCpus k_es]. rewrite Et5, lookup_insert_ne by done. split; [done|].
        rewrite (Hs Hqo) in Hq'. destruct Hq' as [?|(? & Hsl & ?)]; [by left|]. right. split; [done|]. split; [|done].
        unfold sleeping in *. by rewrite <- (Hs Hqo).
      * intros x Hx. cbn [withCpus k_timedQueue]. rewrite Etq5. cbn [withCpus k_timedQueue]. rewrite Etq2. by apply Htq1.
    + cbn [withCpus k_cpus]. rewrite list_lookup_insert_eq by (by eapply lookup_lt_Some). done.
    + unfold k_tasks in *. cbn [withCpus k_es]. rewrite Et5. apply lookup_insert_eq.
    + done.
Qed.

(** ** The whole switch *)

(** What holds when a CPU decides to switch: its current task is in no queue, its idle
    task neither waits nor sleeps (and is active while it runs), every task has a stack and an FPU area, and a
    terminated task has its event. *)
Record SwitchOk (c : nat) (k : KS) (cpu : Cpu) (cur : Z) (tc : Task) (i : IdleInfo) : Prop := mkSwitchOk {
  so_cpu : k_cpus k !! c = Some cpu;
  so_cur : c_current cpu = cur;
  so_task : k_tasks k !! cur = Some tc;
  so_state : m_state tc <> Wait /\ m_state tc <> PriorityWait;
  so_idleActive : cur = c_idleTask cpu -> m_state tc = Active;
  so_idleInfo : k_idleInfo k !! c = Some i;
  so_idle : exists t, k_tasks k !! c_idleTask cpu = Some t /\ (m_state t = None_ \/ m_state t = Active);
  so_stacks : forall p t, k_tasks k !! p = Some t -> m_stackTop t <> 0;
  so_fpu : forall p t, k_tasks k !! p = Some t -> is_Some (k_fpuData k !! p);
  so_term : m_state tc = Terminated -> m_idle tc = false -> is_Some (objs (k_es k) !! terminateEvent cur) }.

Lemma Choice_new k cur tc cpu rt a tq' p rt' hole a' :
  SInv k rt [] a -> k_tasks k !! cur = Some tc -> m_state tc <> Wait -> m_state tc <> PriorityWait ->
  (exists t, k_tasks k !! c_idleTask cpu = Some t /\ (m_state t = None_ \/ m_state t = Active)) ->
  Choice k cur tc cpu rt a tq' p rt' hole a' ->
  p = cur \/ exists tp, k_tasks k !! p = Some tp /\ (forall o, p ∉ sp_queue a' o) /\
    (p <> cur -> cur ∉ hole) /\
    (hole = [p] \/ (hole = [] /\ m_state tp <> Wait /\ m_state tp <> PriorityWait)).
Proof.
  intros HS Et H1 H2 (ti & Eti & Hti) Hch. pose proof HS as [HR HW HQ].
  assert (Hnq : forall x t o, k_tasks k !! x = Some t -> sleeping t = false -> x ∉ sp_queue a o).
  { intros x t o Ex Hs Hin. pose proof (tr_sleeps _ _ _ _ (rel_task _ _ _ HR _ _ Ex) o Hin). congruence. }
  destruct Hch as [q rt0 ->| | q t g _ _ _ Hq Eq Hst Hw _| q g _ _ _ _ Hq Hmin| |]; [right| by left |right|right| by left |right].
  - pose proof (qi_rt _ _ _ _ _ _ HQ) as (_ & _ & t & Eq & _).
    assert (Hst : m_state t = PriorityWait) by (apply (qi_rt_state _ _ _ _ _ _ HQ q t Eq); set_solver).
    exists t. split; [done|]. split; [intros o; eapply Hnq; [done|]; unfold sleeping; by rewrite Hst|].
    split; [set_solver | by left].
  - exists t. split; [done|]. split; [intros o; cbn [spTimeout spQueue sp_queue]; rewrite elem_of_rm; tauto|].
    split; [set_solver|]. right. rewrite Hst. done.
  - destruct (qo_live _ _ (qi_wq _ _ _ _ _ _ HQ) _ Hq) as [t Eq].
    assert (Hst : m_state t = Wait) by (apply (qi_wq_state _ _ _ _ _ _ HQ q t Eq); set_solver).
    exists t. split; [done|]. split; [intros o; eapply Hnq; [done|]; unfold sleeping; by rewrite Hst|].
    split; [set_solver | by left].
  - exists ti. split; [done|]. split; [intros o; eapply Hnq; [done|]; unfold sleeping; by destruct Hti as [-> | ->]|].
    split; [set_solver|]. right. by destruct Hti as [-> | ->].
Qed.

(** The current task is chosen only if it is active. *)
Lemma Choice_goesOn k cur tc cpu rt a tq' rt' hole a' :
  SInv k rt [] a -> k_tasks k !! cur = Some tc -> m_state tc <> Wait -> m_state tc <> PriorityWait ->
  (cur = c_idleTask cpu -> m_state tc = Active) ->
  Choice k cur tc cpu rt a tq' cur rt' hole a' -> hole = [] /\ m_state tc = Active.
Proof.
  intros HS Et H1 H2 Hia Hch. pose proof (si_q _ _ _ _ HS) as HQ.
  inversion Hch as [q rt0 Hrt _ Eq| Hrt Hsl| q t g Hrt _ Hne| q g Hrt _ _ _ Hq _ Eqc| |]; subst; auto.
  - assert (Hin : cur ∈ cur :: rt') by left. by apply (qi_rt_state _ _ _ _ _ _ HQ cur tc Et ltac:(set_solver)) in Hin.
  - split; [done|]. unfold inSlice in Hsl. apply andb_true_iff in Hsl as [[_ Hsl]%andb_true_iff _]. by apply bool_decide_eq_true in Hsl.
  - done.
  - by apply (qi_wq_state _ _ _ _ _ _ HQ cur tc Et ltac:(set_solver)) in Hq.
Qed.

(** An own entry does not depend on what the queues do not see. *)
Lemma ownEntry_view tp cur k k1 : viewEq (k_tasks k) (k_tasks k1) -> k_timedQueue k1 = k_timedQueue k ->
  ownEntry tp cur k1 -> ownEntry tp cur k.
Proof.
  intros Hv Eq [Hw (gone & rest & [Hp Hg])]. split; [by rewrite (view_wake _ _ _ Hv)|]. exists gone, rest.
  rewrite Eq in Hp. split; [done|]. intros x Hx. destruct (Hg x Hx) as (t1 & E1 & Hw1 & Hs1). symmetry in Hv.
  destruct (view_lookup _ _ _ _ Hv E1) as (t0 & E0 & [= Ea Eb _]). exists t0. by rewrite <- Ea, <- Eb.
Qed.

(** A sleeper stays in the queue of timed sleepers or is chosen. *)
Lemma Choice_sleeper k cur tc cpu rt a tq' p rt' hole a' q t :
  Choice k cur tc cpu rt a tq' p rt' hole a' ->
  q ∈ queued (k_timedQueue k) -> k_tasks k !! q = Some t -> m_state t = TimedSleep -> q ∈ queued tq' \/ q = p.
Proof.
  intros Hch Hq Et Hs. destruct Hch as [? ? _ ->| _ _ ->| p t0 g _ _ _ Hp| ? g _ _ Hp| g _ _ Hp| g _ _ Hp]; auto;
    pose proof (Passed_sleeper _ _ _ _ _ _ Hp Hq Et Hs) as Hin; [|by left ..].
  apply elem_of_cons in Hin as [?|?]; auto.
Qed.

Lemma taskSwitch_spec c stack k rt a cpu cur tc i :
  SInv k rt [] a -> SwitchOk c k cpu cur tc i ->
  (taskSwitch c stack k = NoFuel /\ selfLock k cur tc cpu rt) \/
  exists k' rt' a', taskSwitch c stack k = Ok k' /\ SInv k' rt' [] a' /\
    exists new t', c_current <$> k_cpus k' !! c = Some new /\ k_tasks k' !! new = Some t' /\
      ((new = cur /\ m_state t' = m_state tc /\ m_state tc = Active) \/
       (new <> cur /\ m_state t' = Active /\ filed cur tc k')) /\
      (forall q t, k_tasks k !! q = Some t -> q <> cur -> q <> new -> exists t', k_tasks k' !! q = Some t' /\
         (m_state t' = m_state t \/ (m_state t' = Wait /\ sleeping t = true /\ m_state tc = Terminated))) /\
      (forall q t, q ∈ queued (k_timedQueue k) -> k_tasks k !! q = Some t -> m_state t = TimedSleep ->
         q ∈ queued (k_timedQueue k') \/ q = new).
Proof.
  intros HS [Ec Hcur Et [Hs1 Hs2] Hia Ei Hidle Hstk Hfpu Hterm]. unfold taskSwitch, beginTaskSwitch, getCpu, getTask.
  rewrite (arr_get_Some _ _ _ Ec). ostep. rewrite Hcur.
  destruct (SInv_updT k rt [] a cur (setReady false) tc HS Et eq_refl) as [E1 HS1]; [done|]. rewrite E1. ostep.
  set (k1 := withEs k _) in *. set (tc1 := setReady false tc) in *.
  assert (Et1 : k_tasks k1 !! cur = Some tc1) by apply lookup_insert_eq.
  assert (Hkeep1 : stays (fun _ => True) k k1) by (by eapply (stays_insert _ k k1 cur tc tc1)).
  rewrite (updCpu_Ok c _ k1 cpu) by done. ostep. set (cpu2 := cNeed false cpu). set (k2 := withCpus k1 _).
  assert (Ec2 : k_cpus k2 !! c = Some cpu2).
  { cbn [k2 withCpus k_cpus]. apply list_lookup_insert_eq. by eapply lookup_lt_Some. }
  assert (HS2 : SInv k2 rt [] a) by (by apply SInv_cpus).
  assert (Hidle2 : exists t, k_tasks k2 !! c_idleTask cpu2 = Some t /\ (m_state t = None_ \/ m_state t = Active)).
  { destruct Hidle as (t & E & Hst). destruct (Hkeep1 _ _ E) as (t' & E' & _ & _ & Hs). exists t'. split; [done|]. by rewrite Hs. }
  destruct (shedule_spec c cur k2 rt a tc1 cpu2 i HS2 Et1 Ec2 Ei Hs1 Hs2 Hia)
    as [[E3 (Hrt & Hsl & Hown)]|(p & k3 & rt' & hole & a' & E3 & Hch & HS3 & [Hv Hnow (f & Ecf & Hcf) Hil Hfp Hob] & _)].
  { left. rewrite E3. split; [done|]. split; [done|]. split; [exact Hsl|].
    eapply (ownEntry_view _ _ k k2); [by eapply view_insert | done | exact Hown]. }
  right. rewrite E3. ostep.
  assert (Hst2 : forall q t, k_tasks k !! q = Some t -> exists t', k_tasks k3 !! q = Some t' /\ m_state t' = m_state t).
  { intros q t Eq. destruct (Hkeep1 q t Eq) as (t2 & Eq2 & _ & _ & Hs). destruct (body_lookup _ _ _ _ Hv Eq2) as (t3 & Eq3 & Hb%body_fields).
    destruct Hb as ([= Hb _ _] & _). exists t3. split; [done|]. rewrite <- Hb. by apply Hs. }
  assert (Hslp : forall q t, q ∈ queued (k_timedQueue k) -> k_tasks k !! q = Some t -> m_state t = TimedSleep ->
    q ∈ queued (k_timedQueue k3) \/ q = p).
  { intros q t Hq Eq Hs. destruct (Hkeep1 q t Eq) as (t2 & Eq2 & _ & _ & Hs').
    eapply (Choice_sleeper k2 cur tc1 cpu2); [exact Hch | exact Hq | exact Eq2 | rewrite Hs'; done]. }
  assert (Ec3 : k_cpus k3 !! c = Some (f cpu2)) by (by rewrite Ecf, list_lookup_alter_eq, Ec2).
  destruct (body_lookup _ _ _ _ Hv Et1) as (tc3 & Et3 & Hb3%body_fields). destruct Hb3 as ([= Hst3 _ _] & _ & _ & Hid3 & _).
  assert (Hst : m_state tc3 = m_state tc) by (by rewrite <- Hst3). assert (Hidl : m_idle tc3 = m_idle tc) by (by rewrite <- Hid3).
  assert (Hcc3 : c_current (f cpu2) = cur) by (by rewrite (proj1 (Hcf cpu2))).
  destruct (Z.eqb_spec cur p) as [<-|Hne].
  { ostep. rewrite Z.eqb_refl. exists k3, rt', a'.
    destruct (Choice_goesOn k2 cur tc1 cpu2 rt a _ rt' hole a' HS2 Et1 Hs1 Hs2 Hia Hch) as [Hh Hgo].
    rewrite Hh in HS3. split; [done|]. split; [done|]. exists cur, tc3. rewrite Ec3. cbn. rewrite Hcc3. split; [done|].
    split; [done|]. split; [left; split; [done|]; split; [done | exact Hgo]|]. split; [|exact Hslp].
    intros q t Eq _ _. destruct (Hst2 q t Eq) as (t' & ? & ?). exists t'. tauto. }
  destruct (Choice_new k2 cur tc1 cpu2 rt a _ p rt' hole a' HS2 Et1 Hs1 Hs2 Hidle2 Hch) as [->|(tp & Etp & Hpq & Hch1 & Hch2)]; [done|].
  destruct (body_lookup _ _ _ _ Hv Etp) as (tp3 & Etp3 & Hbp%body_fields). destruct Hbp as ([= Hstp _ _] & Hstkp & Hup & _).
  rewrite (updCpu_Ok c _ k3 _ Ec3). ostep. set (cpu4 := cNext p (f cpu2)). set (k4 := withCpus k3 _).
  assert (HS4 : SInv k4 rt' hole a') by (by apply SInv_cpus).
  destruct (SInv_updT k4 rt' hole a' cur (setStackTop (u64 (stack - volatileOffset))) tc3 HS4 Et3 eq_refl) as [E5 HS5]; [done|].
  rewrite E5. ostep. set (k5 := withEs k4 _) in *. set (tc5 := setStackTop _ tc3) in *.
  assert (Et5 : k_tasks k5 !! cur = Some tc5) by apply lookup_insert_eq.
  assert (Etp5 : k_tasks k5 !! p = Some tp3) by (unfold k5, k_tasks; cbn [withEs k_es setTasks tasks]; by rewrite lookup_insert_ne).
  rewrite (deref_Some _ _ _ Et5). ostep.
  assert (Ec5 : k_cpus k5 !! c = Some cpu4).
  { cbn [k5 k4 withEs withCpus k_cpus]. apply list_lookup_insert_eq. by eapply lookup_lt_Some. }
  rewrite (arr_get_Some _ _ _ Ec5). ostep. set (k6 := if m_useFpu tc5 then _ else _).
  assert (HS6 : SInv k6 rt' hole a') by (unfold k6; destruct (m_useFpu tc5); by destruct HS5).
  assert (Etk6 : k_tasks k6 = k_tasks k5) by (unfold k6; by destruct (m_useFpu tc5)).
  assert (Ecp6 : k_cpus k6 = k_cpus k5) by (unfold k6; by destruct (m_useFpu tc5)).
  rewrite (deref_Some (k_tasks k6) p tp3) by (by rewrite Etk6). ostep.
  assert (Hsome : forall x t, k_tasks k2 !! x = Some t -> is_Some (k_fpuData k !! x)).
  { intros x t E. apply elem_of_dom. assert (Hx : x ∈ dom (k_tasks k)).
    { change (k_tasks k2) with (<[cur := tc1]> (k_tasks k)) in E. destruct (decide (x = cur)) as [->|].
      - apply elem_of_dom. eauto.
      - rewrite lookup_insert_ne in E by done. apply elem_of_dom. eauto. }
    apply elem_of_dom in Hx as [t0 E0]. apply elem_of_dom. by eapply Hfpu. }
  assert (Hstk2 : m_stackTop tp3 <> 0).
  { rewrite <- Hstkp. change (k_tasks k2) with (<[cur := tc1]> (k_tasks k)) in Etp.
    rewrite lookup_insert_ne in Etp by done. by eapply Hstk. }
  destruct (Z.eqb_spec (m_stackTop tp3) 0) as [|_]; [done|].
  destruct (lookup_lt_is_Some_2 (k_idleInfo k6) c) as [i6 Ei6].
  { replace (k_idleInfo k6) with (k_idleInfo k3) by (unfold k6; by destruct (m_useFpu tc5)).
    rewrite Hil. by eapply lookup_lt_Some. }
  destruct (endTaskSwitch_spec c k6 rt' hole a' cpu4 cur p tc5 tp3 i6) as (k' & a2 & t' & E7 & HS7 & Hfl & [Hot7 Htq7] & Hc7 & Et7 & Hst7).
  - done.
  - by rewrite Ecp6.
  - exact Hcc3.
  - done.
  - done.
  - by rewrite Etk6.
  - by rewrite Etk6.
  - done.
  - by apply Hch1.
  - change (m_state tc3 <> Wait). by rewrite Hst.
  - change (m_state tc3 <> PriorityWait). by rewrite Hst.
  - rewrite <- Hstp. exact Hch2.
  - exact Hpq.
  - change (m_state tc3 = Terminated -> m_idle tc3 = false -> is_Some (objs (k_es k6) !! terminateEvent cur)).
    rewrite Hst, Hidl. intros Ht Hi. replace (objs (k_es k6)) with (objs (k_es k3)) by (unfold k6; by destruct (m_useFpu tc5)).
    apply Hob. exact (Hterm Ht Hi).
  - intros _. apply elem_of_dom. assert (Hd : p ∈ dom (k_fpuData k)) by (apply elem_of_dom; by eapply Hsome).
    change (k_fpuData k2) with (k_fpuData k) in Hfp. unfold k6. destruct (m_useFpu tc5).
    + change (p ∈ dom (<[cur := c_fpuRegs cpu4]> (k_fpuData k3))). rewrite Hfp, dom_insert. set_solver.
    + change (p ∈ dom (k_fpuData k3)). by rewrite Hfp.
  - exists k', rt', a2. split; [done|]. split; [done|]. exists p, t'. split; [done|]. split; [done|].
    change (m_state tc5) with (m_state tc3) in *. split; [right|split].
    + split; [done|]. split; [done|]. destruct Hfl as (to' & Eto' & F1 & F2 & F3). exists to'. split; [done|].
      change (m_idle tc5) with (m_idle tc3) in *. rewrite <- Hst, <- Hidl. done.
    + intros q t Eq Hqc Hqp. destruct (Hst2 q t Eq) as (t3 & Eq3 & Hsq).
      assert (Eq6 : k_tasks k6 !! q = Some t3).
      { rewrite Etk6. unfold k5, k_tasks. cbn [withEs k_es setTasks tasks]. by rewrite lookup_insert_ne. }
      destruct (Hot7 q t3 Eq6 Hqc Hqp) as (t7 & Eq7 & Hs7). exists t7. split; [done|].
      unfold sleeping in *. by rewrite <- Hst, <- Hsq.
    + intros q t Hq Eq Hs. destruct (Hslp q t Hq Eq Hs) as [Hin|]; [left|by right]. apply Htq7.
      replace (k_timedQueue k6) with (k_timedQueue k3) by (unfold k6; by destruct (m_useFpu tc5)). done.
Qed.

(** C36: a task switch loses no task.  From a well-formed state ([SInv], and [SwitchOk]
    of the CPU that switches) the two halves of a switch return, unless the choice spins
    on an own entry of the current task ([selfLock]).  Afterwards the wait
    queue and the realtime list are right again with nothing left in between: a task is
    in the one exactly when its state is [Wait] and in the other exactly when it is
    [PriorityWait].  Either the current task is active and goes on, or another task is
    current and active on this CPU and the old task is where its state says: in the wait
    queue if it was running, in the queue of timed sleepers if it sleeps with a timeout
    (unless that queue is full, when the source drops it), and otherwise only its state
    remembers it.  Every other task keeps its state, but for sleepers that the end of the
    old task wakes; and every timed sleeper that was in its queue is still in it or is
    the new current task. *)
Theorem switch_loses_no_task (c : nat) (stack : Z) (k : KS) (rt : list Z) (a : Spec) (cpu : Cpu) (cur : Z) (tc : Task) (i : IdleInfo) :
  SInv k rt [] a -> SwitchOk c k cpu cur tc i ->
  (taskSwitch c stack k = NoFuel /\ selfLock k cur tc cpu rt) \/
  exists k' rt' a', taskSwitch c stack k = Ok k' /\ SInv k' rt' [] a' /\
    exists new t', c_current <$> k_cpus k' !! c = Some new /\ k_tasks k' !! new = Some t' /\
      ((new = cur /\ m_state t' = m_state tc /\ m_state tc = Active) \/
       (new <> cur /\ m_state t' = Active /\ filed cur tc k')) /\
      (forall q t, k_tasks k !! q = Some t -> q <> cur -> q <> new -> exists t', k_tasks k' !! q = Some t' /\
         (m_state t' = m_state t \/ (m_state t' = Wait /\ sleeping t = true /\ m_state tc = Terminated))) /\
      (forall q t, q ∈ queued (k_timedQueue k) -> k_tasks k !! q = Some t -> m_state t = TimedSleep ->
         q ∈ queued (k_timedQueue k') \/ q = new).
Proof. apply taskSwitch_spec. Qed.

End Hook.

End SchedSwitch.

(** ** A small system *)
Module Demo.

Definition mkT (st : TaskState) (idle : bool) (wakeTime : Z) : Task :=
  mkTask 4096 ∅ InvalidIndex nullptr (replicate TaskWaitEventsMax (mkEventsInfo 0 0 0)) 0 0 0 st wakeTime
    true false idle 5 false 0.

(** Task 16 runs, task 32 is runnable, task 48 is the idle task of the only CPU. *)
Definition es0 : @ES unit :=
  mkES {[16 := mkT Active false 0; 32 := mkT Wait false 3; 48 := mkT None_ true 0]} {[256 := newEventObject false true]} [] tt 100.
Definition cpu0 : Cpu := mkCpu 16 48 0 0 true 0 true 0 0.
Definition k0 : @KS unit :=
  mkKS es0 nullptr (TaskPriorityQueue.mk [32; 0; 0; 0] 4 1) (TaskPriorityQueue.create [0; 0; 0; 0] 4)
    [mkIdleInfo 48 false 0] [cpu0] 0 10 {[16 := 0; 32 := 0; 48 := 0]} [].

Lemma k0_tasks p t : k_tasks k0 !! p = Some t ->
  (p = 16 /\ t = mkT Active false 0) \/ (p = 32 /\ t = mkT Wait false 3) \/ (p = 48 /\ t = mkT None_ true 0).
Proof.
  unfold k_tasks, k0, es0. cbn [k_es tasks]. rewrite !lookup_insert_Some, lookup_singleton_Some. naive_solver.
Qed.

Lemma k0_SInv : SInv k0 [] [] (initSpec es0).
Proof.
  split; [|done|].
  - apply init_Rel. split.
    + done.
    + intros p t Et. change (k_tasks k0 !! p = Some t) in Et.
      by destruct (k0_tasks p t Et) as [[_ ->]|[[_ ->]|[_ ->]]].
    + intros o ob. cbn [k0 k_es es0 objs]. rewrite lookup_singleton_Some. by intros [_ <-].
  - split.
    + done.
    + apply NoDup_nil_2.
    + intros p t Et _. split; [set_solver|]. by destruct (k0_tasks p t Et) as [[_ ->]|[[_ ->]|[_ ->]]].
    + split; [done | cbn; lia |]. intros p ->%list_elem_of_singleton. by eexists.
    + intros i p q Hi. cbn in Hi. lia.
    + apply NoDup_singleton.
    + intros p t Et _. cbn [k0 k_waitQueue queued m_curSize m_pointersArray take]. rewrite list_elem_of_singleton.
      by destruct (k0_tasks p t Et) as [[-> ->]|[[-> ->]|[-> ->]]].
    + intros p Hp. set_solver.
    + vm_compute. lia.
    + split; [done | cbn; lia |]. intros p Hp. by apply elem_of_nil in Hp.
Qed.

Lemma shedule_correct_witness : exists k' : @KS unit, shedule 0 16 k0 = Ok (32, k').
Proof.
  destruct (shedule_correct 0 16 k0 [] (initSpec es0) (mkT Active false 0) cpu0 (mkIdleInfo 48 false 0))
    as [[_ (_ & _ & _ & g & rest & [Hperm _])]|(p & k' & rt' & hole & a' & E & Hc & _)].
  - exact k0_SInv.
  - reflexivity.
  - reflexivity.
  - reflexivity.
  - discriminate.
  - discriminate.
  - discriminate.
  - exfalso. symmetry in Hperm. apply Permutation_nil_r in Hperm. by destruct g.
  - exists k'. destruct Hc as [q rt0 Hrt _| _ Hsl _| q t g _ _ _ [Hperm _] _ _ _ _| q g _ _ _ _ Hq _| g _ _ _ _ Hq _| g _ _ _ _ Hq _].
    + discriminate.
    + vm_compute in Hsl. discriminate.
    + exfalso. symmetry in Hperm. apply Permutation_nil_r in Hperm. by destruct g.
    + apply list_elem_of_singleton in Hq as ->. exact E.
    + discriminate.
    + discriminate.
Defined.

Lemma switch_loses_no_task_witness :
  exists (k' : @KS unit) new, taskSwitch baseHook (fun _ => 256) 56 0 8192 k0 = Ok k' /\ c_current <$> k_cpus k' !! 0%nat = Some new.
Proof.
  destruct (switch_loses_no_task baseHook (fun _ => 256) 56 0 8192 k0 [] (initSpec es0) cpu0 16 (mkT Active false 0) (mkIdleInfo 48 false 0))
    as [[_ (_ & _ & _ & g & rest & [Hperm _])]|(k' & rt' & a' & E & _ & new & t' & Hc & _ & _ & _ & _)].
  - exact k0_SInv.
  - split; try reflexivity.
    + split; discriminate.
    + exists (mkT None_ true 0). split; [reflexivity | left; reflexivity].
    + intros p t Et. by destruct (k0_tasks p t Et) as [[_ ->]|[[_ ->]|[_ ->]]].
    + intros p t Et. destruct (k0_tasks p t Et) as [[-> _]|[[-> _]|[-> _]]]; by eexists.
    + discriminate.
  - exfalso. symmetry in Hperm. apply Permutation_nil_r in Hperm. by destruct g.
  - exists k', new. split; [exact E | exact Hc].
Defined.

(** The switch in full: task 32 becomes current, task 16 is queued behind it. *)
Definition switched : option (Z * TaskState * list Z) :=
  match taskSwitch baseHook (fun _ => 256) 56 0 8192 k0 with
  | Ok k => c ← k_cpus k !! 0%nat; t ← k_tasks k !! 16; Some (c_current c, m_state t, queued (k_waitQueue k))
  | _ => None
  end.
Example switch_run : switched = Some (32, Wait, [16]).
Proof. vm_compute. reflexivity. Qed.

(** A task that an event wakes before its timeout stays in the queue of timed
    sleepers, and [addWaitTask] and its next sleep change its wake time there: the heap
    is then out of order.  Tasks 16 and 32 sleep until 10 and 20; an event wakes task
    16, which runs and sleeps again, until 1000; at time 100 the loop over the expired
    sleepers stops at task 16, and task 32 sleeps on. *)
Definition timed0 : @KS unit :=
  mkKS (mkES {[16 := mkT TimedSleep false 10; 32 := mkT TimedSleep false 20; 48 := mkT Active true 0]} ∅ [] tt 5)
    nullptr (TaskPriorityQueue.create [0; 0; 0; 0] 4) (TaskPriorityQueue.create [0; 0; 0; 0] 4)
    [mkIdleInfo 48 false 0] [mkCpu 48 48 0 0 true 0 true 0 0] 0 10 ∅ [].
Definition staleRun : outcome (Z + unit) :=
  k ← pushTimed 16 timed0;
  k ← pushTimed 32 k;
  k ← addWaitTask 16 k;
  '(_, k) ← waitLoop 1 48 k;
  k ← updT 16 (setTaskState TimedSleep 1000) k;
  k ← pushTimed 16 k;
  '(r, _) ← timedLoop 3 48 100 k;
  Ok r.
Example timed_sleeper_is_missed : staleRun = Ok (inr tt).
Proof. vm_compute. reflexivity. Qed.

(** The same entry stops the CPU.  Task 16 sleeps until 10 on CPU 0, whose idle task is 48;
    an event wakes it at time 5, it is switched to and runs.  At time 100 its slice is over:
    the choice of the next task takes its entry of the sleep off the queue of timed
    sleepers and locks the task, which [beginTaskSwitch] has locked. *)
Definition atTime (x : Z) (k : @KS unit) : @KS unit :=
  withEs k (mkES (tasks (k_es k)) (objs (k_es k)) (woken (k_es k)) (ext (k_es k)) x).
Definition ownRun : outcome (Z * list Z * outcome (Z * @KS unit)) :=
  k ← pushTimed 16 (mkKS (k_es timed0) nullptr (k_waitQueue timed0) (k_timedQueue timed0)
         (k_idleInfo timed0) (k_cpus timed0) 0 10 {[16 := 0; 48 := 0]} []);
  k ← addWaitTask 16 k;
  k ← taskSwitch baseHook (fun _ => 256) 56 0 8192 k;
  cpu ← getCpu 0 k;
  Ok (c_current cpu, queued (k_timedQueue k), shedule 0 16 (atTime 100 k)).
Example own_entry_deadlocks : ownRun = Ok (16, [16], NoFuel).
Proof. vm_compute. reflexivity. Qed.

End Demo.
