(* ===== verification/Semaphore.v ===== *)
(** * Semaphores (kernel/Semaphore.cpp, kernel/Semaphore.h)

    A semaphore is an auto-reset event whose hooks move units: a task that waits first
    takes what there is and sleeps for the rest, which it records in its thread-local
    word; a signal hands units to the first waiters.  The pair of value and wait count
    is one atomic word, so each compare-and-exchange loop is one step here.  [wait] has
    three steps (the attempt without the event's lock, the attempt under it, and the
    sleep); [signal] is the update followed by its loop of [EventObject::set]. *)

From S2P Require Import Prelude Task Event EventCore EventInv EventSpec EventWait.

(** [State], [m_max] and the words LOCAL_THREAD_STORAGE_SEM_VALUE of the tasks. *)
Record Sem : Type := mkSem {
  m_value : Z;
  m_waitCount : Z;
  m_max : Z;
  semValue : Z -> Z }.

Definition semState (v w : Z) (x : Sem) : Sem := mkSem v w (m_max x) (semValue x).
Definition semSet (p v : Z) (x : Sem) : Sem := mkSem (m_value x) (m_waitCount x) (m_max x) (<[p := v]> (semValue x)).

Definition newSem (initialValue max : Z) : Sem := mkSem initialValue 0 max (fun _ => 0).

(** [waitUpdate<incWaitCount>] *)
Definition waitUpdate (incWaitCount : bool) (p count : Z) (x : Sem) : bool * Sem :=
  if m_value x <? count then
    let rest := count - m_value x in
    (false, semSet p rest (semState 0 (if incWaitCount then u32 (m_waitCount x + 1) else m_waitCount x) x))
  else (true, semState (m_value x - count) (m_waitCount x) x).

Definition onWaitBegin (_ p : Z) (x : Sem) : bool * Sem :=
  let count := semValue x p in
  let '(done, x) := waitUpdate true p count x in (negb done, x).

Definition onWakeSingleThread (_ p : Z) (x : Sem) : bool * Sem :=
  let count := semValue x p in
  if 0 <? m_value x then
    if m_value x <? count then
      (false, semSet p (count - m_value x) (semState 0 (m_waitCount x) x))
    else (true, semState (m_value x - count) (u32 (m_waitCount x - 1)) x)
  else (false, x).

Notation SES := (@ES Sem).

(** The part of [wait] before [EventObject::wait]: [None] means that the task has to
    wait.  The attempt with no timeout is a single compare-and-exchange; it also fails
    when another CPU changes the word in between, which is not shown here. *)
Definition waitFast (p count timeout : Z) (s : SES) : option bool * SES :=
  let x := ext s in
  if count =? 0 then (Some true, s)
  else if m_max x <? count then (Some false, s)
  else if timeout =? 0 then
    if m_value x <? count then (Some false, s)
    else (Some true, setExt s (semState (m_value x - count) (m_waitCount x) x))
  else
    let '(done, x) := waitUpdate false p count x in
    (if done then Some true else None, setExt s x).

(** [wait]: [inl] is the result at once, [inr] means that the task sleeps. *)
Definition wait (o p count timeout : Z) (s : SES) : outcome ((bool + unit) * SES) :=
  let '(r, s) := waitFast p count timeout s in
  match r with
  | Some b => Ok (inl b, s)
  | None =>
      '(r, s) ← waitExStatus onWaitBegin o p timeout s;
      Ok (match r with inl status => inl (statusOk status) | inr _ => inr tt end, s)
  end.

(** [while ((state.m_waitCount != 0) && (state.m_value > 0)) EventObject::set();] *)
Fixpoint signalLoop (fuel : nat) (o : Z) (s : SES) : outcome SES :=
  if negb (m_waitCount (ext s) =? 0) && (0 <? m_value (ext s)) then
    match fuel with
    | O => NoFuel
    | S fuel => s ← set onWakeSingleThread o s; signalLoop fuel o s
    end
  else Ok s.

(** Every turn wakes a waiter or uses up the units, so the waiters and one more turn
    are enough when the wait count is right.  The first result is what is stored through
    [oldCount], if the pointer is not null. *)
Definition signal (o count : Z) (s : SES) : outcome (option Z * SES) :=
  if count =? 0 then Ok (None, s)
  else
    let x := ext s in
    let s := setExt s (semState (Z.min (u32 (m_value x + count)) (m_max x)) (m_waitCount x) x) in
    s ← signalLoop (S (Z.to_nat (m_waitCount x))) o s;
    Ok (Some (m_value x), s).

(** ** Invariant

    [q] are the waiters of the semaphore: each needs some more units, none is left
    while units are there, and the wait count is their number. *)
Record SemInv (o : Z) (s : SES) (a : @Spec Sem) (q : list Z) : Prop := mkSemInv {
  sv_rel : Rel None s a;
  sv_queue : sp_queue a o = q;
  sv_obj : is_Some (objs s !! o);
  sv_auto : sp_manual a o = false /\ sp_set a o = false;
  sv_need : forall p, p ∈ q -> sp_need a p <= 1 /\ 0 < semValue (ext s) p;
  sv_count : m_waitCount (ext s) = Z.of_nat (length q) /\ Z.of_nat (length q) < 2 ^ 32;
  sv_value : 0 <= m_value (ext s) <= m_max (ext s) /\ m_max (ext s) < 2 ^ 32 }.

Definition SemOk (o : Z) (s : SES) (a : @Spec Sem) (q : list Z) : Prop :=
  SemInv o s a q /\ (q <> [] -> m_value (ext s) = 0).

(** The units the waiters [l] need. *)
Definition needs (x : Sem) (l : list Z) : Z := foldr (fun p n => semValue x p + n) 0 l.

Lemma needs_nonneg x l : (forall p, p ∈ l -> 0 < semValue x p) -> 0 <= needs x l.
Proof.
  unfold needs. induction l as [|p l IH]; intros H; cbn; [lia|].
  pose proof (H p ltac:(left)). pose proof (IH ltac:(intros; apply H; by right)). lia.
Qed.
Lemma needs_ext x y l : (forall p, p ∈ l -> semValue x p = semValue y p) -> needs x l = needs y l.
Proof.
  induction l as [|p l IH]; intros H; cbn; [done|]. rewrite H by left. f_equal. apply IH. intros. apply H. by right.
Qed.

(** The specification of one [set] of the semaphore's event. *)
Lemma sem_set_spec o s a p q : SemInv o s a (p :: q) -> 0 < m_value (ext s) ->
  exists s', set onWakeSingleThread o s = Ok s' /\ m_max (ext s') = m_max (ext s) /\
    let v := m_value (ext s) in let n := semValue (ext s) p in
    if v <? n then
      exists a', SemInv o s' a' (p :: q) /\ woken s' = woken s /\ m_value (ext s') = 0 /\
        semValue (ext s') = <[p := n - v]> (semValue (ext s))
    else
      exists a', SemInv o s' a' q /\ woken s' = woken s ++ [p] /\ m_value (ext s') = v - n /\
        semValue (ext s') = semValue (ext s).
Proof.
  intros [HR Hq [ob Eob] [Hm Hs] Hn [Hc Hc'] [Hv Hmx]] Hpos.
  destruct (set_spec onWakeSingleThread o s a ob HR Eob) as (s' & E & HR').
  pose proof (listAt_NoDup _ _ _ _ (rel_list _ _ _ HR _ _ Eob)) as [Hnd _]. rewrite Hq in Hnd.
  destruct (Hn p ltac:(left)) as [Hn1 Hn2]. cbn [length] in Hc, Hc'.
  assert (Ho' : is_Some (objs s' !! o)).
  { destruct (set_Woke onWakeSingleThread o s s' E) as [l Hl]. apply (wo_objs _ _ _ Hl). eauto. }
  unfold spDoSet, spServeAuto in HR'. rewrite Hs, Hm, Hq in HR'.
  destruct (Z.ltb_spec 1 (sp_need a p)) as [|_]; [lia|]. rewrite <- (rel_ext _ _ _ HR) in HR'.
  unfold onWakeSingleThread in HR' at 1. destruct (Z.ltb_spec 0 (m_value (ext s))) as [_|]; [|lia].
  exists s'. split; [done|]. cbv zeta.
  destruct (Z.ltb_spec (m_value (ext s)) (semValue (ext s) p)) as [Hlt|Hge].
  - pose proof (rel_ext _ _ _ HR') as Ex. cbn [spExt sp_ext] in Ex. rewrite Ex. split; [done|].
    eexists. split; [|split; [|split; [done | done]]].
    + split; [exact HR' | exact Hq | exact Ho' | exact (conj Hm Hs) | | rewrite Ex; exact (conj Hc Hc') | rewrite Ex; cbn; lia].
      rewrite Ex. intros x Hx. destruct (Hn x Hx). split; [done|]. cbn [semSet semState semValue].
      destruct (decide (x = p)) as [->|]; [rewrite fn_lookup_insert; lia | by rewrite fn_lookup_insert_ne].
    + rewrite (rel_woken _ _ _ HR'), (rel_woken _ _ _ HR). done.
  - unfold spServe in HR'. cbn [spExt sp_need] in HR'. destruct (Z.ltb_spec 1 (sp_need a p)) as [|_]; [lia|].
    pose proof (rel_ext _ _ _ HR') as Ex. cbn [spExt sp_ext] in Ex. rewrite Ex. split; [done|].
    eexists. split; [|split; [|split; [done | done]]].
    + split; [exact HR' | cbn [spExt sp_queue]; rewrite Hq; by apply rm_cons | exact Ho' | exact (conj Hm Hs) | | | rewrite Ex; cbn; lia]; rewrite Ex.
      * intros x Hx. destruct (Hn x ltac:(by right)). done.
      * cbn [semState m_waitCount]. rewrite Hc. split; [rewrite u32_small; lia | lia].
    + rewrite (rel_woken _ _ _ HR'), (rel_woken _ _ _ HR). done.
Qed.

Lemma SemInv_NoDup o s a q : SemInv o s a q -> NoDup q.
Proof.
  intros [HR Hq [ob Eob] _ _ _ _]. pose proof (listAt_NoDup _ _ _ _ (rel_list _ _ _ HR _ _ Eob)) as [Hnd _].
  by rewrite Hq in Hnd.
Qed.

(** The loop of [signal]: waiters are served in order until the units or the waiters
    run out. *)
Lemma signalLoop_spec o q : forall fuel s a, SemInv o s a q -> (length q <= fuel)%nat ->
  exists s' a' w q', signalLoop fuel o s = Ok s' /\ q = w ++ q' /\ SemOk o s' a' q' /\
    woken s' = woken s ++ w /\ m_max (ext s') = m_max (ext s) /\
    needs (ext s) q - needs (ext s') q' = m_value (ext s) - m_value (ext s') /\
    (forall x, head q' <> Some x -> semValue (ext s') x = semValue (ext s) x).
Proof.
  induction q as [|p q IH]; intros fuel s a HI Hf; pose proof HI as [HR Hq Ho Ha Hn [Hc Hc'] [Hv Hmx]].
  { exists s, a, [], []. replace (signalLoop fuel o s) with (Ok s); [|by destruct fuel; cbn [signalLoop]; rewrite Hc].
    rewrite (app_nil_r (woken s)). split; [done|]. split; [done|]. split; [by split|]. do 2 (split; [done|]). split; [lia | done]. }
  destruct (Z.ltb_spec 0 (m_value (ext s))) as [Hpos|Hz].
  2: { exists s, a, [], (p :: q). assert (Hv0 : m_value (ext s) = 0) by lia.
    replace (signalLoop fuel o s) with (Ok s)
      by (destruct fuel; cbn [signalLoop]; rewrite Hv0; cbn; by rewrite andb_false_r).
    rewrite (app_nil_r (woken s)). split; [done|]. split; [done|]. split; [by split|]. do 2 (split; [done|]). split; [lia | done]. }
  destruct fuel as [|fuel]; [cbn in Hf; lia|]. cbn [signalLoop].
  destruct (Z.eqb_spec (m_waitCount (ext s)) 0) as [E0|_]; [rewrite Hc in E0; cbn in E0; lia|].
  destruct (Z.ltb_spec 0 (m_value (ext s))) as [_|]; [|lia]. cbn [negb andb].
  destruct (sem_set_spec o s a p q HI Hpos) as (s1 & E1 & Hmx1 & Hcase). rewrite E1. ostep. cbv zeta in Hcase.
  pose proof (SemInv_NoDup _ _ _ _ HI) as Hnd. apply NoDup_cons in Hnd as [Hpq Hnd].
  destruct (Z.ltb_spec (m_value (ext s)) (semValue (ext s) p)) as [Hlt|Hge].
  - destruct Hcase as (a1 & HI1 & Hw1 & Hv1 & Hs1). exists s1, a1, [], (p :: q).
    replace (signalLoop fuel o s1) with (Ok s1)
      by (destruct fuel; cbn [signalLoop]; rewrite Hv1; cbn; by rewrite andb_false_r).
    rewrite (app_nil_r (woken s)). split; [done|]. split; [done|]. split; [by split|]. do 2 (split; [done|]). split.
    + cbn [needs foldr]. fold (needs (ext s) q) (needs (ext s1) q). rewrite (needs_ext (ext s1) (ext s) q).
      * rewrite Hs1, fn_lookup_insert. lia.
      * intros x Hx. rewrite Hs1, fn_lookup_insert_ne; [done|]. by intros ->.
    + intros x Hx. cbn in Hx. rewrite Hs1, fn_lookup_insert_ne; [done|]. congruence.
  - destruct Hcase as (a1 & HI1 & Hw1 & Hv1 & Hs1).
    destruct (IH fuel s1 a1 HI1 ltac:(cbn in Hf; lia)) as (s' & a' & w & q' & E & Hq' & HI' & Hw' & Hmx' & Hneed & Hsame).
    exists s', a', (p :: w), q'. split; [done|]. split; [by rewrite Hq'|]. split; [done|].
    split; [by rewrite Hw', Hw1, <- app_assoc|]. split; [congruence|]. split.
    + cbn [needs foldr]. fold (needs (ext s) q). rewrite (needs_ext (ext s) (ext s1) q) by (intros; by rewrite Hs1). lia.
    + intros x Hx. rewrite Hsame by done. by rewrite Hs1.
Qed.

(** C37: how a signal hands out its units.  Of a semaphore whose waiters [q] are all
    queued for one set of its event (so none has left by a timeout, and none carries a
    count of needed sets from an earlier wait), [signal] returns; the value it has to hand
    out is the old value plus [count], computed in 32 bits and cut off at the maximum.
    It wakes a first part [w] of the waiters, in order, and the semaphore is consistent
    with the rest [q']: as long as somebody waits no unit is left over.  What is handed
    out is exactly what the waiters' needs go down by and what remains as the value, and
    only the new first waiter can have been served in part.  (Units above the maximum are
    dropped before any waiter is served; see [Demo.capped_signal].  A sum of 2^32 or more
    wraps round.) *)
Theorem signal_hands_out (o count : Z) (s : SES) (a : @Spec Sem) (q : list Z) :
  SemOk o s a q -> 0 < count < 2 ^ 32 ->
  exists s' a' w q', signal o count s = Ok (Some (m_value (ext s)), s') /\ q = w ++ q' /\ SemOk o s' a' q' /\ woken s' = woken s ++ w /\
    needs (ext s) q - needs (ext s') q' + m_value (ext s') =
      Z.min ((m_value (ext s) + count) mod 2 ^ 32) (m_max (ext s)) /\
    (forall x, head q' <> Some x -> semValue (ext s') x = semValue (ext s) x).
Proof.
  intros [HI Hz] Hcnt. pose proof HI as [HR Hq Ho Ha Hn [Hc Hc'] [Hv Hmx]]. unfold signal.
  destruct (Z.eqb_spec count 0) as [|_]; [lia|]. 
  assert (Hu : 0 <= u32 (m_value (ext s) + count) < 2 ^ 32) by (apply Z.mod_pos_bound; lia).
  set (x1 := semState _ _ _).
  destruct (signalLoop_spec o q (S (Z.to_nat (m_waitCount (ext s)))) (setExt s x1) (spExt x1 a))
    as (s' & a' & w & q' & E & Hq' & HI' & Hw' & _ & Hneed & Hsame).
  - split; [by apply Rel_setExt | done | done | done | done | done | cbn; lia].
  - rewrite Hc. lia.
  - exists s', a', w, q'. rewrite E. ostep. split; [done|]. split; [done|]. split; [done|]. split; [done|]. split; [|done].
    cbn [setExt ext] in Hneed. rewrite (needs_ext x1 (ext s) q) in Hneed by done. cbn [x1 semState m_value] in Hneed.
    change ((m_value (ext s) + count) mod 2 ^ 32) with (u32 (m_value (ext s) + count)). lia.
Qed.

(** A running task asks for units: it gets them at once, or it becomes the last waiter
    with the units that were there taken into account. *)
Lemma wait_spec_sem o p count timeout s a q t :
  SemOk o s a q -> tasks s !! p = Some t -> m_waitEventCount t = 0%nat -> m_state t <> Terminated ->
  m_needWaitEvents t <= 1 -> 0 < count <= m_max (ext s) -> timeout <> 0 -> Z.of_nat (length q) + 1 < 2 ^ 32 ->
  exists r s' a' q', wait o p count timeout s = Ok (r, s') /\ SemOk o s' a' q' /\ woken s' = woken s /\
    if count <=? m_value (ext s) then r = inl true /\ q' = q /\ m_value (ext s') = m_value (ext s) - count
    else r = inr tt /\ q' = q ++ [p] /\ m_value (ext s') = 0 /\ semValue (ext s') p = count - m_value (ext s).
Proof.
  intros [HI Hz] Et Ec Hst Hn1 Hcnt Hto Hlen. pose proof HI as [HR Hq [ob Eob] [Hm Hs] Hn [Hc Hc'] [Hv Hmx]].
  unfold wait, waitFast, waitUpdate. destruct (Z.eqb_spec count 0) as [|_]; [lia|].
  destruct (Z.ltb_spec (m_max (ext s)) count) as [|_]; [lia|]. destruct (Z.eqb_spec timeout 0) as [|_]; [done|].
  destruct (Z.leb_spec count (m_value (ext s))) as [Hle|Hgt]; destruct (Z.ltb_spec (m_value (ext s)) count) as [Hlt|Hge]; try lia.
  - set (x1 := semState _ _ _). exists (inl true), (setExt s x1), (spExt x1 a), q. split; [done|]. split; [|done]. split.
    + split; [by apply Rel_setExt | done | cbn [setExt objs]; eauto | done | done | done | cbn; lia].
    + intros Hne. rewrite Hz in Hge by done. lia.
  - set (x1 := semSet p (count - m_value (ext s)) (semState 0 (m_waitCount (ext s)) (ext s))).
    set (s1 := setExt s x1). set (a1 := spExt x1 a). assert (HR1 : Rel None s1 a1) by (by apply Rel_setExt).
    destruct (EventWait.wait_spec onWaitBegin onWakeSingleThread o p timeout s1 a1 ob t HR1 Eob Et Ec Hst) as (s2 & E2 & HR2).
    destruct (rel_obj _ _ _ HR _ _ Eob) as [Es Em].
    assert (Hb : onWaitBegin o p x1 = (true, semSet p (count - m_value (ext s)) (semState 0 (m_waitCount (ext s) + 1) x1))).
    { unfold onWaitBegin, waitUpdate. cbn [x1 semSet semState m_value semValue m_waitCount]. rewrite fn_lookup_insert.
      destruct (Z.ltb_spec 0 (count - m_value (ext s))) as [_|]; [|lia]. rewrite u32_small by lia. by rewrite Z.sub_0_r. }
    set (x2 := semSet _ _ (semState _ _ x1)) in Hb.
    assert (Hsp : spWait onWaitBegin o p timeout a1 = (inr tt, spQueue (<[o := q ++ [p]]> (sp_queue a)) (spExt x2 a1))).
    { unfold spWait. cbn [a1 spExt sp_set sp_ext sp_queue]. rewrite Hs, Hb. cbn [negb].
      destruct (Z.eqb_spec timeout 0) as [|_]; [done|]. by rewrite Hq. }
    rewrite E2, Hsp. ostep. cbn [fst]. rewrite Hsp in HR2. cbn [snd] in HR2.
    pose proof (rel_ext _ _ _ HR2) as Ex. cbn [spQueue spExt sp_ext] in Ex.
    eexists (inr tt), s2, _, (q ++ [p]). split; [reflexivity|]. split; [|split].
    + split; [|intros _; rewrite Ex; reflexivity].
      split; [exact HR2 | cbn [spQueue sp_queue]; by rewrite fn_lookup_insert | | done | | rewrite Ex, length_app; cbn; lia | rewrite Ex; cbn; lia].
      * destruct (rel_queue _ _ _ HR2 o p) as [ob2 ?]; [|eauto]. cbn [spQueue sp_queue]. rewrite fn_lookup_insert. set_solver.
      * rewrite Ex. intros x [Hx| ->%list_elem_of_singleton]%elem_of_app.
        -- destruct (Hn x Hx) as [? ?]. split; [done|]. cbn [x2 x1 semSet semState semValue].
           destruct (decide (x = p)) as [->|]; [rewrite fn_lookup_insert; lia | by rewrite !fn_lookup_insert_ne].
        -- split; [|cbn [x2 semSet semValue]; rewrite fn_lookup_insert; lia]. cbn [spQueue spExt a1 sp_need].
           by rewrite <- (tr_need _ _ _ _ (rel_task _ _ _ HR _ _ Et)).
    + rewrite (rel_woken _ _ _ HR2). cbn [spQueue spExt a1 sp_woken]. by rewrite (rel_woken _ _ _ HR).
    + rewrite Ex. split; [done|]. split; [done|]. split; [done|]. cbn [x2 semSet semValue]. by rewrite fn_lookup_insert.
Qed.

(** ** Small systems *)
Module Demo.

Definition sys (v max : Z) : SES :=
  mkES {[16 := EventWait.Demo.newTask; 32 := EventWait.Demo.newTask]} {[256 := newEventObject false false]} [] (newSem v max) 7.

Lemma sys_SemInit : SemOk 256 (sys 1 10) (initSpec (sys 1 10)) [].
Proof.
  split; [|done]. split; [|done|by eexists|done|intros p Hp; by apply elem_of_nil in Hp|done|cbn; lia].
  apply init_Rel. split; [done| |].
  - intros p t. cbn [sys tasks]. rewrite lookup_insert_Some, lookup_singleton_Some. naive_solver.
  - intros o ob. cbn [sys objs]. rewrite lookup_singleton_Some. by intros [_ <-].
Qed.

(** Task 16 asks for 3 units of 1 and sleeps for 2 more; a signal of 5 wakes it and
    leaves 3. *)
Definition waiting : SES := match wait 256 16 3 WaitInfinite (sys 1 10) with Ok (_, s) => s | _ => sys 1 10 end.

Lemma signal_hands_out_witness :
  exists s', signal 256 5 waiting = Ok (Some 0, s') /\ woken s' = [16] /\ m_value (ext s') = 3.
Proof.
  destruct (wait_spec_sem 256 16 3 WaitInfinite (sys 1 10) (initSpec (sys 1 10)) [] EventWait.Demo.newTask)
    as (r & s1 & a1 & q1 & E1 & HI1 & Hw1 & Hr1);
    [exact sys_SemInit | reflexivity | reflexivity | discriminate | vm_compute; discriminate | cbn; lia | discriminate | cbn; lia |].
  cbn in Hr1. destruct Hr1 as (Hr & Hq & Hv & Hn). subst r q1.
  assert (Hs : waiting = s1) by (unfold waiting; rewrite E1; reflexivity). rewrite Hs.
  destruct (signal_hands_out 256 5 s1 a1 [16]) as (s' & a' & w & q' & E & Hq & [HI' Hz'] & Hw & Hsum & Hsame).
  - exact HI1.
  - lia.
  - exists s'. split; [by rewrite E, Hv|].
    assert (Hmax : m_max (ext s1) = 10).
    { rewrite <- Hs. vm_compute. reflexivity. }
    rewrite Hv, Hmax in Hsum. change (Z.min ((0 + 5) mod 2 ^ 32) 10) with 5 in Hsum. cbn [needs foldr] in Hsum. rewrite Hn in Hsum.
    destruct w as [|y w]; cbn [app] in Hq.
    + exfalso. subst q'. assert (Hz : m_value (ext s') = 0) by (apply Hz'; discriminate). rewrite Hz in Hsum.
      destruct (sv_need _ _ _ _ HI' 16 ltac:(left)) as [_ Hpos]. cbn [needs foldr] in Hsum. cbn in Hsum. lia.
    + injection Hq as Hy Hq. symmetry in Hq. apply app_eq_nil in Hq as [-> ->]. subst y. rewrite Hw, Hw1.
      split; [reflexivity|]. cbn in Hsum. lia.
Defined.

(** Two tasks wait for one unit each; the semaphore holds at most one: of a signal of 2
    one unit is dropped, and the second task sleeps on. *)
Definition cappedRun : outcome (list Z * Z) :=
  '(_, s) ← wait 256 16 1 WaitInfinite (sys 0 1);
  '(_, s) ← wait 256 32 1 WaitInfinite s;
  '(_, s) ← signal 256 2 s;
  Ok (woken s, m_value (ext s)).
Example capped_signal : cappedRun = Ok ([16], 0).
Proof. vm_compute. reflexivity. Qed.

(** A waiter that times out leaves the list of the event, but the wait count keeps
    counting it (and the units it had taken are gone): a later signal finds the count
    not zero and units left, and calls [set] for ever. *)
Definition timedOut : outcome SES :=
  '(_, s) ← wait 256 16 3 10 (sys 1 10);
  excludeTaskFromWaiting 16 WaitTimeout s.
Definition afterSignal (fuel : nat) : outcome SES :=
  s ← timedOut;
  signalLoop fuel 256 (setExt s (semState 5 (m_waitCount (ext s)) (ext s))).

Lemma signalLoop_stuck fuel : forall s, m_waitCount (ext s) = 1 -> 0 < m_value (ext s) ->
  set onWakeSingleThread 256 s = Ok s -> signalLoop fuel 256 s = NoFuel.
Proof.
  induction fuel as [|fuel IH]; intros s Hw Hv Hs; cbn [signalLoop]; rewrite Hw; cbn [Z.eqb negb andb];
    destruct (Z.ltb_spec 0 (m_value (ext s))); try lia; [done|]. rewrite Hs. ostep. by apply IH.
Qed.

Definition stuck : SES :=
  match timedOut with
  | Ok s => match set onWakeSingleThread 256 (setExt s (semState 5 (m_waitCount (ext s)) (ext s))) with Ok s' => s' | _ => s end
  | _ => sys 1 10
  end.

Lemma signal_after_timeout_never_returns fuel : afterSignal fuel = NoFuel.
Proof.
  destruct fuel as [|fuel]; [vm_compute; reflexivity|].
  transitivity (signalLoop fuel 256 stuck).
  - unfold afterSignal, stuck. destruct timedOut as [s| | |] eqn:E; vm_compute in E; try discriminate E.
    injection E as <-. cbn [signalLoop]. ostep. vm_compute (set _ _ _). ostep. reflexivity.
  - apply signalLoop_stuck; [vm_compute; reflexivity|vm_compute; reflexivity|vm_compute; reflexivity].
Qed.

End Demo.
