(* ===== verification/Mutex.v ===== *)
(** * The mutex (kernel/kmutex.cpp, kernel/kmutex_p.h)

    The state of a [MutexPrivate] is one atomic word: free, or the number of a CPU when
    it is locked and nobody waits, or [MAX_CPU - 1] plus the number of waiters.  A thread
    that does not get the mutex while it spins waits for the mutex as an event, whose
    hook counts it; who is woken by [unlock] owns the mutex and takes itself off the
    count with [onWake].

    Threads interleave: every compare-and-exchange that succeeds is a step, and so is
    every call on the event, which runs under the event's lock.  The event is used
    through its specification ([spWait], [spDoSet], [spTimeout]), which its code is
    proved to refine. *)

From S2P Require Import Prelude Task Event EventInv EventSpec EventWait.

Definition MAX_CPU : Z := 255.
Definition g_waitCountStartValue : Z := MAX_CPU.
Definition g_freeSpinValue : Z := 2 ^ 32 - 1.

(** [m_lockCpu], the words LOCAL_THREAD_STORAGE_MUTEX_WAIT of the threads, and the CPU
    that runs the current step. *)
Record Mutex : Type := mkMutex {
  m_lockCpu : Z;
  mutexWait : Z -> Z;
  cpuCurrentId : Z }.

Definition setLock (lock : Z) (x : Mutex) : Mutex := mkMutex lock (mutexWait x) (cpuCurrentId x).
Definition setWait (p v : Z) (x : Mutex) : Mutex := mkMutex (m_lockCpu x) (<[p := v]> (mutexWait x)) (cpuCurrentId x).
Definition onCpu (c : Z) (x : Mutex) : Mutex := mkMutex (m_lockCpu x) (mutexWait x) c.

Definition newMutex : Mutex := mkMutex g_freeSpinValue (fun _ => 0) 0.

Definition destroyMutex (x : Mutex) : outcome unit :=
  if negb (m_lockCpu x =? g_freeSpinValue) then Panic else Ok tt.

Definition onWake (x : Mutex) : Z * Mutex :=
  let lock := m_lockCpu x in
  let newLock := if lock =? g_waitCountStartValue then cpuCurrentId x else u32 (lock - 1) in
  (newLock, setLock newLock x).

(** One turn of the loop of [lock]. *)
Inductive SpinResult : Type := Acquired | Again | Break.
Definition lockSpin (x : Mutex) : SpinResult * Mutex :=
  let expected := m_lockCpu x in
  let cpu := cpuCurrentId x in
  if expected =? g_freeSpinValue then (Acquired, setLock cpu x)
  else if (g_waitCountStartValue <=? expected) || (expected =? cpu) then (Break, x)
  else (Again, x).

(** The rest of [lock], after [EventObject::wait] returned [ok] to thread [p]. *)
Definition lockEnd (ok : bool) (p : Z) (x : Mutex) : bool * Mutex :=
  if negb ok then (true, if mutexWait x p =? 1 then snd (onWake x) else x)
  else let '(newLock, x) := onWake x in (newLock <? g_waitCountStartValue, x).

(** [unlock] up to [EventObject::set]: [None] means that it is called. *)
Definition unlockFast (x : Mutex) : option Mutex :=
  if m_lockCpu x <? g_waitCountStartValue then Some (setLock g_freeSpinValue x) else None.

Definition try_lock (x : Mutex) : bool * Mutex :=
  if m_lockCpu x =? g_freeSpinValue then (true, setLock (cpuCurrentId x) x) else (false, x).

(** The hook of the event; [onAddTaskToWaitList] is the same. *)
Definition onWaitBegin (_ p : Z) (x : Mutex) : bool * Mutex :=
  let lock := m_lockCpu x in
  if lock =? g_freeSpinValue then (false, setWait p 0 (setLock (cpuCurrentId x) x))
  else
    let newLock := if lock <? g_waitCountStartValue then g_waitCountStartValue else u32 (lock + 1) in
    (true, setWait p 1 (setLock newLock x)).

(** ** Threads *)

(** Where a thread is: outside, in the loop of [lock] with some turns left, asleep in
    the event, back from [EventObject::wait], inside with the result of [lock], and in
    [unlock] before [EventObject::set]. *)
Inductive Pc : Type :=
| Out
| Spin (turns : nat)
| Asleep
| Back (ok : bool)
| In (result : bool)
| Leaving.

(** The mutex is event [o] of the specification. *)
Record MS : Type := mkMS { ev : @Spec Mutex; pcs : Z -> Pc }.

Inductive Label : Type :=
| LTry (p c : Z)
| LEnter (p : Z)
| LSpin (p c : Z)
| LWait (p c timeout : Z)
| LTimeout (p : Z)
| LResume (p : Z)
| LEnd (p c : Z)
| LUnlock (p : Z)
| LSet (p : Z).

Section Mutex.
Context (o : Z) (m_spinCount : nat).

Definition word (s : MS) : Z := m_lockCpu (sp_ext (ev s)).
Definition waiters (s : MS) : list Z := sp_queue (ev s) o.
Definition goto (p : Z) (pc : Pc) (x : Mutex) (s : MS) : MS := mkMS (spExt x (ev s)) (<[p := pc]> (pcs s)).

(** One step of thread [p]; [None] where the thread cannot take it. *)
Definition exec (l : Label) (s : MS) : option MS :=
  let x := sp_ext (ev s) in
  match l with
  | LTry p c =>
      match pcs s p with
      | Out => let '(r, x) := try_lock (onCpu c x) in Some (goto p (if r then In true else Out) x s)
      | _ => None
      end
  | LEnter p => match pcs s p with Out => Some (goto p (Spin m_spinCount) x s) | _ => None end
  | LSpin p c =>
      match pcs s p with
      | Spin (S turns) =>
          let '(r, x) := lockSpin (onCpu c x) in
          Some (goto p (match r with Acquired => In true | Again => Spin turns | Break => Spin 0 end) x s)
      | _ => None
      end
  | LWait p c timeout =>
      match pcs s p with
      | Spin 0 =>
          let '(r, a) := spWait onWaitBegin o p timeout (spExt (onCpu c x) (ev s)) in
          Some (mkMS a (<[p := match r with inl status => Back (statusOk status) | inr _ => Asleep end]> (pcs s)))
      | _ => None
      end
  | LTimeout p =>
      match pcs s p with
      | Asleep => if bool_decide (p ∈ waiters s) then Some (mkMS (spTimeout p (ev s)) (<[p := Back false]> (pcs s))) else None
      | _ => None
      end
  | LResume p =>
      match pcs s p with
      | Asleep => if bool_decide (p ∈ waiters s) then None else Some (goto p (Back true) x s)
      | _ => None
      end
  | LEnd p c =>
      match pcs s p with
      | Back ok => let '(r, x) := lockEnd ok p (onCpu c x) in Some (goto p (In r) x s)
      | _ => None
      end
  | LUnlock p =>
      match pcs s p with
      | In _ => Some (match unlockFast x with Some x => goto p Out x s | None => goto p Leaving x s end)
      | _ => None
      end
  | LSet p =>
      match pcs s p with
      | Leaving => Some (mkMS (spDoSet baseHook o (ev s)) (<[p := Out]> (pcs s)))
      | _ => None
      end
  end.

Fixpoint runs (ls : list Label) (s : MS) : option MS :=
  match ls with
  | [] => Some s
  | l :: ls => s ← exec l s; runs ls s
  end.

(** A new mutex: an auto-reset event that is not set, and nobody near it. *)
Definition newMS : MS :=
  mkMS (mkSpec (fun _ => false) (fun _ => false) (fun _ => []) (fun _ => 1) [] newMutex) (fun _ => Out).

(** ** Runs without timeouts

    [orderly exact l s]: the step is taken on a CPU of the machine; a wait has no timeout,
    and its thread does not find the mutex free under the event's lock on CPU 0 (on no
    CPU, if [exact]). *)
Definition onMachine (c : Z) : Prop := 0 <= c < MAX_CPU.
Definition orderly (exact : bool) (l : Label) (s : MS) : Prop :=
  match l with
  | LWait _ c timeout => onMachine c /\ timeout = WaitInfinite /\
      (word s = g_freeSpinValue -> c <> 0 /\ exact = false) /\
      Z.of_nat (length (waiters s)) < 2 ^ 32 - 257
  | LTimeout _ => False
  | LTry _ c | LSpin _ c | LEnd _ c => onMachine c
  | _ => True
  end.

Inductive reach (exact : bool) : MS -> Prop :=
| reach_new : reach exact newMS
| reach_step l s s' : reach exact s -> orderly exact l s -> exec l s = Some s' -> reach exact s'.

(** A thread is inside from the return of [lock] to the end of [unlock]. *)
Definition inside (pc : Pc) : Prop := match pc with In _ | Leaving => True | _ => False end.

(** The owner: inside, or handed the mutex but not yet back from [lock]. *)
Definition holds (s : MS) (p : Z) : Prop :=
  match pcs s p with
  | Back _ | In _ | Leaving => True
  | Asleep => p ∉ waiters s
  | _ => False
  end.

(** 1 while the word still counts the owner as a waiter. *)
Definition pending (s : MS) (p : Z) : Z :=
  match pcs s p with
  | Asleep => 1
  | Back _ => mutexWait (sp_ext (ev s)) p
  | _ => 0
  end.

Definition counted (exact : bool) (s : MS) (p : Z) : Prop :=
  let n := Z.of_nat (length (waiters s)) + pending s p in
  (0 <= word s < MAX_CPU /\ pending s p = 0 /\ (exact = true -> n = 0)) \/
  (MAX_CPU <= word s <= MAX_CPU - 1 + n /\ (exact = true -> word s = MAX_CPU - 1 + n)).

Definition WordOk (exact : bool) (s : MS) (own : option Z) : Prop :=
  match own with
  | None => word s = g_freeSpinValue /\ (exact = true -> waiters s = [])
  | Some p => counted exact s p /\
      match pcs s p with
      | Back ok => ok = true /\ (pending s p = 1 \/ pending s p = 0 /\ word s <> 0 /\ exact = false)
      | Leaving => MAX_CPU <= word s
      | _ => True
      end
  end.

Record Inv (exact : bool) (s : MS) (own : option Z) : Prop := mkInv {
  iv_event : sp_set (ev s) o = false /\ sp_manual (ev s) o = false;
  iv_owner : forall p, holds s p <-> own = Some p;
  iv_waiter : forall p, p ∈ waiters s -> pcs s p = Asleep;
  iv_wait : forall p, pcs s p = Asleep -> mutexWait (sp_ext (ev s)) p = 1;
  iv_need : forall p, sp_need (ev s) p <= 1;
  iv_nodup : NoDup (waiters s);
  iv_word : WordOk exact s own;
  iv_len : Z.of_nat (length (waiters s)) <= 2 ^ 32 - 257 }.


(** ** Preservation *)

Lemma newMS_Inv exact : Inv exact newMS None.
Proof.
  split; try done; [|apply NoDup_nil_2].
  intros p Hp. by apply not_elem_of_nil in Hp.
Qed.

Definition pcHolds (pc : Pc) : bool := match pc with Back _ | In _ | Leaving => true | _ => false end.

(** A step of [p], not asleep, that leaves the event alone. *)
Lemma Inv_goto exact s own p pc x own' :
  Inv exact s own -> pcs s p <> Asleep -> pc <> Asleep ->
  (forall p', p' <> p -> mutexWait x p' = mutexWait (sp_ext (ev s)) p') ->
  (forall p', p' <> p -> own' = Some p' <-> own = Some p') -> (pcHolds pc = true <-> own' = Some p) ->
  WordOk exact (goto p pc x s) own' -> Inv exact (goto p pc x s) own'.
Proof.
  intros [He Ho Hw Hm Hn Hd HW Hl] Hp Hpc Hx Ho' Hpo HW'. unfold goto in *. split; try done.
  - intros p'. unfold holds, waiters. cbn [ev pcs spExt sp_queue]. destruct (decide (p' = p)) as [->|Hne].
    + rewrite fn_lookup_insert, <- Hpo. by destruct pc.
    + rewrite fn_lookup_insert_ne by done. rewrite Ho', <- Ho by done. done.
  - intros p' Hp'. cbn [pcs]. apply Hw in Hp'. rewrite fn_lookup_insert_ne by congruence. done.
  - intros p'. cbn [pcs ev spExt sp_ext]. destruct (decide (p' = p)) as [->|Hne].
    + by rewrite fn_lookup_insert.
    + rewrite fn_lookup_insert_ne, Hx by done. apply Hm.
Qed.

(** Somebody else's share of the invariant is kept when the word is. *)
Lemma WordOk_other exact s own p pc x : own <> Some p -> WordOk exact s own ->
  m_lockCpu x = word s -> mutexWait x = mutexWait (sp_ext (ev s)) -> WordOk exact (goto p pc x s) own.
Proof.
  intros Hne HW Hx Hm. destruct own as [q|]; unfold WordOk, counted, pending, word, waiters, goto in *;
    cbn [ev pcs spExt sp_ext sp_queue]; rewrite Hx; [|done].
  rewrite Hm, fn_lookup_insert_ne by congruence. done.
Qed.

Lemma Inv_other exact s own p pc x : Inv exact s own -> pcs s p <> Asleep -> pc <> Asleep -> own <> Some p ->
  pcHolds pc = false -> m_lockCpu x = word s -> mutexWait x = mutexWait (sp_ext (ev s)) -> Inv exact (goto p pc x s) own.
Proof.
  intros HI Hp Hpc Hne Hh Hx Hm. eapply Inv_goto; [exact HI | done | done | by rewrite Hm | done | rewrite Hh; naive_solver |].
  apply WordOk_other; try done. apply (iv_word _ _ _ HI).
Qed.

Lemma owner_unless exact s own p : Inv exact s own -> pcHolds (pcs s p) = false -> pcs s p <> Asleep -> own <> Some p.
Proof. intros HI Hp Ha E. apply (iv_owner _ _ _ HI) in E. unfold holds in E. by destruct (pcs s p). Qed.
Lemma owner_if exact s own p : Inv exact s own -> pcHolds (pcs s p) = true -> own = Some p.
Proof. intros HI Hp. apply (iv_owner _ _ _ HI). unfold holds. by destruct (pcs s p). Qed.

Lemma word_range exact s p : WordOk exact s (Some p) -> 0 <= word s <= MAX_CPU + Z.of_nat (length (waiters s)).
Proof.
  intros [HW Hp]. assert (Hpend : pending s p <= 1) by (unfold pending in *; destruct (pcs s p); lia).
  unfold counted, MAX_CPU in *. lia.
Qed.

(** The word is free exactly when there is no owner. *)
Lemma free_iff exact s own : Inv exact s own -> word s = g_freeSpinValue <-> own = None.
Proof.
  intros [_ _ _ _ _ _ HW Hl]. split; [|by intros ->; destruct HW]. destruct own as [p|]; [|done].
  apply word_range in HW. unfold g_freeSpinValue, MAX_CPU in *. lia.
Qed.

(** [p] takes the free mutex. *)
Lemma Inv_take exact s p c r : Inv exact s None -> pcs s p <> Asleep -> onMachine c ->
  Inv exact (goto p (In r) (setLock c (onCpu c (sp_ext (ev s)))) s) (Some p).
Proof.
  intros HI Hp Hc. eapply Inv_goto; [exact HI | done.. | | |]; [naive_solver | naive_solver |].
  destruct (iv_word _ _ _ HI) as [Hf He]. split; [|by unfold goto; cbn; rewrite fn_lookup_insert].
  left. unfold counted, pending, word, waiters, goto. cbn [ev pcs spExt sp_ext sp_queue setLock m_lockCpu].
  rewrite fn_lookup_insert. split; [done|]. split; [done|]. intros Ex. unfold waiters in He. by rewrite (He Ex).
Qed.

Lemma try_inv exact s own p c s' : Inv exact s own -> onMachine c -> exec (LTry p c) s = Some s' ->
  exists own', Inv exact s' own'.
Proof.
  intros HI Hc. cbn [exec]. destruct (pcs s p) eqn:Ep; try done. unfold try_lock. cbn [onCpu m_lockCpu].
  change (m_lockCpu (sp_ext (ev s))) with (word s).
  destruct (Z.eqb_spec (word s) g_freeSpinValue) as [Hf|Hf]; intros [= <-].
  - exists (Some p). apply (free_iff _ _ _ HI) in Hf as ->. apply Inv_take; try done; by rewrite Ep.
  - exists own. apply Inv_other; try done; try by rewrite Ep. eapply owner_unless; [done | by rewrite Ep..].
Qed.

Lemma enter_inv exact s own p s' : Inv exact s own -> exec (LEnter p) s = Some s' -> exists own', Inv exact s' own'.
Proof.
  intros HI. cbn [exec]. destruct (pcs s p) eqn:Ep; try done. intros [= <-]. exists own.
  apply Inv_other; try done; try by rewrite Ep. eapply owner_unless; [done | by rewrite Ep..].
Qed.

Lemma spin_inv exact s own p c s' : Inv exact s own -> onMachine c -> exec (LSpin p c) s = Some s' ->
  exists own', Inv exact s' own'.
Proof.
  intros HI Hc. cbn [exec]. destruct (pcs s p) as [|[|n]| | | |] eqn:Ep; try done. unfold lockSpin. cbn [onCpu m_lockCpu].
  change (m_lockCpu (sp_ext (ev s))) with (word s).
  assert (Hne : own <> Some p) by (eapply owner_unless; [done | by rewrite Ep..]).
  destruct (Z.eqb_spec (word s) g_freeSpinValue) as [Hf|Hf].
  - intros [= <-]. exists (Some p). apply (free_iff _ _ _ HI) in Hf as ->. apply Inv_take; try done; by rewrite Ep.
  - destruct (_ || _); intros [= <-]; exists own; apply Inv_other; try done; by rewrite Ep.
Qed.

Lemma unlock_inv exact s own p s' : Inv exact s own -> exec (LUnlock p) s = Some s' -> exists own', Inv exact s' own'.
Proof.
  intros HI. cbn [exec]. destruct (pcs s p) eqn:Ep; try done. unfold unlockFast.
  change (m_lockCpu (sp_ext (ev s))) with (word s).
  assert (own = Some p) as -> by (eapply owner_if; [done | by rewrite Ep]).
  destruct (iv_word _ _ _ HI) as [HW _]. unfold counted, pending in HW. rewrite Ep in HW.
  destruct (Z.ltb_spec (word s) g_waitCountStartValue) as [Hw|Hw]; intros [= <-].
  - exists None. eapply Inv_goto; [exact HI | by rewrite Ep | done..| | |]; [naive_solver | naive_solver |].
    split; [done|]. intros Ex. unfold goto, waiters. cbn [ev spExt sp_queue]. apply length_zero_iff_nil.
    unfold waiters, g_waitCountStartValue in *. lia.
  - exists (Some p). eapply Inv_goto; [exact HI | by rewrite Ep | done..| | |]; [naive_solver | naive_solver |].
    split; [|unfold goto; cbn [pcs]; by rewrite fn_lookup_insert].
    unfold counted, pending, word, waiters, goto in *. cbn [ev pcs spExt sp_ext sp_queue]. rewrite fn_lookup_insert. exact HW.
Qed.

Lemma resume_inv exact s own p s' : Inv exact s own -> exec (LResume p) s = Some s' -> exists own', Inv exact s' own'.
Proof.
  intros HI. cbn [exec]. destruct (pcs s p) eqn:Ep; try done. destruct (bool_decide_reflect (p ∈ waiters s)) as [|Hq]; [done|].
  intros [= <-]. exists own.
  assert (own = Some p) as -> by (apply (iv_owner _ _ _ HI); unfold holds; by rewrite Ep).
  destruct HI as [He Ho Hw Hm Hn Hd HW Hl]. pose proof (Hm p Ep) as Hmp. unfold goto. split; try done.
  - intros p'. unfold holds, waiters. cbn [ev pcs spExt sp_queue]. destruct (decide (p' = p)) as [->|Hne].
    + by rewrite fn_lookup_insert.
    + rewrite fn_lookup_insert_ne by done. apply (Ho p').
  - intros p' Hp'. cbn [pcs]. rewrite fn_lookup_insert_ne; [by apply Hw|]. by intros ->.
  - intros p'. cbn [pcs ev spExt sp_ext]. destruct (decide (p' = p)) as [->|Hne]; [done|].
    rewrite fn_lookup_insert_ne by done. apply Hm.
  - unfold WordOk, counted, pending in *. rewrite Ep in HW. cbn [pcs ev spExt sp_ext]. rewrite fn_lookup_insert, Hmp.
    unfold word, waiters in *. cbn [ev spExt sp_ext sp_queue]. destruct HW as [HW _]. split; [exact HW|]. split; [done | by left].
Qed.

Lemma end_inv exact s own p c s' : Inv exact s own -> onMachine c -> exec (LEnd p c) s = Some s' ->
  exists own', Inv exact s' own'.
Proof.
  intros HI Hc. cbn [exec]. destruct (pcs s p) eqn:Ep; try done.
  assert (own = Some p) as -> by (eapply owner_if; [done | by rewrite Ep]).
  destruct (iv_word _ _ _ HI) as [HW Hp]. rewrite Ep in Hp. destruct Hp as [-> Hp].
  unfold lockEnd, onWake. cbn [negb onCpu m_lockCpu cpuCurrentId]. change (m_lockCpu (sp_ext (ev s))) with (word s).
  intros [= <-]. exists (Some p). eapply Inv_goto; [exact HI | by rewrite Ep | done..| | |]; [naive_solver | naive_solver |].
  split; [|unfold goto; cbn [pcs]; by rewrite fn_lookup_insert].
  pose proof (iv_len _ _ _ HI) as Hl. unfold counted, pending, word, waiters, goto in *.
  cbn [ev pcs spExt sp_ext sp_queue setLock m_lockCpu]. rewrite fn_lookup_insert. rewrite Ep in HW, Hp.
  unfold g_waitCountStartValue, onMachine, MAX_CPU in *.
  destruct (Z.eqb_spec (m_lockCpu (sp_ext (ev s))) 255) as [E|E]; [|rewrite u32_small by lia]; destruct exact; intuition lia.
Qed.

Lemma wait_inv exact s own p c timeout s' : Inv exact s own -> orderly exact (LWait p c timeout) s ->
  exec (LWait p c timeout) s = Some s' -> exists own', Inv exact s' own'.
Proof.
  intros HI (Hc & -> & Hfree & Hlen). cbn [exec]. destruct (pcs s p) as [|[|n]| | | |] eqn:Ep; try done.
  assert (Hne : own <> Some p) by (eapply owner_unless; [done | by rewrite Ep..]).
  pose proof (free_iff _ _ _ HI) as Hfi. unfold spWait, onWaitBegin.
  cbn [spExt sp_set sp_ext onCpu m_lockCpu cpuCurrentId]. rewrite (proj1 (iv_event _ _ _ HI)).
  change (m_lockCpu (sp_ext (ev s))) with (word s).
  destruct (Z.eqb_spec (word s) g_freeSpinValue) as [Hf|Hf]; cbn [negb].
  - destruct (Hfree Hf) as [Hc0 ->]. apply Hfi in Hf as ->. intros [= <-]. exists (Some p).
    set (x := setWait p 0 _). change (Inv false (goto p (Back true) x s) (Some p)).
    eapply Inv_goto; [exact HI | by rewrite Ep | done | | naive_solver | done |].
    + intros p' Hp'. cbn. by rewrite fn_lookup_insert_ne.
    + unfold WordOk, counted, pending, word, goto, x, onMachine in *. cbn [ev pcs spExt sp_ext setWait mutexWait setLock m_lockCpu].
      rewrite !fn_lookup_insert. split; [left; done|]. split; [done|]. right. lia.
  - destruct own as [q|]; [|by destruct Hf; apply Hfi]. cbn [Z.eqb WaitInfinite size_max]. intros [= <-]. exists (Some q).
    set (x := setWait p 1 _). destruct HI as [He Ho Hw Hm Hn Hd HW Hl].
    assert (Hpw : p ∉ waiters s) by (intros Hin; apply Hw in Hin; congruence).
    assert (Hpq : q <> p) by congruence. pose proof (word_range _ _ _ HW) as Hr.
    split; try done; unfold holds, WordOk, counted, pending, word, waiters in *;
      cbn [ev pcs spQueue spExt sp_queue sp_ext] in *; rewrite ?fn_lookup_insert.
    + intros p'. rewrite <- (Ho p'). destruct (decide (p' = p)) as [->|Hp'].
      * rewrite fn_lookup_insert, Ep. set_solver.
      * rewrite fn_lookup_insert_ne by done. destruct (pcs s p'); set_solver.
    + intros p' Hp'. destruct (decide (p' = p)) as [->|Hp'']; [by rewrite fn_lookup_insert|].
      rewrite fn_lookup_insert_ne by done. apply Hw. set_solver.
    + intros p'. cbn [x setWait mutexWait]. destruct (decide (p' = p)) as [->|Hp']; [by rewrite !fn_lookup_insert|].
      rewrite !fn_lookup_insert_ne by done. apply Hm.
    + apply NoDup_app. split; [done|]. split; [set_solver | apply NoDup_singleton].
    + rewrite fn_lookup_insert_ne, length_app by done. cbn [x setWait mutexWait setLock m_lockCpu onCpu length].
      rewrite fn_lookup_insert_ne by done. unfold g_waitCountStartValue, MAX_CPU in *.
      destruct HW as [HW Hq]. destruct (Z.ltb_spec (m_lockCpu (sp_ext (ev s))) 255) as [E|E]; [|rewrite u32_small by lia];
        destruct (pcs s q), exact; clear -HW Hq Hr Hl Hlen E; intuition lia.
    + rewrite length_app. cbn [length]. lia.
Qed.

(** [unlock]'s call of [set] hands the mutex to the first waiter. *)
Lemma set_hands exact s p : Inv exact s (Some p) -> pcs s p = Leaving ->
  exists w q s', waiters s = w :: q /\ exec (LSet p) s = Some s' /\ Inv exact s' (Some w) /\ waiters s' = q /\
    pcs s' p = Out /\ pcs s' w = Asleep.
Proof.
  intros HI Ep. cbn [exec]. rewrite Ep.
  destruct HI as [[He Hma] Ho Hw Hm Hn Hd HW Hl]. unfold WordOk, counted, pending in HW. rewrite Ep in HW.
  unfold spDoSet. rewrite He, Hma. unfold spServeAuto, waiters in *.
  destruct (sp_queue (ev s) o) as [|w q] eqn:Eq; [cbn in HW; unfold MAX_CPU in *; lia|].
  pose proof (Hn w) as Hnw. destruct (Z.ltb_spec 1 (sp_need (ev s) w)) as [|_]; [lia|]. cbn [baseHook].
  set (a := spServe o _ w). assert (Ea : sp_queue a o = q /\ sp_ext a = sp_ext (ev s) /\ sp_need a = sp_need (ev s)).
  { unfold a, spServe. cbn [spExt sp_need]. destruct (Z.ltb_spec 1 (sp_need (ev s) w)) as [|_]; [lia|].
    cbn [spExt sp_queue sp_ext sp_need]. rewrite Eq. split; [by apply rm_cons|done]. }
  assert (Es : sp_set a = sp_set (ev s) /\ sp_manual a = sp_manual (ev s)).
  { unfold a, spServe. by destruct (_ <? _). }
  destruct Ea as (Eqa & Exa & Ena), Es as [Esa Ema]. apply NoDup_cons in Hd as [Hwq Hd].
  assert (Ew : pcs s w = Asleep) by (apply Hw; left). assert (Hwp : w <> p) by congruence.
  eexists w, q, _. split; [done|]. split; [reflexivity|]. cbn [waiters ev pcs]. rewrite fn_lookup_insert, fn_lookup_insert_ne by done.
  split; [|done]. split; unfold holds, WordOk, counted, pending, word, waiters in *; cbn [ev pcs];
    rewrite ?Eqa, ?Exa, ?Ena, ?Esa, ?Ema; try done.
  - intros p'. specialize (Ho p'). destruct (decide (p' = p)) as [->|Hp'].
    + rewrite fn_lookup_insert. naive_solver.
    + rewrite fn_lookup_insert_ne by done. destruct (decide (p' = w)) as [->|Hp'']; [by rewrite Ew|].
      split; [|congruence]. intros Hh. assert (Some p = Some p') by (apply Ho; destruct (pcs s p'); try done; rewrite Eq; by apply not_elem_of_cons).
      congruence.
  - intros p' Hp'. assert (p' ∈ w :: q) as Hin by (by right). apply Hw in Hin. rewrite fn_lookup_insert_ne by congruence. done.
  - intros p'. destruct (decide (p' = p)) as [->|Hp']; [by rewrite fn_lookup_insert|]. rewrite fn_lookup_insert_ne by done. apply Hm.
  - rewrite fn_lookup_insert_ne, Ew by done. cbn [length] in HW. unfold MAX_CPU in *. destruct exact; intuition lia.
  - cbn [length] in Hl. lia.
Qed.

Lemma set_inv exact s own p s' : Inv exact s own -> exec (LSet p) s = Some s' -> exists own', Inv exact s' own'.
Proof.
  intros HI E. pose proof E as E0. cbn [exec] in E0. destruct (pcs s p) eqn:Ep; try done. clear E0.
  assert (own = Some p) as -> by (eapply owner_if; [done | by rewrite Ep]).
  destruct (set_hands _ _ _ HI Ep) as (w & q & s2 & _ & E2 & HI2 & _). exists (Some w). congruence.
Qed.

Lemma exec_inv exact l s own s' : Inv exact s own -> orderly exact l s -> exec l s = Some s' -> exists own', Inv exact s' own'.
Proof.
  destruct l; cbn [orderly]; intros HI Ho E;
    [by eapply try_inv | by eapply enter_inv | by eapply spin_inv | by eapply wait_inv | done | by eapply resume_inv |
     by eapply end_inv | by eapply unlock_inv | by eapply set_inv].
Qed.

Lemma reach_inv exact s : reach exact s -> exists own, Inv exact s own.
Proof.
  induction 1 as [|l s s' _ [own IH] Ho E]; [exists None; apply newMS_Inv|]. by eapply exec_inv.
Qed.

(** C38: mutual exclusion.  When lock is called without a timeout, and no thread that goes
    to sleep on CPU 0 finds the mutex free at that moment, at most one thread is inside, in
    every interleaving of the atomic steps; and the word is not free while one is. *)
Theorem mutex_exclusion (s : MS) (p p' : Z) :
  reach false s -> inside (pcs s p) ->
  word s <> g_freeSpinValue /\ (inside (pcs s p') -> p' = p).
Proof.
  intros [own HI]%reach_inv Hp.
  assert (Hin : forall y, inside (pcs s y) -> own = Some y).
  { intros y Hy. eapply owner_if; [done|]. by destruct (pcs s y). }
  split; [|intros Hp'; pose proof (Hin p Hp); pose proof (Hin p' Hp'); congruence].
  rewrite (free_iff _ _ _ HI), (Hin p Hp). done.
Qed.

(** C39: no wake-up is lost, in runs in which lock is called without a timeout and no
    thread, on any CPU, finds the mutex free under the event's lock as it goes to sleep
    (if one does, a wake-up can be lost: [Demo.late_free_lost_wake]).  Then as long as
    somebody waits the mutex has an owner; the owner's unlock takes the way through the
    event, and hands the mutex to the thread that has waited longest, which is then the
    one that may go on. *)
Theorem mutex_hands_over (s : MS) (p w : Z) (q : list Z) :
  reach true s -> waiters s = w :: q ->
  (exists y, holds s y) /\
  (forall r, pcs s p = In r -> exists s1 s2 s3, exec (LUnlock p) s = Some s1 /\ exec (LSet p) s1 = Some s2 /\
     pcs s2 p = Out /\ waiters s2 = q /\ exec (LResume w) s2 = Some s3 /\ holds s3 w).
Proof.
  intros [own HI]%reach_inv Eq. pose proof HI as [[He Hma] Ho Hw Hm Hn Hd HW Hl]. split.
  - destruct own as [y|]; [exists y; by apply Ho|]. destruct HW as [_ HW]. by rewrite HW in Eq.
  - intros r Ep. assert (own = Some p) as -> by (eapply owner_if; [done | by rewrite Ep]).
    assert (Hword : MAX_CPU <= word s).
    { destruct HW as [[(_ & _ & HW)|[HW _]] _]; [|lia]. specialize (HW eq_refl). unfold pending in HW. rewrite Ep, Eq in HW. cbn in HW. lia. }
    assert (E1 : exec (LUnlock p) s = Some (goto p Leaving (sp_ext (ev s)) s)).
    { cbn [exec]. rewrite Ep. unfold unlockFast. change (m_lockCpu (sp_ext (ev s))) with (word s).
      unfold g_waitCountStartValue. by destruct (Z.ltb_spec (word s) MAX_CPU); [lia|]. }
    destruct (unlock_inv _ _ _ _ _ HI E1) as [own1 HI1]. set (s1 := goto p Leaving _ s) in *.
    assert (Ep1 : pcs s1 p = Leaving) by (unfold s1, goto; cbn [pcs]; by rewrite fn_lookup_insert).
    assert (own1 = Some p) as -> by (eapply owner_if; [done | by rewrite Ep1]).
    destruct (set_hands _ _ _ HI1 Ep1) as (w' & q' & s2 & Eq1 & E2 & HI2 & Eq2 & Hout & Hw2).
    change (waiters s1) with (waiters s) in Eq1. rewrite Eq in Eq1. injection Eq1 as <- <-. rewrite Eq in Hd. apply NoDup_cons in Hd as [Hwq _].
    eexists s1, s2, _. split; [exact E1|]. split; [exact E2|]. split; [done|]. split; [done|]. cbn [exec].
    rewrite Hw2, Eq2, bool_decide_eq_false_2 by done. split; [reflexivity|]. unfold holds, goto. cbn [pcs]. by rewrite fn_lookup_insert.
Qed.

(** Runs as lists of steps. *)
Fixpoint orderlyAll (exact : bool) (ls : list Label) (s : MS) : Prop :=
  match ls with
  | [] => True
  | l :: ls => orderly exact l s /\ match exec l s with Some s' => orderlyAll exact ls s' | None => True end
  end.

Lemma runs_reach exact ls : forall s s', reach exact s -> orderlyAll exact ls s -> runs ls s = Some s' -> reach exact s'.
Proof.
  induction ls as [|l ls IH]; intros s s' HR Ho E; [by injection E as <-|]. destruct Ho as [Hl Ho]. cbn [runs] in E.
  destruct (exec l s) as [s1|] eqn:E1; [|done]. apply (IH s1); [by eapply reach_step | done | done].
Qed.

End Mutex.

(** ** Small runs

    Threads 1, 2, 3; the loop of [lock] has one turn. *)
Module Demo.

Notation go ls := (runs 256 1 ls newMS).
Definition view (s : MS) : list Pc * Z * list Z := ((fun p => pcs s p) <$> [1; 2; 3], word s, waiters 256 s).
Definition state (ls : list Label) : MS := default newMS (go ls).

(** Thread 1 has the mutex on CPU 0 and thread 2 waits. *)
Definition contended : list Label := [LEnter 1; LSpin 1 0; LEnter 2; LSpin 2 1; LWait 2 1 WaitInfinite].

Lemma contended_reach exact : reach 256 1 exact (state contended).
Proof.
  apply (runs_reach 256 1 exact contended newMS); [apply reach_new | | reflexivity].
  vm_compute. repeat split; discriminate.
Qed.

Lemma mutex_exclusion_witness : word (state contended) <> g_freeSpinValue /\ (inside (pcs (state contended) 2) -> 2 = 1).
Proof. apply (mutex_exclusion 256 1 (state contended) 1 2); [apply contended_reach | exact I]. Defined.

Lemma mutex_hands_over_witness :
  (exists y, holds 256 (state contended) y) /\
  (forall r, pcs (state contended) 1 = In r -> exists s1 s2 s3,
     exec 256 1 (LUnlock 1) (state contended) = Some s1 /\ exec 256 1 (LSet 1) s1 = Some s2 /\
     pcs s2 1 = Out /\ waiters 256 s2 = [] /\ exec 256 1 (LResume 2) s2 = Some s3 /\ holds 256 s3 2).
Proof. apply (mutex_hands_over 256 1 (state contended) 1 2 []); [apply contended_reach | reflexivity]. Defined.

(** Thread 2 finds the mutex free under the event's lock, on CPU 0.  [EventObject::wait]
    returns true, and [onWake] takes one off the word, which is 0: the mutex is free while
    thread 2 is inside (and was told that it is not), so thread 3 gets in too. *)
Lemma late_free_two_inside :
  view <$> go [LEnter 1; LSpin 1 1; LEnter 2; LSpin 2 0; LUnlock 1; LWait 2 0 WaitInfinite; LEnd 2 0; LTry 3 1] =
    Some ([Out; In false; In true], 1, []).
Proof. vm_compute. reflexivity. Qed.

(** On another CPU the same path overwrites the count of a thread that came to wait in
    between: when thread 2 unlocks, the mutex is free and thread 3 sleeps on. *)
Lemma late_free_lost_wake :
  view <$> go [LEnter 1; LSpin 1 1; LEnter 2; LSpin 2 2; LUnlock 1; LWait 2 2 WaitInfinite;
               LEnter 3; LSpin 3 1; LWait 3 1 WaitInfinite; LEnd 2 2; LUnlock 2] =
    Some ([Out; Out; Asleep], g_freeSpinValue, [3]).
Proof. vm_compute. reflexivity. Qed.

(** A timed-out [lock] returns true, and the owner of a mutex others wait for got false. *)
Lemma timeout_returns_true :
  view <$> go [LEnter 1; LSpin 1 1; LEnter 2; LSpin 2 2; LWait 2 2 10; LTimeout 2; LEnd 2 2] =
    Some ([In true; In true; Out], 2, []).
Proof. vm_compute. reflexivity. Qed.
Lemma owner_told_false :
  view <$> go (contended ++ [LEnter 3; LSpin 3 2; LWait 3 2 WaitInfinite; LUnlock 1; LSet 1; LResume 2; LEnd 2 1]) =
    Some ([Out; In false; Asleep], MAX_CPU, [3]).
Proof. vm_compute. reflexivity. Qed.

End Demo.
