(* ===== verification/PeLoader.v ===== *)
(** * The module loader (kernel/PeLoader.cpp, kernel/PeLoader.h, include/pe64.h)

    [PeLoader] loads a PE image that the boot loader left in memory: it checks the
    headers, copies the sections to a fresh block of memory, relocates the image to where
    it lies, binds its imports and collects its exports.

    Files and images are bytes of one memory ([CLib.mem]); the fields of the packed
    structures are little-endian words at their offsets.  The memory is total: that a
    read falls outside the file or the image is not noticed, as in the source.  A step of
    the loader is a function of the memory that ends in a value or stops early: with an
    error code (the source sets the code and returns false), or because the bound on the
    turns of a loop is used up ([More]), so that what holds of every bound holds of every
    moment of a run. *)

From S2P Require Import Prelude CLib.

Inductive ErrorCode : Type :=
| ErrNone
| ErrIncorrectFileFormat
| ErrIncorrectArchitecture
| ErrAlloc
| ErrUnknownReloc
| ErrImortModule
| ErrImortFunction
| ErrImportType.

Inductive stop : Type := Err (code : ErrorCode) | More.

(** ** Steps on the memory *)

Definition M (A : Type) : Type := mem -> (stop + A) * mem.
#[export] Instance M_ret : MRet M := fun A x m => (inr x, m).
#[export] Instance M_bind : MBind M := fun A B f c m =>
  match c m with
  | (inr x, m) => f x m
  | (inl e, m) => (inl e, m)
  end.

Definition setLastError {A} (code : ErrorCode) : M A := fun m => (inl (Err code), m).
Definition more {A} : M A := fun m => (inl More, m).
Definition memo : M mem := fun m => (inr m, m).
Definition rd16 (a : Z) : M Z := fun m => (inr (readLE 2 m a), m).
Definition rd32 (a : Z) : M Z := fun m => (inr (readLE 4 m a), m).
Definition rd64 (a : Z) : M Z := fun m => (inr (readLE 8 m a), m).
Definition wr32 (a v : Z) : M () := fun m => (inr tt, writeLE 4 m a v).
Definition wr64 (a v : Z) : M () := fun m => (inr tt, writeLE 8 m a v).
Definition copyTo (dst src size : Z) : M () := fun m => (inr tt, kmemcpy dst src size m).
Definition fill (dst value size : Z) : M () := fun m => (inr tt, kmemset dst value size m).

(** ** Headers *)

Definition PAGE_SIZE : Z := 0x1000.
Definition IntMaxModuleSize : Z := 0x2000000.
Definition IMAGE_DOS_SIGNATURE : Z := 0x5A4D.
Definition IMAGE_NT_SIGNATURE : Z := 0x00004550.
Definition IMAGE_FILE_MACHINE_AMD64 : Z := 0x8664.
Definition IMAGE_DIRECTORY_ENTRY_EXPORT : Z := 0.
Definition IMAGE_DIRECTORY_ENTRY_IMPORT : Z := 1.
Definition IMAGE_DIRECTORY_ENTRY_BASERELOC : Z := 5.
Definition IMAGE_DIRECTORY_ENTRY_BOUND_IMPORT : Z := 11.
Definition IMAGE_DIRECTORY_ENTRY_DELAY_IMPORT : Z := 14.
Definition VMM_READONLY : Z := 0x02.

Definition sizeofDosHeader : Z := 64.
Definition sizeofOptionalHeader : Z := 240.
Definition sizeofNtHeaders : Z := 264.
Definition sizeofSectionHeader : Z := 40.
Definition sizeofBaseRelocation : Z := 8.
Definition sizeofImportDescriptor : Z := 20.

Definition e_magic (dos : Z) : M Z := rd16 dos.
Definition e_lfanew (dos : Z) : M Z := rd32 (dos + 60).

Definition Signature (nt : Z) : M Z := rd32 nt.
Definition Machine (nt : Z) : M Z := rd16 (nt + 4).
Definition NumberOfSections (nt : Z) : M Z := rd16 (nt + 6).
Definition AddressOfEntryPoint (nt : Z) : M Z := rd32 (nt + 24 + 16).
Definition ImageBase (nt : Z) : M Z := rd64 (nt + 24 + 24).
Definition SectionAlignment (nt : Z) : M Z := rd32 (nt + 24 + 32).
Definition SizeOfImage (nt : Z) : M Z := rd32 (nt + 24 + 56).
Definition dirVirtualAddress (nt k : Z) : M Z := rd32 (nt + 24 + 112 + 8 * k).
Definition dirSize (nt k : Z) : M Z := rd32 (nt + 24 + 112 + 8 * k + 4).

(** [IMAGE_SECTION_HEADER] *)
Record Section_ : Type := mkSection {
  s_VirtualSize : Z;
  s_VirtualAddress : Z;
  s_SizeOfRawData : Z;
  s_PointerToRawData : Z }.
Definition readSection (p : Z) : M Section_ :=
  vs ← rd32 (p + 8); va ← rd32 (p + 12); rs ← rd32 (p + 16); rp ← rd32 (p + 20);
  mret (mkSection vs va rs rp).

(** ** The loader *)

Record ExportEntry : Type := mkExportEntry { m_funcName : Z; m_ord : Z; m_funcPtr : Z }.

(** [m_lastErrorCode] is the code a step stops with. *)
Record Loader : Type := mkLoader {
  m_imageBasePtr : Z;
  m_imageBase : Z;
  m_imageSize : Z;
  m_ntHeader : Z;
  m_entryPoint : Z;
  m_sections : Z;
  m_exportEntryes : list ExportEntry }.

Definition newLoader : Loader := mkLoader nullptr 0 0 nullptr nullptr nullptr [].

Definition loadNtHeaderFromMemory (addr : Z) (l : Loader) : M Loader :=
  lfanew ← e_lfanew addr;
  let nt := u64 (addr + lfanew) in
  size ← SizeOfImage nt;
  mret (mkLoader (m_imageBasePtr l) addr size nt (m_entryPoint l) (m_sections l) (m_exportEntryes l)).

(** The virtual size rounded up to the alignment of the sections. *)
Definition alignedSize (vSize segAlign : Z) : Z :=
  let vSizeRest := vSize mod segAlign in
  if 0 <? vSizeRest then vSize + (segAlign - vSizeRest) else vSize.

(** *** Sections *)

Definition loadSection (imageBasePtr imageSize segAlign pbModule size : Z) (sec : Section_) : M () :=
  let vSize := alignedSize (s_VirtualSize sec) segAlign in
  if imageSize <? s_VirtualAddress sec + vSize then setLastError ErrIncorrectFileFormat
  else if negb (s_PointerToRawData sec =? 0) then
    if size <? u32 (s_PointerToRawData sec + s_SizeOfRawData sec) then setLastError ErrIncorrectFileFormat
    else
      let s_base := imageBasePtr + s_VirtualAddress sec in
      let raw := pbModule + s_PointerToRawData sec in
      if s_VirtualSize sec <=? s_SizeOfRawData sec then copyTo s_base raw (s_VirtualSize sec)
      else
        copyTo s_base raw (s_SizeOfRawData sec);;
        fill (s_base + s_SizeOfRawData sec) 0 (s_VirtualSize sec - s_SizeOfRawData sec)
  else if 0 <? s_VirtualSize sec then fill (imageBasePtr + s_VirtualAddress sec) 0 (s_VirtualSize sec)
  else mret tt.

Fixpoint loadSections (n : nat) (imageBasePtr imageSize segAlign pbModule size sections : Z) : M () :=
  match n with
  | O => mret tt
  | S n =>
      sec ← readSection sections;
      loadSection imageBasePtr imageSize segAlign pbModule size sec;;
      loadSections n imageBasePtr imageSize segAlign pbModule size (sections + sizeofSectionHeader)
  end.

(** The result is [m_sections]. *)
Definition loadPeSectionsFromMemory (moduleBytes size : Z) (l : Loader) : M Z :=
  lfanew ← e_lfanew moduleBytes;
  let peHdrEnd := lfanew + sizeofNtHeaders in
  copyTo (m_imageBasePtr l) moduleBytes peHdrEnd;;
  nSections ← NumberOfSections (m_ntHeader l);
  segAlign ← SectionAlignment (m_ntHeader l);
  let sections := moduleBytes + peHdrEnd in
  loadSections (Z.to_nat nSections) (m_imageBasePtr l) (m_imageSize l) segAlign moduleBytes size sections;;
  mret sections.

(** *** Relocations *)

(** One entry of a block: the low 12 bits are an offset in the page, the rest the type. *)
Definition relocItem (curBlkPtr imageEnd deltaAddr r : Z) : M () :=
  let curItemPtr := u64 (curBlkPtr + Z.land r 0x0FFF) in
  if u64 (imageEnd - 8) <=? curItemPtr then setLastError ErrIncorrectFileFormat
  else
    let type := Z.shiftr r 12 in
    if type =? 0 then mret tt
    else if type =? 3 then v ← rd32 curItemPtr; wr32 curItemPtr (u32 (v + u32 deltaAddr))
    else if type =? 10 then v ← rd64 curItemPtr; wr64 curItemPtr (u64 (v + deltaAddr))
    else setLastError ErrUnknownReloc.

(** The entries of a block; the result is [relocBase] behind them. *)
Fixpoint relocItems (relocCnt : nat) (relocBase curBlkPtr imageEnd deltaAddr : Z) : M Z :=
  match relocCnt with
  | O => mret relocBase
  | S relocCnt =>
      r ← rd16 relocBase;
      relocItem curBlkPtr imageEnd deltaAddr r;;
      relocItems relocCnt (u64 (relocBase + 2)) curBlkPtr imageEnd deltaAddr
  end.

(** [while (relocBase < memoryEnd)] *)
Fixpoint relocBlocks (fuel : nat) (relocBase memoryEnd imageBase imageEnd deltaAddr : Z) : M () :=
  if relocBase <? memoryEnd then
    match fuel with
    | O => more
    | S fuel =>
        va ← rd32 relocBase;
        if va =? 0 then mret tt
        else
          sizeOfBlock ← rd32 (relocBase + 4);
          let relocCnt := u64 (sizeOfBlock - sizeofBaseRelocation) / 2 in
          relocBase ← relocItems (Z.to_nat relocCnt) (u64 (relocBase + sizeofBaseRelocation)) (u64 (imageBase + va)) imageEnd deltaAddr;
          relocBlocks fuel relocBase memoryEnd imageBase imageEnd deltaAddr
    end
  else mret tt.

Definition initRelocations (fuel : nat) (l : Loader) : M () :=
  relocOffset ← dirVirtualAddress (m_ntHeader l) IMAGE_DIRECTORY_ENTRY_BASERELOC;
  imageBase0 ← ImageBase (m_ntHeader l);
  let deltaAddr := u64 (m_imageBase l - imageBase0) in
  if (relocOffset =? 0) || (deltaAddr =? 0) then mret tt
  else
    let imageEnd := m_imageBase l + m_imageSize l in
    dsize ← dirSize (m_ntHeader l) IMAGE_DIRECTORY_ENTRY_BASERELOC;
    let relocSize := Z.min dsize (u64 (m_imageSize l - relocOffset)) in
    let relocBase := m_imageBase l + relocOffset in
    relocBlocks fuel relocBase (relocBase + relocSize) (m_imageBase l) imageEnd deltaAddr.

(** *** Imports *)

(** A module of the process, seen through [AbstractModule]: its name and [procByName],
    which takes a C string in memory and returns an address or null. *)
Record AbstractModule : Type := mkModule { mod_name : list Z; mod_procByName : mem -> Z -> Z }.

(** The C string at [p] is [name]. *)
Fixpoint isString (m : mem) (p : Z) (name : list Z) : bool :=
  match name with
  | [] => m p =? 0
  | c :: name => (m p =? c) && isString m (p + 1) name
  end.

(** [Process::moduleByName] *)
Definition moduleByName (modules : list AbstractModule) (name : Z) : M (option AbstractModule) := fun m =>
  (inr (List.find (fun md => isString m name (mod_name md)) modules), m).

(** [for (; *addrTable != 0; addrTable++, lookupTable++)] *)
Fixpoint bindThunks (fuel : nat) (md : AbstractModule) (imageBase maxAddr addrTable lookupTable : Z) : M () :=
  t ← rd64 addrTable;
  if t =? 0 then mret tt
  else
    match fuel with
    | O => more
    | S fuel =>
        if (maxAddr <=? addrTable) || (maxAddr <=? lookupTable) then setLastError ErrIncorrectFileFormat
        else
          lookup ← rd64 lookupTable;
          if negb (Z.land lookup (Z.shiftl 1 63) =? 0) then setLastError ErrImportType
          else
            m ← memo;
            let func := mod_procByName md m (u64 (imageBase + lookup + 2)) in
            if func =? nullptr then setLastError ErrImortFunction
            else wr64 addrTable func;; bindThunks fuel md imageBase maxAddr (addrTable + 8) (lookupTable + 8)
    end.

(** The bound on the thunks: the address table ends before the image. *)
Definition thunkFuel (imageSize : Z) : nat := Z.to_nat (imageSize / 8 + 2).

Fixpoint bindImports (n : nat) (modules : list AbstractModule) (imageBase imageSize desc : Z) : M () :=
  match n with
  | O => mret tt
  | S n =>
      originalFirstThunk ← rd32 desc;
      if originalFirstThunk =? 0 then mret tt
      else
        name ← rd32 (desc + 12);
        md ← moduleByName modules (imageBase + name);
        match md with
        | None => setLastError ErrImortModule
        | Some md =>
            firstThunk ← rd32 (desc + 16);
            if (imageSize <=? firstThunk) || (imageSize <=? originalFirstThunk) then setLastError ErrIncorrectFileFormat
            else
              let addrTable := imageBase + firstThunk in
              let lookupTable := if originalFirstThunk =? 0 then addrTable else imageBase + originalFirstThunk in
              let maxAddr := u64 (imageBase + imageSize - 8) in
              bindThunks (thunkFuel imageSize) md imageBase maxAddr addrTable lookupTable;;
              bindImports n modules imageBase imageSize (desc + sizeofImportDescriptor)
        end
  end.

Definition initImport (modules : list AbstractModule) (l : Loader) : M () :=
  importRva ← dirVirtualAddress (m_ntHeader l) IMAGE_DIRECTORY_ENTRY_IMPORT;
  importSize ← dirSize (m_ntHeader l) IMAGE_DIRECTORY_ENTRY_IMPORT;
  if (IntMaxModuleSize <=? importSize) || (m_imageSize l <? importRva + importSize) then setLastError ErrIncorrectFileFormat
  else
    bindImports (Z.to_nat (importSize / sizeofImportDescriptor)) modules (m_imageBase l) (m_imageSize l) (m_imageBase l + importRva);;
    bound ← dirSize (m_ntHeader l) IMAGE_DIRECTORY_ENTRY_BOUND_IMPORT;
    if negb (bound =? 0) then setLastError ErrImportType
    else
      delay ← dirSize (m_ntHeader l) IMAGE_DIRECTORY_ENTRY_DELAY_IMPORT;
      if negb (delay =? 0) then setLastError ErrImportType else mret tt.

(** *** Exports *)

Definition s32 (x : Z) : Z := (x + 2 ^ 31) mod 2 ^ 32 - 2 ^ 31.

(** [while (numNames-- > 0)] for [namesRva != 0]; without names nothing is collected. *)
Fixpoint collectExports (numNames : nat) (imageBase imageSize ordBase pfunction pord pname : Z)
    (entries : list ExportEntry) : M (list ExportEntry) :=
  match numNames with
  | O => mret entries
  | S numNames =>
      nameRva ← rd32 pname;
      if imageSize <=? nameRva then setLastError ErrIncorrectFileFormat
      else
        ord ← rd16 pord;
        funcRva ← rd32 (pfunction + 4 * ord);
        let entry := mkExportEntry (imageBase + nameRva) (s32 (ordBase + ord)) (imageBase + funcRva) in
        collectExports numNames imageBase imageSize ordBase pfunction (pord + 2) (pname + 4) (entries ++ [entry])
  end.

Definition processExport (l : Loader) : M (list ExportEntry) :=
  exportRva ← dirVirtualAddress (m_ntHeader l) IMAGE_DIRECTORY_ENTRY_EXPORT;
  exportSize ← dirSize (m_ntHeader l) IMAGE_DIRECTORY_ENTRY_EXPORT;
  if exportRva =? 0 then mret (m_exportEntryes l)
  else if m_imageSize l <? exportRva + exportSize then setLastError ErrIncorrectFileFormat
  else
    let exportDir := m_imageBase l + exportRva in
    ordBase ← rd32 (exportDir + 16);
    numNames ← rd32 (exportDir + 24);
    if 65536 <=? numNames then setLastError ErrIncorrectFileFormat
    else
      functionsRva ← rd32 (exportDir + 28);
      namesRva ← rd32 (exportDir + 32);
      ordRva ← rd32 (exportDir + 36);
      if (functionsRva =? 0) || (ordRva =? 0) then mret (m_exportEntryes l)
      else if (u64 (m_imageSize l - numNames * 4) <=? functionsRva) ||
              (u64 (m_imageSize l - numNames * 4) <=? namesRva) ||
              (u64 (m_imageSize l - numNames * 2) <=? ordRva) then setLastError ErrIncorrectFileFormat
      else if namesRva =? 0 then mret (m_exportEntryes l)
      else
        collectExports (Z.to_nat numNames) (m_imageBase l) (m_imageSize l) ordBase
          (m_imageBase l + functionsRva) (m_imageBase l + ordRva) (m_imageBase l + namesRva) (m_exportEntryes l).

(** The calls of [setPagesFlags] that [protectSections] makes, as addresses and sizes. *)
Fixpoint protectLoop (n : nat) (imageBase segAlign sections : Z) : M (list (Z * Z)) :=
  match n with
  | O => mret []
  | S n =>
      sec ← readSection sections;
      rest ← protectLoop n imageBase segAlign (sections + sizeofSectionHeader);
      mret ((imageBase + s_VirtualAddress sec, alignedSize (s_VirtualSize sec) segAlign) :: rest)
  end.
Definition protectSections (l : Loader) : M (list (Z * Z)) :=
  nSections ← NumberOfSections (m_ntHeader l);
  segAlign ← SectionAlignment (m_ntHeader l);
  protectLoop (Z.to_nat nSections) (m_imageBase l) segAlign (m_sections l).

(** ** Loading *)

Definition withExports (e : list ExportEntry) (l : Loader) : Loader :=
  mkLoader (m_imageBasePtr l) (m_imageBase l) (m_imageSize l) (m_ntHeader l) (m_entryPoint l) (m_sections l) e.
Definition withImage (p : Z) (l : Loader) : Loader :=
  mkLoader p (m_imageBase l) (m_imageSize l) (m_ntHeader l) (m_entryPoint l) (m_sections l) (m_exportEntryes l).
Definition withSections (p : Z) (l : Loader) : Loader :=
  mkLoader (m_imageBasePtr l) (m_imageBase l) (m_imageSize l) (m_ntHeader l) (m_entryPoint l) p (m_exportEntryes l).
Definition withEntry (p : Z) (l : Loader) : Loader :=
  mkLoader (m_imageBasePtr l) (m_imageBase l) (m_imageSize l) (m_ntHeader l) p (m_sections l) (m_exportEntryes l).

Definition initImage (fuel : nat) (modules : list AbstractModule) (l : Loader) : M (Loader * list (Z * Z)) :=
  initRelocations fuel l;;
  initImport modules l;;
  e ← processExport l;
  let l := withExports e l in
  calls ← protectSections l;
  mret (l, calls).

Section Load.
(** [VirtualMemoryManager::alloc] for the image: the address, or null. *)
Context (vmmAlloc : Z -> Z).

(** The checks before the image is allocated; the result is the size of the image. *)
Definition checkHeaders (moduleBytes size : Z) (l : Loader) : M Loader :=
  magic ← e_magic moduleBytes;
  lfanew ← e_lfanew moduleBytes;
  if (size <=? sizeofDosHeader) || negb (magic =? IMAGE_DOS_SIGNATURE) || (lfanew =? 0) ||
     (u64 (size - sizeofNtHeaders + sizeofOptionalHeader) <? lfanew) then setLastError ErrIncorrectFileFormat
  else
    l ← loadNtHeaderFromMemory moduleBytes l;
    signature ← Signature (m_ntHeader l);
    segAlign ← SectionAlignment (m_ntHeader l);
    if negb (signature =? IMAGE_NT_SIGNATURE) || (IntMaxModuleSize <? m_imageSize l) || (segAlign <? PAGE_SIZE)
    then setLastError ErrIncorrectFileFormat
    else
      machine ← Machine (m_ntHeader l);
      if negb (machine =? IMAGE_FILE_MACHINE_AMD64) then setLastError ErrIncorrectArchitecture
      else mret l.

(** [loadFromMemory] returns true with the loader, or stops with an error; the calls of
    [setPagesFlags] are part of the result. *)
Definition loadFromMemory (fuel : nat) (modules : list AbstractModule) (moduleBytes size : Z) (l : Loader)
    : M (Loader * list (Z * Z)) :=
  l ← checkHeaders moduleBytes size l;
  let l := withImage (vmmAlloc (m_imageSize l)) l in
  if m_imageBasePtr l =? nullptr then setLastError ErrAlloc
  else
    sections ← loadPeSectionsFromMemory moduleBytes size l;
    l ← loadNtHeaderFromMemory (m_imageBasePtr l) (withSections sections l);
    entry ← AddressOfEntryPoint (m_ntHeader l);
    if negb (entry =? 0) then
      if m_imageSize l <=? entry then setLastError ErrIncorrectFileFormat
      else initImage fuel modules (withEntry (m_imageBase l + entry) l)
    else initImage fuel modules l.

End Load.

(** ** Writes stay in the image

    [within lo hi c]: step [c] changes only bytes from [lo] up to [hi], whatever the
    memory holds, also when it stops early. *)
Definition within {A} (lo hi : Z) (c : M A) : Prop := forall m, byte_mem m -> frame lo hi m (snd (c m)).

Lemma within_run {A} lo hi (c : M A) m : within lo hi c -> byte_mem m -> frame lo hi m (snd (c m)).
Proof. intros Hc Hm. by apply Hc. Qed.

Section Within.
Context (lo hi : Z).

Lemma within_ret {A} (x : A) : within lo hi (mret x).
Proof. intros m Hm. by apply memFrame_refl. Qed.
Lemma within_err {A} code : within lo hi (@setLastError A code).
Proof. intros m Hm. by apply memFrame_refl. Qed.
Lemma within_more {A} : within lo hi (@more A).
Proof. intros m Hm. by apply memFrame_refl. Qed.
Lemma within_bind {A B} (c : M A) (f : A -> M B) :
  within lo hi c -> (forall x, within lo hi (f x)) -> within lo hi (c ≫= f).
Proof.
  intros Hc Hf m Hm. specialize (Hc m Hm). unfold mbind, M_bind. destruct (c m) as [[e|x] m1]; [done|].
  eapply memFrame_trans; [exact Hc|]. apply Hf, Hc.
Qed.
Lemma within_rd16 {B} a (f : Z -> M B) : (forall x, 0 <= x < 2 ^ 16 -> within lo hi (f x)) -> within lo hi (rd16 a ≫= f).
Proof. intros Hf m Hm. apply Hf; [|done]. apply (readLE_range 2 m a Hm). Qed.
Lemma within_rd32 {B} a (f : Z -> M B) : (forall x, 0 <= x < 2 ^ 32 -> within lo hi (f x)) -> within lo hi (rd32 a ≫= f).
Proof. intros Hf m Hm. apply Hf; [|done]. apply (readLE_range 4 m a Hm). Qed.
Lemma within_rd64 {B} a (f : Z -> M B) : (forall x, 0 <= x < 2 ^ 64 -> within lo hi (f x)) -> within lo hi (rd64 a ≫= f).
Proof. intros Hf m Hm. apply Hf; [|done]. apply (readLE_range 8 m a Hm). Qed.
Lemma within_memo {B} (f : mem -> M B) : (forall x, within lo hi (f x)) -> within lo hi (memo ≫= f).
Proof. intros Hf m Hm. by apply Hf. Qed.
Lemma within_module {B} modules a (f : option AbstractModule -> M B) :
  (forall x, within lo hi (f x)) -> within lo hi (moduleByName modules a ≫= f).
Proof. intros Hf m Hm. by apply Hf. Qed.
Lemma within_wr32 a v : lo <= a -> a + 4 <= hi -> within lo hi (wr32 a v).
Proof. intros Ha Hb m Hm. eapply frame_widen; [by apply (writeLE_frame 4) | lia]. Qed.
Lemma within_wr64 a v : lo <= a -> a + 8 <= hi -> within lo hi (wr64 a v).
Proof. intros Ha Hb m Hm. eapply frame_widen; [by apply (writeLE_frame 8) | lia]. Qed.
Lemma within_copy dst src size : lo <= dst -> dst + size <= hi -> 0 <= size -> within lo hi (copyTo dst src size).
Proof. intros Ha Hb Hs m Hm. eapply frame_widen; [by apply kmemcpy_frame | lia]. Qed.
Lemma within_fill dst v size : lo <= dst -> dst + size <= hi -> 0 <= size -> within lo hi (fill dst v size).
Proof. intros Ha Hb Hs m Hm. eapply frame_widen; [by apply kmemset_frame | lia]. Qed.
End Within.

(** The cases that every step shares. *)
Ltac within :=
  repeat match goal with
  | |- within _ _ (mret _) => apply within_ret
  | |- within _ _ (setLastError _) => apply within_err
  | |- within _ _ more => apply within_more
  | |- within _ _ (rd16 _ ≫= _) => apply within_rd16; intros ? ?
  | |- within _ _ (rd32 _ ≫= _) => apply within_rd32; intros ? ?
  | |- within _ _ (rd64 _ ≫= _) => apply within_rd64; intros ? ?
  | |- within _ _ (memo ≫= _) => apply within_memo; intros ?
  | |- within _ _ (moduleByName _ _ ≫= _) => apply within_module; intros [?|]
  | |- within _ _ (let x := _ in _) => cbv zeta
  | |- within _ _ (if ?b then _ else _) => let E := fresh "Hif" in destruct b eqn:E
  end.

Section Image.
(** An image of [size] bytes at [base]. *)
Context (base size : Z) (Hbase : PAGE_SIZE <= base) (Hsize : 0 <= size < 2 ^ 32) (Htop : base + 2 ^ 33 <= 2 ^ 64).
Let hi : Z := base + size.

Lemma relocItem_within va delta r : 0 <= va < 2 ^ 32 -> within base hi (relocItem (u64 (base + va)) hi delta r).
Proof.
  intros Hva. unfold relocItem. assert (Hl : 0 <= Z.land r 0x0FFF < 2 ^ 12).
  { change 0x0FFF with (Z.ones 12). rewrite Z.land_ones by lia. apply Z.mod_pos_bound. lia. }
  unfold PAGE_SIZE, hi in *. rewrite (u64_small (base + va)) by lia. rewrite (u64_small (base + va + _)) by lia.
  rewrite (u64_small (base + size - 8)) by lia. within; [apply within_wr32 | apply within_wr64]; lia.
Qed.

Lemma relocItems_within va delta n : 0 <= va < 2 ^ 32 -> forall relocBase,
  within base hi (relocItems n relocBase (u64 (base + va)) hi delta).
Proof.
  intros Hva. induction n as [|n IH]; intros relocBase; cbn [relocItems]; within.
  apply within_bind; [by apply relocItem_within | intros _; apply IH].
Qed.

Lemma relocBlocks_within delta fuel : forall relocBase memoryEnd,
  within base hi (relocBlocks fuel relocBase memoryEnd base hi delta).
Proof.
  induction fuel as [|fuel IH]; intros relocBase memoryEnd; cbn [relocBlocks]; within.
  apply within_bind; [by apply relocItems_within | intros ?; apply IH].
Qed.

Context (l : Loader) (Hl : m_imageBase l = base) (Hls : m_imageSize l = size).

Lemma initRelocations_within fuel : within base hi (initRelocations fuel l).
Proof. unfold initRelocations, dirVirtualAddress, ImageBase, dirSize. rewrite Hl, Hls. within. apply relocBlocks_within. Qed.

Lemma bindThunks_within md fuel : forall addrTable lookupTable, base <= addrTable ->
  within base hi (bindThunks fuel md base (u64 (hi - 8)) addrTable lookupTable).
Proof.
  unfold PAGE_SIZE, hi in *. rewrite (u64_small (base + size - 8)) by lia.
  induction fuel as [|fuel IH]; intros addrTable lookupTable Ha; cbn [bindThunks]; within.
  apply within_bind; [apply within_wr64; lia | intros _; apply IH; lia].
Qed.

Lemma bindImports_within modules n : forall desc, within base hi (bindImports n modules base size desc).
Proof.
  induction n as [|n IH]; intros desc; cbn [bindImports]; within.
  apply within_bind; [apply bindThunks_within; lia | intros _; apply IH].
Qed.

Lemma initImport_within modules : within base hi (initImport modules l).
Proof.
  unfold initImport, dirVirtualAddress, dirSize. rewrite Hl, Hls. within.
  apply within_bind; [apply bindImports_within | intros _; within].
Qed.

Lemma collectExports_within n : forall ordBase pf po pn e, within base hi (collectExports n base size ordBase pf po pn e).
Proof. induction n as [|n IH]; intros; cbn [collectExports]; within. apply IH. Qed.
Lemma processExport_within : within base hi (processExport l).
Proof. unfold processExport, dirVirtualAddress, dirSize. rewrite Hl, Hls. within. apply collectExports_within. Qed.

Lemma protectLoop_within n : forall al p, within base hi (protectLoop n base al p).
Proof.
  induction n as [|n IH]; intros; cbn [protectLoop]; within. apply within_bind; [unfold readSection; within|].
  intros sec. apply within_bind; [apply IH | intros; within].
Qed.

Lemma initImage_within fuel modules : within base hi (initImage fuel modules l).
Proof.
  unfold initImage. apply within_bind; [apply initRelocations_within | intros _].
  apply within_bind; [apply initImport_within | intros _]. apply within_bind; [apply processExport_within | intros e].
  apply within_bind; [|intros; within]. unfold protectSections, NumberOfSections, SectionAlignment. within.
  cbn [withExports m_imageBase]. rewrite Hl. apply protectLoop_within.
Qed.

End Image.

(** *** Headers and sections *)

(** What the headers of a file at [f] say. *)
Definition lfanewOf (m : mem) (f : Z) : Z := readLE 4 m (f + 60).
Definition ntOf (m : mem) (f : Z) : Z := f + lfanewOf m f.
Definition imageSizeOf (m : mem) (f : Z) : Z := readLE 4 m (ntOf m f + 24 + 56).
Definition nSectionsOf (m : mem) (f : Z) : Z := readLE 2 m (ntOf m f + 6).
Definition hdrEndOf (m : mem) (f : Z) : Z := lfanewOf m f + sizeofNtHeaders.
Definition sectionAt (m : mem) (p : Z) : Section_ :=
  mkSection (readLE 4 m (p + 8)) (readLE 4 m (p + 12)) (readLE 4 m (p + 16)) (readLE 4 m (p + 20)).

Lemma readSection_run p m : readSection p m = (inr (sectionAt m p), m).
Proof. done. Qed.

Lemma readLE_frame n lo hi m m' a : frame lo hi m m' -> (a + Z.of_nat n <= lo \/ hi <= a) -> readLE n m' a = readLE n m a.
Proof. intros [_ H] Ha. apply readLE_ext. intros x Hx. apply H. lia. Qed.

Lemma alignedSize_le v al : 0 < al -> 0 <= v -> v <= alignedSize v al.
Proof. intros Ha Hv. unfold alignedSize. pose proof (Z.mod_pos_bound v al Ha). destruct (Z.ltb_spec 0 (v mod al)); lia. Qed.

Lemma loadSection_within base size al pb fsize sec lo : 0 < al ->
  0 <= s_VirtualSize sec -> 0 <= s_SizeOfRawData sec -> lo <= s_VirtualAddress sec ->
  within (base + lo) (base + size) (loadSection base size al pb fsize sec).
Proof.
  intros Hal Hv Hr Hlo. pose proof (alignedSize_le (s_VirtualSize sec) al Hal Hv). unfold loadSection. within.
  - apply within_copy; lia.
  - apply within_bind; [apply within_copy; lia | intros _; apply within_fill; lia].
  - apply within_fill; lia.
Qed.

(** The section headers lie outside the image, from [sections] on. *)
Lemma loadSections_frame base size al pb fsize hdr m0 n : 0 < al -> 0 <= hdr <= size -> forall sections m,
  frame base (base + size) m0 m ->
  (sections + sizeofSectionHeader * Z.of_nat n <= base \/ base + size <= sections) ->
  (forall i, 0 <= i < Z.of_nat n -> hdr <= s_VirtualAddress (sectionAt m0 (sections + sizeofSectionHeader * i))) ->
  frame (base + hdr) (base + size) m (snd (loadSections n base size al pb fsize sections m)).
Proof.
  unfold sizeofSectionHeader. intros Hal Hh. induction n as [|n IH]; intros sections m Hf Hd Hva; cbn [loadSections].
  { apply memFrame_refl, Hf. }
  unfold mbind, M_bind. rewrite readSection_run.
  assert (Es : sectionAt m sections = sectionAt m0 sections).
  { unfold sectionAt. f_equal; eapply readLE_frame; try exact Hf; lia. }
  pose proof (Hva 0 ltac:(lia)) as Hva0. rewrite Z.mul_0_r, Z.add_0_r, <- Es in Hva0.
  assert (Hb : byte_mem m) by apply Hf.
  pose proof (loadSection_within base size al pb fsize (sectionAt m sections) hdr Hal) as Hw.
  specialize (Hw (proj1 (readLE_range 4 m _ Hb)) (proj1 (readLE_range 4 m _ Hb)) Hva0 m Hb).
  destruct (loadSection _ _ _ _ _ _ m) as [[e|[]] m1]; [exact Hw|]. cbn [snd] in Hw. eapply memFrame_trans; [exact Hw|]. apply IH.
  - eapply memFrame_trans; [exact Hf|]. eapply frame_widen; [exact Hw | lia].
  - unfold sizeofSectionHeader. lia.
  - intros i Hi. specialize (Hva (i + 1) ltac:(lia)). unfold sizeofSectionHeader.
    replace (sections + 40 + 40 * i) with (sections + 40 * (i + 1)) by lia. exact Hva.
Qed.

Lemma loadNtHeader_run addr l m : byte_mem m -> 0 <= addr -> addr + 2 ^ 33 <= 2 ^ 64 ->
  loadNtHeaderFromMemory addr l m =
    (inr (mkLoader (m_imageBasePtr l) addr (imageSizeOf m addr) (ntOf m addr) (m_entryPoint l) (m_sections l) (m_exportEntryes l)), m).
Proof.
  intros Hm H0 Ha. pose proof (readLE_range 4 m (addr + 60) Hm) as Hlf. change (256 ^ Z.of_nat 4) with (2 ^ 32) in Hlf.
  unfold loadNtHeaderFromMemory, e_lfanew, SizeOfImage, mbind, M_bind, rd32. rewrite (u64_small (addr + _)) by lia. done.
Qed.

(** Either the memory is as before and an error is reported, or the headers were read. *)
Lemma checkHeaders_spec f fsize l m : byte_mem m -> 0 <= f -> f + 2 ^ 33 <= 2 ^ 64 ->
  snd (checkHeaders f fsize l m) = m /\
  forall l1, fst (checkHeaders f fsize l m) = inr l1 ->
    m_imageBase l1 = f /\ m_imageSize l1 = imageSizeOf m f /\ m_ntHeader l1 = ntOf m f /\
    PAGE_SIZE <= readLE 4 m (ntOf m f + 24 + 32).
Proof.
  intros Hm Hf0 Hf.
  cbv [checkHeaders e_magic e_lfanew Signature SectionAlignment Machine mbind M_bind rd16 rd32 setLastError mret M_ret].
  case_match; [by split|]. rewrite loadNtHeader_run by done. cbn [m_ntHeader m_imageSize].
  case_match; [by split|]. case_match; [by split|]. split; [done|]. intros l1 [= <-].
  repeat (split; [done|]). lia.
Qed.

Record Loadable (m : mem) (f base : Z) : Prop := mkLoadable {
  ld_bytes : byte_mem m;
  ld_file : 0 <= f /\ f + 2 ^ 33 <= 2 ^ 64;
  ld_base : PAGE_SIZE <= base /\ base + 2 ^ 33 <= 2 ^ 64;
  ld_apart : f + hdrEndOf m f + sizeofSectionHeader * nSectionsOf m f <= base \/ base + imageSizeOf m f <= f;
  ld_hdr : hdrEndOf m f <= imageSizeOf m f;
  ld_sections : forall i, 0 <= i < nSectionsOf m f ->
    hdrEndOf m f <= s_VirtualAddress (sectionAt m (f + hdrEndOf m f + sizeofSectionHeader * i)) }.

(** The copied headers say what the file's headers said, whatever else is written behind them. *)
Lemma headers_copied m f base m1 : Loadable m f base ->
  frame (base + hdrEndOf m f) (base + imageSizeOf m f) (kmemcpy base f (hdrEndOf m f) m) m1 ->
  lfanewOf m1 base = lfanewOf m f /\ imageSizeOf m1 base = imageSizeOf m f.
Proof.
  intros [Hm Hf Hb Ha Hh _] Hfr. pose proof (readLE_range 4 m (f + 60) Hm) as Hlf. fold (lfanewOf m f) in Hlf.
  pose proof (readLE_range 2 m (ntOf m f + 6) Hm) as Hns. fold (nSectionsOf m f) in Hns.
  unfold hdrEndOf, sizeofNtHeaders, sizeofSectionHeader in *.
  destruct (kmemcpy_forward base f (lfanewOf m f + 264) m Hm ltac:(lia) ltac:(lia)) as [_ Hp].
  assert (Hrd : forall n k, 0 <= k -> k + Z.of_nat n <= lfanewOf m f + 264 -> readLE n m1 (base + k) = readLE n m (f + k)).
  { intros n k Hk Hkn. rewrite (readLE_frame n _ _ _ _ _ Hfr) by lia. clear -Hp Hk Hkn.
    revert k Hk Hkn. induction n as [|n IH]; intros k Hk Hkn; [done|]. cbn [readLE].
    rewrite <- !Z.add_assoc, IH by lia. f_equal. rewrite Hp. zbool; cbn [andb]; try lia. f_equal. lia. }
  assert (E : lfanewOf m1 base = lfanewOf m f) by (apply Hrd; lia). split; [done|].
  unfold imageSizeOf, ntOf. rewrite E, <- !Z.add_assoc. apply Hrd; lia.
Qed.

Lemma loadPeSections_frame f fsize l m base : Loadable m f base ->
  m_imageBasePtr l = base -> m_imageSize l = imageSizeOf m f -> m_ntHeader l = ntOf m f ->
  PAGE_SIZE <= readLE 4 m (ntOf m f + 24 + 32) ->
  frame (base + hdrEndOf m f) (base + imageSizeOf m f) (kmemcpy base f (hdrEndOf m f) m)
    (snd (loadPeSectionsFromMemory f fsize l m)).
Proof.
  intros [Hm Hf Hb Ha Hh Hs] Ep Es En Hal. pose proof (readLE_range 4 m (f + 60) Hm) as Hlf. fold (lfanewOf m f) in Hlf.
  pose proof (readLE_range 2 m (ntOf m f + 6) Hm) as Hns. fold (nSectionsOf m f) in Hns.
  cbv [loadPeSectionsFromMemory e_lfanew NumberOfSections SectionAlignment mbind M_bind rd16 rd32 copyTo mret M_ret].
  rewrite Ep, Es, En. fold (lfanewOf m f). fold (hdrEndOf m f). unfold sizeofSectionHeader, hdrEndOf, sizeofNtHeaders in *.
  pose proof (kmemcpy_frame base f (lfanewOf m f + 264) m Hm ltac:(lia)) as Hk. set (m1 := kmemcpy _ _ _ m) in *.
  assert (Hnt : ntOf m f + 264 <= base \/ base + imageSizeOf m f <= ntOf m f) by (unfold ntOf; lia).
  rewrite !(readLE_frame _ _ _ _ _ _ Hk) by lia. fold (nSectionsOf m f).
  pose proof (loadSections_frame base (imageSizeOf m f) (readLE 4 m (ntOf m f + 24 + 32)) f fsize (lfanewOf m f + 264) m
    (Z.to_nat (nSectionsOf m f)) ltac:(unfold PAGE_SIZE in *; lia) ltac:(lia) (f + (lfanewOf m f + 264)) m1) as Hl.
  unfold sizeofSectionHeader in Hl. rewrite Z2Nat.id in Hl by lia.
  specialize (Hl ltac:(eapply frame_widen; [exact Hk | lia]) ltac:(lia) Hs).
  by destruct (loadSections _ _ _ _ _ _ _ m1) as [[e|[]] m2].
Qed.

(** C25: the loader writes only to the image.  Whatever the bytes of the module file, if
    its headers fit the image it asks for, lie apart from the memory that was allocated,
    and no section is placed over the copied headers, then at every moment of
    [loadFromMemory] (for every bound [fuel] on its loop), in success and in failure, every
    byte outside the image is as before.  Relocation entries, import tables and raw
    section data are arbitrary. *)
Theorem load_confined (vmmAlloc : Z -> Z) (fuel : nat) (modules : list AbstractModule) (f fsize : Z) (l : Loader) (m : mem) :
  Loadable m f (vmmAlloc (imageSizeOf m f)) ->
  let base := vmmAlloc (imageSizeOf m f) in
  forall a, ~ (base <= a < base + imageSizeOf m f) ->
    snd (loadFromMemory vmmAlloc fuel modules f fsize l m) a = m a.
Proof.
  intros HL base. pose proof HL as [Hm [Hf0 Hf] [Hb0 Hb] Ha Hh Hs]. fold base in Hb0, Hb, Ha.
  cut (frame base (base + imageSizeOf m f) m (snd (loadFromMemory vmmAlloc fuel modules f fsize l m))); [by intros [_ ?]|].
  pose proof (readLE_range 4 m (ntOf m f + 24 + 56) Hm) as Hsz. fold (imageSizeOf m f) in Hsz. change (256 ^ Z.of_nat 4) with (2 ^ 32) in Hsz.
  pose proof (readLE_range 4 m (f + 60) Hm) as Hlf. fold (lfanewOf m f) in Hlf.
  pose proof (readLE_range 2 m (ntOf m f + 6) Hm) as Hns. fold (nSectionsOf m f) in Hns.
  destruct (checkHeaders_spec f fsize l m Hm Hf0 Hf) as [Em Hc]. unfold loadFromMemory. unfold mbind at 1, M_bind.
  destruct (checkHeaders f fsize l m) as [[e|l1] m0]; cbn [fst snd] in *; subst m0; [by apply memFrame_refl|].
  destruct (Hc l1 eq_refl) as (_ & Es1 & En1 & Hal). cbn [withImage m_imageBasePtr]. rewrite Es1. fold base.
  destruct (Z.eqb_spec base nullptr) as [E0|_]; [unfold PAGE_SIZE, nullptr in *; lia|].
  set (l2 := withImage base l1).
  pose proof (loadPeSections_frame f fsize l2 m base HL eq_refl Es1 En1 Hal) as Hfr.
  unfold mbind at 1, M_bind. destruct (loadPeSectionsFromMemory f fsize l2 m) as [r m1]. cbn [snd] in Hfr.
  assert (H1 : frame base (base + imageSizeOf m f) m m1).
  { eapply memFrame_trans; [eapply frame_widen; [by apply (kmemcpy_frame base f (hdrEndOf m f)); [|unfold hdrEndOf, sizeofNtHeaders; lia] | lia]|].
    eapply frame_widen; [exact Hfr | unfold hdrEndOf, sizeofNtHeaders; lia]. }
  destruct r as [e|sections]; [exact H1|]. pose proof (headers_copied m f base m1 HL Hfr) as [_ Esz].
  unfold mbind at 1, M_bind. unfold PAGE_SIZE in Hb0. rewrite loadNtHeader_run by first [apply H1 | lia]. cbn [m_ntHeader m_imageSize]. rewrite Esz.
  eapply memFrame_trans; [exact H1|]. apply proj1 in H1 as Hm1.
  apply within_run; [|exact Hm1]. unfold AddressOfEntryPoint.
  within; by apply initImage_within.
Qed.

(** ** Relocation

    What a relocation table means: [blocks] lists the pages with their entries, [slots]
    the addresses to correct with their types. *)
Definition Block : Type := Z * list Z.
Definition slotsOf (base : Z) (b : Block) : list (Z * Z) :=
  (fun r => (base + fst b + Z.land r 0x0FFF, Z.shiftr r 12)) <$> snd b.
Definition slots (base : Z) (blocks : list Block) : list (Z * Z) := mjoin (slotsOf base <$> blocks).
Definition blockSize (b : Block) : Z := sizeofBaseRelocation + 2 * Z.of_nat (length (snd b)).
Fixpoint tableSize (blocks : list Block) : Z :=
  match blocks with
  | [] => 0
  | b :: blocks => blockSize b + tableSize blocks
  end.

Lemma tableSize_nonneg blocks : 0 <= tableSize blocks.
Proof. induction blocks as [|b bs IH]; cbn [tableSize]; [lia|]. unfold blockSize, sizeofBaseRelocation. lia. Qed.

(** The table is in memory at [p]. *)
Fixpoint encoded (m : mem) (p : Z) (blocks : list Block) : Prop :=
  match blocks with
  | [] => True
  | b :: blocks =>
      fst b <> 0 /\ readLE 4 m p = fst b /\ readLE 4 m (p + 4) = blockSize b /\
      (forall i r, snd b !! i = Some r -> readLE 2 m (p + sizeofBaseRelocation + 2 * Z.of_nat i) = r) /\
      encoded m (p + blockSize b) blocks
  end.

(** Types 3 and 10 correct a word of four or eight bytes; type 0 is padding. *)
Definition width (type : Z) : nat := if type =? 10 then 8 else if type =? 3 then 4 else 0.
Definition slotVal (m : mem) (s : Z * Z) : Z := readLE (width (snd s)) m (fst s).
Definition corrected (delta : Z) (s : Z * Z) (v : Z) : Z := (v + delta) mod 256 ^ Z.of_nat (width (snd s)).
Definition applyReloc (delta : Z) (m : mem) (s : Z * Z) : mem :=
  writeLE (width (snd s)) m (fst s) (corrected delta s (slotVal m s)).

Definition goodSlot (base size t0 t1 : Z) (s : Z * Z) : Prop :=
  (snd s = 0 \/ snd s = 3 \/ snd s = 10) /\ fst s + 8 < base + size /\
  (fst s + Z.of_nat (width (snd s)) <= t0 \/ t1 <= fst s).

Definition slotsApart (s s' : Z * Z) : Prop :=
  fst s + Z.of_nat (width (snd s)) <= fst s' \/ fst s' + Z.of_nat (width (snd s')) <= fst s.
Fixpoint allApart (ss : list (Z * Z)) : Prop :=
  match ss with
  | [] => True
  | s :: ss => Forall (slotsApart s) ss /\ allApart ss
  end.

Lemma applyReloc_frame delta m s : byte_mem m -> frame (fst s) (fst s + Z.of_nat (width (snd s))) m (applyReloc delta m s).
Proof. apply writeLE_frame. Qed.

Lemma readLE_writeLE n : forall m a v, byte_mem m -> readLE n (writeLE n m a v) a = v mod 256 ^ Z.of_nat n.
Proof.
  induction n as [|n IH]; intros m a v Hm; [cbn; by rewrite Z.mod_1_r|]. cbn [readLE writeLE].
  assert (Hb : byte_mem (write8 m a v)) by (by apply write8_byte). rewrite IH by done.
  rewrite (proj2 (writeLE_frame n _ (a + 1) (v / 256) Hb) a) by lia. unfold write8 at 1. rewrite Z.eqb_refl. unfold u8.
  rewrite Nat2Z.inj_succ, Z.pow_succ_r by lia. rewrite Z.rem_mul_r by lia. done.
Qed.

Lemma slotVal_apart m delta s s' : byte_mem m -> slotsApart s s' -> slotVal (applyReloc delta m s) s' = slotVal m s'.
Proof. intros Hm Ha. unfold slotVal. eapply readLE_frame; [by apply applyReloc_frame|]. unfold slotsApart in Ha. lia. Qed.

(** Correcting slots that do not overlap corrects each, and nothing else. *)
Lemma fold_applyReloc delta ss : forall m, byte_mem m -> allApart ss ->
  let m' := fold_left (applyReloc delta) ss m in byte_mem m' /\
  (forall a, (forall s, s ∈ ss -> ~ (fst s <= a < fst s + Z.of_nat (width (snd s)))) -> m' a = m a) /\
  (forall s, s ∈ ss -> slotVal m' s = corrected delta s (slotVal m s)).
Proof.
  induction ss as [|s ss IH]; intros m Hm Ha; cbn [fold_left].
  { split; [done|]. split; [done|]. intros s Hs. by apply elem_of_nil in Hs. }
  destruct Ha as [Hs Ha]. destruct (applyReloc_frame delta m s Hm) as [Hb Hf].
  destruct (IH (applyReloc delta m s) Hb Ha) as (Hb' & Hout & Hin). split; [done|]. split.
  - intros a Hna. rewrite Hout by (intros s' Hs'; apply Hna; by right). apply Hf, Hna. left.
  - intros s' [->|Hs']%elem_of_cons; [|rewrite Hin by done; f_equal; apply slotVal_apart; [done|]; by eapply Forall_forall in Hs].
    transitivity (slotVal (applyReloc delta m s) s).
    + apply readLE_ext. intros x Hx. apply Hout. intros s' Hs'. eapply Forall_forall in Hs; [|done]. unfold slotsApart in Hs. lia.
    + unfold slotVal at 1, applyReloc. rewrite readLE_writeLE by done. apply Z.mod_mod. lia.
Qed.

Section Relocate.
Context (base size t0 t1 delta : Z) (Hbase : PAGE_SIZE <= base) (Hsize : 0 <= size < 2 ^ 32) (Htop : base + 2 ^ 33 <= 2 ^ 64).
Context (Ht : base <= t0 /\ t1 <= base + size) (Hdelta : 0 <= delta < 2 ^ 64).

Lemma relocItem_run m va r : 0 <= va < 2 ^ 32 -> let s := (base + va + Z.land r 0x0FFF, Z.shiftr r 12) in
  goodSlot base size t0 t1 s -> relocItem (u64 (base + va)) (base + size) delta r m = (inr tt, applyReloc delta m s).
Proof.
  intros Hva s (Hty & Hin & _). unfold s, PAGE_SIZE in *. cbn [fst snd] in *. unfold relocItem, applyReloc, corrected, slotVal, width. cbn [fst snd].
  assert (Hl : 0 <= Z.land r 0x0FFF < 2 ^ 12).
  { change 0x0FFF with (Z.ones 12). rewrite Z.land_ones by lia. apply Z.mod_pos_bound. lia. }
  rewrite (u64_small (base + va)) by lia. rewrite (u64_small (base + va + _)) by lia. rewrite (u64_small (base + size - 8)) by lia.
  destruct (Z.leb_spec (base + size - 8) (base + va + Z.land r 0x0FFF)) as [|_]; [lia|].
  destruct Hty as [->|[->| ->]]; cbn [Z.eqb Pos.eqb]; [done| |done].
  unfold mbind, M_bind, rd32, wr32, u32. by rewrite Zplus_mod_idemp_r.
Qed.

Lemma relocItems_run va : 0 <= va < 2 ^ 32 -> forall rs p m, byte_mem m -> t0 <= p -> p + 2 * Z.of_nat (length rs) <= t1 ->
  (forall i r, rs !! i = Some r -> readLE 2 m (p + 2 * Z.of_nat i) = r) ->
  Forall (goodSlot base size t0 t1) (slotsOf base (va, rs)) ->
  relocItems (length rs) p (u64 (base + va)) (base + size) delta m =
    (inr (p + 2 * Z.of_nat (length rs)), fold_left (applyReloc delta) (slotsOf base (va, rs)) m).
Proof.
  intros Hva. unfold PAGE_SIZE in *. induction rs as [|r rs IH]; intros p m Hm Hp0 Hp1 Hrd Hg; cbn [length relocItems].
  { cbn. by rewrite Z.add_0_r. }
  cbn [length] in Hp1. unfold slotsOf in *. cbn [fst snd fmap list_fmap fold_left] in *. apply Forall_cons in Hg as [Hs Hg].
  unfold mbind, M_bind, rd16. pose proof (Hrd 0%nat r eq_refl) as Er. rewrite Z.mul_0_r, Z.add_0_r in Er. rewrite Er.
  rewrite relocItem_run by done. rewrite (u64_small (p + 2)) by lia.
  pose proof (applyReloc_frame delta m _ Hm : frame _ _ m (applyReloc delta m (base + va + Z.land r 4095, Z.shiftr r 12))) as Hf.
  rewrite (IH (p + 2)); [do 2 f_equal; lia | apply Hf | lia | lia | | done].
  intros i r' Hi. rewrite <- (Hrd (S i) r' Hi). replace (p + 2 + 2 * Z.of_nat i) with (p + 2 * Z.of_nat (S i)) by lia.
  eapply readLE_frame; [exact Hf|]. destruct Hs as (_ & _ & Hd). cbn [fst snd] in Hd. apply lookup_lt_Some in Hi. cbn [fst snd]. lia.
Qed.

Lemma goodSlots_table ss : forall m, byte_mem m -> Forall (goodSlot base size t0 t1) ss ->
  byte_mem (fold_left (applyReloc delta) ss m) /\ forall a, t0 <= a < t1 -> fold_left (applyReloc delta) ss m a = m a.
Proof.
  induction ss as [|s ss IH]; intros m Hm Hs; [done|]. apply Forall_cons in Hs as [(_ & _ & Hd) Hs]. cbn [fold_left].
  destruct (applyReloc_frame delta m s Hm) as [Hb Hf]. destruct (IH _ Hb Hs) as [Hb' Hr]. split; [done|].
  intros a Ha. rewrite Hr by done. apply Hf. lia.
Qed.

Lemma encoded_frame blocks : forall m m' p, (forall a, t0 <= a < t1 -> m' a = m a) -> t0 <= p -> p + tableSize blocks <= t1 ->
  encoded m p blocks -> encoded m' p blocks.
Proof.
  induction blocks as [|[va rs] blocks IH]; intros m m' p Hf Hp0 Hp1; cbn [encoded tableSize]; [done|].
  cbn [tableSize] in Hp1. unfold blockSize, sizeofBaseRelocation in *. cbn [fst snd] in *.
  pose proof (tableSize_nonneg blocks) as Htl.
  intros (Hva & E1 & E2 & Hrs & Hrest). split; [done|].
  split; [rewrite <- E1; apply readLE_ext; intros; apply Hf; lia|].
  split; [rewrite <- E2; apply readLE_ext; intros; apply Hf; lia|].
  split; [|eapply IH; [exact Hf | lia | lia | done]].
  intros i r Hi. rewrite <- (Hrs i r Hi). apply lookup_lt_Some in Hi. apply readLE_ext. intros. apply Hf. lia.
Qed.

Lemma relocBlocks_run blocks : forall fuel p m, byte_mem m -> (length blocks <= fuel)%nat -> t0 <= p -> p + tableSize blocks = t1 ->
  encoded m p blocks -> Forall (goodSlot base size t0 t1) (slots base blocks) ->
  Forall (fun b : Block => 0 <= fst b < 2 ^ 32) blocks ->
  relocBlocks fuel p t1 base (base + size) delta m = (inr tt, fold_left (applyReloc delta) (slots base blocks) m).
Proof.
  induction blocks as [|[va rs] blocks IH]; intros fuel p m Hm Hfuel Hp0 Hp1 He Hg Hva; cbn [tableSize] in Hp1.
  { destruct fuel; cbn [relocBlocks]; destruct (Z.ltb_spec p t1); try lia; done. }
  pose proof (tableSize_nonneg blocks) as Htl.
  unfold PAGE_SIZE, blockSize, sizeofBaseRelocation in *. cbn [fst snd] in *. destruct fuel as [|fuel]; [cbn in Hfuel; lia|].
  cbn [relocBlocks encoded] in *. unfold blockSize, sizeofBaseRelocation in *. cbn [fst snd] in *.
  destruct He as (Hva0 & E1 & E2 & Hrs & He). apply Forall_cons in Hva as [Hva Hvas]. cbn [fst] in Hva.
  unfold slots in *. cbn [fmap list_fmap mjoin list_join] in *. apply Forall_app in Hg as [Hg1 Hg2].
  destruct (Z.ltb_spec p t1) as [_|]; [|lia]. unfold mbind, M_bind, rd32. rewrite E1.
  destruct (Z.eqb_spec va 0) as [|_]; [done|]. rewrite E2.
  replace (8 + 2 * Z.of_nat (length rs) - 8) with (Z.of_nat (length rs) * 2) by lia.
  rewrite (u64_small (Z.of_nat (length rs) * 2)), Z.div_mul, Nat2Z.id, (u64_small (p + 8)) by lia.
  rewrite (relocItems_run va Hva rs (p + 8) m); [|done|lia|lia|exact Hrs|exact Hg1].
  rewrite fold_left_app.
  destruct (goodSlots_table _ m Hm Hg1) as [Hb1 Hr1].
  apply IH; [done | cbn in Hfuel; lia | lia | lia | | done | done].
  eapply encoded_frame; [exact Hr1 | lia | lia |]. replace (p + 8 + 2 * Z.of_nat (length rs)) with (p + (8 + 2 * Z.of_nat (length rs))) by lia. done.
Qed.

End Relocate.

(** C40: relocation corrects exactly the slots of the table.  When the image's table, of
    the size the directory gives, lists the [blocks], and its slots lie in the image apart
    from each other and from the table, then [initRelocations] returns true; every slot of
    type 3 or 10 has the distance between the image's place and its preferred place added
    to its 32-bit or 64-bit word, and no other byte of memory has changed. *)
Theorem relocations_correct (fuel : nat) (l : Loader) (m : mem) (blocks : list Block) :
  let base := m_imageBase l in let size := m_imageSize l in let nt := m_ntHeader l in
  let rva := readLE 4 m (nt + 24 + 112 + 40) in
  let t0 := base + rva in let t1 := t0 + tableSize blocks in
  let delta := u64 (base - readLE 8 m (nt + 24 + 24)) in
  byte_mem m -> PAGE_SIZE <= base -> 0 <= size < 2 ^ 32 -> base + 2 ^ 33 <= 2 ^ 64 ->
  rva <> 0 -> readLE 4 m (nt + 24 + 112 + 44) = tableSize blocks -> t1 <= base + size -> delta <> 0 ->
  encoded m t0 blocks -> Forall (fun b : Block => 0 <= fst b < 2 ^ 32) blocks ->
  Forall (goodSlot base size t0 t1) (slots base blocks) -> allApart (slots base blocks) ->
  (length blocks <= fuel)%nat ->
  exists m', initRelocations fuel l m = (inr tt, m') /\
    (forall s, s ∈ slots base blocks -> slotVal m' s = corrected delta s (slotVal m s)) /\
    (forall a, (forall s, s ∈ slots base blocks -> ~ (fst s <= a < fst s + Z.of_nat (width (snd s)))) -> m' a = m a).
Proof.
  intros base size nt rva t0 t1 delta Hm Hb Hs Ht Hr Hd Ht1 Hde He Hv Hg Ha Hf.
  destruct (fold_applyReloc delta (slots base blocks) m Hm Ha) as (_ & Hout & Hin).
  exists (fold_left (applyReloc delta) (slots base blocks) m). split; [|by split].
  assert (Hrva : 0 <= rva < 2 ^ 32) by apply (readLE_range 4 m _ Hm).
  assert (Hts : 0 <= tableSize blocks) by (rewrite <- Hd; apply (readLE_range 4 m _ Hm)).
  unfold initRelocations, dirVirtualAddress, dirSize, ImageBase, mbind, M_bind, rd32, rd64, IMAGE_DIRECTORY_ENTRY_BASERELOC.
  change (8 * 5) with 40. fold nt. fold rva. fold base. fold delta. fold size.
  destruct (Z.eqb_spec rva 0) as [|_]; [done|]. destruct (Z.eqb_spec delta 0) as [|_]; [done|]. cbn [orb].
  rewrite <- (Z.add_assoc _ 40 4). change (40 + 4) with 44. rewrite Hd, (u64_small (size - rva)), Z.min_l by (unfold t1, t0 in *; lia).
  apply (relocBlocks_run base size t0 t1 delta); try done; unfold t1, t0 in *; try lia. apply u64_range.
Qed.

(** ** Small images *)
Module Demo.

(** A memory given by little-endian fields: address, width, value. *)
Definition fields (fs : list (Z * Z * Z)) : mem :=
  fold_left (fun m '(a, n, v) => writeLE (Z.to_nat n) m a v) fs (fun _ => 0).
Lemma fields_byte fs : byte_mem (fields fs).
Proof.
  unfold fields. assert (H : byte_mem (fun _ => 0)) by (intros a; lia). revert H. generalize (fun _ : Z => 0) as m.
  induction fs as [|[[a n] v] fs IH]; intros m H; [done|]. cbn [fold_left]. by apply IH, writeLE_byte.
Qed.

(** An image at 0x10000 that prefers address 0, with one block of two entries. *)
Definition image : mem := fields
  [(0x10000 + 176, 4, 0x200); (0x10000 + 180, 4, 12);
   (0x10200, 4, 0x300); (0x10204, 4, 12); (0x10208, 2, 0xA010); (0x1020A, 2, 0x3020);
   (0x10310, 8, 0x1122334455667788); (0x10320, 4, 0xFFFF0000)].
Definition loaded : Loader := mkLoader 0x10000 0x10000 0x1000 0x10000 0 0 [].

Lemma relocations_correct_witness :
  exists m', initRelocations 1 loaded image = (inr tt, m') /\
    readLE 8 m' 0x10310 = 0x1122334455677788 /\ readLE 4 m' 0x10320 = 0.
Proof.
  destruct (relocations_correct 1 loaded image [(0x300, [0xA010; 0x3020])]) as (m' & E & Hs & Ho).
  - apply fields_byte.
  - by vm_compute.
  - by vm_compute.
  - by vm_compute.
  - by vm_compute.
  - by vm_compute.
  - by vm_compute.
  - by vm_compute.
  - split; [done|]. split; [by vm_compute|]. split; [by vm_compute|]. split; [|done].
    intros [|[|i]] r Hi; cbn in Hi; [injection Hi as <-; by vm_compute..|done].
  - repeat constructor; cbn; lia.
  - apply Forall_cons. split; [split; [by right; right | split; [by vm_compute | by right; vm_compute]]|].
    apply Forall_cons. split; [split; [by right; left | split; [by vm_compute | by right; vm_compute]] | by apply Forall_nil].
  - split; [|split; [by apply Forall_nil | done]]. apply Forall_cons. split; [by left; vm_compute | by apply Forall_nil].
  - done.
  - exists m'. split; [exact E|]. split.
    + transitivity (slotVal m' (0x10310, 10)); [reflexivity|]. rewrite (Hs (0x10310, 10)) by (vm_compute; left). by vm_compute.
    + transitivity (slotVal m' (0x10320, 3)); [reflexivity|]. rewrite (Hs (0x10320, 3)) by (vm_compute; right; left). by vm_compute.
Defined.

(** A file at 0x100000 with headers at its offset 64 and one section of 16 bytes at [va]. *)
Definition file (size va : Z) : mem := fields
  [(0x100000, 2, IMAGE_DOS_SIGNATURE); (0x10003C, 4, 64);
   (0x100040, 4, IMAGE_NT_SIGNATURE); (0x100044, 2, IMAGE_FILE_MACHINE_AMD64); (0x100046, 2, 1);
   (0x100078, 4, PAGE_SIZE); (0x100090, 4, size);
   (0x100150, 4, 16); (0x100154, 4, va); (0x100158, 4, 16); (0x10015C, 4, 0x200);
   (0x100200, 8, 0x1122334455667788); (0x100208, 8, 0x99)].

(** The file loads: its section is in the image. *)
Lemma file_loads :
  let '(r, m) := loadFromMemory (fun _ => 0x10000) 0 [] 0x100000 0x300 newLoader (file 0x2000 0x1000) in
  r = inr (mkLoader 0x10000 0x10000 0x2000 0x10040 0 0x100148 [], [(0x11000, 0x1000)]) /\
  readLE 8 m 0x11000 = 0x1122334455667788 /\ readLE 8 m 0x11008 = 0x99.
Proof. vm_compute. done. Qed.

Lemma file_Loadable : Loadable (file 0x2000 0x1000) 0x100000 0x10000.
Proof.
  split; [apply fields_byte | by vm_compute | by vm_compute | right; by vm_compute | by vm_compute |].
  intros i Hi. change (nSectionsOf (file 0x2000 0x1000) 0x100000) with 1 in Hi. assert (i = 0) as -> by lia. by vm_compute.
Qed.

Lemma load_confined_witness :
  snd (loadFromMemory (fun _ => 0x10000) 0 [] 0x100000 0x300 newLoader (file 0x2000 0x1000)) 0x100000 = 0x4D.
Proof.
  pose proof (load_confined (fun _ => 0x10000) 0 [] 0x100000 0x300 newLoader (file 0x2000 0x1000) file_Loadable 0x100000) as H.
  transitivity (file 0x2000 0x1000 0x100000); [|by vm_compute]. apply H. vm_compute. intros [_ H']. discriminate H'.
Defined.

(** A section at offset 0 replaces the copied headers: the size of the image is read again
    from them, and a relocation entry then writes far behind the 0x2000 bytes that were
    allocated. *)
Definition evilFile : mem := fields
  [(0x100000, 2, IMAGE_DOS_SIGNATURE); (0x10003C, 4, 64);
   (0x100040, 4, IMAGE_NT_SIGNATURE); (0x100044, 2, IMAGE_FILE_MACHINE_AMD64); (0x100046, 2, 1);
   (0x100078, 4, PAGE_SIZE); (0x100090, 4, 0x2000);
   (0x100150, 4, 0x160); (0x100154, 4, 0); (0x100158, 4, 0x160); (0x10015C, 4, 0x200);
   (0x10023C, 4, 64); (0x100290, 4, 0x100000); (0x1002F0, 4, 0x150); (0x1002F4, 4, 10);
   (0x100350, 4, 0x50000); (0x100354, 4, 10); (0x100358, 2, 0xA000)].

Lemma section_over_headers :
  imageSizeOf evilFile 0x100000 = 0x2000 /\
  let '(r, m) := loadFromMemory (fun _ => 0x10000) 2 [] 0x100000 0x400 newLoader evilFile in
  readLE 8 evilFile 0x60000 = 0 /\ readLE 8 m 0x60000 = 0x10000.
Proof. vm_compute. done. Qed.

End Demo.
