(* ===== verification/KList.v ===== *)
(** * The list container (include/klist.h)

    [klist] is a doubly linked list whose nodes come from areas it allocates and keeps on
    a free list of its own.  Nodes live in a store; an iterator is the address of a node,
    and the end iterator is null.  The links are those of [FreeList]: the list is a
    segment whose first back link may be stale.  Items are values of [Z]; constructors and
    destructors of the items are not modelled.

    [operator new[]] gives the address of a new area and the old contents of its nodes. *)

From S2P Require Import Prelude FreeList.

Record Node : Type := mkNode { item : Z; next : Z; prev : Z }.

#[export, refine] Instance node_links : Links Node := {
  lnext := next;
  lprev := prev;
  set_lnext := fun n x => mkNode (item n) x (prev n);
  set_lprev := fun n x => mkNode (item n) (next n) x;
  ldata := fun n => (item n, 0)
}.
Proof. all: done. Defined.

Definition m_default_max_size : Z := 0x100000.
Definition m_default_base_size : Z := 0x10.

Record KList : Type := mkKList {
  nodes : gmap Z Node;
  m_alloc_areas : list (Z * Z);
  m_free_list : Z;
  m_begin_item : Z;
  m_end_item : Z;
  m_cur_ar_size : Z;
  m_max_size : Z }.

(** The areas are kept with their number of nodes, which [operator delete[]] knows. *)
Definition newKList : KList := mkKList ∅ [] nullptr nullptr nullptr m_default_base_size m_default_max_size.

Section KList.
(** [sizeof(_node_item)] *)
Context (sz : Z).

(** What [operator new[]] returns: an address and the contents of the memory there. *)
Record Area : Type := mkArea { ar_ptr : Z; ar_junk : Z -> Node }.

Definition setNodes (m : gmap Z Node) (s : KList) : KList :=
  mkKList m (m_alloc_areas s) (m_free_list s) (m_begin_item s) (m_end_item s) (m_cur_ar_size s) (m_max_size s).

(** The new nodes, from [it] on. *)
Fixpoint newNodes (n : nat) (it : Z) (junk : Z -> Node) (m : gmap Z Node) : gmap Z Node :=
  match n with
  | O => m
  | S n => <[it := junk it]> (newNodes n (it + sz) junk m)
  end.

(** [for (it = ar; it < end;) { tmp = it++; tmp->next = it; }  it->next = nullptr;] *)
Fixpoint linkRegion (n : nat) (it : Z) (m : gmap Z Node) : outcome (gmap Z Node) :=
  nd ← deref m it;
  match n with
  | O => Ok (<[it := set_lnext nd nullptr]> m)
  | S n => linkRegion n (it + sz) (<[it := set_lnext nd (it + sz)]> m)
  end.

Definition _add_free_region (ar : Area) (ar_size : Z) (s : KList) : outcome KList :=
  m ← linkRegion (Z.to_nat (ar_size - 1)) (ar_ptr ar)
        (newNodes (Z.to_nat (m_cur_ar_size s)) (ar_ptr ar) (ar_junk ar) (nodes s));
  Ok (mkKList m (m_alloc_areas s ++ [(ar_ptr ar, m_cur_ar_size s)]) (ar_ptr ar) (m_begin_item s) (m_end_item s)
        (m_cur_ar_size s) (m_max_size s)).

Definition setCur (c : Z) (s : KList) : KList :=
  mkKList (nodes s) (m_alloc_areas s) (m_free_list s) (m_begin_item s) (m_end_item s) c (m_max_size s).
Definition setFree (p : Z) (s : KList) : KList :=
  mkKList (nodes s) (m_alloc_areas s) p (m_begin_item s) (m_end_item s) (m_cur_ar_size s) (m_max_size s).
Definition setBegin (p : Z) (s : KList) : KList :=
  mkKList (nodes s) (m_alloc_areas s) (m_free_list s) p (m_end_item s) (m_cur_ar_size s) (m_max_size s).
Definition setEnd (p : Z) (s : KList) : KList :=
  mkKList (nodes s) (m_alloc_areas s) (m_free_list s) (m_begin_item s) p (m_cur_ar_size s) (m_max_size s).

(** A store through a pointer to a node. *)
Definition updNode (p : Z) (f : Node -> Node) (s : KList) : outcome KList :=
  nd ← deref (nodes s) p; Ok (setNodes (<[p := f nd]> (nodes s)) s).

(** [_alloc_item] doubles the area size up to the maximum. *)
Definition growSize (s : KList) : KList :=
  if m_cur_ar_size s <? m_max_size s then
    let c := m_cur_ar_size s * 2 in
    setCur (if m_max_size s <? c then m_max_size s else c) s
  else s.
Definition _alloc_item (ar : Area) (s : KList) : outcome (Z * KList) :=
  s ← (if m_free_list s =? nullptr then s ← _add_free_region ar (m_cur_ar_size s) s; Ok (growSize s) else Ok s);
  let it := m_free_list s in
  nd ← deref (nodes s) it;
  Ok (it, setFree (next nd) s).

Definition _append_node (pitem : Z) (s : KList) : outcome KList :=
  if m_end_item s =? nullptr then
    s ← updNode pitem (fun nd => mkNode (item nd) nullptr nullptr) s;
    Ok (setBegin pitem (setEnd pitem s))
  else
    s ← updNode pitem (fun nd => mkNode (item nd) nullptr (m_end_item s)) s;
    s ← updNode (m_end_item s) (fun nd => set_lnext nd pitem) s;
    Ok (setEnd pitem s).

(** The result is the end iterator, which names the new node. *)
Definition push_back (ar : Area) (x : Z) (s : KList) : outcome (Z * KList) :=
  '(pitem, s) ← _alloc_item ar s;
  s ← updNode pitem (fun nd => mkNode x (next nd) (prev nd)) s;
  s ← _append_node pitem s;
  Ok (m_end_item s, s).

Definition empty (s : KList) : bool := m_begin_item s =? nullptr.

Definition front (s : KList) : outcome Z := nd ← deref (nodes s) (m_begin_item s); Ok (item nd).

(** [cur->next = m_free_list; m_free_list = cur;] *)
Definition toFree (cur : Z) (s : KList) : outcome KList :=
  s ← updNode cur (fun nd => set_lnext nd (m_free_list s)) s;
  Ok (setFree cur s).

Definition erase (cur : Z) (s : KList) : outcome (Z * KList) :=
  nd ← deref (nodes s) cur;
  let nxt := next nd in
  s ← toFree cur s;
  let s := if m_end_item s =? cur then setEnd (prev nd) s else s in
  if cur =? m_begin_item s then Ok (nxt, setBegin nxt s)
  else
    s ← updNode (prev nd) (fun p => set_lnext p nxt) s;
    s ← (if negb (nxt =? nullptr) then updNode nxt (fun n => set_lprev n (prev nd)) s else Ok s);
    Ok (nxt, s).

Definition pop_front (s : KList) : outcome KList :=
  let cur := m_begin_item s in
  nd ← deref (nodes s) cur;
  s ← toFree cur s;
  let s := if m_end_item s =? cur then setEnd nullptr s else s in
  Ok (setBegin (next nd) s).

(** [for (it = begin(); it != end(); it = erase(it));] *)
Fixpoint eraseAll (fuel : nat) (it : Z) (s : KList) : outcome KList :=
  if it =? nullptr then Ok s
  else
    match fuel with
    | O => NoFuel
    | S fuel => '(it, s) ← erase it s; eraseAll fuel it s
    end.
Definition clear_no_free (s : KList) : outcome KList := eraseAll (size (nodes s)) (m_begin_item s) s.

(** The loop of [remove_first] from [it] on. *)
Fixpoint removeLoop (fuel : nat) (x it : Z) (s : KList) : outcome (bool * KList) :=
  if it =? nullptr then Ok (false, s)
  else
    match fuel with
    | O => NoFuel
    | S fuel =>
        nd ← deref (nodes s) it;
        if item nd =? x then '(_, s) ← erase it s; Ok (true, s)
        else removeLoop fuel x (next nd) s
    end.
Definition remove_first (x : Z) (s : KList) : outcome (bool * KList) :=
  removeLoop (size (nodes s)) x (m_begin_item s) s.

(** [_free_all] returns every area; its nodes are gone. *)
Fixpoint freeArea (n : nat) (it : Z) (m : gmap Z Node) : gmap Z Node :=
  match n with
  | O => m
  | S n => delete it (freeArea n (it + sz) m)
  end.
Definition _free_all (s : KList) : KList :=
  setNodes (foldr (fun '(p, n) m => freeArea (Z.to_nat n) p m) (nodes s) (m_alloc_areas s)) s.

(** [_init] does not touch the free list. *)
Definition clear (s : KList) : KList :=
  let s := _free_all s in
  mkKList (nodes s) [] (m_free_list s) nullptr nullptr m_default_base_size m_default_max_size.

(** An iterator after [n] steps. *)
Fixpoint advance (n : nat) (it : Z) (s : KList) : outcome Z :=
  match n with
  | O => Ok it
  | S n => nd ← deref (nodes s) it; advance n (next nd) s
  end.


(** ** Invariant *)

(** A singly linked list: the free nodes. *)
Fixpoint chain (m : gmap Z Node) (h : Z) (l : list Z) : Prop :=
  match l with
  | [] => h = nullptr
  | p :: l => h = p /\ p <> nullptr /\ exists n, m !! p = Some n /\ chain m (next n) l
  end.

Lemma freeChain_ext m m' l : forall h, (forall q, q ∈ l -> m' !! q = m !! q) -> chain m h l -> chain m' h l.
Proof.
  induction l as [|p l IH]; intros h Hq; cbn [chain]; [done|]. intros (-> & Hp & n & Hn & Hc).
  split; [done|]. split; [done|]. exists n. rewrite Hq by left. split; [done|]. apply IH; [|done]. intros q ?. apply Hq. by right.
Qed.

(** [ns] are the nodes of the list, [fs] the free ones, [xs] the items. *)
Record LRel (s : KList) (ns fs xs : list Z) : Prop := mkLRel {
  lr_seg : seg (nodes s) None (m_begin_item s) ns;
  lr_free : chain (nodes s) (m_free_list s) fs;
  lr_nodup : NoDup (ns ++ fs);
  lr_end : m_end_item s = default nullptr (last ns);
  lr_items : (fun p => item <$> nodes s !! p) <$> ns = Some <$> xs;
  lr_size : 1 <= m_cur_ar_size s <= m_max_size s }.

Definition LInv (s : KList) (xs : list Z) : Prop := exists ns fs, LRel s ns fs xs.

Lemma newKList_LInv : LInv newKList [].
Proof. exists [], []. split; try done. apply NoDup_nil_2. Qed.

(** Items are kept by every change of links. *)
Lemma items_ext (m m' : gmap Z Node) (ns xs : list Z) :
  (forall q, q ∈ ns -> item <$> m' !! q = item <$> m !! q) ->
  (fun p => item <$> m !! p) <$> ns = Some <$> xs -> (fun p => item <$> m' !! p) <$> ns = Some <$> xs.
Proof. intros H E. rewrite <- E. apply list_fmap_ext. intros i q Hi. apply H. by eapply list_elem_of_lookup_2. Qed.

Lemma items_length (m : gmap Z Node) (ns xs : list Z) : (fun p => item <$> m !! p) <$> ns = Some <$> xs -> length ns = length xs.
Proof. intros E. apply (f_equal length) in E. by rewrite !length_fmap in E. Qed.

Lemma seg_in (m : gmap Z Node) pr h l p : seg m pr h l -> p ∈ l -> p <> nullptr /\ is_Some (m !! p).
Proof. apply seg_nonnull. Qed.

Lemma nodes_bound s ns fs xs : LRel s ns fs xs -> (length ns <= size (nodes s))%nat.
Proof.
  intros HL. pose proof (lr_nodup _ _ _ _ HL) as [Hnd _]%NoDup_app.
  rewrite <- (size_dom (D := gset Z)), <- (size_list_to_set (C := gset Z) ns) by done.
  apply subseteq_size. intros p Hp. apply elem_of_list_to_set in Hp. apply elem_of_dom.
  by apply (seg_in _ _ _ _ _ (lr_seg _ _ _ _ HL)).
Qed.

(** ** Allocation *)

Fixpoint areaOf (n : nat) (it : Z) : list Z :=
  match n with
  | O => []
  | S n => it :: areaOf n (it + sz)
  end.

Context (Hsz : 0 < sz).

Lemma areaOf_ge n : forall it q, q ∈ areaOf n it -> it <= q.
Proof.
  induction n as [|n IH]; intros it q; cbn [areaOf]; [by intros ?%elem_of_nil|].
  intros [->|Hq]%elem_of_cons; [lia|]. apply IH in Hq. lia.
Qed.
Lemma areaOf_NoDup n : forall it, NoDup (areaOf n it).
Proof.
  induction n as [|n IH]; intros it; cbn [areaOf]; [apply NoDup_nil_2|]. apply NoDup_cons. split; [|apply IH].
  intros Hq%areaOf_ge. lia.
Qed.

Lemma newNodes_lookup junk m n : forall it q,
  newNodes n it junk m !! q = if decide (q ∈ areaOf n it) then Some (junk q) else m !! q.
Proof.
  induction n as [|n IH]; intros it q; cbn [newNodes areaOf].
  { by rewrite decide_False by apply not_elem_of_nil. }
  destruct (decide (q = it)) as [->|Hq].
  - rewrite lookup_insert_eq. by rewrite decide_True by left.
  - rewrite lookup_insert_ne, IH by done. destruct (decide (q ∈ areaOf n (it + sz))) as [Hi|Hi].
    + by rewrite decide_True by (by right).
    + rewrite decide_False; [done|]. by intros [?|?]%elem_of_cons.
Qed.

Lemma linkRegion_spec n : forall it m, 0 < it -> (forall q, q ∈ areaOf (S n) it -> is_Some (m !! q)) ->
  exists m', linkRegion n it m = Ok m' /\ chain m' it (areaOf (S n) it) /\
    forall q, q ∉ areaOf (S n) it -> m' !! q = m !! q.
Proof.
  induction n as [|n IH]; intros it m Hit Hin.
  - destruct (Hin it ltac:(left)) as [nd Hnd]. cbn [linkRegion areaOf]. rewrite (deref_Some _ _ _ Hnd). ostep.
    eexists. split; [done|]. split.
    + cbn [chain]. split; [done|]. split; [unfold nullptr; lia|]. eexists. by rewrite lookup_insert_eq.
    + intros q Hq. apply lookup_insert_ne. set_solver.
  - destruct (Hin it ltac:(left)) as [nd Hnd]. cbn [linkRegion]. rewrite (deref_Some _ _ _ Hnd). ostep.
    set (m1 := <[it := _]> m). destruct (IH (it + sz) m1) as (m' & E & Hc & Ho); [lia| |].
    { intros q Hq. unfold m1. destruct (decide (q = it)) as [->|]; [by rewrite lookup_insert_eq|].
      rewrite lookup_insert_ne by done. apply Hin. by right. }
    exists m'. split; [done|]. change (areaOf (S (S n)) it) with (it :: areaOf (S n) (it + sz)). split.
    + cbn [chain]. split; [done|]. split; [unfold nullptr; lia|]. exists (set_lnext nd (it + sz)).
      rewrite Ho by (intros Hq%areaOf_ge; lia). unfold m1. by rewrite lookup_insert_eq.
    + intros q Hq. rewrite Ho by set_solver. apply lookup_insert_ne. set_solver.
Qed.

(** The memory [operator new[]] hands out is not in use. *)
Definition freshArea (ar : Area) (s : KList) : Prop :=
  0 < ar_ptr ar /\ forall q, q ∈ areaOf (Z.to_nat (m_cur_ar_size s)) (ar_ptr ar) -> nodes s !! q = None.

Lemma growSize_LRel s ns fs xs : LRel s ns fs xs -> LRel (growSize s) ns fs xs.
Proof.
  intros [? ? ? ? ? ?]. unfold growSize. destruct (Z.ltb_spec (m_cur_ar_size s) (m_max_size s)); [|done].
  split; try done. cbn. destruct (Z.ltb_spec (m_max_size s) (m_cur_ar_size s * 2)); lia.
Qed.

Lemma add_free_region_LRel ar s ns xs : LRel s ns [] xs -> freshArea ar s ->
  exists s' fs, _add_free_region ar (m_cur_ar_size s) s = Ok s' /\ LRel s' ns fs xs /\ fs <> [].
Proof.
  intros [Hs Hf Hnd He Hi Hc] [Har Hfr]. unfold _add_free_region.
  set (n := Z.to_nat (m_cur_ar_size s - 1)). assert (En : Z.to_nat (m_cur_ar_size s) = S n) by lia. rewrite En in *.
  destruct (linkRegion_spec n (ar_ptr ar) (newNodes (S n) (ar_ptr ar) (ar_junk ar) (nodes s)) Har) as (m' & E & Hch & Ho).
  { intros q Hq. rewrite newNodes_lookup. by rewrite decide_True. }
  rewrite E. ostep. eexists _, (areaOf (S n) (ar_ptr ar)). split; [done|]. split; [|done].
  assert (Hdis : forall q, q ∈ ns -> q ∉ areaOf (S n) (ar_ptr ar)).
  { intros q Hq Hin. apply Hfr in Hin. destruct (seg_in _ _ _ _ _ Hs Hq) as [_ [? ?]]. congruence. }
  assert (Hold : forall q, q ∈ ns -> m' !! q = nodes s !! q).
  { intros q Hq. rewrite Ho by auto. rewrite newNodes_lookup. rewrite decide_False; auto. }
  split; cbn [nodes m_begin_item m_free_list m_end_item m_cur_ar_size m_max_size]; try done.
  - by eapply seg_ext.
  - apply NoDup_app. rewrite app_nil_r in Hnd. split; [done|]. split; [exact Hdis | apply areaOf_NoDup].
  - eapply items_ext; [|exact Hi]. intros q Hq. by rewrite Hold.
Qed.

(** What follows after the area was made, if it was needed. *)
Lemma alloc_item_spec ar s ns fs xs : LRel s ns fs xs -> (m_free_list s = nullptr -> freshArea ar s) ->
  exists p s' fs', _alloc_item ar s = Ok (p, s') /\ LRel s' ns fs' xs /\ p ∉ ns ++ fs' /\ p <> nullptr /\
    is_Some (nodes s' !! p).
Proof.
  intros HL Hfr. unfold _alloc_item.
  assert (Hr : exists s1 fs1, (if m_free_list s =? nullptr then s ← _add_free_region ar (m_cur_ar_size s) s; Ok (growSize s) else Ok s) = Ok s1 /\
    LRel s1 ns fs1 xs /\ fs1 <> []).
  { destruct (Z.eqb_spec (m_free_list s) nullptr) as [E|E].
    - assert (fs = []) as ->. { pose proof (lr_free _ _ _ _ HL) as Hf. destruct fs as [|f fs]; [done|]. destruct Hf as (Ef & Hf & _). congruence. }
      destruct (add_free_region_LRel ar s ns xs HL (Hfr E)) as (s1 & fs1 & E1 & HL1 & Hne). rewrite E1. ostep.
      exists (growSize s1), fs1. split; [done|]. split; [by apply growSize_LRel | done].
    - exists s, fs. split; [done|]. split; [done|]. intros ->. apply E. apply (lr_free _ _ _ _ HL). }
  destruct Hr as (s1 & fs1 & E1 & HL1 & Hne). rewrite E1. ostep. destruct HL1 as [Hs Hf Hnd He Hi Hc].
  destruct fs1 as [|p fs1]; [done|]. destruct Hf as (Ef & Hp & nd & Hp' & Hf). rewrite Ef, (deref_Some _ _ _ Hp'). ostep.
  exists p, (setFree (next nd) s1), fs1. split; [done|].
  apply NoDup_app in Hnd as (Hn1 & Hn2 & Hn3). apply NoDup_cons in Hn3 as [Hn3 Hn4]. split; [|split; [|done]].
  - split; cbn; try done. apply NoDup_app. split; [done|]. split; [set_solver | done].
  - intros [Hin|Hin]%elem_of_app; [|done]. by apply (Hn2 p Hin); left.
Qed.

(** ** Operations *)

Lemma updNode_Ok p f s nd : nodes s !! p = Some nd -> updNode p f s = Ok (setNodes (<[p := f nd]> (nodes s)) s).
Proof. intros E. unfold updNode. by rewrite (deref_Some _ _ _ E). Qed.

Lemma seg_snoc (m m' : gmap Z Node) e p ne np l : forall pr h,
  seg m pr h (l ++ [e]) -> m !! e = Some ne -> m' !! e = Some (set_lnext ne p) ->
  m' !! p = Some np -> p <> nullptr -> lprev np = e -> lnext np = nullptr ->
  (forall q, q ∈ l -> m' !! q = m !! q) -> seg m' pr h (l ++ [e; p]).
Proof.
  induction l as [|a l IH]; intros pr h; cbn [app seg].
  - intros (-> & He & n & Hn & Hpr & _) Hne He' Hp Hp0 Hpp Hpn _. assert (n = ne) as -> by congruence.
    split; [done|]. split; [done|]. exists (set_lnext ne p). autorewrite with links. split; [done|]. split; [done|].
    split; [done|]. split; [done|]. exists np. split; [done|]. split; [|done]. by intros q [= <-].
  - intros (-> & Ha & n & Hn & Hpr & Hs) Hne He' Hp Hp0 Hpp Hpn Hq. split; [done|]. split; [done|]. exists n.
    rewrite Hq by left. split; [done|]. split; [done|]. apply IH; try done. intros q ?. apply Hq. by right.
Qed.

Lemma push_back_spec ar x s ns fs xs : LRel s ns fs xs -> (m_free_list s = nullptr -> freshArea ar s) ->
  exists p s' fs', push_back ar x s = Ok (p, s') /\ LRel s' (ns ++ [p]) fs' (xs ++ [x]).
Proof.
  intros HL Hfr. unfold push_back. destruct (alloc_item_spec ar s ns fs xs HL Hfr) as (p & s1 & fs1 & E1 & HL1 & Hp & Hp0 & [nd Hnd]).
  rewrite E1. ostep. rewrite (updNode_Ok _ _ _ _ Hnd). ostep. destruct HL1 as [Hs Hf Hnd1 He Hi Hc].
  apply not_elem_of_app in Hp as [Hpn Hpf]. unfold _append_node. cbn [setNodes m_end_item].
  assert (Hndp : NoDup ((ns ++ [p]) ++ fs1)).
  { apply NoDup_app in Hnd1 as (? & ? & ?). rewrite <- app_assoc. apply NoDup_app. split; [done|].
    split; [set_solver | apply NoDup_cons; by split]. }
  destruct (exists_last_or_nil ns) as [->|(l & e & ->)].
  - rewrite He. cbn [last default from_option id]. rewrite Z.eqb_refl.
    erewrite updNode_Ok by (cbn [setNodes nodes]; apply lookup_insert_eq). ostep. eexists p, _, fs1. split; [done|].
    destruct xs; [|done]. split; cbn; try done.
    + split; [done|]. split; [done|]. eexists. by rewrite lookup_insert_eq.
    + eapply freeChain_ext; [|exact Hf]. intros q Hq. rewrite !lookup_insert_ne by set_solver. done.
    + by rewrite lookup_insert_eq.
  - rewrite last_snoc in He. cbn in He. assert (Hend : m_end_item s1 <> nullptr).
    { rewrite He. apply (seg_in _ _ _ _ e Hs). set_solver. }
    destruct (Z.eqb_spec (m_end_item s1) nullptr) as [|_]; [done|].
    erewrite updNode_Ok by (cbn [setNodes nodes]; apply lookup_insert_eq). ostep. cbn [setNodes m_end_item nodes item].
    destruct (seg_in _ _ _ _ e Hs ltac:(set_solver)) as [_ [ne Hne]]. assert (Hep : e <> p) by set_solver.
    rewrite He. erewrite updNode_Ok by (cbn [setNodes nodes]; rewrite !lookup_insert_ne by done; exact Hne). ostep.
    eexists p, _, fs1. split; [done|]. apply NoDup_app in Hnd1 as (Hndl & Hdis & _). apply NoDup_app in Hndl as (_ & Hel & _).
    split; cbn [setEnd setNodes nodes m_begin_item m_free_list m_end_item m_cur_ar_size m_max_size]; try done.
    + rewrite <- app_assoc. eapply (seg_snoc (nodes s1) _ e p ne (mkNode x nullptr e)); try done;
        [by rewrite lookup_insert_eq | by rewrite lookup_insert_ne, lookup_insert_eq |].
      intros q Hq. rewrite !lookup_insert_ne by (intros <-; set_solver). done.
    + eapply freeChain_ext; [|exact Hf]. intros q Hq. rewrite !lookup_insert_ne by (intros <-; set_solver). done.
    + by rewrite last_snoc.
    + rewrite fmap_app, (fmap_app Some xs). f_equal.
      * eapply items_ext; [|exact Hi]. intros q Hq. destruct (decide (q = e)) as [->|]; [by rewrite lookup_insert_eq, Hne|].
        rewrite !lookup_insert_ne by (intros <-; set_solver). done.
      * cbn. by rewrite lookup_insert_ne, lookup_insert_eq.
Qed.

Lemma items_remove (m m' : gmap Z Node) l1 p l2 xs :
  (fun q => item <$> m !! q) <$> (l1 ++ p :: l2) = Some <$> xs ->
  (forall q, q ∈ l1 ++ l2 -> item <$> m' !! q = item <$> m !! q) ->
  (fun q => item <$> m' !! q) <$> (l1 ++ l2) = Some <$> (take (length l1) xs ++ drop (S (length l1)) xs) /\
  item <$> m !! p = xs !! length l1.
Proof.
  intros E He. split.
  - rewrite (fmap_app Some), fmap_take, fmap_drop, <- E, !fmap_app, fmap_cons.
    rewrite <- (length_fmap (fun q => item <$> m !! q) l1), take_app_length, drop_app_ge by lia.
    rewrite Nat.sub_succ_l, Nat.sub_diag by done. cbn [drop].
    f_equal; apply list_fmap_ext; intros i q Hq; apply He, elem_of_app; [left|right]; by eapply list_elem_of_lookup_2.
  - assert (E2 : (Some <$> xs) !! length l1 = Some (item <$> m !! p)).
    { rewrite <- E, fmap_app, fmap_cons. rewrite <- (length_fmap (fun q => item <$> m !! q) l1). by rewrite list_lookup_middle. }
    rewrite list_lookup_fmap in E2. destruct (xs !! length l1); [|done]. by injection E2.
Qed.

Lemma toFree_run p s nd : nodes s !! p = Some nd ->
  toFree p s = Ok (setFree p (setNodes (<[p := set_lnext nd (m_free_list s)]> (nodes s)) s)).
Proof. intros E. unfold toFree. by rewrite (updNode_Ok _ _ _ _ E). Qed.

Lemma chain_push (m m' : gmap Z Node) p nd fs h : chain m h fs -> p ∉ fs -> p <> nullptr ->
  m' !! p = Some nd -> next nd = h -> (forall q, q ∈ fs -> m' !! q = m !! q) -> chain m' p (p :: fs).
Proof. intros Hc Hp Hp0 Hm Hn Hq. split; [done|]. split; [done|]. exists nd. split; [done|]. rewrite Hn. by eapply freeChain_ext. Qed.

(** The first node is taken off, whatever its back link is. *)
Lemma unlink_first s p l2 fs xs nd : LRel s (p :: l2) fs xs -> nodes s !! p = Some nd ->
  let m' := <[p := set_lnext nd (m_free_list s)]> (nodes s) in
  next nd = default nullptr (head l2) /\ m_begin_item s = p /\
  seg m' None (next nd) l2 /\ chain m' p (p :: fs) /\ NoDup (l2 ++ p :: fs) /\
  (fun q => item <$> m' !! q) <$> l2 = Some <$> drop 1 xs.
Proof.
  intros [Hs Hf Hnd He Hi Hc] Hp m'. cbn [app] in Hnd. destruct Hs as (Eb & Hp0 & n & Hn & _ & Hs). assert (n = nd) as -> by congruence.
  apply NoDup_cons in Hnd as [Hpn Hnd]. apply not_elem_of_app in Hpn as [Hp2 Hpf].
  assert (Hq : forall q, q <> p -> m' !! q = nodes s !! q) by (intros; by apply lookup_insert_ne).
  split_and!; [|done| | | |].
  - destruct l2 as [|r l2]; [exact Hs | destruct Hs as (E & _); exact E].
  - eapply seg_any_prev, seg_ext; [|exact Hs]. intros q Hin. apply Hq. by intros ->.
  - eapply chain_push; [exact Hf | done | done | apply lookup_insert_eq | done|]. intros q Hin. apply Hq. by intros ->.
  - apply NoDup_app in Hnd as (? & ? & ?). apply NoDup_app. split; [done|]. split; [set_solver | apply NoDup_cons; by split].
  - destruct (items_remove (nodes s) m' [] p l2 xs Hi) as [H _]; [|exact H]. intros q Hin. rewrite Hq; [done|]. by intros ->.
Qed.

Lemma pop_front_spec s p l2 fs xs : LRel s (p :: l2) fs xs ->
  exists s', pop_front s = Ok s' /\ LRel s' l2 (p :: fs) (drop 1 xs).
Proof.
  intros HL. destruct (seg_in _ _ _ _ p (lr_seg _ _ _ _ HL) ltac:(left)) as [Hp0 [nd Hnd]].
  destruct (unlink_first s p l2 fs xs nd HL Hnd) as (En & Eb & Hs & Hc & Hno & Hi). destruct HL as [_ _ Hno0 He _ Hsz'].
  unfold pop_front. rewrite Eb, (deref_Some _ _ _ Hnd). ostep. rewrite (toFree_run _ _ _ Hnd). ostep. eexists. split; [done|].
  destruct (Z.eqb_spec (m_end_item (setFree p (setNodes (<[p:=set_lnext nd (m_free_list s)]> (nodes s)) s))) p) as [E|E]; cbn in E; split; cbn; try done.
  - destruct l2 as [|r l2]; [done|]. exfalso. rewrite He, last_cons in E. apply NoDup_cons in Hno0 as [Hno0 _]. cbn [app] in Hno0.
    destruct (last (r :: l2)) as [z|] eqn:El; [|by apply last_None in El]. cbn in E. subst z. apply last_Some_elem_of in El. set_solver.
  - rewrite He, last_cons. destruct (last l2) eqn:El; [done|]. apply last_None in El as ->. rewrite He in E. by destruct E.
Qed.

(** The last node after [p], which follows [q], was taken off. *)
Lemma last_without l1 q p l2 : p ∉ l1 ++ q :: l2 ->
  let e := default nullptr (last ((l1 ++ [q]) ++ p :: l2)) in
  (if e =? p then q else e) = default nullptr (last ((l1 ++ [q]) ++ l2)).
Proof.
  intros Hp. destruct l2 as [|r l2].
  - rewrite app_nil_r, !last_snoc. cbn. by rewrite Z.eqb_refl.
  - rewrite !last_app_cons, last_cons_cons. destruct (last (r :: l2)) as [z|] eqn:El; [|by apply last_None in El]. cbn.
    destruct (Z.eqb_spec z p) as [->|]; [|done]. apply last_Some_elem_of in El. set_solver.
Qed.

Lemma nodup_to_free (l1 l2 fs : list Z) p : NoDup ((l1 ++ p :: l2) ++ fs) -> NoDup ((l1 ++ l2) ++ p :: fs).
Proof.
  intros Hnd. eapply NoDup_Permutation_proper; [|exact Hnd]. rewrite <- !app_assoc. apply Permutation_app_head.
  cbn [app]. by rewrite Permutation_middle.
Qed.

(** [erase] of a node in the middle or at the end. *)
Lemma erase_later s l1 q p l2 fs xs : LRel s ((l1 ++ [q]) ++ p :: l2) fs xs ->
  exists s', erase p s = Ok (default nullptr (head l2), s') /\
    LRel s' ((l1 ++ [q]) ++ l2) (p :: fs) (take (length (l1 ++ [q])) xs ++ drop (S (length (l1 ++ [q]))) xs).
Proof.
  intros HL. destruct HL as [Hs Hf Hnd He Hi Hc]. destruct (seg_in _ _ _ _ p Hs ltac:(set_solver)) as [Hp0 [nd Hp]].
  pose proof Hnd as (Hnd1 & Hdis & _)%NoDup_app. rewrite <- app_assoc in Hs, Hnd1. cbn [app] in Hs, Hnd1.
  destruct (unlink_mid _ _ _ _ _ _ _ _ Hs Hnd1 Hp) as (m1 & nq & Hnq & Hlp & -> & Hj & Hs2).
  destruct (nodup_parts _ _ _ _ Hnd1) as (Hnd2 & Hdj & Hpn). cbn [lprev lnext node_links] in *.
  assert (En : next nd = default nullptr (head l2)) by (destruct l2; [exact Hs2 | destruct Hs2 as (E & _); exact E]).
  assert (Hqp : q <> p) by set_solver.
  assert (Hb : p <> m_begin_item s).
  { intros ->. destruct l1; destruct Hs as (Eb & _); set_solver. }
  unfold erase. rewrite (deref_Some _ _ _ Hp). ostep. rewrite (toFree_run _ _ _ Hp). ostep.
  cbn [setFree setNodes m_end_item m_begin_item]. set (m2 := <[p := set_lnext nd (m_free_list s)]> (nodes s)).
  set (s2 := if m_end_item s =? p then _ else _). assert (Es2 : nodes s2 = m2 /\ m_begin_item s2 = m_begin_item s /\ m_free_list s2 = p /\
    m_end_item s2 = (if m_end_item s =? p then q else m_end_item s) /\ m_cur_ar_size s2 = m_cur_ar_size s /\ m_max_size s2 = m_max_size s).
  { unfold s2. destruct (m_end_item s =? p); cbn; rewrite ?Hlp; done. }
  destruct Es2 as (Em & Ebg & Efr & Eend & Ecur & Emax). rewrite Ebg. destruct (Z.eqb_spec p (m_begin_item s)) as [|_]; [done|].
  rewrite Hlp. erewrite updNode_Ok by (rewrite Em; unfold m2; rewrite lookup_insert_ne by done; exact Hnq). ostep. rewrite Em.
  set (m3 := <[q := set_lnext nq (next nd)]> m2). set (s3 := setNodes m3 s2).
  pose proof (last_without l1 q p l2 Hpn) as Hlast. rewrite <- He in Hlast.
  assert (Hend : m_end_item s2 = default nullptr (last ((l1 ++ [q]) ++ l2))) by (by rewrite Eend, Hlast).
  pose proof (nodup_to_free _ _ _ _ Hnd) as Hnd'.
  assert (Hfin : forall m', (forall x, x <> p -> x <> q -> x ∉ l2 -> m' !! x = nodes s !! x) ->
    m' !! q = Some (set_lnext nq (next nd)) -> m' !! p = Some (set_lnext nd (m_free_list s)) ->
    (forall x, item <$> m' !! x = item <$> nodes s !! x) -> seg m' (Some q) (next nd) l2 ->
    LRel (setNodes m' s3) ((l1 ++ [q]) ++ l2) (p :: fs) (take (length (l1 ++ [q])) xs ++ drop (S (length (l1 ++ [q]))) xs)).
  { intros m' Hx Hq' Hp' Hitem Hseg. split; cbn [setNodes nodes m_begin_item m_free_list m_end_item m_cur_ar_size m_max_size s3].
    - rewrite Ebg, <- app_assoc. cbn [app]. apply Hj; [|exact Hseg]. intros x Hin.
      destruct (decide (x = q)) as [->|]; [by rewrite lookup_insert_eq|]. rewrite lookup_insert_ne by done. apply Hx; set_solver.
    - rewrite Efr. eapply chain_push; [exact Hf | set_solver | done | exact Hp' | done|].
      intros x Hin. apply Hx; intros Heq; set_solver.
    - exact Hnd'.
    - exact Hend.
    - destruct (items_remove (nodes s) m' (l1 ++ [q]) p l2 xs Hi) as [H _]; [by intros; apply Hitem | exact H].
    - rewrite Ecur, Emax. done. }
  destruct (Z.eqb_spec (next nd) nullptr) as [Hz|Hz]; cbn [negb].
  - ostep. exists s3. rewrite En. split; [done|]. change s3 with (setNodes m3 s3). destruct l2 as [|r l2]; [|by destruct Hs2 as (E & ? & _); congruence].
    apply Hfin; unfold m3, m2; try done.
    + intros x ? ? ?. by rewrite !lookup_insert_ne.
    + apply lookup_insert_eq.
    + by rewrite lookup_insert_ne, lookup_insert_eq.
    + intros x. destruct (decide (x = q)) as [->|]; [by rewrite lookup_insert_eq, Hnq|]. rewrite lookup_insert_ne by done.
      destruct (decide (x = p)) as [->|]; [by rewrite lookup_insert_eq, Hp | by rewrite lookup_insert_ne].
  - destruct l2 as [|r l2]; [done|]. destruct Hs2 as (Er & Hr0 & nr & Hnr & _ & Hs2). cbn [lnext node_links] in Er. rewrite Er in *.
    assert (r <> p /\ r <> q) as [Hrp Hrq] by set_solver.
    erewrite updNode_Ok by (cbn [setNodes nodes s3]; unfold m3, m2; rewrite !lookup_insert_ne by done; exact Hnr). ostep.
    eexists. split; [done|]. cbn [s3 setNodes nodes]. apply NoDup_cons in Hnd2 as [Hrl Hnd2].
    apply Hfin; unfold m3, m2; rewrite ?Er.
    + intros x ? ? ?. rewrite !lookup_insert_ne; [done..|]. set_solver.
    + rewrite lookup_insert_ne, lookup_insert_eq by done. done.
    + rewrite !lookup_insert_ne, lookup_insert_eq by done. done.
    + intros x. destruct (decide (x = r)) as [->|]; [by rewrite lookup_insert_eq, Hnr|]. rewrite lookup_insert_ne by done.
      destruct (decide (x = q)) as [->|]; [by rewrite lookup_insert_eq, Hnq|]. rewrite lookup_insert_ne by done.
      destruct (decide (x = p)) as [->|]; [by rewrite lookup_insert_eq, Hp | by rewrite lookup_insert_ne].
    + split; [done|]. split; [done|]. exists (set_lprev nr q). rewrite lookup_insert_eq. split; [done|]. split; [intros ? [= <-]; reflexivity|]. cbn [lnext set_lprev node_links next]. 
      eapply seg_ext; [|exact Hs2]. intros x Hx. rewrite !lookup_insert_ne; [done|..]; intros ->; set_solver.
Qed.

(** The back link of a node that is alone is read by [erase], and must be null then. *)
Definition aloneOk (s : KList) (ns : list Z) : Prop :=
  forall p, ns = [p] -> prev <$> nodes s !! p = Some nullptr.

Lemma erase_spec s l1 p l2 fs xs : LRel s (l1 ++ p :: l2) fs xs -> aloneOk s (l1 ++ p :: l2) ->
  exists s', erase p s = Ok (default nullptr (head l2), s') /\
    LRel s' (l1 ++ l2) (p :: fs) (take (length l1) xs ++ drop (S (length l1)) xs).
Proof.
  intros HL Ha. destruct (exists_last_or_nil l1) as [->|(l1' & q & ->)]; [|by apply erase_later].
  cbn [app] in *. destruct (seg_in _ _ _ _ p (lr_seg _ _ _ _ HL) ltac:(left)) as [Hp0 [nd Hnd]].
  destruct (unlink_first s p l2 fs xs nd HL Hnd) as (En & Eb & Hs & Hc & Hno & Hi). destruct HL as [_ _ Hno0 He _ Hsz'].
  unfold erase. rewrite (deref_Some _ _ _ Hnd). ostep. rewrite (toFree_run _ _ _ Hnd). ostep. cbn [setFree setNodes m_end_item].
  destruct (Z.eqb_spec (m_end_item s) p) as [E|E]; cbn [setEnd setFree setNodes m_begin_item]; rewrite Eb, Z.eqb_refl, En;
    (eexists; split; [done|]); rewrite En in Hs; split; cbn; try done.
  - destruct l2 as [|r l2].
    + specialize (Ha p eq_refl). rewrite Hnd in Ha. by injection Ha.
    + exfalso. rewrite He, last_cons in E. apply NoDup_cons in Hno0 as [Hno0 _]. cbn [app] in Hno0.
      destruct (last (r :: l2)) as [z|] eqn:El; [|by apply last_None in El]. cbn in E. subst z. apply last_Some_elem_of in El. set_solver.
  - rewrite He, last_cons. destruct (last l2) eqn:El; [done|]. apply last_None in El as ->. rewrite He in E. by destruct E.
Qed.

(** What [remove_first] does to a list. *)
Fixpoint removeFirst (x : Z) (xs : list Z) : option (list Z) :=
  match xs with
  | [] => None
  | y :: xs => if y =? x then Some xs else cons y <$> removeFirst x xs
  end.

Lemma seg_split (m : gmap Z Node) l1 l2 : forall pr h, seg m pr h (l1 ++ l2) -> exists pr' h', seg m pr' h' l2 /\
  (l1 = [] -> h' = h) /\ (forall p nd, last l1 = Some p -> m !! p = Some nd -> h' = next nd).
Proof.
  induction l1 as [|a l1 IH]; intros pr h; cbn [app].
  { intros Hs. exists pr, h. split; [done|]. split; [done|]. intros p nd E. discriminate E. }
  intros (-> & Ha & n & Hn & Hpr & Hs). destruct (IH _ _ Hs) as (pr' & h' & Hs' & H0 & H1). exists pr', h'. split; [done|].
  split; [done|]. intros p nd. destruct l1 as [|b l1].
  - cbn. intros [= <-] Hm. rewrite H0 by done. rewrite Hn in Hm. by injection Hm as ->.
  - rewrite last_cons_cons. apply H1.
Qed.

Lemma removeLoop_spec x s fs xs : forall l2 fuel l1, LRel s (l1 ++ l2) fs xs -> aloneOk s (l1 ++ l2) -> (length l2 <= fuel)%nat ->
  exists r s', removeLoop fuel x (default nullptr (head l2)) s = Ok (r, s') /\
    LInv s' (take (length l1) xs ++ default (drop (length l1) xs) (removeFirst x (drop (length l1) xs))) /\
    r = bool_decide (is_Some (removeFirst x (drop (length l1) xs))).
Proof.
  induction l2 as [|p l2 IH]; intros fuel l1 HL Ha Hf.
  - assert (Hd : drop (length l1) xs = []).
    { apply drop_ge. rewrite <- (items_length _ _ _ (lr_items _ _ _ _ HL)), app_nil_r. done. }
    exists false, s. rewrite Hd. split; [by destruct fuel|]. split; [|done]. cbn. rewrite app_nil_r, take_ge.
    + by exists (l1 ++ []), fs.
    + rewrite <- (items_length _ _ _ (lr_items _ _ _ _ HL)), app_nil_r. done.
  - destruct (seg_in _ _ _ _ p (lr_seg _ _ _ _ HL) ltac:(set_solver)) as [Hp0 [nd Hnd]].
    destruct fuel as [|fuel]; [cbn in Hf; lia|]. cbn [head default from_option id removeLoop].
    destruct (Z.eqb_spec p nullptr) as [|_]; [done|]. rewrite (deref_Some _ _ _ Hnd). ostep.
    destruct (items_remove (nodes s) (nodes s) l1 p l2 xs (lr_items _ _ _ _ HL)) as [_ Ey]; [done|].
    rewrite Hnd in Ey. symmetry in Ey. cbn in Ey. rewrite (drop_S _ _ _ Ey). cbn [removeFirst].
    destruct (Z.eqb_spec (item nd) x) as [Ex|Ex].
    + destruct (erase_spec s l1 p l2 fs xs HL Ha) as (s' & E & HL'). rewrite E. ostep. exists true, s'. split; [done|]. split; [|done].
      by exists (l1 ++ l2), (p :: fs).
    + assert (Hnx : next nd = default nullptr (head l2)).
      { destruct (seg_split (nodes s) (l1 ++ [p]) l2 None (m_begin_item s)) as (pr' & h' & Hs' & _ & Hl).
        - rewrite <- app_assoc. apply (lr_seg _ _ _ _ HL).
        - rewrite <- (Hl p nd (last_snoc _ _) Hnd). destruct l2; [exact Hs' | destruct Hs' as (E & _); exact E]. }
      rewrite Hnx. destruct (IH fuel (l1 ++ [p])) as (r & s' & E & HL' & Er).
      * by rewrite <- app_assoc.
      * by rewrite <- app_assoc.
      * cbn in Hf. lia.
      * exists r, s'. split; [done|]. rewrite length_app in HL', Er. cbn [length] in HL', Er. rewrite Nat.add_1_r in HL', Er.
        rewrite (take_S_r _ _ _ Ey), <- app_assoc in HL'. split.
        -- destruct (removeFirst x (drop (S (length l1)) xs)); exact HL'.
        -- rewrite Er. destruct (removeFirst x (drop (S (length l1)) xs)); done.
Qed.

(** ** Refinement *)

Inductive Op : Type :=
| OPush (ar : Area) (x : Z)
| OPop
| ORemove (x : Z)
| OErase (i : nat).

(** [erase] is called with the iterator after [i] steps from [begin()]. *)
Definition run (op : Op) (s : KList) : outcome (bool * KList) :=
  match op with
  | OPush ar x => '(_, s) ← push_back ar x s; Ok (true, s)
  | OPop => s ← pop_front s; Ok (true, s)
  | ORemove x => remove_first x s
  | OErase i => it ← advance i (m_begin_item s) s; '(_, s) ← erase it s; Ok (true, s)
  end.

Definition specRun (op : Op) (xs : list Z) : bool * list Z :=
  match op with
  | OPush _ x => (true, xs ++ [x])
  | OPop => (true, drop 1 xs)
  | ORemove x => match removeFirst x xs with Some ys => (true, ys) | None => (false, xs) end
  | OErase i => (true, take i xs ++ drop (S i) xs)
  end.

(** The list is not empty where a node is taken, the iterator is valid, memory is fresh,
    and [erase] is not used on a node that is alone but was not the first to come. *)
Definition allowed (op : Op) (s : KList) (xs : list Z) : Prop :=
  match op with
  | OPush ar _ => m_free_list s = nullptr -> freshArea ar s
  | OPop => xs <> []
  | ORemove _ => length xs = 1%nat -> prev <$> nodes s !! m_begin_item s = Some nullptr
  | OErase i => (i < length xs)%nat /\ (length xs = 1%nat -> prev <$> nodes s !! m_begin_item s = Some nullptr)
  end.

Lemma aloneOk_intro s ns fs xs : LRel s ns fs xs ->
  (length xs = 1%nat -> prev <$> nodes s !! m_begin_item s = Some nullptr) -> aloneOk s ns.
Proof.
  intros HL H p ->. destruct (lr_seg _ _ _ _ HL) as (Eb & _). rewrite <- Eb. apply H.
  by rewrite <- (items_length _ _ _ (lr_items _ _ _ _ HL)).
Qed.

Lemma advance_spec s : forall l1 p l2 pr h, seg (nodes s) pr h (l1 ++ p :: l2) -> advance (length l1) h s = Ok p.
Proof.
  induction l1 as [|a l1 IH]; intros p l2 pr h; cbn [app length advance].
  - by intros (-> & _).
  - intros (-> & _ & n & Hn & _ & Hs). rewrite (deref_Some _ _ _ Hn). ostep. by eapply IH.
Qed.

Lemma remove_first_spec x s xs : LInv s xs ->
  (length xs = 1%nat -> prev <$> nodes s !! m_begin_item s = Some nullptr) ->
  exists s', remove_first x s = Ok (fst (specRun (ORemove x) xs), s') /\ LInv s' (snd (specRun (ORemove x) xs)).
Proof.
  intros (ns & fs & HL) Ha. unfold remove_first. assert (Hb : m_begin_item s = default nullptr (head ns)).
  { pose proof (lr_seg _ _ _ _ HL) as Hs. destruct ns; [exact Hs | by destruct Hs as (E & _)]. }
  rewrite Hb. destruct (removeLoop_spec x s fs xs ns (size (nodes s)) []) as (r & s' & E & HL' & Er);
    [done | by eapply aloneOk_intro | by eapply nodes_bound|]. exists s'. rewrite E.
  cbn [length] in HL', Er. rewrite !drop_0, take_0 in HL'. rewrite drop_0 in Er. cbn [app specRun] in *.
  subst r. destruct (removeFirst x xs); by split.
Qed.

Lemma empty_spec s xs : LInv s xs -> empty s = bool_decide (xs = []).
Proof.
  intros (ns & fs & HL). unfold empty. pose proof (items_length _ _ _ (lr_items _ _ _ _ HL)) as Hl. pose proof (lr_seg _ _ _ _ HL) as Hs.
  destruct ns as [|p ns], xs as [|x xs]; try done; cbn in Hs.
  - by rewrite Hs.
  - destruct Hs as (-> & Hp & _). by destruct (Z.eqb_spec p nullptr).
Qed.

(** C23: the list container refines lists.  In every state that represents [xs], a
    [push_back], [pop_front], [remove_first] or [erase] that is [allowed] returns, gives
    the result the operation has on lists, and leads to a state that represents the
    resulting list; the nodes it takes off are free again. *)
Theorem klist_refines (op : Op) (s : KList) (xs : list Z) : LInv s xs -> allowed op s xs ->
  exists s', run op s = Ok (fst (specRun op xs), s') /\ LInv s' (snd (specRun op xs)).
Proof.
  intros (ns & fs & HL) Ha. destruct op as [ar x| |x|i]; cbn [run specRun allowed fst snd] in *.
  - destruct (push_back_spec ar x s ns fs xs HL Ha) as (p & s' & fs' & E & HL'). rewrite E. ostep. exists s'. split; [done|]. by exists (ns ++ [p]), fs'.
  - destruct ns as [|p ns]; [by pose proof (items_length _ _ _ (lr_items _ _ _ _ HL)); destruct xs|].
    destruct (pop_front_spec s p ns fs xs HL) as (s' & E & HL'). rewrite E. ostep. exists s'. split; [done|]. by exists ns, (p :: fs).
  - apply remove_first_spec; [by exists ns, fs | done].
  - destruct Ha as [Hi Ha]. rewrite <- (items_length _ _ _ (lr_items _ _ _ _ HL)) in Hi.
    destruct (lookup_lt_is_Some_2 ns i Hi) as [p Hp]. apply list_elem_of_split_length in Hp as (l1 & l2 & -> & ->).
    rewrite (advance_spec s l1 p l2 None _ (lr_seg _ _ _ _ HL)). ostep.
    destruct (erase_spec s l1 p l2 fs xs HL) as (s' & E & HL'); [by eapply aloneOk_intro|]. rewrite E. ostep.
    exists s'. split; [done|]. by exists (l1 ++ l2), (p :: fs).
Qed.

End KList.

(** ** Small lists

    Nodes of 24 bytes; the first area lies at 0x1000. *)
Module Demo.

Definition ar : Area := mkArea 0x1000 (fun _ => mkNode 0 0 0).
Fixpoint runs (ops : list Op) (s : KList) : outcome KList :=
  match ops with
  | [] => Ok s
  | op :: ops => '(_, s) ← run 24 op s; runs ops s
  end.
Definition state (ops : list Op) : KList := match runs ops newKList with Ok s => s | _ => newKList end.

Lemma fresh_new : freshArea 24 ar newKList.
Proof. split; [done|]. intros q _. reflexivity. Qed.

Lemma klist_refines_witness :
  exists s, runs [OPush ar 5; OPush ar 7; ORemove 5] newKList = Ok s /\ LInv s [7].
Proof.
  destruct (klist_refines 24 ltac:(lia) (OPush ar 5) newKList [] newKList_LInv) as (s1 & E1 & H1); [intros _; exact fresh_new|].
  assert (s1 = state [OPush ar 5]) as -> by (unfold state; cbn [runs]; rewrite E1; reflexivity).
  destruct (klist_refines 24 ltac:(lia) (OPush ar 7) (state [OPush ar 5]) [5] H1) as (s2 & E2 & H2); [vm_compute; intros [=]|].
  assert (s2 = state [OPush ar 5; OPush ar 7]) as ->.
  { unfold state at 1. cbn [runs]. rewrite E1. ostep. rewrite E2. reflexivity. }
  destruct (klist_refines 24 ltac:(lia) (ORemove 5) (state [OPush ar 5; OPush ar 7]) [5; 7] H2) as (s3 & E3 & H3); [done|].
  exists s3. split; [|exact H3]. cbn [runs]. rewrite E1. ostep. rewrite E2. ostep. rewrite E3. reflexivity.
Defined.

(** The second node keeps its back link to the first, which is free; when it is erased
    as the last one, the end of the list becomes the free node, and the next item is
    appended to that: the list stays empty. *)
Lemma erase_last_stale :
  let s := state [OPush ar 1; OPush ar 2; ORemove 1; ORemove 2; OPush ar 3] in
  empty s = true /\ m_end_item s <> nullptr.
Proof. vm_compute. done. Qed.

(** [clear_no_free] erases from the front, so this is what it leaves of every list with
    two items or more. *)
Lemma clear_no_free_stale :
  match clear_no_free (state [OPush ar 1; OPush ar 2]) with
  | Ok s => m_begin_item s = nullptr /\ m_end_item s <> nullptr
  | _ => False
  end.
Proof. vm_compute. done. Qed.

(** After [clear] the free list still names nodes of an area that was given back. *)
Lemma clear_dangling : push_back 24 ar 2 (clear 24 (state [OPush ar 1])) = Fault.
Proof. vm_compute. reflexivity. Qed.

End Demo.
