(* ===== verification/InterruptQueue.v ===== *)
(** * Interrupt queues (kernel/InterruptQueue.cpp, include/InterruptQueue.h)

    Interrupt handlers push items to a bounded queue; threads pop them and sleep while it
    is empty.  The nodes are an array; free ones are chained through their next link.
    Sleeping threads are chained through the field [m_realtimeNext] of their tasks, which
    is also the link of the scheduler's realtime list: a push moves the first of them
    there.  Both operations run under the queue's lock, so each is one step; a pop is
    split where its thread sleeps.

    The nodes have the shape of [KList.Node]; items are values of [Z]. *)

From S2P Require Import Prelude FreeList KList Task Event EventWait Sched.

Record IQueue : Type := mkIQueue {
  q_nodes : gmap Z Node;
  m_size : Z;
  m_used : Z;
  m_free : Z;
  m_head : Z;
  m_tail : Z;
  m_waitHead : Z;
  m_waitTail : Z }.

Section IQueue.
Context {X : Type}.
(** The array [m_nodes] and [sizeof(InterruptQueueNode)]. *)
Context (base sz : Z).
Notation KS := (@KS X).

Definition node (i : Z) : Z := base + sz * i.

Fixpoint nodeArray (n : nat) : gmap Z Node :=
  match n with
  | O => ∅
  | S n => <[node (Z.of_nat n) := mkNode 0 nullptr nullptr]> (nodeArray n)
  end.
Definition newQueue (size : Z) : IQueue :=
  mkIQueue (nodeArray (Z.to_nat size)) size 0 nullptr nullptr nullptr nullptr nullptr.

Definition qNodes (m : gmap Z Node) (q : IQueue) : IQueue :=
  mkIQueue m (m_size q) (m_used q) (m_free q) (m_head q) (m_tail q) (m_waitHead q) (m_waitTail q).
Definition qAlloc (used free : Z) (q : IQueue) : IQueue :=
  mkIQueue (q_nodes q) (m_size q) used free (m_head q) (m_tail q) (m_waitHead q) (m_waitTail q).
Definition qList (head tail : Z) (q : IQueue) : IQueue :=
  mkIQueue (q_nodes q) (m_size q) (m_used q) (m_free q) head tail (m_waitHead q) (m_waitTail q).
Definition qWait (head tail : Z) (q : IQueue) : IQueue :=
  mkIQueue (q_nodes q) (m_size q) (m_used q) (m_free q) (m_head q) (m_tail q) head tail.
Definition updN (p : Z) (f : Node -> Node) (q : IQueue) : outcome IQueue :=
  nd ← deref (q_nodes q) p; Ok (qNodes (<[p := f nd]> (q_nodes q)) q).

(** A node for a new item, if there is one. *)
Definition takeNode (q : IQueue) : outcome (option Z * IQueue) :=
  if negb (m_free q =? nullptr) then
    nd ← deref (q_nodes q) (m_free q);
    Ok (Some (m_free q), qAlloc (m_used q) (next nd) q)
  else if m_used q =? m_size q then Ok (None, q)
  else Ok (Some (node (m_used q)), qAlloc (m_used q + 1) (m_free q) q).

(** [newNode->m_next = nullptr; ... m_tail = newNode;] *)
Definition appendNode (newNode x : Z) (q : IQueue) : outcome IQueue :=
  q ← updN newNode (fun nd => set_lnext nd nullptr) q;
  q ← (if negb (m_tail q =? nullptr) then updN (m_tail q) (fun nd => set_lnext nd newNode) q
       else Ok (qList newNode (m_tail q) q));
  q ← updN newNode (fun nd => mkNode x (next nd) (m_tail q)) q;
  Ok (qList (m_head q) newNode q).

(** The first waiting thread, which is taken off. *)
Definition takeWaiter (q : IQueue) (k : KS) : outcome (Z * IQueue) :=
  if negb (m_waitHead q =? nullptr) then
    t ← getTask (m_waitHead q) k;
    let h := m_realtimeNext t in
    Ok (m_waitHead q, qWait h (if h =? nullptr then nullptr else m_waitTail q) q)
  else Ok (nullptr, q).

Definition push (x : Z) (q : IQueue) (k : KS) : outcome (bool * IQueue * KS) :=
  '(n, q) ← takeNode q;
  match n with
  | None => Ok (false, q, k)
  | Some newNode =>
      q ← appendNode newNode x q;
      '(wakeTask, q) ← takeWaiter q k;
      if negb (wakeTask =? nullptr) then
        k ← updT wakeTask (setResult 0) k;
        k ← addWaitTaskRealtime wakeTask k;
        Ok (true, q, k)
      else Ok (true, q, k)
  end.

(** The locked part of [pop]: [inl] is the item, [inr] means that the thread sleeps.  The
    result of [prepareToSleep] is ignored. *)
Definition popNode (q : IQueue) : outcome (Z * IQueue) :=
  let nd := m_head q in
  n ← deref (q_nodes q) nd;
  let h := next n in
  q ← (if negb (h =? nullptr) then
         q ← updN h (fun nd => set_lprev nd nullptr) q; Ok (qList h (m_tail q) q)
       else Ok (qList h nullptr q));
  q ← updN nd (fun n => set_lnext n (m_free q)) q;
  n ← deref (q_nodes q) nd;
  Ok (item n, qAlloc (m_used q) nd q).

Definition waitTask (c : nat) (p timeout : Z) (q : IQueue) (k : KS) : outcome (IQueue * KS) :=
  '(ok, e) ← prepareToSleep p timeout (k_es k);
  let k := withEs k e in
  k ← (if ok : bool then needTaskSwitch c k else Ok k);
  k ← updT p (setRealtimeNext nullptr) k;
  if negb (m_waitTail q =? nullptr) then
    k ← updT (m_waitTail q) (setRealtimeNext p) k; Ok (qWait (m_waitHead q) p q, k)
  else Ok (qWait p p q, k).

Definition pop (c : nat) (p timeout : Z) (q : IQueue) (k : KS) : outcome ((Z + unit) * IQueue * KS) :=
  if negb (m_head q =? nullptr) then '(x, q) ← popNode q; Ok (inl x, q, k)
  else '(q, k) ← waitTask c p timeout q k; Ok (inr tt, q, k).

(** When the thread runs again: [None] means that the pop starts over, [Some] is its result. *)
Definition popResume (p : Z) (k : KS) : outcome (option bool) :=
  t ← getTask p k;
  Ok (if negb (m_waitEventResult t =? 0) then Some false else None).


(** ** Invariant *)

Fixpoint rtChain (ts : gmap Z Task) (h : Z) (ws : list Z) : Prop :=
  match ws with
  | [] => h = nullptr
  | w :: ws => h = w /\ w <> nullptr /\ exists t, ts !! w = Some t /\ rtChain ts (m_realtimeNext t) ws
  end.

Lemma rtChain_ext (ts ts' : gmap Z Task) ws : forall h,
  (forall w, w ∈ ws -> m_realtimeNext <$> ts' !! w = m_realtimeNext <$> ts !! w) -> rtChain ts h ws -> rtChain ts' h ws.
Proof.
  induction ws as [|w ws IH]; intros h Hw; cbn [rtChain]; [done|]. intros (-> & Hw0 & t & Ht & Hc).
  pose proof (Hw w ltac:(left)) as E. rewrite Ht in E. destruct (ts' !! w) as [t'|] eqn:Et'; [|done]. injection E as E.
  split; [done|]. split; [done|]. exists t'. split; [done|]. rewrite E. apply IH; [|done]. intros. apply Hw. by right.
Qed.

Lemma rtChain_in ts ws : forall h w, rtChain ts h ws -> w ∈ ws -> w <> nullptr /\ is_Some (ts !! w).
Proof.
  induction ws as [|a ws IH]; intros h w; cbn [rtChain]; [by intros _ ?%elem_of_nil|].
  intros (-> & Ha & t & Ht & Hc) [->|Hw]%elem_of_cons; [split; [done | by eexists] | by eapply IH].
Qed.

Lemma rtChain_snoc (ts ts' : gmap Z Task) p tp ws : forall h, rtChain ts h ws -> NoDup ws -> p <> nullptr ->
  ts' !! p = Some tp -> m_realtimeNext tp = nullptr ->
  (forall w, w ∈ ws -> m_realtimeNext <$> ts' !! w = (if decide (last ws = Some w) then Some p else m_realtimeNext <$> ts !! w)) ->
  rtChain ts' (if decide (ws = []) then p else h) (ws ++ [p]).
Proof.
  induction ws as [|w ws IH]; intros h Hc Hnd Hp Htp Hn Hw; cbn [app].
  { cbn. split; [done|]. split; [done|]. exists tp. done. }
  destruct Hc as (-> & Hw0 & t & Ht & Hc). apply NoDup_cons in Hnd as [Hwn Hnd]. rewrite decide_False by done. cbn [rtChain].
  split; [done|]. split; [done|]. pose proof (Hw w ltac:(left)) as E. rewrite Ht in E.
  assert (Ht' : exists t', ts' !! w = Some t') by (destruct (ts' !! w); [eauto | by case_decide]). destruct Ht' as [t' Ht'].
  exists t'. split; [done|]. rewrite Ht' in E. specialize (IH _ Hc Hnd Hp Htp Hn).
  assert (Hrest : forall w', w' ∈ ws -> m_realtimeNext <$> ts' !! w' = (if decide (last ws = Some w') then Some p else m_realtimeNext <$> ts !! w')).
  { intros w' Hw'. rewrite Hw by (by right). destruct ws as [|a ws]; [by apply elem_of_nil in Hw'|]. by rewrite last_cons_cons. }
  specialize (IH Hrest). destruct ws as [|a ws].
  - cbn in E. rewrite decide_True in E by done. injection E as ->. exact IH.
  - rewrite decide_False in E; [|rewrite last_cons_cons; intros [= El]; apply last_Some_elem_of in El; by destruct Hwn].
    injection E as ->. rewrite decide_False in IH by done. exact IH.
Qed.

(** The queue holds the items [xs], and the threads [ws] wait. *)
Record QRel (q : IQueue) (k : KS) (ns fs xs ws : list Z) : Prop := mkQRel {
  qr_seg : seg (q_nodes q) None (m_head q) ns;
  qr_free : chain (q_nodes q) (m_free q) fs;
  qr_nodup : NoDup (ns ++ fs);
  qr_cells : forall p, p ∈ ns ++ fs -> exists i, 0 <= i < m_used q /\ p = node i;
  qr_used : Z.of_nat (length (ns ++ fs)) = m_used q /\ m_used q <= m_size q;
  qr_array : forall i, 0 <= i < m_size q -> is_Some (q_nodes q !! node i);
  qr_tail : m_tail q = default nullptr (last ns);
  qr_items : (fun p => item <$> q_nodes q !! p) <$> ns = Some <$> xs;
  qr_wait : rtChain (k_tasks k) (m_waitHead q) ws;
  qr_waitNodup : NoDup ws;
  qr_waitTail : m_waitTail q = default nullptr (last ws) }.

Definition QInv (q : IQueue) (k : KS) (xs ws : list Z) : Prop := exists ns fs, QRel q k ns fs xs ws.

Context (Hbase : 0 < base) (Hsz : 0 < sz).

Lemma node_inj i j : node i = node j -> i = j.
Proof. unfold node. intros. nia. Qed.
Lemma node_pos i : 0 <= i -> node i <> nullptr.
Proof. unfold node, nullptr. intros. nia. Qed.

Lemma updN_Ok p f q nd : q_nodes q !! p = Some nd -> updN p f q = Ok (qNodes (<[p := f nd]> (q_nodes q)) q).
Proof. intros E. unfold updN. by rewrite (deref_Some _ _ _ E). Qed.

Lemma items_len q k ns fs xs ws : QRel q k ns fs xs ws -> length ns = length xs.
Proof. intros HQ. pose proof (qr_items _ _ _ _ _ _ HQ) as E. apply (f_equal length) in E. by rewrite !length_fmap in E. Qed.

Lemma takeNode_full q k ns fs xs ws : QRel q k ns fs xs ws -> m_size q <= Z.of_nat (length xs) -> takeNode q = Ok (None, q).
Proof.
  intros HQ Hfull. pose proof (items_len _ _ _ _ _ _ HQ) as El. destruct (qr_used _ _ _ _ _ _ HQ) as [Hu1 Hu2]. rewrite length_app in Hu1.
  destruct fs as [|f fs]; [|cbn in Hu1; lia]. unfold takeNode. rewrite (qr_free _ _ _ _ _ _ HQ). cbn [negb Z.eqb nullptr].
  destruct (Z.eqb_spec (m_used q) (m_size q)) as [|Hne]; [done|]. cbn in Hu1. lia.
Qed.

(** The node that is taken is a cell of the array that was not in use. *)
Lemma takeNode_spec q k ns fs xs ws : QRel q k ns fs xs ws -> Z.of_nat (length xs) < m_size q ->
  exists p used free fs', takeNode q = Ok (Some p, qAlloc used free q) /\ chain (q_nodes q) free fs' /\
    NoDup (p :: ns ++ fs') /\ (forall y, y ∈ p :: ns ++ fs' -> exists i, 0 <= i < used /\ y = node i) /\
    Z.of_nat (length (p :: ns ++ fs')) = used /\ used <= m_size q.
Proof.
  intros HQ Hroom. pose proof (items_len _ _ _ _ _ _ HQ) as El. destruct HQ as [Hs Hf Hnd Hce [Hu1 Hu2] Ha Ht Hi _ _ _].
  unfold takeNode. destruct fs as [|f fs].
  - rewrite Hf. cbn [negb Z.eqb nullptr]. rewrite length_app in Hu1. cbn [length] in Hu1.
    destruct (Z.eqb_spec (m_used q) (m_size q)) as [|Hne]; [lia|].
    exists (node (m_used q)), (m_used q + 1), nullptr, []. split; [done|]. split; [done|]. rewrite app_nil_r in *. split; [|split; [|split]].
    + apply NoDup_cons. split; [|done]. intros Hin. destruct (Hce _ Hin) as (i & Hi' & E%node_inj). lia.
    + intros y [->|Hy]%elem_of_cons; [exists (m_used q); lia|]. destruct (Hce y Hy) as (i & ? & ?). exists i. lia.
    + cbn [length]. lia.
    + lia.
  - destruct Hf as (Ef & Hf0 & n & Hn & Hf). destruct (Z.eqb_spec (m_free q) nullptr) as [|_]; [congruence|]. cbn [negb].
    rewrite Ef, (deref_Some _ _ _ Hn). ostep. exists f, (m_used q), (next n), fs. split; [done|]. split; [done|].
    assert (Hperm : Permutation (f :: ns ++ fs) (ns ++ f :: fs)) by apply Permutation_middle. split; [|split; [|split]].
    + by rewrite Hperm.
    + intros y Hy. apply Hce. by rewrite <- Hperm.
    + by rewrite Hperm.
    + done.
Qed.

Lemma appendNode_spec q k ns fs xs ws x p used free fs' : QRel q k ns fs xs ws ->
  chain (q_nodes q) free fs' -> NoDup (p :: ns ++ fs') -> (forall y, y ∈ p :: ns ++ fs' -> exists i, 0 <= i < used /\ y = node i) ->
  Z.of_nat (length (p :: ns ++ fs')) = used -> used <= m_size q ->
  exists q', appendNode p x (qAlloc used free q) = Ok q' /\ QRel q' k (ns ++ [p]) fs' (xs ++ [x]) ws /\
    m_waitHead q' = m_waitHead q /\ m_size q' = m_size q.
Proof.
  intros [Hs _ _ _ _ Ha Ht Hi Hw Hwn Hwt] Hc Hnd Hce Hu Hus.
  destruct (Hce p ltac:(left)) as (i & Hi0 & Ep). destruct (Ha i ltac:(lia)) as [np Hnp]. rewrite <- Ep in Hnp.
  assert (Hp0 : p <> nullptr) by (rewrite Ep; apply node_pos; lia). apply NoDup_cons in Hnd as [Hpn Hnd]. apply not_elem_of_app in Hpn as [Hpn Hpf].
  assert (Hperm : Permutation (p :: ns ++ fs') ((ns ++ [p]) ++ fs')) by (rewrite <- app_assoc; apply Permutation_middle).
  unfold appendNode. cbn [qAlloc]. erewrite updN_Ok by exact Hnp. ostep. cbn [qNodes qAlloc m_tail q_nodes].
  set (m1 := <[p := set_lnext np nullptr]> (q_nodes q)).
  assert (Hgen : forall m h, (forall y, y ∈ ns ++ fs' -> item <$> m !! y = item <$> q_nodes q !! y) ->
    (forall y, y ∈ fs' -> m !! y = q_nodes q !! y) -> (forall y, is_Some (q_nodes q !! y) -> is_Some (m !! y)) ->
    seg m None h (ns ++ [p]) -> item <$> m !! p = Some x ->
    QRel (mkIQueue m (m_size q) used free h p (m_waitHead q) (m_waitTail q)) k (ns ++ [p]) fs' (xs ++ [x]) ws).
  { intros m h Hit Hfs Hdom Hseg Hx. split; cbn; try done.
    - by eapply freeChain_ext.
    - rewrite <- Hperm. apply NoDup_cons. split; [by apply not_elem_of_app | done].
    - intros y Hy. apply Hce. by rewrite Hperm.
    - by rewrite <- Hperm.
    - intros j Hj. by apply Hdom, Ha.
    - by rewrite last_snoc.
    - rewrite fmap_app, (fmap_app Some xs). f_equal; [|cbn; by rewrite Hx].
      eapply items_ext; [|exact Hi]. intros y Hy. apply Hit, elem_of_app. by left. }
  destruct (exists_last_or_nil ns) as [->|(l & e & ->)].
  - rewrite Ht. cbn [last default from_option id negb Z.eqb nullptr]. ostep. cbn [qList qNodes qAlloc m_tail q_nodes m_head].
    erewrite updN_Ok by (cbn [qList qNodes qAlloc q_nodes]; apply lookup_insert_eq). ostep. eexists. split; [reflexivity|].
    split; [|done]. cbn [qList qNodes m_head q_nodes next]. apply Hgen; unfold m1; cbn [qNodes qList qAlloc q_nodes m_head m_tail next set_lnext node_links].
    + intros y Hy. cbn [app] in Hy. by rewrite !lookup_insert_ne by (intros <-; by apply Hpf).
    + intros y Hy. by rewrite !lookup_insert_ne by (intros <-; by apply Hpf).
    + intros y Hy. destruct (decide (y = p)) as [->|]; [by rewrite lookup_insert_eq | by rewrite !lookup_insert_ne].
    + cbn. split; [done|]. split; [done|]. eexists. rewrite lookup_insert_eq. done.
    + by rewrite lookup_insert_eq.
  - rewrite last_snoc in Ht. cbn in Ht. destruct (seg_in _ _ _ _ e Hs ltac:(set_solver)) as [He0 [ne Hne]].
    rewrite Ht. destruct (Z.eqb_spec e nullptr) as [|_]; [done|]. cbn [negb]. assert (Hep : e <> p) by set_solver.
    erewrite updN_Ok by (cbn [q_nodes qNodes qAlloc qList]; unfold m1; rewrite lookup_insert_ne by done; exact Hne). ostep. cbn [qNodes q_nodes m_tail m_head].
    erewrite updN_Ok by (cbn [q_nodes qNodes qAlloc qList]; unfold m1; rewrite lookup_insert_ne by done; apply lookup_insert_eq). ostep.
    eexists. split; [reflexivity|]. split; [|done]. cbn [qList qNodes m_head q_nodes next set_lnext node_links]. rewrite ?Ht.
    apply NoDup_app in Hnd as (Hndl & Hdis & _). apply NoDup_app in Hndl as (_ & Hel & _). apply Hgen; unfold m1; cbn [qNodes qList qAlloc q_nodes m_head m_tail next set_lnext node_links].
    + intros y Hy. rewrite (lookup_insert_ne _ p y) by (intros <-; set_solver). destruct (decide (y = e)) as [->|]; [by rewrite lookup_insert_eq, Hne|].
      by rewrite !lookup_insert_ne by (intros <-; set_solver).
    + intros y Hy. by rewrite !lookup_insert_ne by (intros <-; set_solver).
    + intros y Hy. destruct (decide (y = p)) as [->|]; [by rewrite lookup_insert_eq|]. rewrite lookup_insert_ne by done.
      destruct (decide (y = e)) as [->|]; [by rewrite lookup_insert_eq | by rewrite !lookup_insert_ne].
    + rewrite <- app_assoc. eapply (seg_snoc (q_nodes q) _ e p ne (mkNode x nullptr e)); try done.
      * rewrite lookup_insert_ne, lookup_insert_eq by done. done.
      * by rewrite lookup_insert_eq, Ht.
      * intros y Hy. by rewrite !lookup_insert_ne by (intros <-; set_solver).
    + by rewrite lookup_insert_eq.
Qed.

(** ** Waking and sleeping *)

Lemma qUpdT_Ok p f (k : KS) t : k_tasks k !! p = Some t ->
  updT p f k = Ok (withEs k (setTasks (k_es k) (<[p := f t]> (k_tasks k)))).
Proof. intros E. unfold updT, updTask. change (tasks (k_es k)) with (k_tasks k). rewrite (deref_Some _ _ _ E). done. Qed.

(** Waiters are not touched by what happens to other tasks. *)
Lemma QRel_tasks q (k k' : KS) ns fs xs ws : QRel q k ns fs xs ws ->
  (forall w, w ∈ ws -> m_realtimeNext <$> k_tasks k' !! w = m_realtimeNext <$> k_tasks k !! w) -> QRel q k' ns fs xs ws.
Proof. intros [? ? ? ? ? ? ? ? Hw ? ?] Hk. split; try done. by eapply rtChain_ext. Qed.

Lemma takeWaiter_none q k ns fs xs : QRel q k ns fs xs [] -> takeWaiter q k = Ok (nullptr, q).
Proof. intros HQ. unfold takeWaiter. by rewrite (qr_wait _ _ _ _ _ _ HQ). Qed.

Lemma takeWaiter_some q k ns fs xs w ws : QRel q k ns fs xs (w :: ws) ->
  exists q', takeWaiter q k = Ok (w, q') /\ QRel q' k ns fs xs ws /\ m_size q' = m_size q.
Proof.
  intros [? ? ? ? ? ? ? ? (Eh & Hw0 & t & Ht & Hc) Hnd Hwt]. apply NoDup_cons in Hnd as [Hwn Hnd].
  unfold takeWaiter. rewrite Eh. destruct (Z.eqb_spec w nullptr) as [|_]; [done|]. cbn [negb]. unfold getTask. rewrite (deref_Some _ _ _ Ht). ostep.
  eexists. split; [done|]. split; [|done]. split; cbn; try done. destruct ws as [|v ws].
  - rewrite Hc. done.
  - destruct Hc as (Ev & Hv0 & _). destruct (Z.eqb_spec (m_realtimeNext t) nullptr); [congruence|]. by rewrite Hwt, last_cons_cons.
Qed.

(** The task [w] was made runnable at the head of the realtime list, with result 0. *)
Record Woken (k k' : KS) (w : Z) : Prop := mkWoken {
  wk_head : k_realtimeHead k' = w;
  wk_task : exists t, k_tasks k' !! w = Some t /\ m_state t = PriorityWait /\ m_waitEventResult t = 0 /\
    m_realtimeNext t = k_realtimeHead k;
  wk_other : forall p, p <> w -> k_tasks k' !! p = k_tasks k !! p }.

Lemma wake_spec w (k : KS) t : k_tasks k !! w = Some t ->
  exists k', (k ← updT w (setResult 0) k; addWaitTaskRealtime w k) = Ok k' /\ Woken k k' w.
Proof.
  intros Ht. rewrite (qUpdT_Ok _ _ _ _ Ht). ostep. unfold addWaitTaskRealtime.
  erewrite qUpdT_Ok by (cbn; apply lookup_insert_eq). ostep. erewrite qUpdT_Ok by (cbn; apply lookup_insert_eq). ostep.
  eexists. split; [reflexivity|]. split; [done| |].
  - eexists. split; [cbn; apply lookup_insert_eq | done].
  - intros p Hp. cbn. by rewrite !lookup_insert_ne.
Qed.

(** ** Refinement *)

Inductive IOp : Type :=
| IPush (x : Z)
| IPop (c : nat) (p timeout : Z).

Definition exec (op : IOp) (q : IQueue) (k : KS) : outcome ((bool + (Z + unit)) * IQueue * KS) :=
  match op with
  | IPush x => '(r, q, k) ← push x q k; Ok (inl r, q, k)
  | IPop c p timeout => '(r, q, k) ← pop c p timeout q k; Ok (inr r, q, k)
  end.

(** The specification: the result, the items, the waiting threads, and who is woken. *)
Definition specExec (size : Z) (op : IOp) (xs ws : list Z) : (bool + (Z + unit)) * list Z * list Z * option Z :=
  match op with
  | IPush x => if Z.of_nat (length xs) <? size then (inl true, xs ++ [x], drop 1 ws, head ws) else (inl false, xs, ws, None)
  | IPop _ p _ => match xs with
                  | x :: xs => (inr (inl x), xs, ws, None)
                  | [] => (inr (inr tt), [], ws ++ [p], None)
                  end
  end.

(** Who pops is running: it does not wait here, and is not terminated. *)
Definition enabledI (op : IOp) (k : KS) (ws : list Z) : Prop :=
  match op with
  | IPush _ => True
  | IPop c p _ => p ∉ ws /\ p <> nullptr /\ (c < length (k_cpus k))%nat /\
      exists t, k_tasks k !! p = Some t /\ m_state t <> Terminated
  end.

(** What an operation does to the scheduler's state: it wakes [who], or it puts the thread
    that pops to sleep, and leaves all other tasks alone but for the link of the last waiter. *)
Definition effect (op : IOp) (r : bool + (Z + unit)) (who : option Z) (k k' : KS) : Prop :=
  match who with
  | Some w => Woken k k' w
  | None =>
      match op, r with
      | IPop _ p _, inr (inr _) =>
          k_realtimeHead k' = k_realtimeHead k /\
          exists t, k_tasks k' !! p = Some t /\ sleeping t = true /\ m_waitEventResult t = WaitError
      | _, _ => k' = k
      end
  end.

Lemma push_spec x q k xs ws : QInv q k xs ws -> Z.of_nat (length xs) < m_size q ->
  exists q' k', push x q k = Ok (true, q', k') /\ QInv q' k' (xs ++ [x]) (drop 1 ws) /\ m_size q' = m_size q /\
    match ws with [] => k' = k | w :: _ => Woken k k' w end.
Proof.
  intros (ns & fs & HQ) Hroom. unfold push.
  destruct (takeNode_spec q k ns fs xs ws HQ Hroom) as (p & used & free & fs' & E1 & Hc & Hnd & Hce & Hu & Hus). rewrite E1. ostep.
  destruct (appendNode_spec q k ns fs xs ws x p used free fs' HQ Hc Hnd Hce Hu Hus) as (q1 & E2 & HQ1 & _ & Es1). rewrite E2. ostep.
  destruct ws as [|w ws].
  - rewrite (takeWaiter_none _ _ _ _ _ HQ1). ostep. cbn [Z.eqb nullptr negb]. exists q1, k. split; [done|]. split; [|done]. by exists (ns ++ [p]), fs'.
  - destruct (takeWaiter_some _ _ _ _ _ _ _ HQ1) as (q2 & E3 & HQ2 & Es2). rewrite E3. ostep.
    destruct (rtChain_in _ _ _ w (qr_wait _ _ _ _ _ _ HQ) ltac:(left)) as [Hw0 [t Ht]]. destruct (Z.eqb_spec w nullptr) as [|_]; [done|]. cbn [negb].
    destruct (wake_spec w k t Ht) as (k' & E4 & HW). rewrite <- (bind_assoc (updT w (setResult 0) k) (fun k => addWaitTaskRealtime w k) (fun k => Ok (true, q2, k))), E4. ostep. exists q2, k'. split; [done|].
    split; [|split; [congruence | done]]. exists (ns ++ [p]), fs'. eapply QRel_tasks; [exact HQ2|]. intros v Hv.
    rewrite (wk_other _ _ _ HW); [done|]. intros ->. pose proof (qr_waitNodup _ _ _ _ _ _ HQ) as [Hwn _]%NoDup_cons. done.
Qed.

Lemma popNode_spec q k x xs ws : QInv q k (x :: xs) ws ->
  exists q', popNode q = Ok (x, q') /\ QInv q' k xs ws /\ m_size q' = m_size q /\ m_head q <> nullptr.
Proof.
  intros (ns & fs & HQ). pose proof (items_len _ _ _ _ _ _ HQ) as El. destruct HQ as [Hs Hf Hnd Hce Hu Ha Ht Hi Hw Hwn Hwt].
  destruct ns as [|p ns]; [done|]. cbn [app] in Hnd. destruct Hs as (Eh & Hp0 & n & Hn & _ & Hs). cbn [lnext node_links] in Hs.
  apply NoDup_cons in Hnd as [Hpn Hnd]. apply not_elem_of_app in Hpn as [Hpn Hpf].
  rewrite !fmap_cons, Hn in Hi. cbn in Hi. injection Hi as Ex Hi.
  assert (Hperm : Permutation (p :: ns ++ fs) (ns ++ p :: fs)) by apply Permutation_middle.
  assert (Hgen : forall m tl, (forall y, y ∈ ns -> item <$> m !! y = item <$> q_nodes q !! y) ->
    (forall y, y ∈ fs -> m !! y = q_nodes q !! y) -> (forall y, is_Some (q_nodes q !! y) -> is_Some (m !! y)) ->
    seg m None (next n) ns -> m !! p = Some (set_lnext n (m_free q)) -> tl = default nullptr (last ns) ->
    QInv (mkIQueue m (m_size q) (m_used q) p (next n) tl (m_waitHead q) (m_waitTail q)) k xs ws).
  { intros m tl Hit Hfs Hdom Hseg Hm Htl. exists ns, (p :: fs). split; cbn [q_nodes m_head m_tail m_free m_used m_size m_waitHead m_waitTail]; try done.
    - eapply chain_push; [exact Hf | done | done | exact Hm | done | exact Hfs].
    - rewrite <- Hperm. apply NoDup_cons. split; [by apply not_elem_of_app | done].
    - intros y Hy. apply Hce. cbn [app]. by rewrite Hperm.
    - rewrite <- Hperm. exact Hu.
    - intros j Hj. by apply Hdom, Ha.
    - by eapply items_ext. }
  unfold popNode. rewrite Eh, (deref_Some _ _ _ Hn). ostep. destruct ns as [|r ns].
  - cbn in Hs. rewrite Hs. cbn [negb Z.eqb nullptr]. ostep. erewrite updN_Ok by exact Hn. ostep. cbn [qNodes qList q_nodes m_free].
    rewrite (deref_Some _ p (set_lnext n (m_free q)) (lookup_insert_eq _ _ _)). ostep. eexists. split; [by rewrite <- Ex|].
    split; [|done]. cbn [qAlloc qNodes qList q_nodes m_size m_used m_head m_tail m_waitHead m_waitTail]. rewrite <- Hs. apply Hgen; cbn [qAlloc qNodes qList q_nodes m_free]; try done.
    + by intros y ?%elem_of_nil.
    + intros y Hy. by rewrite lookup_insert_ne by (intros <-; done).
    + intros y Hy. destruct (decide (y = p)) as [->|]; [by rewrite lookup_insert_eq | by rewrite lookup_insert_ne].
    + apply lookup_insert_eq.
  - destruct Hs as (Er & Hr0 & nr & Hnr & _ & Hs). cbn [lnext node_links] in Er. rewrite Er. destruct (Z.eqb_spec r nullptr) as [|_]; [done|]. cbn [negb].
    erewrite updN_Ok by exact Hnr. ostep. assert (Hrp : r <> p) by set_solver.
    erewrite updN_Ok by (cbn [qNodes qList q_nodes]; rewrite lookup_insert_ne by done; exact Hn). ostep. cbn [qNodes qList q_nodes m_free].
    rewrite (deref_Some _ p (set_lnext n (m_free q)) (lookup_insert_eq _ _ _)). ostep. eexists. split; [by rewrite <- Ex|].
    split; [|done]. cbn [qAlloc qNodes qList q_nodes m_size m_used m_head m_tail m_waitHead m_waitTail]. rewrite <- Er.
    apply NoDup_app in Hnd as (Hndr & Hdis & _). apply NoDup_cons in Hndr as [Hrn Hndr]. apply Hgen; cbn [qAlloc qNodes qList q_nodes m_free]; rewrite ?Er.
    + intros y Hy. rewrite (lookup_insert_ne _ p y) by (intros <-; set_solver). destruct (decide (y = r)) as [->|]; [by rewrite lookup_insert_eq, Hnr | by rewrite lookup_insert_ne].
    + intros y Hy. by rewrite !lookup_insert_ne by (intros <-; set_solver).
    + intros y Hy. destruct (decide (y = p)) as [->|]; [by rewrite lookup_insert_eq|]. rewrite lookup_insert_ne by done.
      destruct (decide (y = r)) as [->|]; [by rewrite lookup_insert_eq | by rewrite lookup_insert_ne].
    + split; [done|]. split; [done|]. exists (set_lprev nr nullptr). rewrite lookup_insert_ne, lookup_insert_eq by done. split; [done|]. split; [done|].
      eapply seg_ext; [|exact Hs]. intros y Hy. by rewrite !lookup_insert_ne by (intros <-; set_solver).
    + apply lookup_insert_eq.
    + rewrite Ht. by rewrite last_cons_cons.
Qed.

Lemma waitTask_spec c p timeout q (k : KS) xs ws t : QInv q k xs ws -> p ∉ ws -> p <> nullptr ->
  (c < length (k_cpus k))%nat -> k_tasks k !! p = Some t -> m_state t <> Terminated ->
  exists q' k', waitTask c p timeout q k = Ok (q', k') /\ QInv q' k' xs (ws ++ [p]) /\ m_size q' = m_size q /\
    k_realtimeHead k' = k_realtimeHead k /\
    exists t', k_tasks k' !! p = Some t' /\ sleeping t' = true /\ m_waitEventResult t' = WaitError.
Proof.
  intros (ns & fs & HQ) Hp Hp0 Hcpu Ht Hst. unfold waitTask. rewrite (prepareToSleep_run (k_es k) p t timeout Ht Hst). ostep.
  set (t1 := asleep timeout (now (k_es k)) t). destruct (lookup_lt_is_Some_2 _ _ Hcpu) as [cpu Ec].
  unfold needTaskSwitch, updCpu. cbn [withEs k_cpus]. rewrite (arr_get_Some _ _ _ Ec). ostep. erewrite arr_set_Some by exact Ec. ostep.
  erewrite qUpdT_Ok by (cbn; apply lookup_insert_eq). ostep.
  set (t2 := setRealtimeNext nullptr t1).
  assert (Hs2 : sleeping t2 = true /\ m_waitEventResult t2 = WaitError).
  { unfold t2, t1, asleep. by destruct (timeout =? WaitInfinite). }
  set (k2 := withEs _ _). assert (Hk2 : k_tasks k2 = <[p := t2]> (k_tasks k)) by (unfold k2; cbn; by rewrite insert_insert_eq).
  assert (Hr2 : k_realtimeHead k2 = k_realtimeHead k) by done. clearbody k2.
  destruct HQ as [? ? ? ? ? ? ? ? Hw Hwn Hwt].
  assert (Hfin : forall k', k_tasks k' !! p = Some t2 ->
    (forall w, w ∈ ws -> m_realtimeNext <$> k_tasks k' !! w = (if decide (last ws = Some w) then Some p else m_realtimeNext <$> k_tasks k !! w)) ->
    QInv (qWait (if decide (ws = []) then p else m_waitHead q) p q) k' xs (ws ++ [p])).
  { intros k' Hk' Hws. exists ns, fs. split; try done.
    - cbn. by eapply rtChain_snoc.
    - apply NoDup_app. split; [done|]. split; [set_solver | apply NoDup_singleton].
    - cbn. by rewrite last_snoc. }
  destruct (exists_last_or_nil ws) as [->|(l & w & ->)].
  - rewrite Hwt. cbn [last default from_option id negb Z.eqb nullptr]. eexists _, k2. split; [done|].
    split; [|split; [done | split; [done|]]].
    + apply (Hfin k2); [by rewrite Hk2, lookup_insert_eq | by intros w ?%elem_of_nil].
    + exists t2. by rewrite Hk2, lookup_insert_eq.
  - rewrite last_snoc in Hwt. cbn in Hwt. rewrite Hwt. destruct (rtChain_in _ _ _ w Hw ltac:(set_solver)) as [Hw0 [tw Htw]].
    destruct (Z.eqb_spec w nullptr) as [|_]; [done|]. cbn [negb]. assert (Hwp : w <> p) by set_solver.
    erewrite qUpdT_Ok by (rewrite Hk2, lookup_insert_ne by done; exact Htw). ostep. eexists _, _. split; [done|].
    split; [|split; [done | split; [done|]]].
    + rewrite decide_False in Hfin by (by destruct l). apply Hfin; cbn; rewrite Hk2.
      * rewrite lookup_insert_ne, lookup_insert_eq by done. done.
      * intros y Hy. rewrite last_snoc. destruct (decide (y = w)) as [->|Hyw].
        -- rewrite lookup_insert_eq. by rewrite decide_True.
        -- rewrite !lookup_insert_ne by set_solver. rewrite decide_False by congruence. done.
    + exists t2. cbn. rewrite Hk2, lookup_insert_ne, lookup_insert_eq by done. done.
Qed.

Lemma head_null q k ws : QInv q k [] ws -> m_head q = nullptr.
Proof. intros (ns & fs & HQ). pose proof (items_len _ _ _ _ _ _ HQ). destruct ns; [|done]. apply (qr_seg _ _ _ _ _ _ HQ). Qed.

(** C22: interrupt queues refine bounded first-in first-out queues.  In every state that
    holds the items [xs] with the threads [ws] waiting, [push] returns false and changes
    nothing exactly when [m_size] items are held; else the item comes last, and the thread
    that has waited longest, if any, is moved to the head of the scheduler's realtime list
    with result 0.  [pop] takes the first item, or makes its thread the last to wait, with
    its task asleep.  Items and threads are never lost or doubled. *)
Theorem interrupt_queue_refines (op : IOp) (q : IQueue) (k : KS) (xs ws : list Z) :
  QInv q k xs ws -> enabledI op k ws ->
  exists q' k', let '(r, xs', ws', who) := specExec (m_size q) op xs ws in
    exec op q k = Ok (r, q', k') /\ QInv q' k' xs' ws' /\ m_size q' = m_size q /\ effect op r who k k'.
Proof.
  intros HQ He. destruct op as [x|c p timeout]; cbn [specExec exec enabledI] in *.
  - destruct (Z.ltb_spec (Z.of_nat (length xs)) (m_size q)) as [Hroom|Hfull].
    + destruct (push_spec x q k xs ws HQ Hroom) as (q' & k' & E & HQ' & Es & Hwake). exists q', k'. rewrite E. ostep.
      split; [done|]. split; [done|]. split; [done|]. destruct ws; exact Hwake.
    + exists q, k. destruct HQ as (ns & fs & HQ). unfold push. rewrite (takeNode_full _ _ _ _ _ _ HQ Hfull). ostep.
      split; [done|]. split; [by exists ns, fs | done].
  - destruct xs as [|x xs].
    + destruct He as (Hp & Hp0 & Hc & t & Ht & Hst).
      destruct (waitTask_spec c p timeout q k [] ws t HQ Hp Hp0 Hc Ht Hst) as (q' & k' & E & HQ' & Es & Hr & Hk).
      exists q', k'. unfold pop. rewrite (head_null _ _ _ HQ). cbn [negb Z.eqb nullptr]. rewrite E. ostep.
      split; [done|]. split; [done|]. split; [done|]. split; [exact Hr | exact Hk].
    + destruct (popNode_spec q k x xs ws HQ) as (q' & E & HQ' & Es & Hh). exists q', k. unfold pop.
      destruct (Z.eqb_spec (m_head q) nullptr) as [|_]; [done|]. cbn [negb]. rewrite E. ostep. done.
Qed.

Lemma nodeArray_lookup n i : 0 <= i < Z.of_nat n -> is_Some (nodeArray n !! node i).
Proof.
  induction n as [|n IH]; intros Hi; [lia|]. cbn [nodeArray]. destruct (decide (i = Z.of_nat n)) as [->|Hne]; [by rewrite lookup_insert_eq|].
  rewrite lookup_insert_ne; [apply IH; lia|]. intros E%node_inj. lia.
Qed.

Lemma newQueue_QInv size (k : KS) : 0 <= size -> QInv (newQueue size) k [] [].
Proof.
  intros Hs. exists [], []. split; try done; try apply NoDup_nil_2.
  - by intros p ?%elem_of_nil.
  - cbn. intros i Hi. apply nodeArray_lookup. lia.
Qed.

End IQueue.

(** ** A small system

    Tasks 16 and 32 run on one CPU; a queue of two nodes at 0x1000. *)
Module Demo.

Definition k0 : @KS unit :=
  mkKS (mkES {[16 := EventWait.Demo.newTask; 32 := EventWait.Demo.newTask]} ∅ [] tt 100) nullptr
    (TaskPriorityQueue.create [0; 0] 2) (TaskPriorityQueue.create [0; 0] 2) [] [mkCpu 16 0 0 0 false 0 true 0 0] 0 10 ∅ [].
Definition q0 : IQueue := newQueue 0x1000 40 2.
Definition after (op : IOp) (q : IQueue) (k : @KS unit) : IQueue * @KS unit :=
  match exec 0x1000 40 op q k with Ok (_, q, k) => (q, k) | _ => (q, k) end.

(** Task 16 finds the queue empty and sleeps; the next item wakes it. *)
Lemma interrupt_queue_refines_witness :
  exists q k q' k', exec 0x1000 40 (IPop 0 16 WaitInfinite) q0 k0 = Ok (inr (inr tt), q, k) /\
    exec 0x1000 40 (IPush 7) q k = Ok (inl true, q', k') /\ QInv 0x1000 40 q' k' [7] [] /\ k_realtimeHead k' = 16.
Proof.
  destruct (interrupt_queue_refines 0x1000 40 ltac:(lia) ltac:(lia) (IPop 0 16 WaitInfinite) q0 k0 [] []) as (q & k & E1 & H1 & Es & _).
  - apply newQueue_QInv; lia.
  - split; [set_solver|]. split; [done|]. split; [cbn; lia|]. exists EventWait.Demo.newTask. split; [reflexivity | discriminate].
  - change (m_size q0) with 2 in Es. destruct (interrupt_queue_refines 0x1000 40 ltac:(lia) ltac:(lia) (IPush 7) q k [] [16] H1 I) as (q' & k' & HH).
    rewrite Es in HH. destruct HH as (E2 & H2 & _ & HW). exists q, k, q', k'. split; [exact E1|]. split; [exact E2|]. split; [exact H2|]. exact (wk_head _ _ _ HW).
Defined.

(** Task 16 waits with a timeout, is woken by it ([excludeTaskFromWaiting] does not know
    the queue) and waits again: it is linked to itself. *)
Definition waitsTwice : option Z :=
  let '(q, k) := after (IPop 0 16 10) q0 k0 in
  let '(q, k) := after (IPop 0 16 10) q k in
  m_realtimeNext <$> k_tasks k !! 16.
Lemma timed_out_waiter_loops : waitsTwice = Some 16.
Proof. vm_compute. reflexivity. Qed.

End Demo.
