(* ===== verification/HeapVmm.v ===== *)
(** * The heap on the virtual memory manager.

    [Heap.v] is written against the class [VmmIface]; this file proves that the
    region management of [Vmm.v] is an instance of it, on the manager states that
    satisfy the invariant, and states what the two give together: the memory of a
    live request lies in a region the manager holds as allocated.

    The names of both components are kept apart by their modules: [Vmm.alloc] and
    [Vmm.free] are the manager's, [Heap.alloc] and [Heap.free] the heap's. *)
From S2P Require Import Prelude FreeList PhMem Paging Heap HeapInv HeapFree Vmm.

(** ** What [alloc] and [free] do to the regions

    The page tables and the memory behind the pages do not decide which region
    is taken: [reserve] and [release] are the parts of [Vmm.alloc] (read-write,
    not committed, as the heap calls it) and [Vmm.free] that work on the regions. *)
Definition reserve (size : Z) (v : Vmm) : outcome (Z * Vmm) :=
  let numPages := u64 (size + PAGE_MASK) / PAGE_SIZE in
  if numPages =? 0 then Ok (nullptr, v)
  else
    '(base, v) ← allocPages numPages v;
    if base =? g_invalidPageOffset then Ok (nullptr, v)
    else Ok (u64 (m_virtualBase v + base * PAGE_SIZE), setAllocFlag v base).

Definition release (pointer : Z) (v : Vmm) : outcome Vmm :=
  if pointer <? m_virtualBase v then Ok v
  else
    let base := (pointer - m_virtualBase v) / PAGE_SIZE in
    if m_virtualPages v <=? base then Ok v
    else '(_, v) ← freePages base v; Ok v.

Section Parts.
Context {endList : EndList} (paging : PagingManager64).

Lemma paged_vmm {U} v (r : outcome (option TlbRequest * PState U)) s : paged v r = Ok s -> vmm s = v.
Proof. unfold paged. intros E. bind_inv E. destruct a as [? ?]. by injection E as <-. Qed.

Lemma alloc_reserve size s p s' : Vmm.alloc paging size VMM_READWRITE s = Ok (p, s') ->
  reserve size (vmm s) = Ok (p, vmm s').
Proof.
  unfold Vmm.alloc, reserve. destruct (_ =? 0); [by intros [= <- <-]|]. intros E. bind_inv E.
  destruct a as [base v]. rewrite E0. ostep. revert E. destruct (base =? _); [by intros [= <- <-]|].
  change (flagSet VMM_READWRITE VMM_COMMIT) with false. change (flagSet VMM_READWRITE VMM_READWRITE) with true.
  cbn [orb]. intros E. bind_inv E. injection E as <- <-.
  apply paged_vmm in E1. cbn [vmm]. by rewrite E1.
Qed.

Lemma free_release p s b s' : Vmm.free paging p s = Ok (b, s') -> release p (vmm s) = Ok (vmm s').
Proof.
  unfold Vmm.free, release. destruct (_ <? _); [by intros [= <- <-]|]. destruct (_ <=? _); [by intros [= <- <-]|].
  intros E. bind_inv E. destruct a as [n v]. rewrite E0. ostep. revert E. destruct (n =? 0); [by intros [= <- <-]|].
  destruct (flagSet _ _); [|by intros [= <- <-]]. intros E. bind_inv E. injection E as <- <-.
  by rewrite (paged_vmm _ _ _ E1).
Qed.

Lemma freeRam_regions p n realloc s s' : Vmm.freeRamPages paging p n realloc s = Ok s' -> vmm s' = vmm s.
Proof.
  unfold Vmm.freeRamPages. destruct (isRamMappingPtr p).
  - destruct (negb _); [done|]. intros E. bind_inv E. destruct a. by injection E as <-.
  - destruct (_ <=? _); intros E; by apply paged_vmm in E.
Qed.
End Parts.

(** ** The range of the pages does not move *)

Ltac shape :=
  try match goal with |- context [if ?b then _ else _] => destruct b end;
  unfold sameShape in *; cbn in *; destruct_and?; split_and?; congruence.

Lemma newItem_shape v i v' : newItem v = Ok (i, v') -> sameShape v v'.
Proof. unfold newItem. destruct (_ =? _); intros E; bind_inv E; injection E as _ <-; shape. Qed.

Lemma addFreeRegion_shape b n v v' : addFreeRegion b n v = Ok v' -> sameShape v v'.
Proof.
  unfold addFreeRegion. intros E. bind_inv E. destruct a as [i w]. bind_inv E. injection E as <-.
  apply newItem_shape in E0. shape.
Qed.

Lemma deleteFreeRegion_shape k p v v' : deleteFreeRegion k p v = Ok v' -> sameShape v v'.
Proof. unfold deleteFreeRegion. intros E. bind_inv E. destruct a0. bind_inv E. injection E as <-. shape. Qed.

Lemma setBusyRegion_shape k p n v v' : setBusyRegion k p n v = Ok v' -> sameShape v v'.
Proof.
  unfold setBusyRegion. intros E. bind_inv E. injection E as <-. apply deleteFreeRegion_shape in E1. shape.
Qed.

Lemma splitRegion_shape rest k p n v b v' : splitRegion rest k p n v = Ok (b, v') -> sameShape v v'.
Proof.
  unfold splitRegion. intros E. bind_inv E. injection E as _ <-.
  apply setBusyRegion_shape in E1. apply addFreeRegion_shape in E3. shape.
Qed.

Lemma takeRegion_shape k p n v b v' : takeRegion k p n v = Ok (b, v') -> sameShape v v'.
Proof. unfold takeRegion. intros E. bind_inv E. injection E as _ <-. by apply setBusyRegion_shape in E1. Qed.

Lemma allocPages_shape n v b v' : allocPages n v = Ok (b, v') -> sameShape v v'.
Proof.
  unfold allocPages. intros E. bind_inv E. destruct a1 as [it|cur mi md]; [by apply takeRegion_shape in E|].
  revert E. destruct (negb _); [by apply splitRegion_shape|]. intros E. bind_inv E.
  destruct a1 as [idx|]; bind_inv E; [by apply splitRegion_shape in E|].
  destruct a1; [by apply takeRegion_shape in E|]. by injection E as _ <-.
Qed.

Lemma mergePrev_shape p b n v x y v' : mergePrev p b n v = Ok (x, y, v') -> sameShape v v'.
Proof.
  unfold mergePrev. repeat case_match; intros E; bind_inv E; injection E as _ _ <-;
    try apply deleteFreeRegion_shape in E2; shape.
Qed.

Lemma mergeNext_shape p b n v y v' : mergeNext p b n v = Ok (y, v') -> sameShape v v'.
Proof.
  unfold mergeNext. repeat case_match; intros E; bind_inv E; injection E as _ <-;
    try apply deleteFreeRegion_shape in E2; shape.
Qed.

Lemma freePages_shape p v n v' : freePages p v = Ok (n, v') -> sameShape v v'.
Proof.
  unfold freePages. destruct (_ =? 0); [intros [= _ <-]; shape|]. destruct (_ =? 0); [intros [= _ <-]; shape|].
  intros E. bind_inv E. destruct a as [[x y] w]. bind_inv E. destruct a as [z w']. bind_inv E. injection E as _ <-.
  apply mergePrev_shape in E0. apply mergeNext_shape in E1. apply addFreeRegion_shape in E2. shape.
Qed.

(** ** The blocks

    A region in use starts at a page whose word has the busy flag and a size. *)
Definition blockHead (w : Z) : bool :=
  flagSet w VMM_REG_BUSY_FLAG && negb (Z.shiftr w VMM_REG_SIZE_SHIFT =? 0).
Definition pageAddr (v : Vmm) (page : Z) : Z := m_virtualBase v + page * PAGE_SIZE.
Definition blocks (v : Vmm) : gmap Z Z :=
  list_to_map ((fun page => (pageAddr v page, Z.shiftr (m_memoryRegions v page) VMM_REG_SIZE_SHIFT * PAGE_SIZE)) <$>
    filter (fun page => blockHead (m_memoryRegions v page) = true) (seqZ 0 (m_virtualPages v))).

Definition busyTile (T : list tile) (page n : Z) : Prop := exists fl, (page, Busy n fl) ∈ placed 0 T.

Lemma busyTile_app T1 T2 x n : busyTile (T1 ++ T2) x n <->
  busyTile T1 x n \/ exists fl, (x, Busy n fl) ∈ placed (tsize T1) T2.
Proof. unfold busyTile. setoid_rewrite placed_app. setoid_rewrite elem_of_app. rewrite Z.add_0_l. naive_solver. Qed.

Lemma busy_placed_cons b t T x n : (exists fl, (x, Busy n fl) ∈ placed b (t :: T)) <->
  (exists fl, x = b /\ t = Busy n fl) \/ exists fl, (x, Busy n fl) ∈ placed (b + tsz t) T.
Proof. cbn [placed]. setoid_rewrite elem_of_cons. naive_solver. Qed.

Lemma busy_placed_free b T x n fl : Forall (fun t => isFree t = true) T -> ~ (x, Busy n fl) ∈ placed b T.
Proof.
  intros HF (T1 & T2 & -> & _)%elem_of_placed. apply Forall_app in HF as [_ HF]. by inversion HF.
Qed.

Lemma busyTile_taken T np page T' x n : taken T np page T' ->
  busyTile T' x n <-> busyTile T x n \/ (x = page /\ n = np).
Proof.
  intros (T1 & m & p & T2 & -> & -> & [[-> ->]|(_ & p' & ->)]);
    rewrite !busyTile_app, !busy_placed_cons; cbn [tsz].
  - naive_solver.
  - replace (tsize T1 + np + (m - np)) with (tsize T1 + m) by lia. naive_solver.
Qed.

Lemma busyTile_taken_apart r T np page T' x n : tiles r 0 T -> taken T np page T' ->
  busyTile T x n -> x + n <= page \/ page + np <= x.
Proof.
  intros Ht (T1 & m & p & T2 & -> & -> & Hc) Hb. assert (np <= m) by (destruct Hc as [[-> _]|[? _]]; lia).
  apply tiles_app in Ht as (Ht1 & _ & Ht2). rewrite Z.add_0_l in Ht2. cbn [tsz] in Ht2.
  rewrite busyTile_app, busy_placed_cons in Hb. cbn [tsz] in Hb. destruct Hb as [[fl Hb]|[(? & _ & ?)|[fl Hb]]]; [|done|].
  - pose proof (placed_range _ _ _ _ _ Ht1 Hb). cbn in *. lia.
  - pose proof (placed_range _ _ _ _ _ Ht2 Hb). lia.
Qed.

Lemma busyTile_marked T1 n fl T2 x m :
  busyTile (T1 ++ Busy n true :: T2) x m <-> busyTile (T1 ++ Busy n fl :: T2) x m.
Proof. rewrite !busyTile_app, !busy_placed_cons. cbn [tsz]. naive_solver. Qed.

Lemma gap_between r T1 t k T2 : tiles r 0 ((T1 ++ t :: k) ++ T2) -> 0 <= tsize k.
Proof.
  rewrite <- app_assoc. intros (_ & Ht)%tiles_app. cbn [tiles app] in Ht. destruct Ht as [_ [Hk _]%tiles_app].
  exact (proj2 (tiles_pos _ _ _ Hk)).
Qed.

(** Two regions in use are the same or apart. *)
Lemma busyTile_apart r T x n y m : tiles r 0 T -> busyTile T x n -> busyTile T y m ->
  (x = y /\ n = m) \/ x + n <= y \/ y + m <= x.
Proof.
  intros Ht [fl (T1 & T2 & E & ->)%elem_of_placed] [fl' (U1 & U2 & E' & ->)%elem_of_placed]. subst T.
  rewrite !Z.add_0_l. apply app_eq_inv in E' as [(k & -> & E')|(k & -> & E')].
  - destruct k as [|t k]; cbn in E'; [injection E' as <- <- <-; left; split; [by rewrite app_nil_r|done]|].
    injection E' as <- E'. right. right. rewrite tsize_app, tsize_cons. cbn [tsz].
    apply gap_between in Ht. lia.
  - destruct k as [|t k]; cbn in E'; [injection E' as <- <- <-; left; split; [by rewrite app_nil_r|done]|].
    injection E' as <- E'. right. left. rewrite E' in Ht. rewrite tsize_app, tsize_cons. cbn [tsz].
    rewrite app_comm_cons, app_assoc in Ht. apply gap_between in Ht. lia.
Qed.

Lemma busyTile_released r T1 n fl T2 T' x m : tiles r 0 (T1 ++ Busy n fl :: T2) -> released T1 n T2 T' ->
  busyTile T' x m <-> busyTile (T1 ++ Busy n fl :: T2) x m /\ x <> tsize T1.
Proof.
  intros Ht (T1' & pre & post & T2' & p & -> & -> & -> & HF & _). apply Forall_app in HF as [HF1 HF2].
  assert (Hsp : forall y k, busyTile ((T1' ++ pre) ++ Busy n fl :: post ++ T2') y k <->
    busyTile (T1' ++ Free (tsize pre + n + tsize post) p :: T2') y k \/ (y = tsize (T1' ++ pre) /\ k = n)).
  { intros y k. rewrite !busyTile_app, !busy_placed_cons, tsize_app. cbn [tsz].
    setoid_rewrite placed_app. setoid_rewrite elem_of_app.
    replace (tsize T1' + tsize pre + n + tsize post) with (tsize T1' + (tsize pre + n + tsize post)) by lia.
    pose proof (fun b => busy_placed_free b pre y k). pose proof (fun b => busy_placed_free b post y k).
    naive_solver. }
  rewrite Hsp. split; [|naive_solver]. intros Hx. split; [by left|]. intros ->.
  assert (Hx' := Hx). rewrite busyTile_app, busy_placed_cons in Hx'. cbn [tsz] in Hx'.
  rewrite tiles_app in Ht. destruct Ht as (Ht1 & (Hn & _) & Ht2). rewrite tiles_app in Ht1. destruct Ht1 as [Ht1 Hp].
  rewrite Z.add_0_l in *. cbn [tsz] in *. pose proof (proj2 (tiles_pos _ _ _ Hp)).
  apply tiles_app in Ht2 as [Hpo Ht2]. pose proof (proj2 (tiles_pos _ _ _ Hpo)). rewrite tsize_app in *.
  destruct Hx' as [[f Hx']|[(? & _ & ?)|[f Hx']]]; [|done|].
  - pose proof (placed_range _ _ _ _ _ Ht1 Hx'). cbn in *. lia.
  - replace (tsize T1' + (tsize pre + n + tsize post)) with (tsize T1' + tsize pre + n + tsize post) in Hx' by lia.
    pose proof (placed_range _ _ _ _ _ Ht2 Hx'). lia.
Qed.

Section Instance.
Context (start0 : Z) (Hstart0 : 0 < start0 /\ start0 mod 4 = 0).

Lemma VInv_tiles T v : VInv start0 T v -> tiles (m_memoryRegions v) 0 T /\ tsize T = m_virtualPages v.
Proof. intros (fs & ls & rc & _ & HT). split; [apply (t_tiles _ _ _ _ _ HT) | apply (t_size _ _ _ _ _ HT)]. Qed.

Lemma blockHead_tile T v page : VInv start0 T v -> 0 <= page < m_virtualPages v ->
  forall n, (blockHead (m_memoryRegions v page) = true /\ Z.shiftr (m_memoryRegions v page) VMM_REG_SIZE_SHIFT = n) <->
    busyTile T page n.
Proof.
  intros HV Hp n. destruct (VInv_tiles _ _ HV) as [Ht _].
  assert (HB : forall n, busyTile T page n -> exists fl, 0 < n < 2 ^ 52 /\ m_memoryRegions v page = busyWord n fl).
  { intros k [fl (T1 & T2 & -> & ->)%elem_of_placed]. destruct HV as (fs & ls & rc & _ & HT).
    destruct (busy_bound _ Hstart0 _ _ _ _ _ _ _ HT) as (_ & Hk & _). exists fl. split; [done|].
    rewrite tiles_app in Ht. by destruct Ht as (_ & (_ & Hw & _) & _). }
  split.
  - intros [Hh Hs]. destruct (VInv_page _ _ _ _ HV Hp) as (T1 & t & T2 & -> & Hpg).
    destruct (decide (isFree t = true \/ page <> tsize T1)) as [Hno|Hyes].
    { exfalso. unfold blockHead, flagSet in Hh. destruct (other_word _ Hstart0 _ _ _ _ _ HV Hpg Hno) as [E|E];
      rewrite E in Hh; [done | by rewrite andb_false_r in Hh]. }
    destruct t as [k fl|]; [|destruct Hyes; by left]. assert (page = tsize T1) as -> by lia.
    assert (Hb : busyTile (T1 ++ Busy k fl :: T2) (tsize T1) k).
    { exists fl. apply elem_of_placed. exists T1, T2. split; [done|lia]. }
    destruct (HB k Hb) as (fl' & Hk & Hw). rewrite Hw, busyWord_size in Hs by done. by subst k.
  - intros Hb. destruct (HB n Hb) as (fl & Hn & Hw). rewrite Hw, busyWord_size by done. split; [|done].
    unfold blockHead, flagSet. rewrite busyWord_size by done.
    destruct (Z.eqb_spec (Z.land (busyWord n fl) VMM_REG_BUSY_FLAG) 0) as [E|_]; [by apply busyWord_flag in E|].
    by destruct (Z.eqb_spec n 0); [lia|].
Qed.

Lemma blocks_lookup T v q m : VInv start0 T v ->
  blocks v !! q = Some m <-> exists page n, busyTile T page n /\ q = pageAddr v page /\ m = n * PAGE_SIZE.
Proof.
  intros HV. unfold blocks. rewrite <- elem_of_list_to_map.
  2: { rewrite <- list_fmap_compose. apply NoDup_fmap_2; [|apply NoDup_filter, NoDup_seqZ].
       intros x y. cbn. unfold pageAddr, PAGE_SIZE. lia. }
  rewrite list_elem_of_fmap. split.
  - intros (page & [= -> ->] & [Hh Hp%elem_of_seqZ]%list_elem_of_filter). eexists page, _. split; [|done].
    apply (blockHead_tile T v page HV); [lia|done].
  - intros (page & n & Hb & -> & ->). assert (Hp : 0 <= page < m_virtualPages v).
    { destruct (VInv_tiles _ _ HV) as [Ht <-]. destruct Hb as [fl Hb].
      pose proof (placed_range _ _ _ _ _ Ht Hb). cbn in *. lia. }
    apply (blockHead_tile T v page HV Hp) in Hb as [Hh <-]. exists page. split; [done|].
    apply list_elem_of_filter. split; [done|]. apply elem_of_seqZ. lia.
Qed.

(** The manager's pages lie in the kernel's address range. *)
Definition ranged (v : Vmm) : Prop :=
  0 < m_virtualBase v /\ m_virtualBase v mod PAGE_SIZE = 0 /\ pageAddr v (m_virtualPages v) <= vm_top.
Definition good (v : Vmm) : Prop := (exists T, VInv start0 T v) /\ ranged v.

Lemma ranged_shape v v' : sameShape v v' -> ranged v -> ranged v'.
Proof. unfold sameShape, ranged, pageAddr. intros (-> & _ & ->). done. Qed.

(** The pages a request needs, and whether it takes the last resort of the search. *)
Definition pagesOf (size : Z) : Z := u64 (size + PAGE_MASK) / PAGE_SIZE.
Definition losesPages (size : Z) (v : Vmm) : bool := negb (pagesOf size =? 0) && lastResort (pagesOf size) v.

Lemma reserve_spec T v size : VInv start0 T v -> ranged v ->
  (reserve size v = Ok (nullptr, v)) \/
  exists page np v', reserve size v = Ok (pageAddr v page, v') /\ sameShape v v' /\
    np = u64 (size + PAGE_MASK) / PAGE_SIZE /\ 0 < np /\ 0 <= page /\ page + np <= m_virtualPages v /\
    (forall x n, busyTile T x n -> x + n <= page \/ page + np <= x) /\
    (losesPages size v = false -> exists T', VInv start0 T' v' /\
       forall x n, busyTile T' x n <-> busyTile T x n \/ (x = page /\ n = np)).
Proof.
  intros HV HR. unfold reserve, losesPages, pagesOf. set (np := u64 (size + PAGE_MASK) / PAGE_SIZE).
  pose proof (u64_range (size + PAGE_MASK)) as Hu.
  assert (0 <= np < 2 ^ 52) by (unfold np, PAGE_SIZE; Z.div_mod_to_equations; lia).
  destruct (Z.eqb_spec np 0) as [|Hn0]; [by left|]. cbn [negb andb].
  destruct (allocPages_spec start0 Hstart0 T v np HV) as (page & v1 & Ea & Hr); [lia|].
  rewrite Ea. ostep. pose proof (allocPages_shape _ _ _ _ Ea) as Hsh. pose proof Hsh as (S1 & S2 & S3).
  pose proof HR as (R1 & R2 & R3). unfold pageAddr, PAGE_SIZE, vm_top in R3.
  assert (Hin : forall q, 0 <= q -> q + np <= m_virtualPages v -> q <> g_invalidPageOffset /\ u64 (m_virtualBase v1 + q * PAGE_SIZE) = pageAddr v q).
  { intros q H0 H1. destruct HV as (fs & ls & rc & _ & HT). pose proof (t_bound _ _ _ _ _ HT) as [? _]. split.
    - unfold g_invalidPageOffset, size_max. lia.
    - unfold pageAddr. rewrite S3. apply u64_small. unfold PAGE_SIZE. lia. }
  destruct Hr as [(-> & -> & _)|[(_ & T1 & Htk & HV1)|(Hl & _ & T1 & n & q & T2 & -> & -> & Hlt & _)]]; [by left|right..].
  - assert (Hb : busyTile T1 page np) by (apply (busyTile_taken _ _ _ _ _ _ Htk); by right).
    destruct Hb as [fl (U1 & U2 & -> & Hpg)%elem_of_placed]. rewrite Z.add_0_l in Hpg. subst page.
    destruct HV1 as (fs & ls & rc & HL1 & HT1). destruct (busy_bound _ Hstart0 _ _ _ _ _ _ _ HT1) as (P1 & Pn & P2 & EV).
    assert (HV1 : VInv start0 (U1 ++ Busy np fl :: U2) v1) by (by exists fs, ls, rc).
    destruct (Hin (tsize U1)) as [Hne Ep]; [lia..|]. destruct (Z.eqb_spec (tsize U1) g_invalidPageOffset) as [E|_]; [done|]. rewrite Ep.
    exists (tsize U1), np, (setAllocFlag v1 (tsize U1)). split_and!; try done; try lia.
    + intros x n'. eapply busyTile_taken_apart; [apply (VInv_tiles _ _ HV) | done].
    + intros _. exists (U1 ++ Busy np true :: U2). split; [by apply setAllocFlag_VInv with (fl := fl)|].
      intros x n'. rewrite (busyTile_marked _ _ fl). by apply busyTile_taken.
  - destruct (VInv_tiles _ _ HV) as [Ht Ets]. rewrite tsize_app, tsize_cons in Ets. cbn [tsz] in Ets.
    pose proof Ht as Ht'. rewrite tiles_app in Ht'. destruct Ht' as (Ht1 & _ & Ht2). pose proof (proj2 (tiles_pos _ _ _ Ht1)). pose proof (proj2 (tiles_pos _ _ _ Ht2)).
    destruct (Hin (tsize T1)) as [Hne Ep]; [lia..|]. destruct (Z.eqb_spec (tsize T1) g_invalidPageOffset) as [E|_]; [done|]. rewrite Ep.
    exists (tsize T1), np, (setAllocFlag v1 (tsize T1)). split_and!; try done; try lia.
    intros x m Hb. eapply (busyTile_taken_apart _ _ np (tsize T1) _ x m Ht); [|exact Hb]. exists T1, n, q, T2.
    split; [done|]. split; [done|]. right. split; [done|]. by exists 0.
Qed.

Lemma release_spec T v p : VInv start0 T v -> ranged v -> is_Some (blocks v !! p) ->
  exists v' T', release p v = Ok v' /\ VInv start0 T' v' /\ sameShape v v' /\
    exists page n, p = pageAddr v page /\ busyTile T page n /\
    forall x m, busyTile T' x m <-> busyTile T x m /\ x <> page.
Proof.
  intros HV (R1 & R2 & R3) [m Hm]. apply (blocks_lookup T) in Hm as (page & n & Hb & -> & ->); [|done].
  pose proof Hb as [fl (U1 & U2 & -> & Hpg)%elem_of_placed]. rewrite Z.add_0_l in Hpg. subst page.
  destruct HV as (fs & ls & rc & HL1 & HT1). destruct (busy_bound _ Hstart0 _ _ _ _ _ _ _ HT1) as (P1 & Pn & P2 & EV).
  assert (HV : VInv start0 (U1 ++ Busy n fl :: U2) v) by (by exists fs, ls, rc).
  unfold release, pageAddr. destruct (Z.ltb_spec (m_virtualBase v + tsize U1 * PAGE_SIZE) (m_virtualBase v)) as [E|_];
    [unfold PAGE_SIZE in E; lia|].
  replace ((m_virtualBase v + tsize U1 * PAGE_SIZE - m_virtualBase v) / PAGE_SIZE) with (tsize U1)
    by (unfold PAGE_SIZE; Z.div_mod_to_equations; lia).
  destruct (Z.leb_spec (m_virtualPages v) (tsize U1)); [lia|].
  destruct (freePages_busy start0 Hstart0 _ _ _ _ _ HV) as (v' & T' & Ef & Hrel & HV'). rewrite Ef. ostep.
  exists v', T'. split_and!; try done; try apply (freePages_shape _ _ _ _ Ef).
  exists (tsize U1), n. split_and!; [done..|]. intros x k.
  eapply busyTile_released; [|done]. apply (t_tiles _ _ _ _ _ HT1).
Qed.

(** ** The instance

    The states that satisfy the invariant.  A request that takes the last resort of
    [allocPages] breaks the invariant ([Vmm.Demo.allocPages_leak]); [kv_lost] records that
    one was made, and from then on the instance is not the manager any more, since it
    leaves the regions alone at that request.  As long as [kv_lost] is false, every
    request was [reserve] ([k_alloc_reserve]). *)
Record KVmm : Type := mkK { kv : Vmm; kv_good : good kv; kv_lost : bool }.

Definition cleanReserve (n : Z) (v : Vmm) : outcome (Z * Vmm) :=
  if losesPages n v then Ok (nullptr, v) else reserve n v.
Definition giveBack (p : Z) (v : Vmm) : outcome (Z * Vmm) := v ← release p v; Ok (nullptr, v).

Definition packed (k : KVmm) (lost : bool) (r : outcome (Z * Vmm)) (H : forall p v, r = Ok (p, v) -> good v) : Z * KVmm :=
  match r as r' return (r = r' -> Z * KVmm) with
  | Ok (p, v) => fun E => (p, mkK v (H p v E) lost)
  | _ => fun _ => (nullptr, k)
  end eq_refl.

Lemma packed_Ok k lost r H p v : r = Ok (p, v) -> exists G, packed k lost r H = (p, mkK v G lost).
Proof. intros ->. cbn. eauto. Qed.

Lemma cleanReserve_good n v p v' : good v -> cleanReserve n v = Ok (p, v') -> good v'.
Proof.
  unfold cleanReserve. intros [[T HV] HR] E. destruct (losesPages n v) eqn:HS; [by injection E as _ <-; split; eauto|].
  destruct (reserve_spec T v n HV HR) as [E'|(page & np & w & E' & Hsh & _ & _ & _ & _ & _ & Hc)]; rewrite E' in E;
    injection E as _ <-; [split; eauto|]. destruct (Hc HS) as (T' & HV' & _). split; eauto using ranged_shape.
Qed.

Lemma giveBack_good q v p v' : good v -> giveBack q v = Ok (p, v') -> good v'.
Proof.
  unfold giveBack, release. intros [[T HV] HR] E. bind_inv E. injection E as _ ->.
  revert E0. destruct (Z.ltb_spec q (m_virtualBase v)); [intros [= <-]; split; eauto|].
  destruct (Z.leb_spec (m_virtualPages v) ((q - m_virtualBase v) / PAGE_SIZE)); [intros [= <-]; split; eauto|].
  intros E. bind_inv E. destruct a as [m w]. injection E as <-. split; [|eauto using ranged_shape, freePages_shape].
  eapply (freePages_VInv start0 Hstart0); [done| |done]. unfold PAGE_SIZE in *. Z.div_mod_to_equations. lia.
Qed.

Definition k_alloc (k : KVmm) (n : Z) : Z * KVmm :=
  packed k (kv_lost k || losesPages n (kv k)) (cleanReserve n (kv k)) (fun p v => cleanReserve_good n (kv k) p v (kv_good k)).
Definition k_free (k : KVmm) (q : Z) : KVmm :=
  (packed k (kv_lost k) (giveBack q (kv k)) (fun p v => giveBack_good q (kv k) p v (kv_good k))).2.

Lemma k_alloc_reserve k n p k' : k_alloc k n = (p, k') -> kv_lost k' = false ->
  kv_lost k = false /\ (reserve n (kv k) = Ok (p, kv k')).
Proof.
  destruct (kv_good k) as [[T HV] HR] eqn:Hg. unfold k_alloc.
  assert (exists p' v', cleanReserve n (kv k) = Ok (p', v') /\ (losesPages n (kv k) = false -> reserve n (kv k) = Ok (p', v'))) as (p' & v' & E & Er).
  { unfold cleanReserve. destruct (losesPages n (kv k)); [by exists nullptr, (kv k)|].
    destruct (reserve_spec T (kv k) n HV HR) as [->|(page & np & w & -> & _)]; eauto. }
  destruct (packed_Ok k (kv_lost k || losesPages n (kv k)) _ (fun p v => cleanReserve_good n (kv k) p v (kv_good k)) _ _ E) as [G ->].
  intros [= <- <-]. cbn [kv_lost kv]. intros [? Hl]%orb_false_iff. split; [done | by apply Er].
Qed.

Lemma k_alloc_cases k n : exists T, VInv start0 T (kv k) /\
    ((exists G l, k_alloc k n = (nullptr, mkK (kv k) G l)) \/
   exists page np v' T' G l, k_alloc k n = (pageAddr (kv k) page, mkK v' G l) /\ VInv start0 T' v' /\
    sameShape (kv k) v' /\ np = u64 (n + PAGE_MASK) / PAGE_SIZE /\ 0 < np /\ 0 <= page /\
    page + np <= m_virtualPages (kv k) /\
    (forall x m, busyTile T x m -> x + m <= page \/ page + np <= x) /\
    forall x m, busyTile T' x m <-> busyTile T x m \/ (x = page /\ m = np)).
Proof.
  destruct (kv_good k) as [[T HV] HR] eqn:Hg. exists T. split; [done|].
  assert (Hc : cleanReserve n (kv k) = Ok (nullptr, kv k) \/
    exists page np v' T', cleanReserve n (kv k) = Ok (pageAddr (kv k) page, v') /\ VInv start0 T' v' /\
    sameShape (kv k) v' /\ np = u64 (n + PAGE_MASK) / PAGE_SIZE /\ 0 < np /\ 0 <= page /\
    page + np <= m_virtualPages (kv k) /\
    (forall x m, busyTile T x m -> x + m <= page \/ page + np <= x) /\
    forall x m, busyTile T' x m <-> busyTile T x m \/ (x = page /\ m = np)).
  { unfold cleanReserve. destruct (losesPages n (kv k)) eqn:HS; [by left|].
    destruct (reserve_spec T (kv k) n HV HR) as [?|(page & np & w & E & Hsh & H1 & H2 & H3 & H4 & H5 & Hc)]; [by left|].
    destruct (Hc HS) as (T' & ? & ?). right. by exists page, np, w, T'. }
  destruct Hc as [E|(page & np & v' & T' & E & Hr)].
  - left. destruct (packed_Ok k (kv_lost k || losesPages n (kv k)) _ (fun p v => cleanReserve_good n (kv k) p v (kv_good k)) _ _ E) as [G EG]. eauto.
  - right. destruct (packed_Ok k (kv_lost k || losesPages n (kv k)) _ (fun p v => cleanReserve_good n (kv k) p v (kv_good k)) _ _ E) as [G EG].
    by eexists page, np, v', T', G, _.
Qed.

Lemma pageAddr_shape v v' page : sameShape v v' -> pageAddr v' page = pageAddr v page.
Proof. unfold pageAddr. by intros (_ & _ & ->). Qed.

#[export, refine] Instance kvmm : VmmIface KVmm := {
  vm_alloc := k_alloc;
  vm_free := k_free;
  vm_freeRam := fun k _ _ => k;
  vm_blocks := fun k => blocks (kv k)
}.
Proof.
  - intros k n. destruct (k_alloc_cases k n) as (T & HV & [(G & l & ->)|(page & np & v' & T' & G & l & -> & _ & _ & _ & _ & Hp & _)]); [done|].
    cbn. destruct (kv_good k) as [_ (R1 & _)]. unfold pageAddr, PAGE_SIZE, nullptr. lia.
  - intros k n p k' E Hp Hn Hal.
    destruct (k_alloc_cases k n) as (T & HV & [(G & l & E')|(page & np & v' & T' & G & l & E' & HV' & Hsh & Hnp & Hnp0 & Hpg & Hend & Hap & Hbt)]);
      rewrite E' in E; injection E as <- <-; [done|]. cbn [kv].
    destruct (kv_good k) as [_ (R1 & R2 & R3)]. unfold PAGE_SIZE, PAGE_MASK in *.
    assert (n = np * 4096) as ->.
    { rewrite u64_small in Hnp by (Z.div_mod_to_equations; lia). Z.div_mod_to_equations. lia. }
    unfold pageAddr, PAGE_SIZE in *. split_and!; [lia | | lia | |].
    + rewrite Z.mod_add by lia. done.
    + apply map_eq. intros q. apply option_eq. intros m.
      rewrite lookup_insert_Some, (blocks_lookup T'), (blocks_lookup T) by done. setoid_rewrite Hbt.
      setoid_rewrite (pageAddr_shape _ _ _ Hsh). unfold pageAddr, PAGE_SIZE. split.
      * intros (x & y & [Hb|[-> ->]] & -> & ->); [|by left]. right. split; [|by exists x, y].
        destruct Hb as [fl Hb]. destruct (VInv_tiles _ _ HV) as [Ht _]. pose proof (placed_range _ _ _ _ _ Ht Hb).
        cbn [tsz] in *. specialize (Hap x y ltac:(by exists fl)). lia.
      * intros [[<- <-]|[Hne (x & y & Hb & -> & ->)]]; [exists page, np | exists x, y]; split_and!; auto.
    + intros q m (x & y & Hb & -> & ->)%(blocks_lookup T); [|done].
      specialize (Hap _ _ Hb). unfold pageAddr, PAGE_SIZE. lia.
  - intros k p Hp. destruct (kv_good k) as [[T HV] HR] eqn:Hg.
    destruct (release_spec T (kv k) p HV HR Hp) as (v' & T' & E & HV' & Hsh & page & n & -> & Hb & Hbt).
    unfold k_free. assert (E' : giveBack (pageAddr (kv k) page) (kv k) = Ok (nullptr, v')) by (unfold giveBack; by rewrite E).
    destruct (packed_Ok k (kv_lost k) _ (fun p v => giveBack_good (pageAddr (kv k) page) (kv k) p v (kv_good k)) _ _ E') as [G ->].
    cbn [snd kv]. apply map_eq. intros q. apply option_eq. intros m.
    rewrite lookup_delete_Some, (blocks_lookup T'), (blocks_lookup T) by done. setoid_rewrite Hbt.
    setoid_rewrite (pageAddr_shape _ _ _ Hsh). unfold pageAddr, PAGE_SIZE. split.
    + intros (x & y & [Hx Hne] & -> & ->). split; [lia|]. eauto.
    + intros [Hne (x & y & Hx & -> & ->)]. exists x, y. split_and!; auto. congruence.
  - done.
Defined.

(** What other users of the manager do between the calls of the heap is one of
    the steps its histories allow: they take new blocks, and they give back blocks
    in which no live request lies. *)
Lemma others_alloc h live n : hreach (V:=KVmm) h live -> hreach (setVmm h (vm_alloc (m_vmm h) n).2) live.
Proof.
  intros Hr. apply hr_others; [done|]. intros q m p Hq _ _.
  destruct (vm_alloc (m_vmm h) n) as [x k] eqn:E. cbn [snd].
  destruct (k_alloc_cases (m_vmm h) n) as (T & HV & [(G & l & E')|(page & np & v' & T' & G & l & E' & HV' & Hsh & _ & _ & _ & _ & _ & Hbt)]);
    cbn in E; rewrite E' in E; injection E as _ <-; [done|]. cbn [vm_blocks kvmm kv] in *.
  apply (blocks_lookup T) in Hq as (y & z & Hb & -> & ->); [|done]. apply (blocks_lookup T'); [done|].
  exists y, z. rewrite (pageAddr_shape _ _ _ Hsh), Hbt. auto.
Qed.

Lemma others_free h live q m : hreach (V:=KVmm) h live -> vm_blocks (m_vmm h) !! q = Some m ->
  (forall p, is_Some (live !! p) -> p < q \/ q + m <= p) -> hreach (setVmm h (vm_free (m_vmm h) q)) live.
Proof.
  intros Hr Hq Hno. apply hr_others; [done|]. intros x y p Hx Hp Hin.
  rewrite vm_free_blocks by eauto. apply lookup_delete_Some. split; [|done]. intros ->.
  rewrite Hq in Hx. injection Hx as ->. destruct (Hno p Hp); lia.
Qed.

(** C24: the heap on the virtual memory manager.  After every history, with other users
    of the manager in between, in which no request of the manager took the last resort of
    its search (which loses pages), the pages are tiled by regions in use and free ones;
    the memory of a live request, with its header, lies inside one region in use; and
    memory that the manager hands out next, even by the last resort, is apart from every
    live request. *)
Theorem heap_on_vmm h live : hreach (V:=KVmm) h live -> kv_lost (m_vmm h) = false ->
  let v := kv (m_vmm h) in
  exists T, VInv start0 T v /\
    (forall p s, live !! p = Some s -> exists page n, busyTile T page n /\
       pageAddr v page <= p - 32 /\ p + s <= pageAddr v (page + n)) /\
    (forall size q v', reserve size v = Ok (q, v') -> q <> nullptr ->
       0 < size < 2 ^ 64 - PAGE_SIZE ->
       forall p s, live !! p = Some s -> p + s <= q \/ q + size <= p).
Proof.
  intros Hr _ v. destruct (hreach_inv _ _ Hr) as (B & fs & ls & HI & T1 & _).
  destruct (kv_good (m_vmm h)) as [[T HV] HR]. exists T. split; [done|].
  assert (Hin : forall p s, live !! p = Some s -> exists page n, busyTile T page n /\
    pageAddr v page <= p - 32 /\ p + s <= pageAddr v (page + n)).
  { intros p s (n & (base & l & Hb & Hpl) & Hs)%T1. pose proof (HInv_place _ _ _ _ _ _ _ _ _ HI Hb Hpl).
    destruct (h_blk _ _ _ _ HI _ _ Hb) as (_ & _ & m & Hm & Hl & _).
    apply (blocks_lookup T) in Hm as (page & k & Hbt & -> & ->); [|done]. exists page, k. split; [done|].
    fold v in H, Hl. unfold pageAddr, PAGE_SIZE in *. lia. }
  split; [done|]. intros size q v' E Hq Hsz p s Hp.
  destruct (reserve_spec T v size HV HR) as [E'|(page & np & w & E' & _ & Hnp & _ & _ & _ & Hap & _)];
    rewrite E' in E; injection E as <- <-; [done|].
  destruct (Hin p s Hp) as (x & n & Hb & H1 & H2). specialize (Hap _ _ Hb).
  unfold pageAddr, PAGE_SIZE, PAGE_MASK in *. rewrite u64_small in Hnp by lia. Z.div_mod_to_equations. lia.
Qed.
End Instance.

(** ** A concrete history *)
Module Demo.
Definition v0 : Vmm :=
  let e := emptyVmm Vmm.Demo.start 10 0xFFFFFF8000200000 1000 in
  match addFreeRegion 0 1000 e with Ok v => v | _ => e end.

Lemma v0_good : good Vmm.Demo.start v0.
Proof.
  destruct (initial_VInv Vmm.Demo.start Vmm.Demo.start_ok 10 0xFFFFFF8000200000 1000) as (p & v & E & HV);
    [split; by vm_compute | by vm_compute | by vm_compute | lia |].
  split; [exists [Free 1000 p]; unfold v0; by rewrite E|]. unfold v0.
  apply addFreeRegion_shape in E as Hsh. rewrite E. eapply ranged_shape; [done|]. by vm_compute.
Qed.

#[local] Instance demoVmm : VmmIface (KVmm Vmm.Demo.start) := kvmm Vmm.Demo.start Vmm.Demo.start_ok.
Definition h0 : Heap.Heap (V:=KVmm Vmm.Demo.start) := emptyHeap (mkK _ v0 v0_good false).
Definition after (m : outcome (Z * Heap.Heap (V:=KVmm Vmm.Demo.start))) : Heap.Heap :=
  match m with Ok (_, h) => h | _ => h0 end.

Lemma one_request : (match Heap.alloc 100 h0 with Ok (p, _) => p | _ => 0 end) = 0xFFFFFF8000200020 /\
  kv_lost _ (m_vmm (after (Heap.alloc 100 h0))) = false /\
  (match reserve 5000 (kv _ (m_vmm (after (Heap.alloc 100 h0)))) with Ok (q, _) => q | _ => 0 end) = 0xFFFFFF8000301000.
Proof. by vm_compute. Qed.

Lemma heap_on_vmm_witness :
  hreach (after (Heap.alloc 100 h0)) {[0xFFFFFF8000200020 := 100]} /\
  exists T page n, VInv Vmm.Demo.start T (kv _ (m_vmm (after (Heap.alloc 100 h0)))) /\ busyTile T page n.
Proof.
  assert (Hr : hreach (after (Heap.alloc 100 h0)) {[0xFFFFFF8000200020 := 100]}).
  { destruct one_request as (Hp & _). destruct (Heap.alloc 100 h0) as [[p h']| | |] eqn:E; [|done..].
    cbn in Hp. subst p. apply (hr_alloc h0 ∅ 100 0xFFFFFF8000200020 h'); [constructor | lia | done]. }
  split; [exact Hr|].
  destruct (heap_on_vmm Vmm.Demo.start Vmm.Demo.start_ok _ _ Hr (proj1 (proj2 one_request))) as (T & HV & Hin & _).
  destruct (Hin 0xFFFFFF8000200020 100 eq_refl) as (page & n & Hb & _). exists T, page, n. split; [exact HV|exact Hb].
Defined.
End Demo.
