(* ===== verification/Tlb.v ===== *)
(** * TLB shootdown (kernel/paging.cpp: flushPagesTlb, tlbShootdownHandler)

    A CPU that changes page tables flushes the pages from its own TLB and asks the
    other CPUs to do the same: it puts the range into a ring buffer of every other
    CPU, or asks for a full flush, and sends them an interrupt if their buffer was
    empty.  The handler of the interrupt empties the buffer of its CPU.

    A critical section of a buffer's lock ([SpinLock]) is one step; between them
    senders and handlers interleave freely.  The set [owed] of a CPU is not part of
    the code: it has the pages whose flush was asked for and has not happened. *)

From S2P Require Import Prelude PhMem Paging.

Definition g_defaultTlbRingBufferSize : Z := 64.
Definition CPU_UPDATE_TLB_LIMIT : Z := 0x400000.

Record TlbShotdownItem : Type := mkItem { m_addr : Z; m_size : Z }.
Record CpuTlbShootdownTask : Type := mkTask {
  m_items : list TlbShotdownItem;
  m_readIndex : Z;
  m_writeIndex : Z;
  m_needFull : bool
}.

Definition emptyTask : CpuTlbShootdownTask :=
  mkTask (replicate (Z.to_nat g_defaultTlbRingBufferSize) (mkItem 0 0)) 0 0 false.
Definition slotOf (index : Z) : nat := Z.to_nat (index mod g_defaultTlbRingBufferSize).

(** ** Flushing a TLB *)

Definition cpuFlushTLB (addr : Z) (owed : gset Z) : gset Z := owed ∖ {[addr / PAGE_SIZE]}.

(** Kernel pages are global: only the change of CR4 flushes them too. *)
Definition cpuFullFlushTLB (addr : Z) (owed : gset Z) : gset Z :=
  if (addr =? 0) || (KERNEL_VIRTUAL_BASE <=? addr) then ∅
  else filter (fun p => KERNEL_VIRTUAL_BASE <= p * PAGE_SIZE) owed.

(** [for (addr = virtualBase; addr < end; addr += PAGE_SIZE) cpuFlushTLB(addr)] *)
Fixpoint flushLoop (fuel : nat) (addr endAddr : Z) (owed : gset Z) : outcome (gset Z) :=
  if addr <? endAddr then
    match fuel with
    | O => NoFuel
    | S fuel => flushLoop fuel (u64 (addr + PAGE_SIZE)) endAddr (cpuFlushTLB addr owed)
    end
  else Ok owed.

Definition localCpuFlushTlb (virtualBase size : Z) (owed : gset Z) : outcome (gset Z) :=
  if size <=? PAGE_SIZE then Ok (cpuFlushTLB virtualBase owed)
  else if CPU_UPDATE_TLB_LIMIT <=? size then Ok (cpuFullFlushTLB virtualBase owed)
  else flushLoop (Z.to_nat (size / PAGE_SIZE + 1)) virtualBase (u64 (virtualBase + size)) owed.

(** ** The handler *)

Inductive handler : Type :=
| HOff
| HFull                       (* m_needFull taken, lock released *)
| HRef (slot : nat)           (* an item taken, lock released *)
| HFlush (addr endAddr : Z)   (* in the loop over the pages of the item *)
| HDone.                      (* before cpuFastEio *)

(** The loop test and, if there is an item, [m_items[m_readIndex++ % size]]: the
    handler keeps a reference to the slot. *)
Definition takeItem (t : CpuTlbShootdownTask) : handler * CpuTlbShootdownTask :=
  if m_readIndex t =? m_writeIndex t then (HDone, t)
  else (HRef (slotOf (m_readIndex t)),
        mkTask (m_items t) (u64 (m_readIndex t + 1)) (m_writeIndex t) (m_needFull t)).

Definition enterHandler (t : CpuTlbShootdownTask) : handler * CpuTlbShootdownTask :=
  if m_needFull t then (HFull, mkTask (m_items t) (m_readIndex t) (m_writeIndex t) false)
  else takeItem t.

(** ** The CPUs *)

Record Cpu : Type := mkCpu {
  c_task : CpuTlbShootdownTask;
  c_handler : handler;
  c_pending : bool;           (* an interrupt that is not delivered yet *)
  c_paging : Z;               (* g_pagingManagers[cpuId] *)
  owed : gset Z
}.

Definition setPending (c : Cpu) : Cpu := mkCpu (c_task c) (c_handler c) true (c_paging c) (owed c).
Definition setTask (c : Cpu) (t : CpuTlbShootdownTask) : Cpu :=
  mkCpu t (c_handler c) (c_pending c) (c_paging c) (owed c).
Definition setOwed (c : Cpu) (o : gset Z) : Cpu :=
  mkCpu (c_task c) (c_handler c) (c_pending c) (c_paging c) o.

(** The interrupt is delivered when no other one of its kind is in service. *)
Definition irq (c : Cpu) : option Cpu :=
  match c_handler c with
  | HOff => if c_pending c then
              let '(h, t) := enterHandler (c_task c) in Some (mkCpu t h false (c_paging c) (owed c))
            else None
  | _ => None
  end.

Definition handlerStep (c : Cpu) : option Cpu :=
  let t := c_task c in
  match c_handler c with
  | HOff => None
  | HFull => Some (mkCpu t HDone (c_pending c) (c_paging c) (cpuFullFlushTLB 0 (owed c)))
  | HRef slot =>
      item ← m_items t !! slot;
      Some (mkCpu t (HFlush (m_addr item) (u64 (m_addr item + m_size item))) (c_pending c) (c_paging c) (owed c))
  | HFlush addr endAddr =>
      if addr <? endAddr then
        Some (mkCpu t (HFlush (u64 (addr + PAGE_SIZE)) endAddr) (c_pending c) (c_paging c)
                (cpuFlushTLB addr (owed c)))
      else
        let '(h, t) := takeItem t in Some (mkCpu t h (c_pending c) (c_paging c) (owed c))
  | HDone => Some (mkCpu t HOff (c_pending c) (c_paging c) (owed c))
  end.

(** ** The sender *)

Inductive sender : Type :=
| SPost (item : TlbShotdownItem) (this : Z) (curCpuId cpuId : nat) (cpuList : list nat)
| SSend (cpuList : list nat).

(** The critical section of [flushPagesTlb] on the buffer of one CPU; the flag says
    whether the CPU goes on the list of those that get an interrupt. *)
Definition oldItems (t : CpuTlbShootdownTask) : Z :=
  u64 (m_writeIndex t - m_readIndex t) mod g_defaultTlbRingBufferSize.
Definition becomesFull (needFull : bool) (t : CpuTlbShootdownTask) : bool :=
  (oldItems t =? g_defaultTlbRingBufferSize - 1) || needFull.
Definition post (item : TlbShotdownItem) (needFull : bool) (t : CpuTlbShootdownTask) : CpuTlbShootdownTask * bool :=
  if m_needFull t then (t, false)
  else
    let t' :=
      if becomesFull needFull t then mkTask (m_items t) 0 0 true
      else mkTask (<[slotOf (m_writeIndex t) := item]> (m_items t)) (m_readIndex t) (u64 (m_writeIndex t + 1)) false in
    (t', oldItems t =? 0).

(** The pages of a range that starts at a page. *)
Definition pagesOf (item : TlbShotdownItem) : gset Z :=
  dom (list_to_map ((fun p => (p, tt)) <$> seqZ (m_addr item / PAGE_SIZE) ((m_size item + PAGE_MASK) / PAGE_SIZE))
       : gmap Z unit).

Record Sys : Type := mkSys { cpus : list Cpu; senders : list sender }.

Inductive action : Type :=
| Begin (curCpuId : nat) (this virtualBase size : Z)  (* flushPagesTlb is called, with needShootdown *)
| Send (i : nat)                                      (* the next step of a sender *)
| Irq (c : nat)                                       (* an interrupt is delivered *)
| Handle (c : nat)                                    (* the next step of a handler *)
| SetCurrent (c : nat) (paging : Z).                  (* PagingManager64::setCurrent *)

(** One step of a sender. *)
Definition sendStep (sd : sender) (cs : list Cpu) : option (list sender * list Cpu) :=
  match sd with
  | SPost item this cur cpuId cpuList =>
      if (cpuId <? length cs)%nat then
        if (cpuId =? cur)%nat then Some ([SPost item this cur (S cpuId) cpuList], cs)
        else
          c ← cs !! cpuId;
          let userMem := m_addr item <? KERNEL_VIRTUAL_BASE in
          if userMem && negb (c_paging c =? this) then Some ([SPost item this cur (S cpuId) cpuList], cs)
          else
            let '(t, listed) := post item (CPU_UPDATE_TLB_LIMIT <=? m_size item) (c_task c) in
            let c := setOwed (setTask c t) (owed c ∪ pagesOf item) in
            Some ([SPost item this cur (S cpuId) (if listed then cpuList ++ [cpuId] else cpuList)], <[cpuId := c]> cs)
      else if negb (length cpuList + 1 =? length cs)%nat then Some ([SSend cpuList], cs)
      else Some ([], imap (fun i c => if (i =? cur)%nat then c else setPending c) cs)
  | SSend [] => Some ([], cs)
  | SSend (cpuId :: l) => Some ([SSend l], alter setPending cpuId cs)
  end.

Definition exec (a : action) (s : Sys) : option Sys :=
  match a with
  | Begin cur this base size =>
      c ← cpus s !! cur;
      match localCpuFlushTlb base size (owed c ∪ pagesOf (mkItem base size)) with
      | Ok o => Some (mkSys (<[cur := setOwed c o]> (cpus s)) (senders s ++ [SPost (mkItem base size) this cur 0 []]))
      | _ => None
      end
  | Send i =>
      sd ← senders s !! i;
      '(new, cs) ← sendStep sd (cpus s);
      Some (mkSys cs (take i (senders s) ++ new ++ drop (S i) (senders s)))
  | Irq c => x ← cpus s !! c; x' ← irq x; Some (mkSys (<[c := x']> (cpus s)) (senders s))
  | Handle c => x ← cpus s !! c; x' ← handlerStep x; Some (mkSys (<[c := x']> (cpus s)) (senders s))
  | SetCurrent c p =>
      x ← cpus s !! c;
      Some (mkSys (<[c := mkCpu (c_task x) (c_handler x) (c_pending x) p (owed x)]> (cpus s)) (senders s))
  end.

Fixpoint execAll (l : list action) (s : Sys) : option Sys :=
  match l with
  | [] => Some s
  | a :: l => s ← exec a s; execAll l s
  end.

(** ** Ranges and pages *)

Record wfItem (it : TlbShotdownItem) : Prop := mkWf {
  wf_page : m_addr it mod PAGE_SIZE = 0;
  wf_pos : 0 <= m_addr it /\ 0 < m_size it;
  wf_top : m_addr it + m_size it + PAGE_SIZE <= 2 ^ 64;
  wf_user : m_addr it < KERNEL_VIRTUAL_BASE -> m_addr it + m_size it <= KERNEL_VIRTUAL_BASE
}.

Definition inRange (a e p : Z) : Prop := a <= p * PAGE_SIZE < e.
Definition inItem (it : TlbShotdownItem) (p : Z) : Prop := inRange (m_addr it) (m_addr it + m_size it) p.

Lemma elem_of_pagesOf it p : wfItem it -> p ∈ pagesOf it <-> inItem it p.
Proof.
  intros [H1 H2 H3 _]. unfold pagesOf, inItem, inRange.
  rewrite dom_list_to_map, elem_of_list_to_set, <- list_fmap_compose. cbn. rewrite list_fmap_id, elem_of_seqZ.
  unfold PAGE_SIZE, PAGE_MASK in *. Z.div_mod_to_equations. lia.
Qed.

Lemma page_step a e p : a mod PAGE_SIZE = 0 -> 0 <= a < e -> e + PAGE_SIZE <= 2 ^ 64 ->
  inRange a e p -> p <> a / PAGE_SIZE -> inRange (u64 (a + PAGE_SIZE)) e p.
Proof.
  intros H1 H2 H3 Hr Hp. unfold inRange, PAGE_SIZE in *. rewrite u64_small by lia. Z.div_mod_to_equations. lia.
Qed.

Lemma next_page a e : a mod PAGE_SIZE = 0 -> 0 <= a < e -> e + PAGE_SIZE <= 2 ^ 64 ->
  u64 (a + PAGE_SIZE) = a + PAGE_SIZE /\ (a + PAGE_SIZE) mod PAGE_SIZE = 0.
Proof.
  intros H1 H2 H3. unfold PAGE_SIZE in *. rewrite u64_small by lia. split; [done|].
  rewrite <- Z.add_mod_idemp_l, H1 by lia. done.
Qed.

Lemma flushLoop_spec fuel : forall a e o, a mod PAGE_SIZE = 0 -> 0 <= a -> e + PAGE_SIZE <= 2 ^ 64 ->
  e - a <= Z.of_nat fuel * PAGE_SIZE ->
  exists o', flushLoop fuel a e o = Ok o' /\ o' ⊆ o /\ forall p, p ∈ o' -> ~ inRange a e p.
Proof.
  induction fuel as [|fuel IH]; intros a e o H1 H2 H3 H4; cbn [flushLoop]; destruct (Z.ltb_spec a e).
  - unfold PAGE_SIZE in *. lia.
  - exists o. split_and!; [done..|]. unfold inRange. lia.
  - destruct (next_page a e H1) as [E1 E2]; [lia..|]. rewrite E1.
    destruct (IH (a + PAGE_SIZE) e (cpuFlushTLB a o) E2) as (o' & -> & Hs & Hp); [unfold PAGE_SIZE in *; lia..|].
    exists o'. split; [done|]. split; [unfold cpuFlushTLB in Hs; set_solver|]. intros p Hin Hr.
    apply (Hp p Hin). rewrite <- E1. eapply page_step; try done.
    apply Hs in Hin. unfold cpuFlushTLB in Hin. set_solver.
  - exists o. split_and!; [done..|]. unfold inRange. lia.
Qed.

(** The local flush clears the whole range. *)
Lemma localFlush_spec it o : wfItem it ->
  exists o', localCpuFlushTlb (m_addr it) (m_size it) (o ∪ pagesOf it) = Ok o' /\ o' ⊆ o.
Proof.
  intros Hwf. pose proof (fun p => elem_of_pagesOf it p Hwf) as Hpg. destruct Hwf as [H1 H2 H3 H4].
  unfold localCpuFlushTlb. destruct (Z.leb_spec (m_size it) PAGE_SIZE).
  - eexists. split; [done|]. unfold cpuFlushTLB. intros p [[Hp|Hp%Hpg]%elem_of_union Hne]%elem_of_difference; [done|].
    destruct Hne. apply elem_of_singleton. unfold inItem, inRange, PAGE_SIZE in *. Z.div_mod_to_equations. lia.
  - destruct (Z.leb_spec CPU_UPDATE_TLB_LIMIT (m_size it)).
    + eexists. split; [done|]. unfold cpuFullFlushTLB.
      destruct (Z.eqb_spec (m_addr it) 0), (Z.leb_spec KERNEL_VIRTUAL_BASE (m_addr it)); cbn [orb];
        try (intros p Hp; by apply not_elem_of_empty in Hp).
      intros p [Hk [Hp|Hp%Hpg]%elem_of_union]%elem_of_filter; [done|]. unfold inItem, inRange in Hp. lia.
    + destruct (flushLoop_spec (Z.to_nat (m_size it / PAGE_SIZE + 1)) (m_addr it) (m_addr it + m_size it) (o ∪ pagesOf it))
        as (o' & E & Hs & Hp); [done | lia | lia | unfold PAGE_SIZE in *; Z.div_mod_to_equations; lia |].
      rewrite u64_small by (unfold PAGE_SIZE in *; lia). exists o'. split; [done|]. intros p Hin.
      pose proof (Hs p Hin) as [?|Hin']%elem_of_union; [done|]. apply Hpg in Hin'. by apply Hp in Hin.
Qed.

(** ** The invariant of one CPU *)

(** [q] are the items of the buffer. *)
Record Queue (t : CpuTlbShootdownTask) (q : list TlbShotdownItem) : Prop := mkQueue {
  q_len : length (m_items t) = 64%nat;
  q_read : 0 <= m_readIndex t < 2 ^ 64;
  q_write : m_writeIndex t = u64 (m_readIndex t + Z.of_nat (length q));
  q_room : (length q <= 63)%nat;
  q_at : forall k it, q !! k = Some it -> m_items t !! slotOf (m_readIndex t + Z.of_nat k) = Some it
}.

Lemma slotOf_u64 x : slotOf (u64 x) = slotOf x.
Proof.
  unfold slotOf, u64, g_defaultTlbRingBufferSize. f_equal. apply Z.mod_mod_divide.
  by exists (2 ^ 58).
Qed.

Lemma slotOf_lt x : (slotOf x < 64)%nat.
Proof. unfold slotOf, g_defaultTlbRingBufferSize. pose proof (Z.mod_pos_bound x 64). lia. Qed.

Lemma slotOf_eq x y : slotOf x = slotOf y -> (x - y) mod 64 = 0.
Proof.
  unfold slotOf, g_defaultTlbRingBufferSize. intros E.
  assert (x mod 64 = y mod 64) as E' by (pose proof (Z.mod_pos_bound x 64); pose proof (Z.mod_pos_bound y 64); lia).
  rewrite Zminus_mod, E', Z.sub_diag. done.
Qed.

Lemma slotOf_ne x y : x - 64 < y < x -> slotOf x <> slotOf y.
Proof. intros H E%slotOf_eq. rewrite Z.mod_small in E; lia. Qed.

Lemma Queue_old t q : Queue t q -> oldItems t = Z.of_nat (length q).
Proof.
  intros [_ H1 H2 H3 _]. unfold oldItems, g_defaultTlbRingBufferSize. rewrite H2. unfold u64.
  rewrite <- Zminus_mod_idemp_l, Zmod_mod, Zminus_mod_idemp_l.
  replace (m_readIndex t + Z.of_nat (length q) - m_readIndex t) with (Z.of_nat (length q)) by lia.
  rewrite !Z.mod_small; lia.
Qed.

Lemma Queue_empty t q : Queue t q -> (m_readIndex t =? m_writeIndex t) = true <-> q = [].
Proof.
  intros [_ H1 H2 H3 _]. rewrite Z.eqb_eq, H2. unfold u64. split.
  - intros E. destruct q as [|x q]; [done|]. exfalso. cbn [length] in *.
    destruct (Z.lt_ge_cases (m_readIndex t + Z.of_nat (S (length q))) (2 ^ 64)).
    + rewrite Z.mod_small in E; lia.
    + rewrite (Zmod_eq_full) in E by lia.
      assert ((m_readIndex t + Z.of_nat (S (length q))) / 2 ^ 64 = 1) as E1 by (symmetry; apply Z.div_unique with (m_readIndex t + Z.of_nat (S (length q)) - 2 ^ 64); lia).
      rewrite E1 in E. lia.
  - intros ->. cbn. rewrite Z.add_0_r, Z.mod_small; lia.
Qed.

Lemma Queue_push t q it b : Queue t q -> (length q < 63)%nat ->
  Queue (mkTask (<[slotOf (m_writeIndex t) := it]> (m_items t)) (m_readIndex t) (u64 (m_writeIndex t + 1)) b) (q ++ [it]).
Proof.
  intros [H0 H1 H2 H3 H4] Hl. split; cbn [m_items m_readIndex m_writeIndex].
  - by rewrite length_insert.
  - done.
  - rewrite H2, length_app. cbn. unfold u64. rewrite Zplus_mod_idemp_l. f_equal. lia.
  - rewrite length_app. cbn. lia.
  - rewrite H2, slotOf_u64. intros k x [Hk|[Hk Hx]]%lookup_app_Some.
    + apply lookup_lt_Some in Hk as Hlt. rewrite list_lookup_insert_ne; [by apply H4|]. apply slotOf_ne. lia.
    + apply list_lookup_singleton_Some in Hx as [Hz <-]. replace k with (length q) by lia.
      apply list_lookup_insert_eq. rewrite H0. apply slotOf_lt.
Qed.

Lemma Queue_pop t it q b : Queue t (it :: q) ->
  m_items t !! slotOf (m_readIndex t) = Some it /\
  Queue (mkTask (m_items t) (u64 (m_readIndex t + 1)) (m_writeIndex t) b) q.
Proof.
  intros [H0 H1 H2 H3 H4]. split; [specialize (H4 0%nat it eq_refl); by rewrite Z.add_0_r in H4|].
  split; cbn [m_items m_readIndex m_writeIndex length] in *.
  - done.
  - apply u64_range.
  - rewrite H2. unfold u64. rewrite Zplus_mod_idemp_l. f_equal. lia.
  - lia.
  - intros k x Hk. specialize (H4 (S k) x Hk). rewrite <- H4. f_equal. rewrite <- slotOf_u64.
    unfold u64. rewrite Zplus_mod_idemp_l. rewrite <- (slotOf_u64 (_ + Z.of_nat (S k))). unfold u64. do 2 f_equal. lia.
Qed.

Lemma Queue_flag t q b : Queue t q -> Queue (mkTask (m_items t) (m_readIndex t) (m_writeIndex t) b) q.
Proof. by intros [? ? ? ? ?]. Qed.

Lemma Queue_reset t q b : Queue t q -> Queue (mkTask (m_items t) 0 0 b) [].
Proof. intros [? ? ? ? ?]. split; cbn; try done; try lia. Qed.

Definition draining (h : handler) : bool := match h with HRef _ | HFlush _ _ => true | _ => false end.

(** The pages the handler is about to flush. *)
Definition hcov (c : Cpu) (p : Z) : Prop :=
  match c_handler c with
  | HRef slot => exists it, m_items (c_task c) !! slot = Some it /\ inItem it p
  | HFlush a e => inRange a e p
  | _ => False
  end.

(** The slot the handler refers to is not written: it is the one right behind the
    buffer, which holds at most 63 items. *)
Definition hwf (c : Cpu) : Prop :=
  match c_handler c with
  | HRef slot => (exists it, m_items (c_task c) !! slot = Some it /\ wfItem it) /\
      (m_needFull (c_task c) = true \/ slot = slotOf (m_readIndex (c_task c) - 1))
  | HFlush a e => a mod PAGE_SIZE = 0 /\ 0 <= a /\ e + PAGE_SIZE <= 2 ^ 64
  | _ => True
  end.

(** [held]: some sender has the CPU on its list. *)
Record CInv (held : Prop) (q : list TlbShotdownItem) (c : Cpu) : Prop := mkCInv {
  ci_queue : Queue (c_task c) q;
  ci_wf : Forall wfItem q;
  ci_full : m_needFull (c_task c) = true -> q = [];
  ci_cov : m_needFull (c_task c) = true \/ c_handler c = HFull \/
    forall p, p ∈ owed c -> hcov c p \/ exists it, it ∈ q /\ inItem it p;
  ci_signal : m_needFull (c_task c) = true \/ q <> [] ->
    c_pending c = true \/ held \/ (m_needFull (c_task c) = false /\ draining (c_handler c) = true);
  ci_handler : hwf c
}.

Lemma slotOf_pred x : slotOf (u64 (x + 1) - 1) = slotOf x.
Proof.
  rewrite <- (slotOf_u64 (u64 (x + 1) - 1)), <- (slotOf_u64 x). unfold u64. rewrite Zminus_mod_idemp_l.
  do 2 f_equal. lia.
Qed.

(** Taking the next item, at the entry or after an item is done. *)
Lemma takeItem_inv held q t pend pg o h t' :
  Queue t q -> Forall wfItem q -> (m_needFull t = true -> q = []) ->
  (m_needFull t = true -> pend = true \/ held) ->
  (m_needFull t = true \/ forall p, p ∈ o -> exists it, it ∈ q /\ inItem it p) ->
  takeItem t = (h, t') -> exists q', CInv held q' (mkCpu t' h pend pg o).
Proof.
  intros HQ Hwf Hf Hs Hc E. unfold takeItem in E. destruct (m_readIndex t =? m_writeIndex t) eqn:Er.
  - injection E as <- <-. apply (Queue_empty _ _ HQ) in Er as ->. exists []. split; cbn; try done.
    + destruct Hc as [|Hc]; [by left|right; right]. intros p (it & Hin & _)%Hc. by apply elem_of_nil in Hin.
    + intros [?|?]; [|done]. destruct Hs; auto.
  - injection E as <- <-. destruct q as [|it q]; [by rewrite (proj2 (Queue_empty _ _ HQ) eq_refl) in Er|].
    destruct (Queue_pop _ _ _ (m_needFull t) HQ) as [Hit HQ']. apply Forall_cons in Hwf as [Hw Hwf].
    assert (m_needFull t = false) as En by (destruct (m_needFull t); [by specialize (Hf eq_refl)|done]).
    exists q. split; cbn -[slotOf]; try done.
    + by rewrite En.
    + right; right. intros p Hp. destruct Hc as [Hc|Hc]; [by rewrite En in Hc|].
      apply Hc in Hp as (x & [->|Hx]%elem_of_cons & Hin); [left; eauto | right; eauto].
    + auto.
    + split; [eauto|]. right. by rewrite slotOf_pred.
Qed.

Lemma irq_inv held q c c' : CInv held q c -> irq c = Some c' -> exists q', CInv held q' c'.
Proof.
  intros [HQ Hwf Hf Hc Hs Hh] E. unfold irq in E. destruct (c_handler c) eqn:Eh; try done.
  destruct (c_pending c); [|done]. destruct (enterHandler (c_task c)) as [h t] eqn:Ee. injection E as <-.
  unfold enterHandler in Ee. destruct (m_needFull (c_task c)) eqn:En.
  - injection Ee as <- <-. rewrite (Hf eq_refl) in *. exists []. split; cbn; try done; [by apply Queue_flag|auto|naive_solver].
  - eapply takeItem_inv; try done; try (by rewrite En). right. destruct Hc as [?|[?|Hc]]; [done..|].
    intros p Hp. destruct (Hc p Hp) as [Hv|?]; [|done]. unfold hcov in Hv. by rewrite Eh in Hv.
Qed.

Lemma handlerStep_inv held q c c' : CInv held q c -> handlerStep c = Some c' -> exists q', CInv held q' c'.
Proof.
  intros [HQ Hwf Hf Hc Hs Hh] E. unfold handlerStep in E. unfold hcov, hwf in *.
  destruct (c_handler c) as [| |slot|a e|] eqn:Eh; [done|..].
  - injection E as <-. exists q. split; cbn; try done. right; right. intros p Hp. by apply not_elem_of_empty in Hp.
  - destruct Hh as [(it & Hit & Hw) _]. rewrite Hit in E. injection E as <-.
    assert (Eu : u64 (m_addr it + m_size it) = m_addr it + m_size it).
    { destruct Hw as [_ ? ? _]. apply u64_small. unfold PAGE_SIZE in *. lia. }
    exists q. split; cbn -[u64]; rewrite ?Eu; try done; [|destruct Hw; lia].
    destruct Hc as [?|[?|Hc]]; [by left|done|right; right]. intros p Hp. destruct (Hc p Hp) as [(x & Hx & Hin)|?]; [|by right].
    left. assert (x = it) as -> by congruence. done.
  - destruct Hh as (Ha & Hpos & He). destruct (Z.ltb_spec a e).
    + injection E as <-. destruct (next_page a e Ha) as [E1 E2]; [lia..|].
      exists q. split; cbn -[u64 cpuFlushTLB]; try done; [|rewrite E1; unfold PAGE_SIZE in *; lia].
      destruct Hc as [?|[?|Hc]]; [by left|done|right; right]. intros p Hp. unfold cpuFlushTLB in Hp.
      apply elem_of_difference in Hp as [Hp Hne].
      destruct (Hc p Hp) as [Hin|?]; [left|by right]. apply page_step; try done. set_solver.
    + destruct (takeItem (c_task c)) as [h t] eqn:Et. injection E as <-.
      eapply takeItem_inv; try done.
      * intros En. destruct (Hs ltac:(by left)) as [?|[?|[? _]]]; [auto..|congruence].
      * destruct Hc as [?|[?|Hc]]; [by left|done|right]. intros p Hp. destruct (Hc p Hp) as [Hin|?]; [|done].
        unfold inRange in Hin. lia.
  - injection E as <-. exists q. split; cbn; try done. destruct Hc as [?|[?|Hc]]; [by left|done|by right; right].
Qed.

(** The one case in which a request is lost: a full flush is asked for while the
    handler works on an item and there are more. *)
Definition lossy (needFull : bool) (c : Cpu) : bool :=
  negb (m_needFull (c_task c)) && becomesFull needFull (c_task c) && negb (oldItems (c_task c) =? 0) &&
  draining (c_handler c).

Lemma post_inv held q c it full t listed : CInv held q c -> wfItem it -> lossy full c = false ->
  post it full (c_task c) = (t, listed) ->
  exists q', CInv (held \/ listed = true) q' (setOwed (setTask c t) (owed c ∪ pagesOf it)).
Proof.
  intros [HQ Hwf Hf Hc Hs Hh] Hw Hlo E. unfold post in E. unfold lossy in Hlo. unfold hcov, hwf in *.
  destruct (m_needFull (c_task c)) eqn:En.
  { injection E as <- <-. exists q. split; unfold hwf; cbn; rewrite ?En; try done; [by left|]. naive_solver. }
  rewrite (Queue_old _ _ HQ) in *. unfold becomesFull in *. rewrite (Queue_old _ _ HQ) in *. cbn [negb andb] in Hlo.
  destruct (_ || full) eqn:Ef; cbn [andb] in Hlo.
  - injection E as <- <-. exists []. split; cbn; try done; [by eapply Queue_reset | by left | |].
    + intros _. destruct q as [|x q]; [naive_solver|].
      destruct (Hs ltac:(by right)) as [?|[?|[_ Hd]]]; [auto..|]. rewrite Hd in Hlo. cbn in Hlo. done.
    + unfold hwf. cbn. destruct (c_handler c); naive_solver.
  - apply orb_false_iff in Ef as [Ef _]. assert (Hl : (length q < 63)%nat).
    { pose proof (q_room _ _ HQ). unfold g_defaultTlbRingBufferSize in Ef. lia. }
    assert (Hslot : forall slot, slot = slotOf (m_readIndex (c_task c) - 1) ->
      <[slotOf (m_writeIndex (c_task c)) := it]> (m_items (c_task c)) !! slot = m_items (c_task c) !! slot).
    { intros slot ->. apply list_lookup_insert_ne. rewrite (q_write _ _ HQ), slotOf_u64. apply slotOf_ne. lia. }
    injection E as <- <-. exists (q ++ [it]). split; cbn -[slotOf u64]; try done.
    + by apply Queue_push.
    + by apply Forall_app_2; [|constructor].
    + destruct Hc as [?|[?|Hc]]; [done|by right; left|right; right].
      intros p [Hp|Hp%elem_of_pagesOf]%elem_of_union; [| |done].
      * destruct (Hc p Hp) as [Hin|(x & Hx & Hin)]; [left|right; exists x; set_solver].
        unfold hcov; cbn -[slotOf u64]. destruct (c_handler c); try done. destruct Hh as [_ [?|Hsl]]; [done|].
        by rewrite (Hslot _ Hsl).
      * right. exists it. set_solver.
    + intros _. destruct q as [|x q]; [naive_solver|]. destruct (Hs ltac:(by right)) as [?|[?|?]]; auto.
    + unfold hwf; cbn -[slotOf u64]. destruct (c_handler c); try done. destruct Hh as [Hx [?|Hsl]]; [done|].
      rewrite (Hslot _ Hsl). auto.
Qed.

(** ** All CPUs and senders *)

Definition holds (i : nat) (sd : sender) : Prop :=
  match sd with SPost _ _ _ _ l => i ∈ l | SSend l => i ∈ l end.
Definition heldBy (ss : list sender) (i : nat) : Prop := exists sd, sd ∈ ss /\ holds i sd.
Definition wfSender (sd : sender) : Prop :=
  match sd with SPost it _ cur _ l => wfItem it /\ cur ∉ l | SSend _ => True end.

Record SInv (s : Sys) : Prop := mkSInv {
  si_senders : Forall wfSender (senders s);
  si_cpus : forall i c, cpus s !! i = Some c -> exists q, CInv (heldBy (senders s) i) q c
}.

Lemma CInv_held (held held' : Prop) q c : (held -> held') -> CInv held q c -> CInv held' q c.
Proof. intros Hh [? ? ? ? Hs ?]. split; try done. naive_solver. Qed.

Lemma CInv_owed held q c o : o ⊆ owed c -> CInv held q c -> CInv held q (setOwed c o).
Proof.
  intros Ho [? ? ? Hc ? ?]. split; try done. destruct Hc as [?|[?|Hc]]; [by left|by right; left|right; right].
  intros p Hp. apply Hc. set_solver.
Qed.

Lemma CInv_pending held held' q c : CInv held q c -> CInv held' q (setPending c).
Proof. intros [? ? ? ? ? ?]. split; try done. by left. Qed.

Lemma CInv_paging held q c p : CInv held q c ->
  CInv held q (mkCpu (c_task c) (c_handler c) (c_pending c) p (owed c)).
Proof. by intros [? ? ? ? ? ?]. Qed.

Lemma held_cases ss i sd new j : ss !! i = Some sd -> heldBy ss j ->
  holds j sd \/ heldBy (take i ss ++ new ++ drop (S i) ss) j.
Proof.
  intros Hi (x & Hx & Hh). rewrite <- (take_drop_middle ss i sd Hi) in Hx.
  apply elem_of_app in Hx as [Hx|[->|Hx]%elem_of_cons]; [right|by left|right]; exists x; set_solver.
Qed.

Lemma held_new ss i sd new j : sd ∈ new -> holds j sd -> heldBy (take i ss ++ new ++ drop (S i) ss) j.
Proof. intros Hx Hh. exists sd. set_solver. Qed.

(** The list of a sender only grows, or the CPU taken off it has its interrupt. *)
Lemma held_kept ss i sd sd' j : ss !! i = Some sd -> (holds j sd -> holds j sd') ->
  heldBy ss j -> heldBy (take i ss ++ [sd'] ++ drop (S i) ss) j.
Proof.
  intros Hi Hk Hh. destruct (held_cases ss i sd [sd'] j Hi Hh) as [H|H]; [|done].
  eapply held_new; [by left|auto].
Qed.

Lemma wfSenders_replace ss i new : Forall wfSender ss -> Forall wfSender new ->
  Forall wfSender (take i ss ++ new ++ drop (S i) ss).
Proof. intros. rewrite !Forall_app. auto using Forall_take, Forall_drop. Qed.

(** Which sender steps lose nothing. *)
Definition quiet (a : action) (s : Sys) : bool :=
  match a with
  | Send i =>
      match senders s !! i with
      | Some (SPost it this cur cpuId _) =>
          match cpus s !! cpuId with
          | Some c => (cpuId =? cur)%nat || ((m_addr it <? KERNEL_VIRTUAL_BASE) && negb (c_paging c =? this)) ||
                      negb (lossy (CPU_UPDATE_TLB_LIMIT <=? m_size it) c)
          | None => true
          end
      | _ => true
      end
  | _ => true
  end.

Definition wfAction (a : action) : Prop :=
  match a with Begin _ _ base size => wfItem (mkItem base size) | _ => True end.

Lemma SInv_cpu s i c c' : SInv s -> cpus s !! i = Some c ->
  (forall q, CInv (heldBy (senders s) i) q c -> exists q', CInv (heldBy (senders s) i) q' c') ->
  SInv (mkSys (<[i := c']> (cpus s)) (senders s)).
Proof.
  intros [Hs Hc] Hi Hq. split; [done|]. cbn. intros j x Hx. apply lookup_lt_Some in Hi as Hlt.
  destruct (decide (j = i)) as [->|Hne].
  - rewrite list_lookup_insert_eq in Hx by done. injection Hx as <-. destruct (Hc _ _ Hi) as [q Hq']. eauto.
  - rewrite list_lookup_insert_ne in Hx by done. eauto.
Qed.

Lemma sendStep_inv s i sd new cs : SInv s -> senders s !! i = Some sd -> quiet (Send i) s = true ->
  sendStep sd (cpus s) = Some (new, cs) -> SInv (mkSys cs (take i (senders s) ++ new ++ drop (S i) (senders s))).
Proof.
  intros [Hs Hc] Hi Hqt E. pose proof (Forall_lookup_1 _ _ _ _ Hs Hi) as Hw. unfold quiet in Hqt. rewrite Hi in Hqt.
  assert (Hgrow : forall sd', wfSender sd' -> forall cs',
    (forall j c, cs' !! j = Some c -> exists q, CInv (heldBy (take i (senders s) ++ [sd'] ++ drop (S i) (senders s)) j) q c) ->
    SInv (mkSys cs' (take i (senders s) ++ [sd'] ++ drop (S i) (senders s)))).
  { intros sd' Hw' cs' Hcs. split; [|done]. apply wfSenders_replace; [done|by constructor]. }
  assert (Hsame : forall sd', wfSender sd' -> (forall j, holds j sd -> holds j sd') ->
    SInv (mkSys (cpus s) (take i (senders s) ++ [sd'] ++ drop (S i) (senders s)))).
  { intros sd' Hw' Hk. apply Hgrow; [done|]. intros j c [q Hq]%Hc. exists q.
    eapply CInv_held; [|done]. apply (held_kept _ _ _ _ _ Hi (Hk j)). }
  destruct sd as [it this cur cpuId l|[|cpuId l]]; cbn [sendStep] in E.
  - destruct Hw as [Hit Hcur]. destruct (Nat.ltb_spec cpuId (length (cpus s))) as [Hlt|].
    + destruct (Nat.eqb_spec cpuId cur) as [|Hne]; [injection E as <- <-; by apply Hsame|].
      destruct (cpus s !! cpuId) as [c|] eqn:Ec; [|done]. cbn -[post pagesOf] in E.
      destruct (_ && negb _) eqn:Eu; [injection E as <- <-; by apply Hsame|].
      destruct (post _ _ _) as [t listed] eqn:Ep. injection E as <- <-. cbn [orb] in Hqt.
      apply negb_true_iff in Hqt.
      set (sd' := SPost it this cur (S cpuId) (if listed then l ++ [cpuId] else l)).
      apply (Hgrow sd').
      * split; [done|]. destruct listed; set_solver.
      * intros j x Hx. assert (Hkeep : heldBy (senders s) j -> heldBy (take i (senders s) ++ [sd'] ++ drop (S i) (senders s)) j).
        { apply (held_kept _ _ _ _ _ Hi). cbn. destruct listed; set_solver. }
        destruct (decide (j = cpuId)) as [->|Hj].
        -- rewrite list_lookup_insert_eq in Hx by done. injection Hx as <-. destruct (Hc _ _ Ec) as [q Hq].
           destruct (post_inv _ _ _ _ _ _ _ Hq Hit Hqt Ep) as [q' Hq']. exists q'. eapply CInv_held; [|done].
           intros [?| ->]; [auto|]. eapply held_new; [by left|]. cbn. set_solver.
        -- rewrite list_lookup_insert_ne in Hx by done. destruct (Hc _ _ Hx) as [q Hq]. exists q. by eapply CInv_held.
    + destruct (negb _); [injection E as <- <-; by apply Hsame|]. injection E as <- <-.
      split; [apply wfSenders_replace; [done|constructor]|]. cbn [cpus senders]. intros j x Hx.
      apply list_lookup_imap_Some in Hx as (x0 & Hx0 & ->). destruct (Hc _ _ Hx0) as [q Hq]. exists q.
      destruct (Nat.eqb_spec j cur) as [->|]; [|by eapply CInv_pending].
      eapply CInv_held; [|done]. intros Hh. by destruct (held_cases _ _ _ [] _ Hi Hh).
  - injection E as <- <-. split; [apply wfSenders_replace; [done|constructor]|]. cbn. intros j x [q Hq]%Hc. exists q.
    eapply CInv_held; [|done]. intros Hh. destruct (held_cases _ _ _ [] _ Hi Hh) as [H|H]; [by apply elem_of_nil in H|done].
  - injection E as <- <-. apply (Hgrow (SSend l)); [done|]. intros j x Hx. destruct (decide (j = cpuId)) as [->|Hj].
    + rewrite list_lookup_alter_eq in Hx. apply fmap_Some in Hx as (y & Hy & ->).
      destruct (Hc _ _ Hy) as [q Hq]. exists q. by eapply CInv_pending.
    + rewrite list_lookup_alter_ne in Hx by done. destruct (Hc _ _ Hx) as [q Hq]. exists q. eapply CInv_held; [|done].
      apply (held_kept _ _ _ _ _ Hi). cbn. set_solver.
Qed.

Lemma tlbExec_inv a s s' : SInv s -> wfAction a -> quiet a s = true -> exec a s = Some s' -> SInv s'.
Proof.
  intros HS Hw Hq E. destruct a as [cur this base size|i|c|c|c p]; cbn [exec] in E.
  - destruct (cpus s !! cur) as [x|] eqn:Ex; [|done]. cbn -[localCpuFlushTlb pagesOf] in E.
    destruct (localFlush_spec (mkItem base size) (owed x) Hw) as (o & Eo & Hsub). cbn -[localCpuFlushTlb pagesOf] in Eo.
    rewrite Eo in E. injection E as <-.
    destruct (SInv_cpu s cur x (setOwed x o) HS Ex) as [Hs Hc]; [eauto using CInv_owed|].
    split; cbn in *; [apply Forall_app; split; [done|]; constructor; [split; [done|set_solver]|constructor]|].
    intros i c [q Hc']%Hc. exists q. eapply CInv_held; [|done]. intros (sd & ? & ?). exists sd. set_solver.
  - destruct (senders s !! i) as [sd|] eqn:Ei; [|done]. cbn -[sendStep] in E.
    destruct (sendStep sd (cpus s)) as [[new cs]|] eqn:Es; [|done]. injection E as <-. by eapply sendStep_inv.
  - destruct (cpus s !! c) as [x|] eqn:Ex; [|done]. cbn -[irq] in E. destruct (irq x) as [x'|] eqn:Ei; [|done].
    injection E as <-. eapply SInv_cpu; [done..|]. intros q Hq'. by eapply irq_inv.
  - destruct (cpus s !! c) as [x|] eqn:Ex; [|done]. cbn -[handlerStep] in E.
    destruct (handlerStep x) as [x'|] eqn:Ei; [|done].
    injection E as <-. eapply SInv_cpu; [done..|]. intros q Hq'. by eapply handlerStep_inv.
  - destruct (cpus s !! c) as [x|] eqn:Ex; [|done]. injection E as <-. eapply SInv_cpu; [done..|].
    eauto using CInv_paging.
Qed.

(** As [initSmp] and [initCpu] leave the CPUs, with the steps that follow. *)
Definition initCpu (paging : Z) : Cpu := mkCpu emptyTask HOff false paging ∅.

Inductive reach : Sys -> Prop :=
| reach_init pagings : reach (mkSys (initCpu <$> pagings) [])
| reach_step s a s' : reach s -> wfAction a -> quiet a s = true -> exec a s = Some s' -> reach s'.

Lemma emptyTask_queue : Queue emptyTask [].
Proof. split; cbn; try done; lia. Qed.

Lemma tlbReach_inv s : reach s -> SInv s.
Proof.
  induction 1 as [pagings|s a s' _ IH Hw Hq E]; [|by eapply tlbExec_inv].
  split; [constructor|]. cbn. intros i c Hi. apply list_lookup_fmap_Some in Hi as (p & -> & _). exists [].
  split; try done; [apply emptyTask_queue | right; right; by intros p' ?%not_elem_of_empty | by intros [?|?]].
Qed.

(** ** A CPU empties its buffer *)

Definition hstep (c c' : Cpu) : Prop := handlerStep c = Some c'.

Lemma same_length held held' q q' c c' : CInv held q c -> CInv held' q' c' -> c_task c' = c_task c -> length q' = length q.
Proof.
  intros H1 H2 E. pose proof (Queue_old _ _ (ci_queue _ _ _ H1)). pose proof (Queue_old _ _ (ci_queue _ _ _ H2)).
  rewrite E in *. lia.
Qed.

(** The loop over the pages of one item ends. *)
Lemma flush_ends held k : forall c q a e, CInv held q c -> c_handler c = HFlush a e -> e - a <= Z.of_nat k * PAGE_SIZE ->
  exists c' q' a', rtc hstep c c' /\ c_handler c' = HFlush a' e /\ e <= a' /\ c_pending c' = c_pending c /\
    c_task c' = c_task c /\ CInv held q' c'.
Proof.
  induction k as [|k IH]; intros c q a e HC Hh Hk.
  { exists c, q, a. split_and!; [constructor|done|lia|done..]. }
  destruct (Z.ltb_spec a e) as [Hlt|]; [|exists c, q, a; split_and!; [constructor|done|lia|done..]].
  pose proof (ci_handler _ _ _ HC) as Hw. unfold hwf in Hw. rewrite Hh in Hw. destruct Hw as (W1 & W2 & W3).
  destruct (next_page a e W1) as [E1 _]; [lia..|].
  assert (Es : handlerStep c = Some (mkCpu (c_task c) (HFlush (a + PAGE_SIZE) e) (c_pending c) (c_paging c)
    (cpuFlushTLB a (owed c)))).
  { unfold handlerStep. rewrite Hh, E1. destruct (Z.ltb_spec a e); [done|lia]. }
  destruct (handlerStep_inv _ _ _ _ HC Es) as [q1 HC1].
  destruct (IH _ _ (a + PAGE_SIZE) e HC1 eq_refl) as (c' & q' & a' & Hr & Hx); [unfold PAGE_SIZE in *; lia|].
  exists c', q', a'. split; [by eapply rtc_l|done].
Qed.

(** The handler of a CPU ends, if nobody posts more. *)
Lemma handler_ends held n : forall c q, CInv held q c -> (length q <= n)%nat ->
  exists c' q', rtc hstep c c' /\ c_handler c' = HOff /\ c_pending c' = c_pending c /\ CInv held q' c'.
Proof.
  assert (Hdone : forall c q, CInv held q c -> c_handler c = HDone ->
    exists c' q', rtc hstep c c' /\ c_handler c' = HOff /\ c_pending c' = c_pending c /\ CInv held q' c').
  { intros c q HC Hh. assert (Es : handlerStep c = Some (mkCpu (c_task c) HOff (c_pending c) (c_paging c) (owed c)))
      by (unfold handlerStep; by rewrite Hh).
    destruct (handlerStep_inv _ _ _ _ HC Es) as [q' HC']. eexists _, q'. split_and!; [by apply rtc_once|done..]. }
  induction n as [n IH] using lt_wf_ind. intros c q HC Hn.
  assert (Hflush : forall c q a e, CInv held q c -> (length q <= n)%nat -> c_handler c = HFlush a e ->
    exists c' q', rtc hstep c c' /\ c_handler c' = HOff /\ c_pending c' = c_pending c /\ CInv held q' c').
  { clear c q HC Hn. intros c q a e HC Hn Hh.
    destruct (flush_ends held (Z.to_nat ((e - a) / PAGE_SIZE + 1)) c q a e HC Hh)
      as (c1 & q1 & a1 & Hr1 & Hh1 & Ha1 & Hp1 & Ht1 & HC1); [unfold PAGE_SIZE; Z.div_mod_to_equations; lia|].
    pose proof (same_length _ _ _ _ _ _ HC HC1 Ht1) as Hlen. rewrite <- Hp1.
    destruct (takeItem (c_task c1)) as [h t] eqn:Et.
    assert (Es : handlerStep c1 = Some (mkCpu t h (c_pending c1) (c_paging c1) (owed c1))).
    { unfold handlerStep. rewrite Hh1, Et. destruct (Z.ltb_spec a1 e); [lia|done]. }
    destruct (handlerStep_inv _ _ _ _ HC1 Es) as [q2 HC2].
    assert (Hr2 : forall c', rtc hstep (mkCpu t h (c_pending c1) (c_paging c1) (owed c1)) c' -> rtc hstep c c').
    { intros c' Hr'. etrans; [done|]. by eapply rtc_l. }
    unfold takeItem in Et. destruct (m_readIndex (c_task c1) =? m_writeIndex (c_task c1)) eqn:Er.
    - injection Et as <- <-. destruct (Hdone _ _ HC2 eq_refl) as (c' & q' & Hr' & Hx). exists c', q'. split; auto.
    - destruct q1 as [|it q1]; [by rewrite (proj2 (Queue_empty _ _ (ci_queue _ _ _ HC1)) eq_refl) in Er|].
      destruct (Queue_pop _ _ _ (m_needFull (c_task c1)) (ci_queue _ _ _ HC1)) as [_ HQ]. injection Et as <- <-.
      pose proof (Queue_old _ _ HQ) as L1. pose proof (Queue_old _ _ (ci_queue _ _ _ HC2)) as L2. cbn [c_task] in L2.
      rewrite L1 in L2. cbn [length] in *. destruct (IH (length q2) ltac:(lia) _ _ HC2 ltac:(lia)) as (c' & q' & Hr' & Hx).
      exists c', q'. split; auto. }
  destruct (c_handler c) as [| |slot|a e|] eqn:Hh.
  - exists c, q. split_and!; [constructor|done..].
  - assert (Es : handlerStep c = Some (mkCpu (c_task c) HDone (c_pending c) (c_paging c) (cpuFullFlushTLB 0 (owed c))))
      by (unfold handlerStep; by rewrite Hh).
    destruct (handlerStep_inv _ _ _ _ HC Es) as [q1 HC1]. destruct (Hdone _ _ HC1 eq_refl) as (c' & q' & Hr' & Hx).
    exists c', q'. split; [by eapply rtc_l|done].
  - pose proof (ci_handler _ _ _ HC) as Hw. unfold hwf in Hw. rewrite Hh in Hw. destruct Hw as [(it & Hit & _) _].
    assert (Es : handlerStep c = Some (mkCpu (c_task c) (HFlush (m_addr it) (u64 (m_addr it + m_size it)))
      (c_pending c) (c_paging c) (owed c))) by (unfold handlerStep; rewrite Hh, Hit; done).
    destruct (handlerStep_inv _ _ _ _ HC Es) as [q1 HC1].
    pose proof (same_length _ _ _ _ _ _ HC HC1 eq_refl).
    destruct (Hflush _ _ _ _ HC1 ltac:(lia) eq_refl) as (c' & q' & Hr' & Hx). exists c', q'. split; [by eapply rtc_l|done].
  - by eapply Hflush.
  - by eapply Hdone.
Qed.

(** A CPU that is idle and has no interrupt to come owes nothing. *)
Lemma idle_clean held q c : CInv held q c -> ~ held -> c_handler c = HOff -> c_pending c = false -> owed c = ∅.
Proof.
  intros [_ _ Hf Hc Hs _] Hn Hh Hp. unfold hcov in Hc. rewrite Hh, Hp in *.
  assert (m_needFull (c_task c) = false /\ q = []) as [En ->].
  { destruct (m_needFull (c_task c)); [destruct Hs as [?|[?|[? _]]]; [by left|done..]|]. split; [done|].
    destruct q; [done|]. destruct Hs as [?|[?|[_ ?]]]; [by right|done..]. }
  rewrite En in Hc. destruct Hc as [?|[?|Hc]]; [done..|]. apply set_eq. intros p. split; [|set_solver].
  intros Hp'. destruct (Hc p Hp') as [?|(it & Hit & _)]; [done|]. by apply elem_of_nil in Hit.
Qed.

(** The steps of CPU [i] alone. *)
Lemma hsteps_exec i : forall c c', rtc hstep c c' -> forall s, cpus s !! i = Some c ->
  exists l, execAll l s = Some (mkSys (<[i := c']> (cpus s)) (senders s)) /\ Forall (fun a => a = Handle i) l.
Proof.
  induction 1 as [c|c c1 c2 Hs _ IH]; intros s Hi.
  - exists []. split; [|constructor]. cbn. rewrite list_insert_id by done. by destruct s.
  - destruct (IH (mkSys (<[i := c1]> (cpus s)) (senders s))) as (l & E & Hl).
    { cbn. apply list_lookup_insert_eq. by eapply lookup_lt_Some. }
    exists (Handle i :: l). split; [|by constructor]. cbn [execAll exec]. rewrite Hi. cbn -[handlerStep execAll].
    rewrite Hs. cbn -[execAll]. rewrite E. cbn. by rewrite list_insert_insert_eq.
Qed.

Lemma drain_exec s i c : SInv s -> cpus s !! i = Some c -> ~ heldBy (senders s) i ->
  exists l s' c', execAll l s = Some s' /\ Forall (fun a => a = Handle i \/ a = Irq i) l /\
    cpus s' !! i = Some c' /\ c_handler c' = HOff /\ c_pending c' = false /\ owed c' = ∅.
Proof.
  intros HS Hi Hn. destruct (si_cpus _ HS _ _ Hi) as [q HC]. apply lookup_lt_Some in Hi as Hlt.
  destruct (handler_ends _ _ c q HC (le_n _)) as (c1 & q1 & Hr1 & Hh1 & Hp1 & HC1).
  destruct (hsteps_exec i c c1 Hr1 s Hi) as (l1 & E1 & Hl1).
  assert (Hl1' : Forall (fun a => a = Handle i \/ a = Irq i) l1) by (eapply Forall_impl; [done|naive_solver]).
  destruct (c_pending c1) eqn:Ep.
  2: { eexists l1, _, c1. split_and!; try done; [cbn; by apply list_lookup_insert_eq|by eapply idle_clean]. }
  destruct (irq c1) as [c2|] eqn:Ei.
  2: { unfold irq in Ei. rewrite Hh1, Ep in Ei. by destruct (enterHandler _). }
  assert (Hp2 : c_pending c2 = false).
  { unfold irq in Ei. rewrite Hh1, Ep in Ei. destruct (enterHandler _). by injection Ei as <-. }
  destruct (irq_inv _ _ _ _ HC1 Ei) as [q2 HC2].
  destruct (handler_ends _ _ c2 q2 HC2 (le_n _)) as (c3 & q3 & Hr3 & Hh3 & Hp3 & HC3). rewrite Hp2 in Hp3.
  set (s1 := mkSys (<[i := c1]> (cpus s)) (senders s)). set (s2 := mkSys (<[i := c2]> (cpus s)) (senders s)).
  assert (E2 : exec (Irq i) s1 = Some s2).
  { cbn [exec s1 cpus]. rewrite list_lookup_insert_eq by done. cbn -[irq]. rewrite Ei. cbn. by rewrite list_insert_insert_eq. }
  destruct (hsteps_exec i c2 c3 Hr3 s2) as (l3 & E3 & Hl3); [cbn; by apply list_lookup_insert_eq|].
  exists (l1 ++ Irq i :: l3), (mkSys (<[i := c3]> (cpus s2)) (senders s)), c3. split_and!; try done.
  - assert (Happ : forall l s0 s1' l', execAll l s0 = Some s1' -> execAll (l ++ l') s0 = execAll l' s1').
    { induction l as [|a l IHl]; intros s0 s1' l' E; cbn in *; [by injection E as ->|].
      destruct (exec a s0); [|done]. cbn in *. by apply IHl. }
    rewrite (Happ _ _ _ _ E1). cbn [execAll]. fold s1. rewrite E2. cbn -[execAll]. done.
  - apply Forall_app. split; [done|]. constructor; [by right|]. eapply Forall_impl; [done|naive_solver].
  - cbn. apply list_lookup_insert_eq. by rewrite length_insert.
  - by eapply idle_clean.
Qed.

(** C4: no flush is lost.  As long as no full flush is posted to a CPU whose handler
    works on an item and has more to take (the case [lossy], in which the code loses
    requests), in every interleaving of any number of senders and handlers: a CPU
    that is out of its handler, with no interrupt pending and on no sender's list,
    has flushed every page it was asked to; and a CPU that is on no sender's list
    gets there by its own steps alone. *)
Theorem tlb_no_flush_lost s i c : reach s -> cpus s !! i = Some c -> ~ heldBy (senders s) i ->
  (c_handler c = HOff -> c_pending c = false -> owed c = ∅) /\
  exists l s' c', execAll l s = Some s' /\ Forall (fun a => a = Handle i \/ a = Irq i) l /\
    cpus s' !! i = Some c' /\ c_handler c' = HOff /\ c_pending c' = false /\ owed c' = ∅.
Proof.
  intros HS%tlbReach_inv Hi Hn. split; [|by eapply drain_exec].
  intros. destruct (si_cpus _ HS _ _ Hi) as [q HC]. by eapply idle_clean.
Qed.

(** ** Concrete runs: two CPUs, the first one changes page tables *)
Module Demo.
Definition two : Sys := mkSys (initCpu <$> [0; 0]) [].
Definition page (k : Z) : Z := KERNEL_VIRTUAL_BASE + k * PAGE_SIZE.
Definition ask (k size : Z) : action := Begin 0 0 (page k) size.
Definition sends (n : nat) : list action := replicate n (Send 0).

(** One page: the other CPU gets the interrupt and flushes it. *)
Definition oneFlush : list action := ask 1 PAGE_SIZE :: sends 3 ++ Irq 1 :: replicate 4 (Handle 1).
(** A second page while the first is not taken yet, and a full flush while the
    handler is at the first page. *)
Definition lostFlush : list action :=
  ask 1 PAGE_SIZE :: sends 3 ++ ask 2 PAGE_SIZE :: sends 4 ++ Irq 1 ::
  ask 3 CPU_UPDATE_TLB_LIMIT :: sends 4 ++ replicate 4 (Handle 1).

Fixpoint allQuiet (l : list action) (s : Sys) : bool :=
  match l with
  | [] => true
  | a :: l => quiet a s && match exec a s with Some s => allQuiet l s | None => true end
  end.

Lemma reach_run l : forall s s', reach s -> Forall wfAction l -> allQuiet l s = true -> execAll l s = Some s' -> reach s'.
Proof.
  induction l as [|a l IH]; intros s s' Hr Hw Hq E; cbn in *; [by injection E as <-|].
  apply Forall_cons in Hw as [Ha Hw]. apply andb_true_iff in Hq as [Hqa Hq].
  destruct (exec a s) as [s1|] eqn:E1; [|done]. cbn in E. apply (IH s1); try done. by eapply reach_step.
Qed.

Definition after (l : list action) : Sys := default two (execAll l two).

Lemma oneFlush_ends : exists c, execAll oneFlush two = Some (after oneFlush) /\ cpus (after oneFlush) !! 1%nat = Some c /\
  c_handler c = HOff /\ c_pending c = false /\ senders (after oneFlush) = [] /\
  execAll (take 3 oneFlush) two = Some (after (take 3 oneFlush)) /\
  (owed <$> cpus (after (take 3 oneFlush)) !! 1%nat) = Some {[page 1 / PAGE_SIZE]}.
Proof. eexists. by vm_compute. Qed.

Lemma tlb_no_flush_lost_witness : exists c, reach (after oneFlush) /\ cpus (after oneFlush) !! 1%nat = Some c /\
  owed c = ∅.
Proof.
  destruct oneFlush_ends as (c & E & Hc & Hh & Hp & Hs & _). exists c.
  assert (Hr : reach (after oneFlush)).
  { apply (reach_run oneFlush two); [constructor | | by vm_compute | done].
    repeat constructor; by vm_compute. }
  split; [exact Hr|]. split; [exact Hc|].
  refine (proj1 (tlb_no_flush_lost (after oneFlush) 1 c Hr Hc _) Hh Hp).
  rewrite Hs. intros (sd & Hin & _). by apply elem_of_nil in Hin.
Defined.

(** Afterwards the CPU is idle without an interrupt, owes pages, and no later
    request interrupts it. *)
Definition idle (h : handler) : bool := match h with HOff => true | _ => false end.
Definition summary (s : Sys) : option (bool * bool * bool * nat * nat) :=
  (fun c => (idle (c_handler c), c_pending c, m_needFull (c_task c), size (owed c), length (senders s))) <$> cpus s !! 1%nat.

Lemma full_flush_lost :
  summary (after lostFlush) = Some (true, false, true, 1025%nat, 0%nat) /\
  summary (after (lostFlush ++ ask 9999 PAGE_SIZE :: sends 4)) = Some (true, false, true, 1026%nat, 0%nat).
Proof. vm_compute. split; reflexivity. Qed.
End Demo.
