(* ===== verification/BootMemory.v ===== *)
(** * The loader's memory map (uefi/memory.cpp)

    [KernelAllocator] turns the firmware's memory map into the list of free RAM
    regions, with neighbours joined, and before the kernel is started cuts out of
    it everything the loader has allocated.  The kernel's [RamAllocator] ([PhMem])
    puts the pages of that list into its free list. *)

From S2P Require Import Prelude PhMem.

Definition CPU_EXTENDED_MEMORY_BASE : Z := 0x100000.

(** ** [kvector] as far as it is used here

    The elements and the size of the buffer; [push_back] on a full buffer moves the
    elements to a new one. *)
Record kvector (A : Type) : Type := mkVec { elems : list A; m_allocSize : nat }.
Arguments mkVec {A} elems m_allocSize.
Arguments elems {A} k.
Arguments m_allocSize {A} k.
Definition m_defaultSize : nat := 16.
Definition emptyVec {A} : kvector A := mkVec [] 0.
Definition push_back {A} (x : A) (v : kvector A) : kvector A :=
  let size := if (length (elems v) =? m_allocSize v)%nat then Nat.max (m_allocSize v * 2) m_defaultSize
              else m_allocSize v in
  mkVec (elems v ++ [x]) size.
Definition moves {A} (v : kvector A) : bool := (length (elems v) =? m_allocSize v)%nat.

(** ** Reading the map *)

Inductive EFI_MEMORY_TYPE : Type :=
| EfiReservedMemoryType | EfiLoaderCode | EfiLoaderData | EfiBootServicesCode | EfiBootServicesData
| EfiRuntimeServicesCode | EfiRuntimeServicesData | EfiConventionalMemory | EfiUnusableMemory
| EfiACPIReclaimMemory | EfiACPIMemoryNVS | EfiMemoryMappedIO | EfiMemoryMappedIOPortSpace
| EfiPalCode | EfiPersistentMemory | EfiMaxMemoryType.
#[export] Instance EFI_MEMORY_TYPE_eq_dec : EqDecision EFI_MEMORY_TYPE.
Proof. solve_decision. Defined.

Record EFI_MEMORY_DESCRIPTOR : Type := mkDesc {
  Type_ : EFI_MEMORY_TYPE; PhysicalStart : Z; NumberOfPages : Z; Attribute : Z }.

(** [PhysicalMemoryRegion]: [m_start] and [m_end]. *)
Notation region := (Z * Z)%type.

(** The part of a descriptor that is RAM for the kernel. *)
Definition usableRam (desc : EFI_MEMORY_DESCRIPTOR) : option region :=
  if negb (Z.land (Attribute desc) 0x0F =? 0xF) then None
  else match Type_ desc with
  | EfiLoaderCode | EfiLoaderData | EfiBootServicesCode | EfiBootServicesData | EfiConventionalMemory =>
      let rstart := PhysicalStart desc in
      let rend := u64 (rstart + NumberOfPages desc * PAGE_SIZE) in
      if rend <? CPU_EXTENDED_MEMORY_BASE then None
      else Some (if rstart <? CPU_EXTENDED_MEMORY_BASE then CPU_EXTENDED_MEMORY_BASE else rstart, rend)
  | _ => None
  end.

(** The first loop over [tmpRegions]: the index of the region that was joined with
    the new one ([pUnite]), the last unused entry seen ([pFree]), the regions. *)
Fixpoint scanUnite (rstart rend : Z) (i : nat) (pFree : option nat) (regs : list region)
    : option nat * option nat * list region :=
  match regs with
  | [] => (None, pFree, [])
  | (s, e) :: regs =>
      if e =? 0 then
        let '(u, f, regs) := scanUnite rstart rend (S i) (Some i) regs in (u, f, (s, e) :: regs)
      else if e =? rstart then (Some i, pFree, (s, rend) :: regs)
      else if s =? rend then (Some i, pFree, (rstart, e) :: regs)
      else let '(u, f, regs) := scanUnite rstart rend (S i) pFree regs in (u, f, (s, e) :: regs)
  end.

(** The second loop: another region that touches the joined one, [(us, ue)] at index
    [u], takes it over. *)
Fixpoint scanOther (us ue : Z) (u i : nat) (regs : list region) : bool * list region :=
  match regs with
  | [] => (false, [])
  | (s, e) :: regs =>
      if (e =? 0) || (i =? u)%nat then let '(b, regs) := scanOther us ue u (S i) regs in (b, (s, e) :: regs)
      else if e =? us then (true, (s, ue) :: regs)
      else if s =? ue then (true, (us, e) :: regs)
      else let '(b, regs) := scanOther us ue u (S i) regs in (b, (s, e) :: regs)
  end.

Definition addRegion (r : region) (tmpRegions : list region) : list region :=
  let '(rstart, rend) := r in
  match scanUnite rstart rend 0 None tmpRegions with
  | (Some u, _, regs) =>
      match regs !! u with
      | Some (us, ue) =>
          let '(taken, regs) := scanOther us ue u 0 regs in
          if (taken : bool) then alter (fun r : region => (r.1, 0)) u regs else regs
      | None => regs
      end
  | (None, Some f, regs) => <[f := r]> regs
  | (None, None, regs) => regs ++ [r]
  end.

Definition addDesc (tmpRegions : list region) (desc : EFI_MEMORY_DESCRIPTOR) : list region :=
  match Type_ desc with
  | EfiReservedMemoryType => tmpRegions
  | _ => match usableRam desc with Some r => addRegion r tmpRegions | None => tmpRegions end
  end.

Definition initMemoryMap (descs : list EFI_MEMORY_DESCRIPTOR) : kvector region :=
  foldl (fun v r => if negb (r.2 =? 0) then push_back r v else v) emptyVec (foldl addDesc [] descs).

Definition getMaxRamAddress (m_freeRegions : kvector region) : Z :=
  foldl (fun maxAddr r => if maxAddr <? r.2 then r.2 else maxAddr) 0 (elems m_freeRegions).

(** ** Cutting out what the loader uses *)

Record PagesRegion : Type := mkPages { m_base : Z; m_num : Z }.
Definition usedEnd (useReg : PagesRegion) : Z := u64 (m_base useReg + m_num useReg * PAGE_SIZE).

Fixpoint findFree (ustart uend : Z) (i : nat) (regs : list region) : option (nat * region) :=
  match regs with
  | [] => None
  | (s, e) :: regs => if (s <=? ustart) && (uend <=? e) then Some (i, (s, e)) else findFree ustart uend (S i) regs
  end.

(** [pFreeReg] points into the buffer: it is used after [push_back], which is a use
    of freed memory when the buffer has moved. *)
Definition storeBusyRegion (useReg : PagesRegion) (m_freeRegions : kvector region) (regCnt : Z)
    : outcome (kvector region * Z) :=
  let ustart := m_base useReg in
  let uend := usedEnd useReg in
  match findFree ustart uend 0 (elems m_freeRegions) with
  | None => Panic
  | Some (i, (s, e)) =>
      if s <? ustart then
        if uend <? e then
          if moves m_freeRegions then Fault
          else
            let v := push_back (uend, e) m_freeRegions in
            Ok (mkVec (<[i := (s, ustart)]> (elems v)) (m_allocSize v), u64 (regCnt + 1))
        else Ok (mkVec (<[i := (s, ustart)]> (elems m_freeRegions)) (m_allocSize m_freeRegions), regCnt)
      else if uend <? e then Ok (mkVec (<[i := (uend, e)]> (elems m_freeRegions)) (m_allocSize m_freeRegions), regCnt)
      else Ok (mkVec (<[i := (0, 0)]> (elems m_freeRegions)) (m_allocSize m_freeRegions), u64 (regCnt - 1))
  end.

Fixpoint storeBusyRegions (used : list PagesRegion) (v : kvector region) (regCnt : Z) : outcome (kvector region * Z) :=
  match used with
  | [] => Ok (v, regCnt)
  | u :: used => '(v, regCnt) ← storeBusyRegion u v regCnt; storeBusyRegions used v regCnt
  end.

(** The pages [allocMemoryPageAlign] asks the firmware for. *)
Definition pagesFor (size : Z) : Z := u64 (size + PAGE_MASK) / PAGE_SIZE.
Definition sizeofRegion : Z := 16.

(** The regions that go to the kernel. *)
Definition stored (regs : list region) : list region := filter (fun r : region => r.1 <> 0) regs.

(** [storeParams]; [arrayBase] is where the firmware puts the array of the regions
    ([None] if it has no memory).  The result is the array. *)
Definition storeParams (used : list PagesRegion) (m_freeRegions : kvector region) (arrayBase : Z -> option Z)
    : outcome (list region) :=
  '(v, regCnt) ← storeBusyRegions used m_freeRegions (Z.of_nat (length (elems m_freeRegions)));
  let regCntLimit := u64 (regCnt + 1) in
  let pages := pagesFor (u64 (regCntLimit * sizeofRegion)) in
  match arrayBase pages with
  | None => Panic
  | Some addr =>
      '(v, regCnt) ← storeBusyRegion (mkPages addr pages) v regCnt;
      if regCntLimit <? regCnt then Panic
      else Ok (take (Z.to_nat regCnt) (stored (elems v)))
  end.

(** ** Regions as sets of addresses

    Entry [i] of a list is in use if its end is not 0; [cell] are its addresses. *)
Definition cell (regs : list region) (i : nat) (x : Z) : Prop :=
  exists s e, regs !! i = Some (s, e) /\ e <> 0 /\ s <= x < e.
Definition covers (regs : list region) (x : Z) : Prop := exists i, cell regs i x.

Definition bounds (s e : Z) : Prop :=
  CPU_EXTENDED_MEMORY_BASE <= s <= e /\ s mod PAGE_SIZE = 0 /\ e <= KERNEL_VIRTUAL_BASE - RAM_VIRTUAL_BASE /\
  (s < e \/ s = CPU_EXTENDED_MEMORY_BASE).

(** Entries in use have their bounds in the extended memory and do not overlap. *)
Record Regions (regs : list region) : Prop := mkRegions {
  rg_bounds : forall i s e, regs !! i = Some (s, e) -> e <> 0 -> bounds s e;
  rg_apart : forall i j x, cell regs i x -> cell regs j x -> i = j
}.

Lemma cell_set regs i r j x : (i < length regs)%nat ->
  cell (<[i := r]> regs) j x <-> (j <> i /\ cell regs j x) \/ (j = i /\ r.2 <> 0 /\ r.1 <= x < r.2).
Proof.
  intros Hi. unfold cell. destruct (decide (j = i)) as [->|Hne].
  - rewrite list_lookup_insert_eq by done. destruct r as [s e]. naive_solver.
  - rewrite list_lookup_insert_ne by done. naive_solver.
Qed.

(** One entry gets new bounds: what it covers may change, the others do not. *)
Lemma Regions_set regs i s e : Regions regs -> (i < length regs)%nat -> (e <> 0 -> bounds s e) ->
  (forall j x, j <> i -> cell regs j x -> e <> 0 -> s <= x < e -> False) -> Regions (<[i := (s, e)]> regs).
Proof.
  intros [Hb Ha] Hi Hn Hd. split.
  - intros j s' e' Hj He. destruct (decide (j = i)) as [->|Hne].
    + rewrite list_lookup_insert_eq in Hj by done. injection Hj as <- <-. auto.
    + rewrite list_lookup_insert_ne in Hj by done. eauto.
  - intros j k x. rewrite !cell_set by done. cbn. intros [[Hj Cj]|(-> & He & Hx)] [[Hk Ck]|(-> & He' & Hx')]; try done; eauto.
    + exfalso. eauto.
    + exfalso. eauto.
Qed.

Lemma covers_set regs i s e x : Regions regs -> (i < length regs)%nat ->
  covers (<[i := (s, e)]> regs) x <-> (covers regs x /\ ~ cell regs i x) \/ (e <> 0 /\ s <= x < e).
Proof.
  intros [_ Ha] Hi. unfold covers. setoid_rewrite cell_set; [|done..]. cbn. split.
  - intros (j & [[Hne Hc]|(-> & ?)]); [left|by right]. split; [eauto|]. intros Hc'. apply Hne. eauto.
  - intros [[[j Hc] Hn]|?]; [exists j; left; split; [congruence|done]|]. exists i. by right.
Qed.

Lemma cell_app_l regs l i x : (i < length regs)%nat -> cell (regs ++ l) i x <-> cell regs i x.
Proof. intros Hi. unfold cell. by rewrite lookup_app_l. Qed.

Lemma cell_snoc regs r i x :
  cell (regs ++ [r]) i x <-> cell regs i x \/ (i = length regs /\ r.2 <> 0 /\ r.1 <= x < r.2).
Proof.
  unfold cell. destruct r as [s e]. setoid_rewrite lookup_app_Some. split.
  - intros (s' & e' & [Hi|[Hi Hx]] & Hr); [left; eauto|right]. apply list_lookup_singleton_Some in Hx as [Hz [= <- <-]].
    split; [lia|done].
  - intros [(s' & e' & Hi & Hr)|(-> & Hr)]; [exists s', e'; auto|exists s, e]. split; [|done]. right. split; [done|].
    by rewrite Nat.sub_diag.
Qed.

Lemma Regions_snoc regs s e : Regions regs -> (e <> 0 -> bounds s e) ->
  (forall x, covers regs x -> e <> 0 -> s <= x < e -> False) -> Regions (regs ++ [(s, e)]).
Proof.
  intros [Hb Ha] Hn Hd. split.
  - intros i s' e' [Hi|[Hi Hx]]%lookup_app_Some He; [eauto|].
    apply list_lookup_singleton_Some in Hx as [_ [= <- <-]]. auto.
  - intros i j x. rewrite !cell_snoc. cbn. intros [Hi|(-> & ? & ?)] [Hj|(-> & ? & ?)]; eauto; exfalso.
    + apply (Hd x); [by exists i|done..].
    + apply (Hd x); [by exists j|done..].
Qed.

Lemma covers_snoc regs s e x : covers (regs ++ [(s, e)]) x <-> covers regs x \/ (e <> 0 /\ s <= x < e).
Proof.
  unfold covers. setoid_rewrite cell_snoc. cbn. split; [naive_solver|].
  intros [[i Hi]|?]; [exists i; by left|]. exists (length regs). by right.
Qed.

(** ** Joining neighbours *)

(** What the first loop does from index [i] on. *)
Definition united (rs re : Z) (i : nat) (regs : list region) (u f f' : option nat) (regs' : list region) : Prop :=
  match u with
  | Some k => (i <= k)%nat /\ exists s e, regs !! (k - i)%nat = Some (s, e) /\ e <> 0 /\
      ((e = rs /\ regs' = <[(k - i)%nat := (s, re)]> regs) \/ (s = re /\ regs' = <[(k - i)%nat := (rs, e)]> regs))
  | None => regs' = regs /\ Forall (fun r => r.2 <> 0 -> r.2 <> rs /\ r.1 <> re) regs /\
      (f' = f \/ exists k s, f' = Some k /\ (i <= k)%nat /\ regs !! (k - i)%nat = Some (s, 0))
  end.

Lemma united_cons rs re i r regs u f f' regs' : (r.2 <> 0 -> r.2 <> rs /\ r.1 <> re) -> united rs re (S i) regs u f f' regs' ->
  united rs re i (r :: regs) u f f' (r :: regs').
Proof.
  intros Hr. unfold united. destruct u as [k|].
  - intros (Hk & s & e & Hl & He & H). split; [lia|]. exists s, e.
    replace (k - i)%nat with (S (k - S i)) by lia. cbn. split; [done|]. split; [done|].
    destruct H as [[? ->]|[? ->]]; auto.
  - intros (-> & HF & [->|(k & s & -> & Hk & Hl)]); (split; [done|]; split; [by constructor|]); auto. right. exists k, s. split_and!; [done|lia|].
    replace (k - i)%nat with (S (k - S i)) by lia. done.
Qed.

Lemma scanUnite_spec rs re regs : forall i f u f' regs', scanUnite rs re i f regs = (u, f', regs') ->
  united rs re i regs u f f' regs'.
Proof.
  induction regs as [|[s e] regs IH]; intros i f u f' regs' E; cbn in E; [injection E as <- <- <-; by split_and!; auto|].
  destruct (Z.eqb_spec e 0) as [->|He].
  { destruct (scanUnite _ _ _ _ _) as [[u1 f1] l1] eqn:E1. injection E as <- <- <-.
    specialize (IH _ _ _ _ _ E1). destruct u1 as [k|].
    - by apply (united_cons rs re i (s, 0) regs (Some k) f f1 l1).
    - destruct IH as (-> & HF & [->|(k & s' & -> & Hk & Hl)]); (split; [done|]; split; [by constructor|]); right.
      + exists i, s. split_and!; [done|lia|]. by rewrite Nat.sub_diag.
      + exists k, s'. split_and!; [done|lia|]. by replace (k - i)%nat with (S (k - S i)) by lia. }
  destruct (Z.eqb_spec e rs) as [->|].
  { injection E as <- <- <-. split; [done|]. exists s, rs. rewrite Nat.sub_diag. auto. }
  destruct (Z.eqb_spec s re) as [->|].
  { injection E as <- <- <-. split; [done|]. exists re, e. rewrite Nat.sub_diag. auto. }
  destruct (scanUnite _ _ _ _ _) as [[u1 f1] l1] eqn:E1. injection E as <- <- <-.
  apply united_cons; [done|by apply IH].
Qed.

Lemma scanOther_spec us ue u regs : forall i b regs', scanOther us ue u i regs = (b, regs') ->
  match b with
  | true => exists k s e, (i <= k)%nat /\ k <> u /\ regs !! (k - i)%nat = Some (s, e) /\ e <> 0 /\
      ((e = us /\ regs' = <[(k - i)%nat := (s, ue)]> regs) \/ (s = ue /\ regs' = <[(k - i)%nat := (us, e)]> regs))
  | false => regs' = regs /\ forall k s e, regs !! k = Some (s, e) -> (i + k)%nat <> u -> e <> 0 -> e <> us /\ s <> ue
  end.
Proof.
  induction regs as [|[s e] regs IH]; intros i b regs' E; cbn in E; [by injection E as <- <-|].
  assert (Hrec : forall b1 l1, (i <> u -> e <> 0 -> e <> us /\ s <> ue) ->
    scanOther us ue u (S i) regs = (b1, l1) -> (b1, (s, e) :: l1) = (b, regs') ->
    match b with
    | true => exists k s' e', (i <= k)%nat /\ k <> u /\ ((s, e) :: regs) !! (k - i)%nat = Some (s', e') /\ e' <> 0 /\
      ((e' = us /\ regs' = <[(k - i)%nat := (s', ue)]> ((s, e) :: regs)) \/
       (s' = ue /\ regs' = <[(k - i)%nat := (us, e')]> ((s, e) :: regs)))
    | false => regs' = (s, e) :: regs /\ forall k s' e', ((s, e) :: regs) !! k = Some (s', e') -> (i + k)%nat <> u ->
        e' <> 0 -> e' <> us /\ s' <> ue
    end).
  { intros b1 l1 Hh E1 [= <- <-]. specialize (IH _ _ _ E1). destruct b1.
    2: { destruct IH as [-> IH]. split; [done|]. intros [|k] s' e' Hk Hu He'; [injection Hk as <- <-; apply Hh; [lia|done]|].
         apply (IH k s' e'); [done|lia|done]. }
    destruct IH as (k & s' & e' & Hk & Hu & Hl & He & H). exists k, s', e'.
    replace (k - i)%nat with (S (k - S i)) by lia. split; [lia|]. cbn.
    split; [done|]. split; [done|]. split; [done|]. destruct H as [[-> ->]|[-> ->]]; auto. }
  destruct ((e =? 0) || (i =? u)%nat) eqn:Ez.
  { destruct (scanOther _ _ _ _ _) as [b1 l1] eqn:E1. apply (Hrec b1 l1); [|done..]. intros. apply orb_true_iff in Ez as [?|Ez]; [lia|]. apply Nat.eqb_eq in Ez. lia. }
  apply orb_false_iff in Ez as [Ez Eu]. assert (e <> 0) by lia. assert (i <> u) by (intros ->; by rewrite Nat.eqb_refl in Eu).
  destruct (Z.eqb_spec e us) as [->|].
  { injection E as <- <-. exists i, s, us. rewrite Nat.sub_diag. auto 10. }
  destruct (Z.eqb_spec s ue) as [->|].
  { injection E as <- <-. exists i, ue, e. rewrite Nat.sub_diag. auto 10. }
  destruct (scanOther _ _ _ _ _) as [b1 l1] eqn:E1. by apply (Hrec b1 l1).
Qed.

(** The new region joined with the entry at [u], which it touches. *)
Lemma join_entry regs u s e s' e' rs re : Regions regs -> regs !! u = Some (s, e) -> e <> 0 -> bounds rs re ->
  (forall x, covers regs x -> rs <= x < re -> False) ->
  (e = rs /\ s' = s /\ e' = re) \/ (s = re /\ s' = rs /\ e' = e) ->
  Regions (<[u := (s', e')]> regs) /\ (forall x, covers (<[u := (s', e')]> regs) x <-> covers regs x \/ rs <= x < re).
Proof.
  intros HR Hu He Hn Hd Hc. apply lookup_lt_Some in Hu as Hlt. pose proof (rg_bounds _ HR _ _ _ Hu He) as Hb.
  unfold bounds, CPU_EXTENDED_MEMORY_BASE in *.
  assert (Hcu : forall x, cell regs u x <-> s <= x < e).
  { intros x. unfold cell. rewrite Hu. naive_solver. }
  split.
  - apply Regions_set; try done; [intros _; unfold bounds, CPU_EXTENDED_MEMORY_BASE; destruct Hb as (? & ? & ? & Hb), Hn as (? & ? & ? & Hn);
      destruct Hc as [(? & -> & ->)|(? & -> & ->)]; split_and!; try done; destruct Hb, Hn; lia|].
    intros j x Hj Hx _ Hin. assert (s <= x < e \/ rs <= x < re) as [Hx'|Hx'] by (destruct Hc as [(?&?&?)|(?&?&?)]; lia).
    + apply Hj. apply (rg_apart _ HR j u x Hx). by apply Hcu.
    + apply (Hd x); [by exists j|done].
  - intros x. rewrite covers_set, Hcu by done. split.
    + intros [[? _]|[_ Hx]]; [auto|]. destruct (decide (s <= x < e)); [left; exists u; by apply Hcu|right].
      destruct Hc as [(?&?&?)|(?&?&?)]; lia.
    + intros [Hx|Hx]; [|right; destruct Hc as [(?&?&?)|(?&?&?)]; lia].
      destruct (decide (s <= x < e)); [right; destruct Hc as [(?&?&?)|(?&?&?)]; lia|left; auto].
Qed.

Lemma take_over_eq regs u us ue k r : (k < length regs)%nat -> k <> u -> regs !! u = Some (us, ue) ->
  alter (fun r : region => (r.1, 0)) u (<[k := r]> regs) = <[k := r]> (<[u := (us, 0)]> regs).
Proof.
  intros Hlk Hne Hu. apply lookup_lt_Some in Hu as Hlu. apply list_eq. intros i. destruct (decide (i = u)) as [->|Hiu].
  - rewrite list_lookup_alter_eq, list_lookup_insert_ne, Hu by done.
    by rewrite list_lookup_insert_ne, list_lookup_insert_eq by done.
  - rewrite list_lookup_alter_ne by done. destruct (decide (i = k)) as [->|].
    + by rewrite !list_lookup_insert_eq by (rewrite ?length_insert; done).
    + by rewrite !list_lookup_insert_ne by done.
Qed.

(** The entry [u] goes to an entry [k] that touches it. *)
Lemma take_over regs u us ue k s e s' e' : Regions regs -> regs !! u = Some (us, ue) -> ue <> 0 ->
  regs !! k = Some (s, e) -> e <> 0 -> k <> u ->
  (e = us /\ s' = s /\ e' = ue) \/ (s = ue /\ s' = us /\ e' = e) ->
  let regs' := alter (fun r : region => (r.1, 0)) u (<[k := (s', e')]> regs) in
  Regions regs' /\ (forall x, covers regs' x <-> covers regs x).
Proof.
  intros HR Hu Hue Hk He Hne Hc regs'. apply lookup_lt_Some in Hu as Hlu.
  assert (Er : regs' = <[k := (s', e')]> (<[u := (us, 0)]> regs)).
  { apply (take_over_eq _ _ _ ue); [by eapply lookup_lt_Some|done..]. }
  assert (HR2 : Regions (<[u := (us, 0)]> regs)) by (apply Regions_set; done).
  assert (Hcu : forall x, cell regs u x <-> us <= x < ue).
  { intros x. unfold cell. rewrite Hu. naive_solver. }
  assert (Hcov : forall x, covers (<[u := (us, 0)]> regs) x <-> covers regs x /\ ~ us <= x < ue).
  { intros x. rewrite covers_set, Hcu by done. naive_solver. }
  destruct (join_entry (<[u := (us, 0)]> regs) k s e s' e' us ue HR2) as [HR3 H3]; try done.
  - by rewrite list_lookup_insert_ne.
  - by apply (rg_bounds _ HR u).
  - intros x [_ ?]%Hcov. done.
  - rewrite Er. split; [done|]. intros x. rewrite H3, Hcov. split.
    + intros [[? _]|?]; [done|]. exists u. by apply Hcu.
    + intros Hx. destruct (decide (us <= x < ue)); auto.
Qed.

Lemma addRegion_spec rs re regs : Regions regs -> bounds rs re -> (forall x, covers regs x -> rs <= x < re -> False) ->
  Regions (addRegion (rs, re) regs) /\ (forall x, covers (addRegion (rs, re) regs) x <-> covers regs x \/ rs <= x < re).
Proof.
  intros HR Hb Hd. assert (Hre : re <> 0) by (unfold bounds, CPU_EXTENDED_MEMORY_BASE in Hb; lia).
  unfold addRegion. destruct (scanUnite rs re 0 None regs) as [[u f] regs1] eqn:E1.
  apply scanUnite_spec in E1. destruct u as [u|].
  - destruct E1 as (_ & s & e & Hu & He & Hc). rewrite Nat.sub_0_r in *. apply lookup_lt_Some in Hu as Hlt.
    assert (exists us ue, regs1 = <[u := (us, ue)]> regs /\ ue <> 0 /\
      ((e = rs /\ us = s /\ ue = re) \/ (s = re /\ us = rs /\ ue = e))) as (us & ue & -> & Hue & Hc')
      by (destruct Hc as [[-> ->]|[-> ->]]; eauto 10).
    rewrite list_lookup_insert_eq by done.
    destruct (join_entry regs u s e us ue rs re HR Hu He Hb Hd Hc') as [HR1 H1].
    destruct (scanOther us ue u 0 _) as [b regs2] eqn:E2. apply scanOther_spec in E2. destruct b; [|by destruct E2 as [-> _]].
    destruct E2 as (k & s2 & e2 & _ & Hku & Hk & He2 & Hc2). rewrite Nat.sub_0_r in *.
    assert (exists s' e', regs2 = <[k := (s', e')]> (<[u := (us, ue)]> regs) /\
      ((e2 = us /\ s' = s2 /\ e' = ue) \/ (s2 = ue /\ s' = us /\ e' = e2))) as (s' & e' & -> & Hc2')
      by (destruct Hc2 as [[-> ->]|[-> ->]]; eauto 10).
    destruct (take_over (<[u := (us, ue)]> regs) u us ue k s2 e2 s' e' HR1) as [HR2 H2]; try done;
      [by apply list_lookup_insert_eq|].
    split; [done|]. intros x. by rewrite H2, H1.
  - destruct E1 as (-> & _ & [->|(k & s & -> & _ & Hk)]).
    + split; [apply Regions_snoc; auto; by intros x ? _; apply Hd|]. intros x. rewrite covers_snoc. naive_solver.
    + rewrite Nat.sub_0_r in Hk. apply lookup_lt_Some in Hk as Hlt.
      assert (Hck : forall x, ~ cell regs k x) by (intros x (? & ? & Hx & ? & _); congruence).
      split; [apply Regions_set; try done; intros j x _ Hx _; apply Hd; by exists j|].
      intros x. rewrite covers_set by done. specialize (Hck x). naive_solver.
Qed.

(** ** The whole map *)

(** The addresses a descriptor gives to the kernel. *)
Definition ramOf (desc : EFI_MEMORY_DESCRIPTOR) (x : Z) : Prop :=
  exists r, Type_ desc <> EfiReservedMemoryType /\ usableRam desc = Some r /\ r.1 <= x < r.2.

(** The firmware's map: page frames below the end of the RAM window, no frame twice. *)
Record wfMap (descs : list EFI_MEMORY_DESCRIPTOR) : Prop := mkWfMap {
  wm_bounds : forall d, d ∈ descs -> 0 <= PhysicalStart d /\ PhysicalStart d mod PAGE_SIZE = 0 /\ 0 < NumberOfPages d /\
    PhysicalStart d + NumberOfPages d * PAGE_SIZE <= KERNEL_VIRTUAL_BASE - RAM_VIRTUAL_BASE;
  wm_apart : forall i j d d' x, descs !! i = Some d -> descs !! j = Some d' -> ramOf d x -> ramOf d' x -> i = j
}.

Lemma usableRam_bounds d r : 0 <= PhysicalStart d /\ PhysicalStart d mod PAGE_SIZE = 0 /\ 0 < NumberOfPages d /\
    PhysicalStart d + NumberOfPages d * PAGE_SIZE <= KERNEL_VIRTUAL_BASE - RAM_VIRTUAL_BASE ->
  usableRam d = Some r -> bounds r.1 r.2.
Proof.
  intros (H1 & H2 & H3 & H4) E. unfold usableRam in E. destruct (negb _); [done|].
  assert (E' : (let rend := u64 (PhysicalStart d + NumberOfPages d * PAGE_SIZE) in
      if rend <? CPU_EXTENDED_MEMORY_BASE then None
      else Some (if PhysicalStart d <? CPU_EXTENDED_MEMORY_BASE then CPU_EXTENDED_MEMORY_BASE else PhysicalStart d, rend)) = Some r)
    by (destruct (Type_ d); done).
  clear E. cbn in E'. unfold PAGE_SIZE, KERNEL_VIRTUAL_BASE, RAM_VIRTUAL_BASE in H4. rewrite u64_small in E' by (unfold PAGE_SIZE; lia).
  destruct (Z.ltb_spec (PhysicalStart d + NumberOfPages d * PAGE_SIZE) CPU_EXTENDED_MEMORY_BASE) as [|Hge]; [done|].
  injection E' as <-. cbn [fst snd]. unfold bounds, PAGE_SIZE, CPU_EXTENDED_MEMORY_BASE in *.
  destruct (Z.ltb_spec (PhysicalStart d) 0x100000); split_and!; try done; unfold KERNEL_VIRTUAL_BASE, RAM_VIRTUAL_BASE; lia.
Qed.

Lemma Regions_nil : Regions [].
Proof. split; [done|]. intros i j x (? & ? & E & _). done. Qed.

Lemma map_spec descs : wfMap descs ->
  Regions (foldl addDesc [] descs) /\ forall x, covers (foldl addDesc [] descs) x <-> exists d, d ∈ descs /\ ramOf d x.
Proof.
  induction descs as [|d descs IH] using rev_ind; intros [Hb Ha].
  { split; [apply Regions_nil|]. intros x. split; [intros (i & ? & ? & E & _); done|]. intros (d & ?%elem_of_nil & _). done. }
  destruct IH as [HR Hc].
  { split; [intros d' Hd'; apply Hb; set_solver|]. intros i j d1 d2 x Hi Hj. apply (Ha i j d1 d2 x); by apply lookup_app_l_Some. }
  rewrite foldl_snoc. set (regs := foldl addDesc [] descs) in *.
  assert (Hcov : forall x, (exists d', d' ∈ descs ++ [d] /\ ramOf d' x) <-> covers regs x \/ ramOf d x).
  { intros x. rewrite Hc. setoid_rewrite elem_of_app. setoid_rewrite list_elem_of_singleton. naive_solver. }
  assert (Hskip : (forall x, ~ ramOf d x) -> Regions regs /\ (forall x, covers regs x <-> exists d', d' ∈ descs ++ [d] /\ ramOf d' x)).
  { intros Hn. split; [done|]. intros x. rewrite Hcov. specialize (Hn x). naive_solver. }
  unfold addDesc. destruct (decide (Type_ d = EfiReservedMemoryType)) as [Et|Et].
  { rewrite Et. apply Hskip. intros x (r & ? & _). done. }
  assert (E : match Type_ d with EfiReservedMemoryType => regs | _ =>
     match usableRam d with Some r => addRegion r regs | None => regs end end =
     match usableRam d with Some r => addRegion r regs | None => regs end) by (destruct (Type_ d); done).
  rewrite E. destruct (usableRam d) as [[rs re]|] eqn:Eu; [|apply Hskip; intros x (r & _ & Er & _); congruence].
  assert (Hd : forall x, ramOf d x <-> rs <= x < re).
  { intros x. unfold ramOf. rewrite Eu. split; [intros (r & _ & [= <-] & ?); done|]. intros. by exists (rs, re). }
  destruct (addRegion_spec rs re regs HR) as [HR' Hc'].
  - apply (usableRam_bounds d (rs, re)); [apply Hb; set_solver|done].
  - intros x (d' & Hin & Hr)%Hc Hx. apply list_elem_of_lookup in Hin as [i Hi].
    assert (i = length descs) as ->.
    { apply (Ha i (length descs) d' d x); [by apply lookup_app_l_Some | by apply list_lookup_middle | done | by apply Hd]. }
    apply lookup_lt_Some in Hi. lia.
  - split; [done|]. intros x. rewrite Hc', Hcov, Hd. done.
Qed.

(** ** No two regions touch *)

Definition Gaps (regs : list region) : Prop :=
  forall i j s e s' e', regs !! i = Some (s, e) -> regs !! j = Some (s', e') -> e <> 0 -> e' <> 0 -> i <> j -> e <> s'.

(** A new entry at [k] that touches no other one; entries that are not in [P] do not
    count. *)
Lemma Gaps_set regs k s e : (k < length regs)%nat ->
  (forall i j s1 e1 s2 e2, i <> k -> j <> k -> regs !! i = Some (s1, e1) -> regs !! j = Some (s2, e2) ->
     e1 <> 0 -> e2 <> 0 -> i <> j -> e1 <> s2) ->
  (e <> 0 -> forall j s' e', j <> k -> regs !! j = Some (s', e') -> e' <> 0 -> e' <> s /\ s' <> e) ->
  Gaps (<[k := (s, e)]> regs).
Proof.
  intros Hk Ho Hn i j s1 e1 s2 e2 Hi Hj He1 He2 Hij.
  destruct (decide (i = k)) as [->|Hik], (decide (j = k)) as [->|Hjk]; try done.
  - rewrite list_lookup_insert_eq in Hi by done. rewrite list_lookup_insert_ne in Hj by done. injection Hi as <- <-.
    destruct (Hn He1 j s2 e2) as [_ ?]; try done; congruence.
  - rewrite list_lookup_insert_ne in Hi by done. rewrite list_lookup_insert_eq in Hj by done. injection Hj as <- <-.
    by destruct (Hn He2 i s1 e1) as [? _].
  - rewrite list_lookup_insert_ne in Hi, Hj by done. eauto.
Qed.

Lemma Gaps_snoc regs s e : Gaps regs ->
  (e <> 0 -> forall j s' e', regs !! j = Some (s', e') -> e' <> 0 -> e' <> s /\ s' <> e) -> Gaps (regs ++ [(s, e)]).
Proof.
  intros HG Hn i j s1 e1 s2 e2 Hi Hj He1 He2 Hij.
  apply lookup_app_Some in Hi as [Hi|[Hi Hx]], Hj as [Hj|[Hj Hy]].
  - eauto.
  - apply list_lookup_singleton_Some in Hy as [_ [= <- <-]]. by destruct (Hn He2 i s1 e1) as [? _].
  - apply list_lookup_singleton_Some in Hx as [_ [= <- <-]]. destruct (Hn He1 j s2 e2) as [_ ?]; try done; congruence.
  - apply list_lookup_singleton_Some in Hx as [Hx _], Hy as [Hy _]. lia.
Qed.

Lemma addRegion_Gaps rs re regs : Gaps regs -> Gaps (addRegion (rs, re) regs).
Proof.
  intros HG. unfold addRegion. destruct (scanUnite rs re 0 None regs) as [[u f] regs1] eqn:E1.
  apply scanUnite_spec in E1. destruct u as [u|].
  - destruct E1 as (_ & s & e & Hu & He & Hc). rewrite Nat.sub_0_r in *. apply lookup_lt_Some in Hu as Hlt.
    assert (exists us ue, regs1 = <[u := (us, ue)]> regs /\
      ((e = rs /\ us = s /\ ue = re) \/ (s = re /\ us = rs /\ ue = e))) as (us & ue & -> & Hc')
      by (destruct Hc as [[-> ->]|[-> ->]]; eauto 10).
    rewrite list_lookup_insert_eq by done.
    destruct (scanOther us ue u 0 _) as [b regs2] eqn:E2. apply scanOther_spec in E2. destruct b.
    2: { destruct E2 as [-> Hno]. apply Gaps_set; [done|intros i j ? ? ? ? _ _; apply HG|]. intros Hue j s' e' Hj Hjl He'.
         apply (Hno j s' e'); [by rewrite list_lookup_insert_ne|done..]. }
    destruct E2 as (k & s2 & e2 & _ & Hku & Hk & He2 & Hc2). rewrite Nat.sub_0_r in *.
    rewrite list_lookup_insert_ne in Hk by done. apply lookup_lt_Some in Hk as Hlk.
    assert (exists s' e', regs2 = <[k := (s', e')]> (<[u := (us, ue)]> regs) /\
      ((e2 = us /\ s' = s2 /\ e' = ue) \/ (s2 = ue /\ s' = us /\ e' = e2))) as (s' & e' & -> & Hc2')
      by (destruct Hc2 as [[-> ->]|[-> ->]]; eauto 10).
    rewrite (take_over_eq _ u us ue); [|by rewrite length_insert|exact Hku|by apply list_lookup_insert_eq].
    rewrite list_insert_insert_eq.
    pose proof (HG k u s2 e2 s e Hk Hu He2 He Hku). pose proof (HG u k s e s2 e2 Hu Hk He He2 ltac:(done)).
    apply Gaps_set.
    + by rewrite length_insert.
    + intros i j s1 e1 s3 e3 Hi Hj Hil Hjl He1 He3 Hij.
      destruct (decide (i = u)) as [->|]; [rewrite list_lookup_insert_eq in Hil by done; congruence|].
      destruct (decide (j = u)) as [->|]; [rewrite list_lookup_insert_eq in Hjl by done; congruence|].
      rewrite list_lookup_insert_ne in Hil, Hjl by done. eauto.
    + intros He' j s3 e3 Hj Hjl He3.
      destruct (decide (j = u)) as [->|]; [rewrite list_lookup_insert_eq in Hjl by done; congruence|].
      rewrite list_lookup_insert_ne in Hjl by done.
      pose proof (HG j u s3 e3 s e Hjl Hu He3 He ltac:(done)). pose proof (HG u j s e s3 e3 Hu Hjl He He3 ltac:(done)).
      pose proof (HG j k s3 e3 s2 e2 Hjl Hk He3 He2 ltac:(done)). pose proof (HG k j s2 e2 s3 e3 Hk Hjl He2 He3 ltac:(done)).
      destruct Hc' as [(-> & -> & ->)|(-> & -> & ->)], Hc2' as [(? & -> & ->)|(? & -> & ->)]; subst; split; congruence.
  - destruct E1 as (-> & HF & [->|(k & s & -> & _ & Hk)]); rewrite Forall_lookup in HF.
    + apply Gaps_snoc; [done|]. intros _ j s' e' Hj. apply (HF j (s', e') Hj).
    + rewrite Nat.sub_0_r in Hk. apply Gaps_set; [by eapply lookup_lt_Some|intros i j ? ? ? ? _ _; apply HG|].
      intros _ j s' e' _ Hj. apply (HF j (s', e') Hj).
Qed.

Lemma map_Gaps descs : Gaps (foldl addDesc [] descs).
Proof.
  assert (H : forall l regs, Gaps regs -> Gaps (foldl addDesc regs l)); [|apply H; by intros i].
  induction l as [|d l IH]; intros regs HG; [done|]. cbn [foldl]. apply IH. unfold addDesc.
  destruct (Type_ d); try done; destruct (usableRam d) as [[rs re]|]; auto using addRegion_Gaps.
Qed.

(** ** Cutting out regions *)

(** The list while regions are cut out of it: an entry that is used up is [(0, 0)], and
    [n] counts the others. *)
Record FreeRam (regs : list region) (n : Z) : Prop := mkFreeRam {
  fr_regions : Regions regs;
  fr_gaps : Gaps regs;
  fr_dead : forall i s, regs !! i = Some (s, 0) -> s = 0;
  fr_count : n = Z.of_nat (length (stored regs))
}.

Definition used01 (r : region) : nat := if decide (r.1 <> 0) then 1 else 0.

Lemma count_app (l1 l2 : list region) :
  length (stored (l1 ++ l2)) =
  (length (stored l1) + length (stored l2))%nat.
Proof. unfold stored. by rewrite filter_app, length_app. Qed.

Lemma count_cons (r : region) l : length (stored (r :: l)) =
  (used01 r + length (stored l))%nat.
Proof. unfold stored. rewrite filter_cons. unfold used01. by destruct (decide _). Qed.

Lemma count_set regs i r r' : regs !! i = Some r ->
  (length (stored (<[i := r']> regs)) + used01 r =
   length (stored regs) + used01 r')%nat.
Proof.
  intros Hi. apply lookup_lt_Some in Hi as Hlt. rewrite insert_take_drop by done.
  rewrite <- (take_drop_middle regs i r Hi) at 3. rewrite !count_app, !count_cons. lia.
Qed.

Lemma findFree_spec us ue regs : forall i j s e, findFree us ue i regs = Some (j, (s, e)) ->
  (i <= j)%nat /\ regs !! (j - i)%nat = Some (s, e) /\ s <= us /\ ue <= e.
Proof.
  induction regs as [|[s0 e0] regs IH]; intros i j s e E; [done|]. cbn in E. destruct (_ && _) eqn:Ec.
  - injection E as <- <- <-. rewrite Nat.sub_diag. split_and!; [done|done|lia..].
  - apply IH in E as (Hj & Hl & ?). split; [lia|]. by replace (j - i)%nat with (S (j - S i)) by lia.
Qed.

Lemma findFree_found us ue regs : forall i k s e, regs !! k = Some (s, e) -> s <= us -> ue <= e ->
  is_Some (findFree us ue i regs).
Proof.
  induction regs as [|[s0 e0] regs IH]; intros i k s e Hk Hs He; [done|]. cbn. destruct (_ && _) eqn:Ec; [done|].
  destruct k as [|k]; [injection Hk as -> ->; lia|]. by apply (IH _ k s e).
Qed.

(** Because no two regions touch, a covered range lies in one of them. *)
Lemma covered_entry regs us ue : Regions regs -> Gaps regs -> us < ue -> (forall x, us <= x < ue -> covers regs x) ->
  exists k s e, regs !! k = Some (s, e) /\ s <= us /\ ue <= e.
Proof.
  intros HR HG Hlt Hc. destruct (Hc us) as (k & s & e & Hk & He & Hx); [lia|]. exists k, s, e. split_and!; [done|lia|].
  destruct (Z.le_gt_cases ue e); [done|]. exfalso.
  destruct (Hc e) as (j & s' & e' & Hj & He' & Hx'); [lia|].
  assert (k <> j) by (intros ->; rewrite Hk in Hj; injection Hj as -> ->; lia).
  pose proof (HG k j s e s' e' Hk Hj He He' ltac:(done)).
  assert (k = j); [|done]. apply (rg_apart _ HR k j (e - 1)); [exists s, e | exists s', e']; split_and!; try done; lia.
Qed.

Definition wfUsed (u : PagesRegion) : Prop :=
  0 <= m_base u /\ m_base u mod PAGE_SIZE = 0 /\ 0 < m_num u /\
  m_base u + m_num u * PAGE_SIZE <= KERNEL_VIRTUAL_BASE - RAM_VIRTUAL_BASE.
Definition inUsed (u : PagesRegion) (x : Z) : Prop := m_base u <= x < m_base u + m_num u * PAGE_SIZE.

Lemma usedEnd_eq u : wfUsed u -> usedEnd u = m_base u + m_num u * PAGE_SIZE.
Proof.
  intros (H1 & _ & H2 & H3). unfold usedEnd, PAGE_SIZE, KERNEL_VIRTUAL_BASE, RAM_VIRTUAL_BASE in *.
  apply u64_small. lia.
Qed.

(** Nothing else is where the region that is cut is. *)
Lemma other_entry regs k s e j s' e' : Regions regs -> Gaps regs -> regs !! k = Some (s, e) -> e <> 0 ->
  regs !! j = Some (s', e') -> e' <> 0 -> j <> k -> s' <= e' < s \/ e < s' <= e' \/ s = e.
Proof.
  intros HR HG Hk He Hj He' Hne. pose proof (rg_bounds _ HR _ _ _ Hk He) as (B1 & _ & _ & B2).
  pose proof (rg_bounds _ HR _ _ _ Hj He') as (B1' & _ & _ & B2').
  pose proof (HG j k _ _ _ _ Hj Hk He' He Hne). pose proof (HG k j _ _ _ _ Hk Hj He He' ltac:(done)).
  destruct (Z.lt_ge_cases e' s); [left; lia|]. destruct (Z.lt_ge_cases e s'); [right; left; lia|]. right; right.
  destruct (Z.eq_dec s e); [done|]. exfalso. apply Hne.
  apply (rg_apart _ HR j k (Z.max s s')); [exists s', e' | exists s, e]; split_and!; try done; lia.
Qed.

Lemma count_pos regs i s e : regs !! i = Some (s, e) -> s <> 0 ->
  (0 < length (stored regs))%nat.
Proof.
  intros Hi Hs. rewrite <- (take_drop_middle regs i _ Hi), count_app, count_cons. unfold used01. cbn.
  destruct (decide _); [lia|done].
Qed.

(** An entry shrinks to a part of it that is not empty. *)
Lemma shrink_entry regs k s e s' e' : Regions regs -> Gaps regs -> regs !! k = Some (s, e) -> e <> 0 ->
  s <= s' < e' -> e' <= e -> s' mod PAGE_SIZE = 0 ->
  Regions (<[k := (s', e')]> regs) /\ Gaps (<[k := (s', e')]> regs) /\
  (forall x, covers (<[k := (s', e')]> regs) x <-> covers regs x /\ ~ (s <= x < s' \/ e' <= x < e)).
Proof.
  intros HR HG Hk He Hs He' Hm. apply lookup_lt_Some in Hk as Hlt.
  pose proof (rg_bounds _ HR _ _ _ Hk He) as (B1 & B2 & B3 & B4).
  assert (Hck : forall x, cell regs k x <-> s <= x < e) by (intros x; unfold cell; rewrite Hk; naive_solver).
  split_and!.
  - apply Regions_set; try done; [intros _; split_and!; solve [done | lia | left; lia]|].
    intros j x Hj Hx _ Hin. apply Hj. apply (rg_apart _ HR j k x Hx). apply Hck. lia.
  - apply Gaps_set; [done|intros i j ? ? ? ? _ _; apply HG|]. intros _ j s2 e2 Hj Hjl He2.
    destruct (other_entry regs k s e j s2 e2 HR HG Hk He Hjl He2 Hj) as [?|[?|?]]; lia.
  - intros x. rewrite covers_set, Hck by done. split.
    + intros [[Hx Hn]|[_ Hx]]; [split; [done|lia]|]. split; [exists k; apply Hck; lia|lia].
    + intros [Hx Hn]. destruct (decide (s <= x < e)); [|left; done].
      unfold CPU_EXTENDED_MEMORY_BASE in *. right. lia.
Qed.

(** An entry is used up. *)
Lemma drop_entry regs k s e : Regions regs -> Gaps regs -> regs !! k = Some (s, e) -> e <> 0 ->
  Regions (<[k := (0, 0)]> regs) /\ Gaps (<[k := (0, 0)]> regs) /\
  (forall x, covers (<[k := (0, 0)]> regs) x <-> covers regs x /\ ~ s <= x < e).
Proof.
  intros HR HG Hk He. apply lookup_lt_Some in Hk as Hlt.
  assert (Hck : forall x, cell regs k x <-> s <= x < e) by (intros x; unfold cell; rewrite Hk; naive_solver).
  split_and!.
  - by apply Regions_set.
  - apply Gaps_set; [done|intros i j ? ? ? ? _ _; apply HG|done].
  - intros x. rewrite covers_set, Hck by done. naive_solver.
Qed.

Lemma dead_set (regs : list region) (k : nat) (r : region) : (forall i s, regs !! i = Some (s, 0) -> s = 0) -> (r.2 = 0 -> r.1 = 0) ->
  forall i s, <[k := r]> regs !! i = Some (s, 0) -> s = 0.
Proof.
  intros Hd Hr i s Hi. apply list_lookup_insert_Some in Hi as [(<- & -> & _)|[_ Hi]]; [by apply Hr|by eapply Hd].
Qed.

Lemma used01_in s e : s <> 0 -> used01 (s, e) = 1%nat.
Proof. intros Hs. unfold used01. cbn. by destruct (decide _). Qed.

(** An entry is split around what is cut out. *)
Lemma split_entry regs k s e us ue : Regions regs -> Gaps regs -> regs !! k = Some (s, e) -> e <> 0 ->
  s < us -> us < ue -> ue < e -> ue mod PAGE_SIZE = 0 ->
  Regions (<[k := (s, us)]> regs ++ [(ue, e)]) /\ Gaps (<[k := (s, us)]> regs ++ [(ue, e)]) /\
  (forall x, covers (<[k := (s, us)]> regs ++ [(ue, e)]) x <-> covers regs x /\ ~ us <= x < ue).
Proof.
  intros HR HG Hk He Hs Hu Hue Hm. pose proof (rg_bounds _ HR _ _ _ Hk He) as (B1 & B2 & B3 & B4).
  apply lookup_lt_Some in Hk as Hlt.
  destruct (shrink_entry _ k s e s us HR HG Hk He) as (HR1 & HG1 & H1); [lia..|done|].
  split_and!.
  - apply Regions_snoc; [done|intros _; split_and!; solve [done | lia | left; lia]|].
    intros x [_ Hx]%H1 _ ?. apply Hx. right. lia.
  - apply Gaps_snoc; [done|]. intros _ j s2 e2 Hj He2. destruct (decide (j = k)) as [->|Hjk].
    + rewrite list_lookup_insert_eq in Hj by done. injection Hj as <- <-. lia.
    + rewrite list_lookup_insert_ne in Hj by done.
      destruct (other_entry _ k s e j s2 e2 HR HG Hk He Hj He2 Hjk) as [?|[?|?]]; lia.
  - intros x. rewrite covers_snoc, H1. split.
    + intros [[Hx Hnx]|[_ Hx]]; [split; [done|]; intros ?; apply Hnx; right; lia|].
      split; [exists k, s, e; split_and!; try done; lia|lia].
    + intros [Hx Hnx]. destruct (decide (ue <= x < e)); [right; lia|left; split; [done|lia]].
Qed.

(** The four cases of the cut, on the list. *)
Definition cut (regs : list region) (us ue : Z) (k : nat) (s e : Z) : list region :=
  if s <? us then
    if ue <? e then <[k := (s, us)]> regs ++ [(ue, e)] else <[k := (s, us)]> regs
  else if ue <? e then <[k := (ue, e)]> regs else <[k := (0, 0)]> regs.
Definition cutCount (us ue s e : Z) : Z :=
  if s <? us then if ue <? e then 1 else 0 else if ue <? e then 0 else -1.

Lemma cut_spec regs n us ue k s e : FreeRam regs n -> regs !! k = Some (s, e) -> s <= us -> us < ue -> ue <= e ->
  ue mod PAGE_SIZE = 0 -> 0 <= us ->
  FreeRam (cut regs us ue k s e) (n + cutCount us ue s e) /\ 0 < n /\
  (forall x, covers (cut regs us ue k s e) x <-> covers regs x /\ ~ us <= x < ue).
Proof.
  intros [HR HG Hd Hn] Hk Hs Hu He Hm Hp. assert (Hne : e <> 0) by lia.
  assert (Hs0 : 0 < s) by (pose proof (rg_bounds _ HR _ _ _ Hk Hne) as (B1 & _); unfold CPU_EXTENDED_MEMORY_BASE in B1; lia).
  assert (Hs1 : s <> 0) by lia.
  pose proof (count_pos _ _ _ _ Hk Hs1) as Hpos.
  assert (Hcnt : forall r, (length (stored (<[k := r]> regs)) + 1 = length (stored regs) + used01 r)%nat).
  { intros r. rewrite <- (used01_in s e Hs1). by apply count_set. }
  unfold cut, cutCount. destruct (Z.ltb_spec s us), (Z.ltb_spec ue e).
  - destruct (split_entry regs k s e us ue) as (HR1 & HG1 & H1); try done; try lia.
    split; [split; try done|split; [lia|done]].
    + intros i x [Hi|[_ Hi]]%lookup_app_Some; [eapply (dead_set _ k (s, us)); [done|cbn; lia|done]|].
      apply list_lookup_singleton_Some in Hi as [_ [= -> ->]]. lia.
    + specialize (Hcnt (s, us)). rewrite used01_in in Hcnt by done.
      rewrite count_app, count_cons, (used01_in ue) by lia. cbn [stored filter length]. cbn. lia.
  - destruct (shrink_entry _ k s e s us HR HG Hk Hne) as (HR1 & HG1 & H1); [lia..| |].
    { by destruct (rg_bounds _ HR _ _ _ Hk Hne) as (_ & ? & _). }
    specialize (Hcnt (s, us)). rewrite used01_in in Hcnt by done. split; [split; try done|split; [lia|]].
    + eapply dead_set; [done|cbn; lia].
    + lia.
    + intros x. rewrite H1. assert (ue = e) by lia. subst e. split; intros [Hx Hnx]; (split; [done|lia]).
  - assert (s = us) by lia. subst s. destruct (shrink_entry _ k us e ue e HR HG Hk Hne) as (HR1 & HG1 & H1); [lia..|done|].
    specialize (Hcnt (ue, e)). rewrite used01_in in Hcnt by lia. split; [split; try done|split; [lia|]].
    + eapply dead_set; [done|cbn; lia].
    + lia.
    + intros x. rewrite H1. split; intros [Hx Hnx]; (split; [done|lia]).
  - assert (s = us) by lia. assert (ue = e) by lia. subst s e.
    destruct (drop_entry _ k us ue HR HG Hk Hne) as (HR1 & HG1 & H1). specialize (Hcnt (0, 0)).
    change (used01 (0, 0)) with 0%nat in Hcnt. split; [split; try done|split; [lia|done]]; [by eapply dead_set|lia].
Qed.

Lemma storeBusyRegion_spec u v n : FreeRam (elems v) n -> wfUsed u -> (forall x, inUsed u x -> covers (elems v) x) ->
  (length (elems v) < m_allocSize v)%nat -> Z.of_nat (m_allocSize v) < 2 ^ 64 ->
  exists v' n', storeBusyRegion u v n = Ok (v', n') /\ FreeRam (elems v') n' /\ m_allocSize v' = m_allocSize v /\
    (length (elems v') <= S (length (elems v)))%nat /\ n' <= n + 1 /\
    (forall x, covers (elems v') x <-> covers (elems v) x /\ ~ inUsed u x).
Proof.
  intros HF Hu Hc Hcap Hmax. pose proof (usedEnd_eq u Hu) as Ee. destruct Hu as (U1 & U2 & U3 & U4).
  pose proof HF as [HR HG _ Hn].
  assert (Hn1 : 0 <= n < Z.of_nat (m_allocSize v)).
  { subst n. assert (length (stored (elems v)) <= length (elems v))%nat by apply length_filter. lia. }
  assert (Hfull : (length (elems v) =? m_allocSize v)%nat = false) by (apply Nat.eqb_neq; lia).
  unfold storeBusyRegion. rewrite Ee. unfold inUsed in *. set (us := m_base u) in *. set (ue := us + m_num u * PAGE_SIZE) in *.
  assert (Hlt : us < ue) by (unfold ue, PAGE_SIZE; lia).
  assert (Hue : ue mod PAGE_SIZE = 0) by (unfold ue; rewrite Z.mod_add by done; done).
  destruct (covered_entry _ us ue HR HG Hlt Hc) as (k0 & s0 & e0 & Hk0 & Hs0 & He0).
  destruct (findFree_found us ue _ 0 _ _ _ Hk0 Hs0 He0) as [[k [s e]] Ef]. rewrite Ef.
  apply findFree_spec in Ef as (_ & Hk & Hs & He). rewrite Nat.sub_0_r in Hk. apply lookup_lt_Some in Hk as Hlk.
  destruct (cut_spec _ n us ue k s e HF Hk Hs Hlt He Hue U1) as (HF' & Hpos & Hcov).
  assert (Hu1 : u64 (n + 1) = n + 1) by (apply u64_small; lia).
  assert (Hu2 : u64 (n - 1) = n + -1) by (apply u64_small; lia).
  exists (mkVec (cut (elems v) us ue k s e) (m_allocSize v)), (n + cutCount us ue s e). cbn [elems m_allocSize].
  split; [|split; [exact HF'|]; split; [reflexivity|]; split; [|split; [|exact Hcov]]].
  - unfold cut, cutCount, moves, push_back. rewrite Hfull, Hu1, Hu2. cbn [elems m_allocSize].
    destruct (s <? us), (ue <? e); rewrite ?Z.add_0_r; try reflexivity. by rewrite insert_app_l.
  - unfold cut. destruct (s <? us), (ue <? e); rewrite ?length_app, length_insert; cbn; lia.
  - unfold cutCount. destruct (s <? us), (ue <? e); lia.
Qed.

Lemma storeBusyRegions_spec used : forall v n, FreeRam (elems v) n -> Forall wfUsed used ->
  (forall u x, u ∈ used -> inUsed u x -> covers (elems v) x) ->
  (forall i j u u' x, used !! i = Some u -> used !! j = Some u' -> inUsed u x -> inUsed u' x -> i = j) ->
  (length (elems v) + length used <= m_allocSize v)%nat -> Z.of_nat (m_allocSize v) < 2 ^ 64 ->
  exists v' n', storeBusyRegions used v n = Ok (v', n') /\ FreeRam (elems v') n' /\ m_allocSize v' = m_allocSize v /\
    (length (elems v') <= length (elems v) + length used)%nat /\
    (forall x, covers (elems v') x <-> covers (elems v) x /\ forall u, u ∈ used -> ~ inUsed u x).
Proof.
  induction used as [|u used IH]; intros v n HF Hw Hc Ha Hcap Hmax.
  { exists v, n. split_and!; try done; [cbn; lia|]. intros x. split; [intros ?; split; [done|by intros u ?%elem_of_nil]|naive_solver]. }
  apply Forall_cons in Hw as [Hu Hw]. cbn [length] in *.
  destruct (storeBusyRegion_spec u v n HF Hu) as (v1 & n1 & E1 & HF1 & Hs1 & Hl1 & _ & H1); [|lia|done|].
  { intros x. apply Hc. by left. }
  destruct (IH v1 n1 HF1 Hw) as (v2 & n2 & E2 & HF2 & Hs2 & Hl2 & H2).
  - intros u' x Hu' Hx. apply H1. split; [by apply (Hc u'); [right|]|]. intros Hx'.
    apply list_elem_of_lookup in Hu' as [i Hi]. by assert (0%nat = S i) by (by apply (Ha 0%nat (S i) u u' x)).
  - intros i j u1 u2 x Hi Hj Hx1 Hx2. by assert (S i = S j) as [= ->] by (by apply (Ha (S i) (S j) u1 u2 x)).
  - lia.
  - by rewrite Hs1.
  - exists v2, n2. cbn [storeBusyRegions]. rewrite E1. ostep. rewrite E2. split_and!; try done; [congruence|lia|].
    intros x. rewrite H2, H1. setoid_rewrite elem_of_cons. naive_solver.
Qed.

(** ** Lists without the unused entries *)

Lemma filter_id {A} (P : A -> Prop) `{forall x, Decision (P x)} l : Forall P l -> filter P l = l.
Proof. induction 1 as [|x l Hx _ IH]; [done|]. rewrite filter_cons, IH. by destruct (decide _). Qed.

Lemma Regions_prefix l r : Regions (l ++ [r]) -> Regions l.
Proof.
  intros [Hb Ha]. split.
  - intros i s e Hi. apply (Hb i). by apply lookup_app_l_Some.
  - intros i j x Hi Hj. apply (Ha i j x); rewrite cell_snoc; auto.
Qed.

Lemma Regions_filter (P : region -> Prop) `{forall r, Decision (P r)} l : Regions l ->
  Regions (filter P l) /\ forall x, covers (filter P l) x <-> exists s e, (s, e) ∈ l /\ P (s, e) /\ e <> 0 /\ s <= x < e.
Proof.
  induction l as [|[s e] l IH] using rev_ind; intros HR.
  { split; [done|]. intros x. split; [intros (i & ? & ? & E & _); done|]. intros (? & ? & ?%elem_of_nil & _). done. }
  destruct (IH (Regions_prefix _ _ HR)) as [HR1 H1].
  assert (Hx : forall x, (exists s' e', (s', e') ∈ l ++ [(s, e)] /\ P (s', e') /\ e' <> 0 /\ s' <= x < e') <->
    covers (filter P l) x \/ (P (s, e) /\ e <> 0 /\ s <= x < e)).
  { intros x. rewrite H1. split.
    - intros (s' & e' & [Hin|[= -> ->]%list_elem_of_singleton]%elem_of_app & Hr); [left; by exists s', e'|by right].
    - intros [(s' & e' & Hin & Hr)|Hr]; [exists s', e'|exists s, e]; (split; [|done]); apply elem_of_app; [by left|].
      right. by apply list_elem_of_singleton. }
  rewrite filter_app, filter_cons, filter_nil. destruct (decide (P (s, e))) as [HP|HP].
  - split; [|intros x; rewrite covers_snoc, Hx; by split; intros [?|?]; [left|right|left|right]; try done; tauto]. apply Regions_snoc; [done| |].
    + apply (rg_bounds _ HR (length l)). by apply list_lookup_middle.
    + intros x (s' & e' & Hin & _ & He' & Hx')%H1 He Hin'. apply list_elem_of_lookup in Hin as [i Hi].
      assert (i = length l) as ->; [|apply lookup_lt_Some in Hi; lia].
      apply (rg_apart _ HR i (length l) x); rewrite cell_snoc; [left; by exists s', e'|right; done].
  - rewrite app_nil_r. split; [done|]. intros x. rewrite Hx. split; [by left|]. by intros [?|[? _]].
Qed.

Lemma covers_elem regs x : covers regs x <-> exists s e, (s, e) ∈ regs /\ e <> 0 /\ s <= x < e.
Proof.
  unfold covers, cell. split.
  - intros (i & s & e & Hi & ?). exists s, e. split; [|done]. by eapply list_elem_of_lookup_2.
  - intros (s & e & [i Hi]%list_elem_of_lookup & ?). by exists i, s, e.
Qed.

Lemma Gaps_filter (P : region -> Prop) `{forall r, Decision (P r)} l : Gaps l -> Gaps (filter P l).
Proof.
  induction l as [|[s e] l IH] using rev_ind; intros HG; [done|].
  assert (HG1 : Gaps l).
  { intros i j s1 e1 s2 e2 Hi Hj. apply (HG i j s1 e1 s2 e2); by apply lookup_app_l_Some. }
  rewrite filter_app, filter_cons, filter_nil. destruct (decide (P (s, e))); [|rewrite app_nil_r; auto].
  apply Gaps_snoc; [auto|]. intros He j s' e' Hj He'.
  assert (Hin : (s', e') ∈ l) by (apply list_elem_of_lookup_2 in Hj; by apply list_elem_of_filter in Hj as [_ ?]).
  apply list_elem_of_lookup in Hin as [i Hi]. apply lookup_lt_Some in Hi as Hlt.
  assert (Hm : (l ++ [(s, e)]) !! length l = Some (s, e)) by (by apply list_lookup_middle).
  assert (Hi' : (l ++ [(s, e)]) !! i = Some (s', e')) by (by apply lookup_app_l_Some).
  split; [apply (HG i (length l) s' e' s e); try done; lia|].
  intros ->. apply (HG (length l) i s e e e'); try done; lia.
Qed.

Lemma initMemoryMap_elems descs :
  elems (initMemoryMap descs) = filter (fun r : region => r.2 <> 0) (foldl addDesc [] descs).
Proof.
  unfold initMemoryMap. generalize (foldl addDesc [] descs). intros l.
  assert (Hg : forall l (v : kvector region), elems (foldl (fun v r => if negb (r.2 =? 0) then push_back r v else v) v l) =
    elems v ++ filter (fun r : region => r.2 <> 0) l); [|apply (Hg l emptyVec)]. clear l.
  induction l as [|r l IH]; intros v; cbn [foldl]; [by rewrite filter_nil, app_nil_r|].
  rewrite IH, filter_cons. destruct (Z.eqb_spec r.2 0); cbn [negb]; destruct (decide _); try done.
  cbn [push_back elems]. by rewrite <- app_assoc.
Qed.

Lemma initMemoryMap_spec descs : wfMap descs ->
  FreeRam (elems (initMemoryMap descs)) (Z.of_nat (length (elems (initMemoryMap descs)))) /\
  forall x, covers (elems (initMemoryMap descs)) x <-> exists d, d ∈ descs /\ ramOf d x.
Proof.
  intros Hw. destruct (map_spec descs Hw) as [HR Hc]. rewrite initMemoryMap_elems. set (regs := foldl addDesc [] descs) in *.
  destruct (Regions_filter (fun r : region => r.2 <> 0) regs HR) as [HR1 H1]. split; [split|].
  - done.
  - apply Gaps_filter, map_Gaps.
  - intros i s Hi%list_elem_of_lookup_2. by apply list_elem_of_filter in Hi as [? _].
  - unfold stored. rewrite (filter_id (fun r : region => r.1 <> 0)); [done|]. apply Forall_forall. intros [s e] Hin. cbn.
    apply list_elem_of_filter in Hin as [He Hin]. cbn in He. apply list_elem_of_lookup in Hin as [i Hi]. pose proof (rg_bounds _ HR _ _ _ Hi He) as (B & _).
    unfold CPU_EXTENDED_MEMORY_BASE in B. lia.
  - intros x. rewrite H1, <- Hc, covers_elem. cbn. split.
    + intros (s & e & ? & _ & ?). by exists s, e.
    + intros (s & e & ? & ? & ?). by exists s, e.
Qed.

(** ** What the kernel gets *)

Lemma elem_of_allPages regs p :
  p ∈ RamAllocator.allPages regs <-> exists r, r ∈ regs /\ p ∈ RamAllocator.regionPages r.
Proof.
  induction regs as [|r regs IH] using rev_ind.
  - split; [by intros ?%elem_of_nil|]. intros (? & ?%elem_of_nil & _). done.
  - rewrite RamAllocator.allPages_app, elem_of_app, IH. setoid_rewrite elem_of_app. setoid_rewrite list_elem_of_singleton.
    naive_solver.
Qed.

(** A page of a region, as a physical address. *)
Lemma regionPages_in s e p : bounds s e -> p ∈ RamAllocator.regionPages (s, e) ->
  s <= p - RAM_VIRTUAL_BASE < e.
Proof.
  intros ((B0 & B1) & _ & B2 & _) (i & Hi & ->)%RamAllocator.elem_of_pagesFrom. cbn [fst snd] in *.
  unfold physToVirtualInt, CPU_EXTENDED_MEMORY_BASE, KERNEL_VIRTUAL_BASE, RAM_VIRTUAL_BASE, PAGE_SIZE in *.
  rewrite u64_small by lia. assert (Z.of_nat i < (e - s) / 4096) by lia. Z.div_mod_to_equations. lia.
Qed.

Lemma NoDup_allPages regs : Regions regs -> (forall s e, (s, e) ∈ regs -> e <> 0) -> NoDup (RamAllocator.allPages regs).
Proof.
  induction regs as [|[s e] regs IH] using rev_ind; intros HR Hl; [constructor|].
  rewrite RamAllocator.allPages_app. apply NoDup_app. split; [apply RamAllocator.NoDup_pagesFrom|]. split.
  - intros p Hp ([s' e'] & Hr & Hp')%elem_of_allPages. apply list_elem_of_lookup in Hr as [i Hi].
    apply lookup_lt_Some in Hi as Hlt.
    assert (Hm : (regs ++ [(s, e)]) !! length regs = Some (s, e)) by (by apply list_lookup_middle).
    assert (Hi' : (regs ++ [(s, e)]) !! i = Some (s', e')) by (by apply lookup_app_l_Some).
    assert (He : e <> 0) by (apply (Hl s), (list_elem_of_lookup_2 _ _ _ Hm)).
    assert (He' : e' <> 0) by (apply (Hl s'), (list_elem_of_lookup_2 _ _ _ Hi')).
    apply regionPages_in in Hp; [|by apply (rg_bounds _ HR _ _ _ Hm)].
    apply regionPages_in in Hp'; [|by apply (rg_bounds _ HR _ _ _ Hi')].
    assert (i = length regs); [|lia].
    apply (rg_apart _ HR i (length regs) (p - RAM_VIRTUAL_BASE)); [by exists s', e'|by exists s, e].
  - apply IH; [by eapply Regions_prefix|]. intros s' e' Hin. apply (Hl s'), elem_of_app. by left.
Qed.

(** The whole of the regions that are stored. *)
Lemma stored_spec regs n : FreeRam regs n ->
  Forall RamAllocator.region_ok (stored regs) /\ NoDup (RamAllocator.allPages (stored regs)) /\
  forall x, (exists s e, (s, e) ∈ stored regs /\ s <= x < e) <-> covers regs x.
Proof.
  intros [HR _ Hd _]. destruct (Regions_filter (fun r : region => r.1 <> 0) regs HR) as [HR1 H1]. fold (stored regs) in *.
  assert (Hlive : forall s e, (s, e) ∈ stored regs -> (s, e) ∈ regs /\ e <> 0).
  { intros s e [Hs Hin]%list_elem_of_filter. cbn in Hs. split; [done|]. intros ->.
    apply list_elem_of_lookup in Hin as [i Hi]. apply Hs. by eapply Hd. }
  assert (Hst : forall s e, (s, e) ∈ regs -> e <> 0 -> (s, e) ∈ stored regs /\ bounds s e).
  { intros s e Hin He. apply list_elem_of_lookup in Hin as [i Hi]. pose proof (rg_bounds _ HR _ _ _ Hi He) as B.
    split; [|done]. apply list_elem_of_filter. split; [|by eapply list_elem_of_lookup_2]. cbn.
    destruct B as ((B & _) & _). unfold CPU_EXTENDED_MEMORY_BASE in B. lia. }
  split_and!.
  - apply Forall_forall. intros [s e] [Hin He]%Hlive. destruct (Hst s e Hin He) as [_ ((B1 & B2) & B3 & B4 & _)].
    unfold RamAllocator.region_ok, CPU_EXTENDED_MEMORY_BASE in *. cbn [fst snd]. split; [lia|done].
  - apply NoDup_allPages; [done|]. intros s e [_ ?]%Hlive. done.
  - intros x. rewrite covers_elem. split; intros (s & e & Hin & Hx); exists s, e.
    + destruct (Hlive s e Hin). done.
    + destruct Hx as [He Hx]. by destruct (Hst s e Hin He).
Qed.

(** What the firmware promises about the array of the regions: fresh RAM, for up to
    [limit] pages. *)
Definition freshArray (descs : list EFI_MEMORY_DESCRIPTOR) (used : list PagesRegion) (limit : Z)
    (arrayBase : Z -> option Z) : Prop :=
  forall pages, 0 < pages <= limit -> exists addr, arrayBase pages = Some addr /\ wfUsed (mkPages addr pages) /\
    forall x, inUsed (mkPages addr pages) x -> (exists d, d ∈ descs /\ ramOf d x) /\ forall u, u ∈ used -> ~ inUsed u x.

(** C5: the loader's memory map.  Given a well-formed firmware map (descriptors that do
    not share RAM), loader allocations that lie in its RAM and are disjoint, and a fresh
    array from the firmware: as long as the entries of the list together with the
    loader's allocations do not fill the buffer of the list (otherwise the source writes
    to freed memory, see [Demo.full_buffer]; the buffer has 16 entries at first and
    doubles), the list that is handed to the kernel has exactly the usable RAM of the
    firmware's map above the first megabyte, without the pages the loader itself has
    allocated and without the array that holds the list; its regions are page-aligned,
    lie in the RAM window and share no page, which is what the kernel's page allocator
    needs. *)
Theorem boot_memory_correct descs used arrayBase :
  wfMap descs -> Forall wfUsed used ->
  (forall u x, u ∈ used -> inUsed u x -> exists d, d ∈ descs /\ ramOf d x) ->
  (forall i j u u' x, used !! i = Some u -> used !! j = Some u' -> inUsed u x -> inUsed u' x -> i = j) ->
  freshArray descs used (Z.of_nat (m_allocSize (initMemoryMap descs))) arrayBase ->
  (length (elems (initMemoryMap descs)) + length used < m_allocSize (initMemoryMap descs))%nat ->
  Z.of_nat (m_allocSize (initMemoryMap descs)) < 2 ^ 59 ->
  exists regs pages addr, storeParams used (initMemoryMap descs) arrayBase = Ok regs /\ arrayBase pages = Some addr /\
    Z.of_nat (length regs) * sizeofRegion <= pages * PAGE_SIZE /\
    Forall RamAllocator.region_ok regs /\ NoDup (RamAllocator.allPages regs) /\
    forall x, (exists s e, (s, e) ∈ regs /\ s <= x < e) <->
      (exists d, d ∈ descs /\ ramOf d x) /\ (forall u, u ∈ used -> ~ inUsed u x) /\ ~ inUsed (mkPages addr pages) x.
Proof.
  intros Hw Hu Hin Hap Hfw Hroom Hmax. destruct (initMemoryMap_spec descs Hw) as [HF Hc].
  set (v0 := initMemoryMap descs) in *.
  destruct (storeBusyRegions_spec used v0 _ HF Hu) as (v1 & n1 & E1 & HF1 & Hs1 & Hl1 & H1); [|done|lia|lia|].
  { intros u x Hu' Hx. apply Hc. by eapply Hin. }
  pose proof (fr_count _ _ HF1) as Hn1. assert (length (stored (elems v1)) <= length (elems v1))%nat by apply length_filter.
  assert (Hn : 0 <= n1 < 2 ^ 59) by lia.
  set (pages := pagesFor (u64 (u64 (n1 + 1) * sizeofRegion))).
  assert (Hpages : 0 < pages <= Z.of_nat (m_allocSize v0) /\ (n1 + 1) * 16 <= pages * 4096).
  { unfold pages, pagesFor, sizeofRegion, PAGE_MASK, PAGE_SIZE.
    rewrite (u64_small (n1 + 1)), (u64_small ((n1 + 1) * 16)), u64_small by lia.
    Z.div_mod_to_equations. lia. }
  destruct (Hfw pages (proj1 Hpages)) as (addr & Ea & Hwa & Hfa).
  destruct (storeBusyRegion_spec (mkPages addr pages) v1 n1 HF1 Hwa) as (v2 & n2 & E2 & HF2 & _ & _ & Hn2 & H2); [|lia|lia|].
  { intros x Hx. apply H1. destruct (Hfa x Hx) as [? ?]. split; [by apply Hc|done]. }
  destruct (stored_spec _ _ HF2) as (Hok & Hnd & Hcov). pose proof (fr_count _ _ HF2) as Hcnt.
  exists (stored (elems v2)), pages, addr. split_and!; try done.
  - unfold storeParams. rewrite E1. ostep. fold pages. rewrite Ea, E2. ostep.
    rewrite (u64_small (n1 + 1)) by lia. destruct (Z.ltb_spec (n1 + 1) n2); [lia|].
    rewrite take_ge; [done|lia].
  - unfold sizeofRegion, PAGE_SIZE. lia.
  - intros x. rewrite Hcov, H2, H1, Hc. tauto.
Qed.

(** ** A small machine *)
Module Demo.
Definition ram (s n : Z) : EFI_MEMORY_DESCRIPTOR := mkDesc EfiConventionalMemory s n 0xF.
(** Low memory, two neighbours in the wrong order, and a device. *)
Definition map1 : list EFI_MEMORY_DESCRIPTOR :=
  [ram 0 160; ram 0x200000 16; ram 0x100000 256; mkDesc EfiMemoryMappedIO 0x300000 16 0xF; ram 0x400000 32].

Lemma map1_regions : elems (initMemoryMap map1) = [(0x100000, 0x210000); (0x400000, 0x420000)].
Proof. by vm_compute. Qed.

Definition array1 (pages : Z) : option Z := Some 0x401000.
Definition used1 : list PagesRegion := [mkPages 0x180000 4].
Lemma store1 : storeParams used1 (initMemoryMap map1) array1 =
  Ok [(0x100000, 0x180000); (0x400000, 0x401000); (0x184000, 0x210000); (0x402000, 0x420000)].
Proof. by vm_compute. Qed.

Lemma ram1 x : (exists d, d ∈ map1 /\ ramOf d x) <-> 0x100000 <= x < 0x210000 \/ 0x400000 <= x < 0x420000.
Proof.
  assert (Hr : forall s n, s + n * PAGE_SIZE < 2 ^ 64 -> 0 <= s -> 0 <= n -> ramOf (ram s n) x <->
    0x100000 <= s + n * 4096 /\ Z.max 0x100000 s <= x < s + n * 4096).
  { intros s n H1 H2 H3. unfold ramOf, usableRam, ram, PAGE_SIZE, CPU_EXTENDED_MEMORY_BASE in *.
    cbn [Attribute Type_ PhysicalStart NumberOfPages]. change (negb (Z.land 0xF 0xF =? 0xF)) with false. cbn [negb].
    rewrite u64_small by lia. destruct (Z.ltb_spec (s + n * 4096) 0x100000).
    - split; [by intros (r & _ & ? & _)|lia].
    - split; [intros (r & _ & [= <-] & Hx); cbn [fst snd] in Hx; destruct (Z.ltb_spec s 0x100000); lia|].
      intros [_ Hx]. eexists. split; [done|]. split; [reflexivity|]. cbn [fst snd]. destruct (Z.ltb_spec s 0x100000); lia. }
  assert (Hdev : forall s n, ~ ramOf (mkDesc EfiMemoryMappedIO s n 0xF) x) by (intros s n (r & _ & ? & _); done).
  split.
  - intros (d & Hd & Hx). unfold map1 in Hd.
    repeat (apply elem_of_cons in Hd as [->|Hd]; [first [by apply Hdev in Hx | apply Hr in Hx; unfold PAGE_SIZE; lia]|]).
    by apply elem_of_nil in Hd.
  - intros Hx. destruct (decide (0x400000 <= x)).
    { exists (ram 0x400000 32). split; [apply (list_elem_of_lookup_2 map1 4 _ eq_refl)|]. apply Hr; unfold PAGE_SIZE; lia. }
    destruct (decide (0x200000 <= x)).
    { exists (ram 0x200000 16). split; [apply (list_elem_of_lookup_2 map1 1 _ eq_refl)|]. apply Hr; unfold PAGE_SIZE; lia. }
    exists (ram 0x100000 256). split; [apply (list_elem_of_lookup_2 map1 2 _ eq_refl)|]. apply Hr; unfold PAGE_SIZE; lia.
Qed.

Lemma map1_wf : wfMap map1.
Proof.
  split.
  - intros d Hd. apply list_elem_of_In in Hd. cbn in Hd. destruct_or? Hd; try done; subst d; by vm_compute.
  - assert (Hb : forall d x, ramOf d x -> Type_ d = EfiConventionalMemory -> 0 <= PhysicalStart d ->
      PhysicalStart d + NumberOfPages d * 4096 < 2 ^ 64 -> 0 <= NumberOfPages d ->
      Z.max 0x100000 (PhysicalStart d) <= x < PhysicalStart d + NumberOfPages d * 4096).
    { intros d x (r & _ & E & Hx) Ht H1 H2 H3. unfold usableRam, PAGE_SIZE, CPU_EXTENDED_MEMORY_BASE in E. rewrite Ht in E.
      destruct (negb _); [done|]. rewrite u64_small in E by lia.
      destruct (Z.ltb_spec (PhysicalStart d + NumberOfPages d * 4096) 0x100000); [done|]. injection E as <-.
      cbn [fst snd] in Hx. destruct (Z.ltb_spec (PhysicalStart d) 0x100000); lia. }
    assert (Hdev : forall s n x, ~ ramOf (mkDesc EfiMemoryMappedIO s n 0xF) x) by (intros s n x (r & _ & ? & _); done).
    intros i j d d' x Hi Hj Hx Hx'.
    destruct i as [|[|[|[|[|i]]]]]; cbn in Hi; [injection Hi as <-..|done];
      (destruct j as [|[|[|[|[|j]]]]]; cbn in Hj; [injection Hj as <-..|done]); try done;
      first [by apply Hdev in Hx | by apply Hdev in Hx' |
        (apply Hb in Hx; [|done..]); (apply Hb in Hx'; [|done..]); cbn in Hx, Hx'; lia].
Qed.

Lemma boot_memory_correct_witness : exists regs, storeParams used1 (initMemoryMap map1) array1 = Ok regs /\
  Forall RamAllocator.region_ok regs /\ NoDup (RamAllocator.allPages regs).
Proof.
  destruct (boot_memory_correct map1 used1 array1) as (regs & pages & addr & E & _ & _ & Hok & Hnd & _).
  - exact map1_wf.
  - repeat constructor; by vm_compute.
  - intros u x Hu Hx. apply ram1. apply list_elem_of_singleton in Hu as ->. unfold inUsed, PAGE_SIZE in Hx. cbn in Hx. lia.
  - intros i j u u' x Hi Hj _ _. apply list_lookup_singleton_Some in Hi as [-> _], Hj as [-> _]. reflexivity.
  - intros pages Hp. change (Z.of_nat (m_allocSize (initMemoryMap map1))) with 16 in Hp. exists 0x401000. split; [done|].
    split; [unfold wfUsed, PAGE_SIZE, KERNEL_VIRTUAL_BASE, RAM_VIRTUAL_BASE; cbn [m_base m_num]; split_and!; [lia|done|lia|lia]|].
    unfold inUsed, PAGE_SIZE. cbn [m_base m_num]. intros x Hx. split; [apply ram1; lia|].
    intros u ->%list_elem_of_singleton. cbn [m_base m_num]. lia.
  - apply Nat.ltb_lt. by vm_compute.
  - by vm_compute.
  - exists regs. split; [exact E|]. split; [exact Hok|exact Hnd].
Defined.

(** Sixteen regions fill the buffer: the cut in the middle of one of them moves it, and
    the rest of the cut is written to the freed buffer. *)
Definition many : list EFI_MEMORY_DESCRIPTOR := (fun k => ram (0x100000 * k) 16) <$> seqZ 1 16.
Lemma full_buffer :
  length (elems (initMemoryMap many)) = 16%nat /\
  storeBusyRegion (mkPages 0x304000 4) (initMemoryMap many) 16 = Fault.
Proof. by vm_compute. Qed.
End Demo.
