(* ===== verification/AcpiTables.v ===== *)
(** * The firmware's tables (kernel/AcpiTables.cpp)

    At start the kernel walks the tables the firmware left in memory: it follows the
    root pointer to the list of tables, looks tables up by their signatures, and reads
    the processors, the interrupt controllers, the interrupt remappings, the PCI
    segments and the timer.  Packed structures are read from a byte memory ([CLib]) at
    their offsets; what is printed is left out. *)

From S2P Require Import Prelude PhMem CLib Strings.

(** ** What is read *)

Record ApicIsaRemappingEntry : Type := mkRemap {
  m_sourceIrq : Z; m_apicIrq : Z; m_polarity : Z; m_triggerMode : Z }.
Record SystemEnhancedPciSegment : Type := mkSeg { m_mmioBase : Z; m_startBus : Z; m_endBus : Z }.

Record AcpiTables : Type := mkTables {
  m_tables : list Z;
  m_cpuApicIds : list Z;
  m_ioApics : list (Z * Z);         (* m_mmioBase, m_irqBase *)
  m_isaRemapping : list ApicIsaRemappingEntry;
  m_pciEnhancedSegments : list SystemEnhancedPciSegment;
  m_hpetMmioBase : Z }.

Definition addCpu (x : Z) (t : AcpiTables) : AcpiTables :=
  mkTables (m_tables t) (m_cpuApicIds t ++ [x]) (m_ioApics t) (m_isaRemapping t) (m_pciEnhancedSegments t) (m_hpetMmioBase t).
Definition addIoApic (x : Z * Z) (t : AcpiTables) : AcpiTables :=
  mkTables (m_tables t) (m_cpuApicIds t) (m_ioApics t ++ [x]) (m_isaRemapping t) (m_pciEnhancedSegments t) (m_hpetMmioBase t).
Definition addRemap (x : ApicIsaRemappingEntry) (t : AcpiTables) : AcpiTables :=
  mkTables (m_tables t) (m_cpuApicIds t) (m_ioApics t) (m_isaRemapping t ++ [x]) (m_pciEnhancedSegments t) (m_hpetMmioBase t).
Definition addSegment (x : SystemEnhancedPciSegment) (t : AcpiTables) : AcpiTables :=
  mkTables (m_tables t) (m_cpuApicIds t) (m_ioApics t) (m_isaRemapping t) (m_pciEnhancedSegments t ++ [x]) (m_hpetMmioBase t).
Definition setHpet (x : Z) (t : AcpiTables) : AcpiTables :=
  mkTables (m_tables t) (m_cpuApicIds t) (m_ioApics t) (m_isaRemapping t) (m_pciEnhancedSegments t) x.

Definition sizeofTableHeader : Z := 36.   (* AcpiTableHeader *)
Definition sizeofRsdp : Z := 36.
Definition sizeofLapicTable : Z := 8.
Definition sizeofIoApicTable : Z := 12.
Definition sizeofInterruptSourceTable : Z := 10.
Definition sizeofMcfgItem : Z := 16.
Definition madtData : Z := 44.            (* m_apicTablesData *)
Definition mcfgData : Z := 44.            (* m_items *)

Section Read.
Context (m : mem).

Definition tableLength (p : Z) : Z := readLE 4 m (p + 4).
Definition bytesAt (p : Z) (n : nat) : list Z := (fun i => m (p + Z.of_nat i)) <$> seq 0 n.

(** ** Lookup *)

Fixpoint getTableIn (signature : list Z) (tables : list Z) : outcome Z :=
  match tables with
  | [] => Ok nullptr
  | p :: tables =>
      r ← kmemcmp (bytesAt p 4) signature 4;
      if r =? 0 then Ok p else getTableIn signature tables
  end.
Definition getTable (signature : list Z) (t : AcpiTables) : outcome Z := getTableIn signature (m_tables t).

Definition madtSignature : list Z := [65; 80; 73; 67].
Definition mcfgSignature : list Z := [77; 67; 70; 71].
Definition hpetSign : list Z := [72; 80; 69; 84].

(** ** Processors and interrupt controllers *)

(** The body of the loop of [parseApic] on the entry at [p]. *)
Definition readApicEntry (p : Z) (t : AcpiTables) : AcpiTables :=
  let type := m p in
  let len := m (p + 1) in
  if (type =? 0) && (len =? sizeofLapicTable) then
    if negb (Z.land (readLE 4 m (p + 4)) 0x01 =? 0) then addCpu (m (p + 3)) t else t
  else if (type =? 1) && (len =? sizeofIoApicTable) then addIoApic (readLE 4 m (p + 4), readLE 4 m (p + 8)) t
  else if (type =? 2) && (len =? sizeofInterruptSourceTable) then
    if m (p + 2) =? 0 then
      let flags := readLE 2 m (p + 8) in
      addRemap (mkRemap (m (p + 3)) (readLE 4 m (p + 4)) (Z.land flags 0x03) (Z.land (Z.shiftr flags 2) 0x03)) t
    else t
  else t.

Fixpoint apicLoop (fuel : nat) (apicDataPtr apicDataEndPtr : Z) (t : AcpiTables) : outcome AcpiTables :=
  if apicDataPtr <? apicDataEndPtr then
    match fuel with
    | O => NoFuel
    | S fuel =>
        let len := m (apicDataPtr + 1) in
        if len <? 2 then Panic
        else apicLoop fuel (u64 (apicDataPtr + len)) apicDataEndPtr (readApicEntry apicDataPtr t)
    end
  else Ok t.

(** An entry has two bytes at least, so the length of the table bounds the rounds. *)
Definition parseApic (t : AcpiTables) : outcome AcpiTables :=
  madt ← getTable madtSignature t;
  if madt =? nullptr then Panic
  else
    let apicDataPtr := u64 (madt + madtData) in
    let apicDataEndPtr := u64 (apicDataPtr + tableLength madt - madtData) in
    apicLoop (Z.to_nat (tableLength madt)) apicDataPtr apicDataEndPtr t.

(** ** PCI segments *)

Fixpoint mcfgLoop (fuel : nat) (item end_ : Z) (t : AcpiTables) : outcome AcpiTables :=
  if negb (item =? end_) then
    match fuel with
    | O => NoFuel
    | S fuel =>
        let base := readLE 8 m item in
        let startBus := m (item + 10) in
        let endBus := m (item + 11) in
        if (base =? 0) || (endBus <? startBus) then Ok t
        else mcfgLoop fuel (u64 (item + sizeofMcfgItem)) end_ (addSegment (mkSeg base startBus endBus) t)
    end
  else Ok t.

Definition parseMcfg (fuel : nat) (t : AcpiTables) : outcome AcpiTables :=
  mcfg ← getTable mcfgSignature t;
  if mcfg =? nullptr then Ok t
  else
    let begin := u64 (mcfg + mcfgData) in
    let n := u64 (tableLength mcfg - mcfgData) / sizeofMcfgItem in
    mcfgLoop fuel begin (u64 (begin + n * sizeofMcfgItem)) t.

(** ** The timer *)

(** A shift by the width of the type or more is undefined. *)
Definition shl64 (n : Z) : outcome Z := if (0 <=? n) && (n <? 64) then Ok (2 ^ n) else Fault.

Definition parseHpet (t : AcpiTables) : outcome AcpiTables :=
  table ← getTable hpetSign t;
  if table =? nullptr then Panic
  else if negb (m (table + 40) =? 0) then Panic
  else
    let base := readLE 8 m (table + 44) in
    lo ← shl64 (m (table + 42));
    let base := Z.land base (u64 (Z.lnot (lo - 1))) in
    hiBit ← shl64 (m (table + 41) - 1);
    let mask := Z.lor hiBit (hiBit - 1) in
    let base := Z.land base mask in
    if base =? 0 then Panic else Ok (setHpet base t).

(** ** The constructor *)

Fixpoint tablesLoop (fuel : nat) (xsdt tblIdx numTables : Z) (acc : list Z) : outcome (list Z) :=
  if tblIdx <? numTables then
    match fuel with
    | O => NoFuel
    | S fuel =>
        tablesLoop fuel xsdt (tblIdx + 1) numTables
          (acc ++ [physToVirtualInt (readLE 8 m (xsdt + sizeofTableHeader + 8 * tblIdx))])
    end
  else Ok acc.

(** [fuel] bounds the number of tables and of PCI segments. *)
Definition createAcpiTables (fuel : nat) (m_acpiRsdpPhys : Z) : outcome AcpiTables :=
  let rsdp := physToVirtualInt m_acpiRsdpPhys in
  let xsdt := physToVirtualInt (readLE 8 m (rsdp + 24)) in
  if tableLength xsdt <? sizeofRsdp - 4 then Panic
  else
    let numTables := u64 (tableLength xsdt - sizeofTableHeader) / 8 in
    tables ← tablesLoop fuel xsdt 0 numTables [];
    t ← parseApic (mkTables tables [] [] [] [] 0);
    t ← parseMcfg fuel t;
    parseHpet t.
End Read.

(** ** Specification: what the firmware wrote

    The tables as the firmware means them, and the bytes that stand for them. *)

Fixpoint toLE (n : nat) (v : Z) : list Z :=
  match n with
  | O => []
  | S n => v mod 256 :: toLE n (v / 256)
  end.

Inductive entry : Type :=
  | ELapic (acpiID apicID flags : Z)
  | EIoApic (ioApicID reserved address irqBase : Z)
  | ESource (bus source gsi flags : Z)
  | EOther (type : Z) (data : list Z).

Definition encodeEntry (e : entry) : list Z :=
  match e with
  | ELapic acpi apic flags => [0; 8; acpi; apic] ++ toLE 4 flags
  | EIoApic id res address irqBase => [1; 12; id; res] ++ toLE 4 address ++ toLE 4 irqBase
  | ESource bus source gsi flags => [2; 10; bus; source] ++ toLE 4 gsi ++ toLE 2 flags
  | EOther type data => [type; 2 + Z.of_nat (length data)] ++ data
  end.

Record pciItem : Type := mkItem {
  it_base : Z; it_segment : list Z; it_start : Z; it_end : Z; it_reserved : list Z }.
Definition encodeItem (i : pciItem) : list Z :=
  toLE 8 (it_base i) ++ it_segment i ++ [it_start i; it_end i] ++ it_reserved i.

Inductive body : Type :=
  | BMadt (fixed : list Z) (entries : list entry)
  | BMcfg (reserved : list Z) (items : list pciItem)
  | BHpet (blockId : list Z) (spaceId bitWidth bitOffset reserved base : Z) (tail : list Z)
  | BOther (signature data : list Z).

Definition signatureOf (b : body) : list Z :=
  match b with
  | BMadt _ _ => madtSignature
  | BMcfg _ _ => mcfgSignature
  | BHpet _ _ _ _ _ _ _ => hpetSign
  | BOther s _ => s
  end.
Definition encodeBody (b : body) : list Z :=
  match b with
  | BMadt fixed es => fixed ++ concat (encodeEntry <$> es)
  | BMcfg reserved items => reserved ++ concat (encodeItem <$> items)
  | BHpet blockId space width offset res base tail => blockId ++ [space; width; offset; res] ++ toLE 8 base ++ tail
  | BOther _ data => data
  end.

(** A table: its signature, its length, 28 bytes nobody reads, and its body. *)
Definition tableBytes (signature rest data : list Z) : list Z :=
  signature ++ toLE 4 (sizeofTableHeader + Z.of_nat (length data)) ++ rest ++ data.
Record table : Type := mkTable { t_addr : Z; t_rest : list Z; t_body : body }.
Definition encodeTable (t : table) : list Z := tableBytes (signatureOf (t_body t)) (t_rest t) (encodeBody (t_body t)).

(** *** What the kernel is to know of them *)

Definition cpuOf (e : entry) : option Z :=
  match e with ELapic _ apic flags => if Z.odd flags then Some apic else None | _ => None end.
Definition ioApicOf (e : entry) : option (Z * Z) :=
  match e with EIoApic _ _ address irqBase => Some (address, irqBase) | _ => None end.
Definition remapOf (e : entry) : option ApicIsaRemappingEntry :=
  match e with
  | ESource bus source gsi flags =>
      if bus =? 0 then Some (mkRemap source gsi (flags mod 4) (flags / 4 mod 4)) else None
  | _ => None
  end.

(** The records before the first that makes no sense. *)
Fixpoint segmentsOf (items : list pciItem) : list SystemEnhancedPciSegment :=
  match items with
  | i :: items =>
      if (it_base i =? 0) || (it_end i <? it_start i) then []
      else mkSeg (it_base i) (it_start i) (it_end i) :: segmentsOf items
  | [] => []
  end.

(** The bits of the address from [bitOffset] up to [bitWidth]. *)
Definition hpetBase (width offset base : Z) : Z := base mod 2 ^ width / 2 ^ offset * 2 ^ offset.

Definition madtEntries (t : table) : option (list entry) :=
  match t_body t with BMadt _ es => Some es | _ => None end.
Definition mcfgItems (t : table) : option (list pciItem) :=
  match t_body t with BMcfg _ items => Some items | _ => None end.
Definition hpetAddress (t : table) : option (Z * Z) :=
  match t_body t with
  | BHpet _ space width offset _ base _ => Some (space, hpetBase width offset base)
  | _ => None
  end.
(** What the first table of its kind says. *)
Definition first {A} (f : table -> option A) (ts : list table) : option A := head (omap f ts).

Definition specTables (ts : list table) : outcome AcpiTables :=
  match first madtEntries ts, first hpetAddress ts with
  | Some es, Some (space, base) =>
      if (space =? 0) && negb (base =? 0) then
        Ok (mkTables ((fun t => physToVirtualInt (t_addr t)) <$> ts) (omap cpuOf es) (omap ioApicOf es) (omap remapOf es)
             (segmentsOf (default [] (first mcfgItems ts))) base)
      else Panic
  | _, _ => Panic
  end.

(** *** Well-formed firmware *)

Definition word32 (v : Z) : Prop := 0 <= v < 2 ^ 32.
Definition word64 (v : Z) : Prop := 0 <= v < 2 ^ 64.

Definition entry_ok (e : entry) : Prop :=
  match e with
  | ELapic _ _ flags => word32 flags
  | EIoApic _ _ address irqBase => word32 address /\ word32 irqBase
  | ESource _ _ gsi flags => word32 gsi /\ 0 <= flags < 2 ^ 16
  | EOther type data => (length data < 254)%nat /\ (type, length data) ∉ [(0, 6%nat); (1, 10%nat); (2, 8%nat)]
  end.
Definition item_ok (i : pciItem) : Prop :=
  word64 (it_base i) /\ length (it_segment i) = 2%nat /\ length (it_reserved i) = 4%nat.
Definition body_ok (b : body) : Prop :=
  match b with
  | BMadt fixed es => length fixed = 8%nat /\ Forall entry_ok es
  | BMcfg reserved items => length reserved = 8%nat /\ Forall item_ok items
  | BHpet blockId _ width offset _ base _ =>
      length blockId = 4%nat /\ 1 <= width <= 64 /\ 0 <= offset < 64 /\ word64 base
  | BOther s _ => length s = 4%nat /\ s ∉ [madtSignature; mcfgSignature; hpetSign]
  end.

(** [size] bytes at a physical address lie in the window where RAM is mapped. *)
Definition inRam (addr : Z) (size : nat) : Prop :=
  0 <= addr /\ addr + Z.of_nat size <= KERNEL_VIRTUAL_BASE - RAM_VIRTUAL_BASE.
Definition table_ok (t : table) : Prop :=
  body_ok (t_body t) /\ length (t_rest t) = 28%nat /\ inRam (t_addr t) (length (encodeTable t)) /\
  Z.of_nat (length (encodeTable t)) < 2 ^ 32.

#[export] Instance word32_dec v : Decision (word32 v).
Proof. unfold word32. apply _. Defined.
#[export] Instance word64_dec v : Decision (word64 v).
Proof. unfold word64. apply _. Defined.
#[export] Instance entry_ok_dec e : Decision (entry_ok e).
Proof. destruct e; cbn; apply _. Defined.
#[export] Instance item_ok_dec i : Decision (item_ok i).
Proof. unfold item_ok. apply _. Defined.
#[export] Instance body_ok_dec b : Decision (body_ok b).
Proof. destruct b; cbn; apply _. Defined.
#[export] Instance inRam_dec a n : Decision (inRam a n).
Proof. unfold inRam. apply _. Defined.
#[export] Instance table_ok_dec t : Decision (table_ok t).
Proof. unfold table_ok. apply _. Defined.

Fixpoint holds (m : mem) (a : Z) (l : list Z) : Prop :=
  match l with
  | [] => True
  | b :: l => m a = b /\ holds m (a + 1) l
  end.
Definition holdsPhys (m : mem) (addr : Z) (l : list Z) : Prop := inRam addr (length l) /\ holds m (physToVirtualInt addr) l.

Definition xsdtSignature : list Z := [88; 83; 68; 84].
(** The memory holds the root pointer, the list of the tables and the tables. *)
Record firmware (m : mem) (rsdp : Z) (ts : list table) : Prop := {
  fw_ok : Forall table_ok ts;
  fw_tables : Forall (fun t => holds m (physToVirtualInt (t_addr t)) (encodeTable t)) ts;
  fw_root : exists xsdt head rest tail, word64 xsdt /\ length head = 24%nat /\ length rest = 28%nat /\
    36 + 8 * Z.of_nat (length ts) < 2 ^ 32 /\
    holdsPhys m rsdp (head ++ toLE 8 xsdt ++ tail) /\
    holdsPhys m xsdt (tableBytes xsdtSignature rest (concat ((fun t => toLE 8 (t_addr t)) <$> ts))) }.

(** ** Proofs *)

Lemma length_toLE n v : length (toLE n v) = n.
Proof. revert v. induction n as [|n IH]; intros v; cbn [toLE length]; [done|]. by rewrite IH. Qed.

Lemma holds_app m a l1 l2 : holds m a (l1 ++ l2) <-> holds m a l1 /\ holds m (a + Z.of_nat (length l1)) l2.
Proof.
  revert a. induction l1 as [|b l1 IH]; intros a; cbn [app holds length].
  - rewrite Z.add_0_r. tauto.
  - rewrite IH. replace (a + 1 + Z.of_nat (length l1)) with (a + Z.of_nat (S (length l1))) by lia. tauto.
Qed.

Lemma holds_readLE m n v a : holds m a (toLE n v) -> 0 <= v < 256 ^ Z.of_nat n -> readLE n m a = v.
Proof.
  revert v a. induction n as [|n IH]; intros v a H Hv; cbn [toLE holds readLE] in *; [lia|].
  destruct H as [-> H]. rewrite Nat2Z.inj_succ, Z.pow_succ_r in Hv by lia.
  rewrite (IH (v / 256)); [lia | done |]. split; [apply Z.div_pos; lia | apply Z.div_lt_upper_bound; lia].
Qed.
Lemma holds_read32 m v a : holds m a (toLE 4 v) -> word32 v -> readLE 4 m a = v.
Proof. apply holds_readLE. Qed.
Lemma holds_read64 m v a : holds m a (toLE 8 v) -> word64 v -> readLE 8 m a = v.
Proof. apply holds_readLE. Qed.

Lemma holds_bytesAt m a l : holds m a l -> bytesAt m a (length l) = l.
Proof.
  unfold bytesAt. revert a. induction l as [|b l IH]; intros a H; [done|]. destruct H as [Hb H].
  cbn [length seq fmap list_fmap]. rewrite Z.add_0_r, Hb. f_equal. rewrite <- seq_shift, <- list_fmap_compose.
  rewrite <- (IH _ H) at 2. apply list_fmap_ext. intros i x _. cbn. f_equal. lia.
Qed.

Ltac is_Zconst z := match z with Z0 => idtac | Zpos _ => idtac end.
(** The memory at the places a table's bytes are read from. *)
Ltac split_holds H :=
  rewrite ?holds_app in H; cbn [holds length] in H; rewrite ?length_toLE in H;
  repeat match type of H with context [Z.of_nat ?n] =>
    let z := eval compute in (Z.of_nat n) in is_Zconst z; change (Z.of_nat n) with z in H end;
  repeat match type of H with context [?a + ?x + ?y] =>
    is_Zconst x; is_Zconst y; rewrite <- (Z.add_assoc a x y) in H;
    let z := eval compute in (x + y) in change (x + y) with z in H end.

Lemma kstrncmp_eq l1 l2 : length l1 = length l2 ->
  exists r, kstrncmp (length l1) l1 l2 = Ok r /\ (r = 0 <-> l1 = l2).
Proof.
  revert l2. induction l1 as [|a l1 IH]; intros [|b l2] Hl; try done; cbn [length kstrncmp].
  - by exists 0.
  - destruct (Z.eqb_spec a b) as [->|Hne]; cbn [negb].
    + destruct (IH l2) as (r & E & Hr); [by injection Hl|]. exists r. split; [done|]. rewrite Hr. naive_solver.
    + eexists. split; [done|]. destruct (a <? b); naive_solver.
Qed.

Lemma physToVirtual_ram addr n : inRam addr n -> (0 < n)%nat ->
  physToVirtualInt addr = RAM_VIRTUAL_BASE + addr /\ RAM_VIRTUAL_BASE + addr + Z.of_nat n < 2 ^ 64.
Proof.
  intros [H0 H1] Hn. unfold physToVirtualInt, RAM_VIRTUAL_BASE, KERNEL_VIRTUAL_BASE in *.
  rewrite u64_small by lia. lia.
Qed.

Lemma length_tableBytes s r d : length s = 4%nat -> length r = 28%nat -> length (tableBytes s r d) = (36 + length d)%nat.
Proof. intros Hs Hr. unfold tableBytes. rewrite !length_app, length_toLE, Hs, Hr. lia. Qed.

(** A table in memory: its signature, its length and its data. *)
Lemma holds_table m a s r d : length s = 4%nat -> length r = 28%nat -> word32 (36 + Z.of_nat (length d)) ->
  holds m a (tableBytes s r d) ->
  holds m a s /\ tableLength m a = 36 + Z.of_nat (length d) /\ holds m (a + 36) d.
Proof.
  intros Hs Hr Hd H. unfold tableBytes in H. split_holds H. rewrite Hs, Hr in H.
  destruct H as (Hsig & Hlen & _ & Hdata). split_and!; [done | | ].
  - by apply holds_read32.
  - by replace (a + 36) with (a + Z.of_nat 4 + Z.of_nat 4 + Z.of_nat 28) by lia.
Qed.

Lemma length_signatureOf b : body_ok b -> length (signatureOf b) = 4%nat.
Proof. destruct b; cbn; naive_solver. Qed.

Section Layout.
Context (m : mem) (ts : list table).
Hypothesis Hok : Forall table_ok ts.
Hypothesis Hmem : Forall (fun t => holds m (physToVirtualInt (t_addr t)) (encodeTable t)) ts.

Notation V t := (physToVirtualInt (t_addr t)).

Lemma table_layout t : t ∈ ts ->
  body_ok (t_body t) /\ holds m (V t) (signatureOf (t_body t)) /\
  tableLength m (V t) = 36 + Z.of_nat (length (encodeBody (t_body t))) /\
  holds m (V t + 36) (encodeBody (t_body t)) /\ 0 < V t /\
  V t + 36 + Z.of_nat (length (encodeBody (t_body t))) < 2 ^ 64.
Proof.
  intros Ht. destruct (proj1 (Forall_forall _ _) Hok t Ht) as (Hb & Hr & Hram & Hlen).
  pose proof (proj1 (Forall_forall _ _) Hmem t Ht) as Hh. cbn beta in Hh. unfold encodeTable in *.
  pose proof (length_signatureOf _ Hb) as Hs. rewrite length_tableBytes in Hlen, Hram by done.
  apply holds_table in Hh as (? & ? & ?); [|done|done|unfold word32; lia].
  destruct (physToVirtual_ram _ _ Hram) as [E Hw]; [lia|]. rewrite E in *. unfold RAM_VIRTUAL_BASE in *.
  destruct Hram. split_and!; try done; lia.
Qed.

Lemma getTableIn_spec s l : length s = 4%nat -> l ⊆ ts ->
  getTableIn m s ((fun t => V t) <$> l) =
    Ok (match list_find (fun t => signatureOf (t_body t) = s) l with Some (_, t) => V t | None => nullptr end).
Proof.
  intros Hs. induction l as [|t l IH]; intros Hsub; cbn [fmap list_fmap getTableIn list_find]; [done|].
  destruct (table_layout t) as (Hb & Hsig & _); [set_solver|].
  pose proof (length_signatureOf _ Hb) as Hs'.
  replace (bytesAt m (V t) 4) with (signatureOf (t_body t)) by (by rewrite <- Hs' at 1; rewrite holds_bytesAt).
  unfold kmemcmp. destruct (kstrncmp_eq (signatureOf (t_body t)) s) as (r & E & Hr); [congruence|].
  rewrite Hs' in E. rewrite E. ostep. case_decide as Hd.
  - rewrite (proj2 Hr Hd). done.
  - destruct (Z.eqb_spec r 0); [tauto|]. rewrite IH by set_solver.
    by destruct (list_find _ l) as [[i t']|].
Qed.

(** The first table with a signature is the first that [f] reads. *)
Lemma first_found {A} (f : table -> option A) s l :
  (forall t, t ∈ l -> signatureOf (t_body t) = s <-> is_Some (f t)) ->
  match list_find (fun t => signatureOf (t_body t) = s) l with
  | Some (_, t) => t ∈ l /\ is_Some (f t) /\ first f l = f t
  | None => first f l = None
  end.
Proof.
  unfold first. induction l as [|t l IH]; intros H; cbn [list_find omap list_omap]; [done|].
  pose proof (H t ltac:(by left)) as Ht. case_decide as Hd.
  - destruct (proj1 Ht Hd) as [x E]. rewrite E. split_and!; [by left | by eexists | done].
  - destruct (f t) as [x|] eqn:E; [destruct Hd; apply Ht; by eexists|].
    specialize (IH (fun t Hin => H t (list_elem_of_further t _ _ Hin))).
    destruct (list_find _ l) as [[i t']|]; cbn; [|done]. destruct IH as (? & ? & ?).
    split_and!; [by right | done | done].
Qed.

(** Lookup by the three signatures of the source. *)
Lemma getTable_first {A} (f : table -> option A) s t0 : length s = 4%nat ->
  (forall b, body_ok b -> signatureOf b = s <-> is_Some (f (mkTable 0 [] b))) ->
  (forall t, f t = f (mkTable 0 [] (t_body t))) ->
  m_tables t0 = (fun t => V t) <$> ts ->
  match first f ts with
  | Some x => exists t, t ∈ ts /\ f t = Some x /\ getTable m s t0 = Ok (V t)
  | None => getTable m s t0 = Ok nullptr
  end.
Proof.
  intros Hs Hf Hb E0. unfold getTable. rewrite E0, getTableIn_spec by done.
  assert (forall t, t ∈ ts -> signatureOf (t_body t) = s <-> is_Some (f t)) as Hfs.
  { intros t Ht. rewrite Hb. apply Hf. exact (proj1 (table_layout t Ht)). }
  pose proof (first_found f s ts Hfs) as H. destruct (list_find _ ts) as [[i t]|].
  - destruct H as (Ht & [x Ex] & ->). rewrite Ex. by exists t.
  - by rewrite H.
Qed.

Lemma encodeEntry_length e : (2 <= length (encodeEntry e))%nat.
Proof. destruct e; cbn; lia. Qed.
Lemma entries_length es : (length es <= length (concat (encodeEntry <$> es)))%nat.
Proof.
  induction es as [|e es IH]; cbn [fmap list_fmap concat length]; [lia|].
  rewrite length_app. pose proof (encodeEntry_length e). lia.
Qed.

Definition addEntry (e : entry) (t : AcpiTables) : AcpiTables :=
  mkTables (m_tables t) (m_cpuApicIds t ++ option_list (cpuOf e)) (m_ioApics t ++ option_list (ioApicOf e))
    (m_isaRemapping t ++ option_list (remapOf e)) (m_pciEnhancedSegments t) (m_hpetMmioBase t).
Definition addEntries (es : list entry) (t : AcpiTables) : AcpiTables :=
  mkTables (m_tables t) (m_cpuApicIds t ++ omap cpuOf es) (m_ioApics t ++ omap ioApicOf es)
    (m_isaRemapping t ++ omap remapOf es) (m_pciEnhancedSegments t) (m_hpetMmioBase t).

Lemma addEntries_cons e es t : addEntries es (addEntry e t) = addEntries (e :: es) t.
Proof.
  unfold addEntries, addEntry. cbn [m_tables m_cpuApicIds m_ioApics m_isaRemapping m_pciEnhancedSegments m_hpetMmioBase omap list_omap].
  rewrite <- !app_assoc. destruct (cpuOf e), (ioApicOf e), (remapOf e); done.
Qed.

Lemma land1_odd f : 0 <= f -> negb (Z.land f 1 =? 0) = Z.odd f.
Proof.
  intros Hf. change 1 with (Z.ones 1). rewrite Z.land_ones by lia. change (2 ^ 1) with 2.
  rewrite Zmod_odd. by destruct (Z.odd f).
Qed.

(** One entry is read as it was written, and its length is where the next one starts. *)
Lemma readApicEntry_spec p e t : entry_ok e -> holds m p (encodeEntry e) ->
  readApicEntry m p t = addEntry e t /\ m (p + 1) = Z.of_nat (length (encodeEntry e)).
Proof.
  intros He H. destruct t. unfold readApicEntry, addEntry.
  destruct e as [acpi apic flags|id res address irqBase|bus source gsi flags|type data];
    cbn [encodeEntry entry_ok cpuOf ioApicOf remapOf option_list] in *; split_holds H;
    rewrite ?length_app; cbn [length]; rewrite ?length_toLE.
  - destruct H as ((Ht & Hl & _ & Ha & _) & Hf). rewrite Ht, Hl, Ha.
    rewrite (holds_read32 _ _ _ Hf He), land1_odd by (destruct He; lia).
    unfold addCpu. cbn. rewrite !app_nil_r. by destruct (Z.odd flags); cbn; rewrite ?app_nil_r.
  - destruct H as ((Ht & Hl & _) & Ha & Hi). destruct He as [Wa Wi]. rewrite Ht, Hl.
    rewrite (holds_read32 _ _ _ Ha Wa), (holds_read32 _ _ _ Hi Wi). cbn. by rewrite !app_nil_r.
  - destruct H as ((Ht & Hl & Hb & Hs & _) & Hg & Hf). destruct He as [Wg Wf]. rewrite Ht, Hl, Hb, Hs.
    rewrite (holds_read32 _ _ _ Hg Wg), (holds_readLE _ _ _ _ Hf Wf). cbn [Z.eqb andb Pos.eqb sizeofLapicTable sizeofIoApicTable].
    change 3 with (Z.ones 2). rewrite !Z.land_ones, Z.shiftr_div_pow2 by lia. change (2 ^ 2) with 4.
    unfold addRemap. cbn. rewrite !app_nil_r. by destruct (bus =? 0); cbn; rewrite ?app_nil_r.
  - destruct H as ((Ht & Hl & _) & _). destruct He as [_ Hn]. rewrite Ht, Hl. cbn [option_list]. rewrite !app_nil_r.
    split; [|lia]. unfold sizeofLapicTable, sizeofIoApicTable, sizeofInterruptSourceTable.
    rewrite !not_elem_of_cons in Hn. destruct Hn as (H0 & H1 & H2 & _).
    assert (forall k n, (type, length data) <> (k, n) -> (type =? k) && (2 + Z.of_nat (length data) =? 2 + Z.of_nat n) = false) as Hne.
    { intros k n Hkn. destruct (Z.eqb_spec type k) as [->|]; [|done]. cbn [andb].
      apply Z.eqb_neq. intros E. apply Hkn. f_equal. lia. }
    apply Hne in H0, H1, H2.
    change (2 + Z.of_nat 6) with 8 in H0. change (2 + Z.of_nat 10) with 12 in H1. change (2 + Z.of_nat 8) with 10 in H2. by rewrite H0, H1, H2.
Qed.

Lemma apicLoop_spec es : forall fuel p t, Forall entry_ok es -> holds m p (concat (encodeEntry <$> es)) ->
  (length es <= fuel)%nat -> 0 <= p -> p + Z.of_nat (length (concat (encodeEntry <$> es))) < 2 ^ 64 ->
  apicLoop m fuel p (p + Z.of_nat (length (concat (encodeEntry <$> es)))) t = Ok (addEntries es t).
Proof.
  induction es as [|e es IH]; intros fuel p t He H Hfuel Hp Hw; cbn [fmap list_fmap concat length] in *.
  - destruct t. unfold addEntries. cbn. rewrite !app_nil_r.
    destruct fuel; cbn [apicLoop]; (destruct (Z.ltb_spec p (p + Z.of_nat 0)); [lia|done]).
  - apply Forall_cons_1 in He as [He Hes]. apply holds_app in H as [H Hrest].
    destruct fuel as [|fuel]; [lia|]. pose proof (encodeEntry_length e) as Hl2.
    destruct (readApicEntry_spec p e t He H) as [Er El]. rewrite length_app, Nat2Z.inj_add, Z.add_assoc in *.
    cbn [apicLoop]. destruct (Z.ltb_spec p (p + Z.of_nat (length (encodeEntry e)) + Z.of_nat (length (concat (encodeEntry <$> es))))); [|lia].
    rewrite El, Er. destruct (Z.ltb_spec (Z.of_nat (length (encodeEntry e))) 2); [lia|].
    rewrite u64_small by lia. rewrite IH by (done || lia). by rewrite addEntries_cons.
Qed.

(** Looking a table up by the signature of the tables [f] reads. *)
Ltac look_up f s E0 H :=
  pose proof (fun Hb Hf => getTable_first f s _ eq_refl Hb Hf E0) as H; ospecialize (H _ _);
  [ intros [] Hb; cbn in *; split; intros Hx; try done; try (by destruct Hx); try (by eexists);
    destruct Hb as [_ Hb]; set_solver
  | by intros [] | ].
Ltac known_table Ht :=
  destruct (table_layout _ Ht) as (Hb & _ & Hlen & Hd & Hpos & Hw).

Lemma parseApic_spec t0 : m_tables t0 = (fun t => V t) <$> ts ->
  parseApic m t0 = match first madtEntries ts with Some es => Ok (addEntries es t0) | None => Panic end.
Proof.
  intros E0. look_up madtEntries madtSignature E0 H.
  unfold parseApic. destruct (first madtEntries ts) as [es|].
  - destruct H as (t & Ht & Ef & ->). ostep. known_table Ht. unfold madtEntries in Ef.
    destruct (t_body t) as [fixed es'| | |]; try done. injection Ef as ->. cbn [encodeBody body_ok] in *.
    destruct Hb as [Hf Hes]. rewrite length_app, Hf in *. apply holds_app in Hd as [_ Hd]. rewrite Hf in Hd.
    destruct (Z.eqb_spec (V t) nullptr) as [E|_]; [unfold nullptr in E; lia|]. rewrite Hlen. unfold madtData.
    rewrite !u64_small by lia.
    replace (V t + 44 + (36 + Z.of_nat (8 + length (concat (encodeEntry <$> es)))) - 44) with
      (V t + 44 + Z.of_nat (length (concat (encodeEntry <$> es)))) by lia.
    pose proof (entries_length es). replace (V t + 36 + Z.of_nat 8) with (V t + 44) in Hd by lia.
    apply apicLoop_spec; (done || lia).
  - by rewrite H.
Qed.

Definition addSegments (l : list SystemEnhancedPciSegment) (t : AcpiTables) : AcpiTables :=
  mkTables (m_tables t) (m_cpuApicIds t) (m_ioApics t) (m_isaRemapping t) (m_pciEnhancedSegments t ++ l) (m_hpetMmioBase t).

Lemma length_items items : Forall item_ok items -> length (concat (encodeItem <$> items)) = (16 * length items)%nat.
Proof.
  induction 1 as [|i items (_ & H1 & H2) _ IH]; [done|]. cbn [fmap list_fmap concat length].
  rewrite length_app, IH. unfold encodeItem. rewrite !length_app, length_toLE, H1, H2. cbn [length]. lia.
Qed.

Lemma mcfgLoop_spec items : forall fuel p t, Forall item_ok items -> holds m p (concat (encodeItem <$> items)) ->
  (length items <= fuel)%nat -> 0 <= p -> p + 16 * Z.of_nat (length items) < 2 ^ 64 ->
  mcfgLoop m fuel p (p + 16 * Z.of_nat (length items)) t = Ok (addSegments (segmentsOf items) t).
Proof.
  induction items as [|i items IH]; intros fuel p t Hi H Hfuel Hp Hw; cbn [fmap list_fmap concat length segmentsOf] in *.
  - destruct t. unfold addSegments. cbn. rewrite app_nil_r.
    destruct fuel; cbn [mcfgLoop]; (destruct (Z.eqb_spec p (p + 16 * Z.of_nat 0)); [done|lia]).
  - apply Forall_cons_1 in Hi as [(Wb & Hs & Hr) Hi]. apply holds_app in H as [H Hrest].
    destruct fuel as [|fuel]; [lia|]. unfold encodeItem in H, Hrest.
    rewrite !length_app, length_toLE, Hs, Hr in Hrest. cbn [length] in Hrest.
    rewrite !holds_app, length_toLE, Hs in H. cbn [holds] in H. destruct H as (Hb & _ & (H10 & H11 & _) & _).
    cbn [mcfgLoop]. destruct (Z.eqb_spec p (p + 16 * Z.of_nat (S (length items)))); [lia|]. cbn [negb].
    rewrite (holds_read64 _ _ _ Hb Wb). replace (p + 10) with (p + Z.of_nat 8 + Z.of_nat 2) by lia.
    replace (p + 11) with (p + Z.of_nat 8 + Z.of_nat 2 + 1) by lia. rewrite H10, H11.
    destruct ((it_base i =? 0) || (it_end i <? it_start i)).
    + unfold addSegments. rewrite app_nil_r. by destruct t.
    + unfold sizeofMcfgItem. rewrite u64_small by lia.
      replace (p + 16 * Z.of_nat (S (length items))) with (p + 16 + 16 * Z.of_nat (length items)) by lia.
      replace (p + Z.of_nat (8 + (2 + (2 + 4)))) with (p + 16) in Hrest by lia.
      rewrite IH by (done || lia). destruct t. unfold addSegments, addSegment. cbn. by rewrite <- app_assoc.
Qed.

Lemma parseMcfg_spec fuel t0 : m_tables t0 = (fun t => V t) <$> ts ->
  (length (default [] (first mcfgItems ts)) <= fuel)%nat ->
  parseMcfg m fuel t0 = Ok (addSegments (segmentsOf (default [] (first mcfgItems ts))) t0).
Proof.
  intros E0 Hfuel. look_up mcfgItems mcfgSignature E0 H.
  unfold parseMcfg. destruct (first mcfgItems ts) as [items|]; cbn [default id] in *.
  - destruct H as (t & Ht & Ef & ->). ostep. known_table Ht. unfold mcfgItems in Ef.
    destruct (t_body t) as [|reserved items'| |]; try done. injection Ef as ->. cbn [encodeBody body_ok] in *.
    destruct Hb as [Hf Hi]. rewrite length_app, Hf, length_items in * by done. apply holds_app in Hd as [_ Hd]. rewrite Hf in Hd.
    destruct (Z.eqb_spec (V t) nullptr) as [E|_]; [unfold nullptr in E; lia|]. rewrite Hlen. unfold mcfgData, sizeofMcfgItem.
    replace (36 + Z.of_nat (8 + 16 * length items) - 44) with (Z.of_nat (length items) * 16) by lia.
    rewrite (u64_small (V t + 44)), (u64_small (Z.of_nat (length items) * 16)) by lia.
    rewrite Z.div_mul, u64_small by lia.
    replace (V t + 36 + Z.of_nat 8) with (V t + 44) in Hd by lia.
    rewrite (Z.mul_comm _ 16). apply mcfgLoop_spec; (done || lia).
  - rewrite H. ostep. change (nullptr =? nullptr) with true. cbn [segmentsOf]. unfold addSegments. rewrite app_nil_r. by destruct t0.
Qed.

(** The masks of the source keep the bits from the offset up to the width. *)
Lemma hpet_mask width offset base : 1 <= width <= 64 -> 0 <= offset < 64 -> word64 base ->
  Z.land (Z.land base (u64 (Z.lnot (2 ^ offset - 1)))) (Z.lor (2 ^ (width - 1)) (2 ^ (width - 1) - 1)) = hpetBase width offset base.
Proof.
  intros Hw Ho Hb. unfold hpetBase, u64. rewrite <- (Z.land_ones base), <- Z.land_ones, <- Z.shiftr_div_pow2, <- Z.shiftl_mul_pow2 by lia.
  replace (2 ^ offset - 1) with (Z.ones offset) by (rewrite Z.ones_equiv; lia).
  replace (2 ^ (width - 1) - 1) with (Z.ones (width - 1)) by (rewrite Z.ones_equiv; lia).
  apply Z.bits_inj'. intros n Hn. rewrite Z.shiftl_spec, !Z.land_spec, Z.lor_spec, Z.lnot_spec, Z.pow2_bits_eqb by lia.
  rewrite !Z.testbit_ones_nonneg by lia. destruct (Z.ltb_spec n offset); cbn [negb].
  - rewrite andb_false_r, Z.testbit_neg_r by lia. done.
  - rewrite Z.shiftr_spec, Z.land_spec, Z.testbit_ones_nonneg by lia. replace (n - offset + offset) with n by lia.
    cbn [andb]. rewrite <- andb_assoc. f_equal. destruct (Z.ltb_spec n 64), (Z.eqb_spec (width - 1) n), (Z.ltb_spec n (width - 1)), (Z.ltb_spec n width); (done || lia).
Qed.

Lemma shl64_ok n : 0 <= n < 64 -> shl64 n = Ok (2 ^ n).
Proof. intros H. unfold shl64. by destruct (Z.leb_spec 0 n), (Z.ltb_spec n 64); try lia. Qed.

Lemma parseHpet_spec t0 : m_tables t0 = (fun t => V t) <$> ts ->
  parseHpet m t0 =
    match first hpetAddress ts with
    | Some (space, base) => if (space =? 0) && negb (base =? 0) then Ok (setHpet base t0) else Panic
    | None => Panic
    end.
Proof.
  intros E0. look_up hpetAddress hpetSign E0 H.
  unfold parseHpet. destruct (first hpetAddress ts) as [[space base]|].
  - destruct H as (t & Ht & Ef & ->). ostep. known_table Ht. unfold hpetAddress in Ef.
    destruct (t_body t) as [| |blockId space' width offset res base' tail|]; try done. injection Ef as -> <-.
    cbn [encodeBody body_ok] in *. destruct Hb as (Hf & Hwd & Hof & Hbs).
    rewrite !holds_app, Hf in Hd. cbn [holds length] in Hd. destruct Hd as (_ & (H40 & H41 & H42 & _ & _) & Hd & _).
    destruct (Z.eqb_spec (V t) nullptr) as [E|_]; [unfold nullptr in E; lia|].
    replace (V t + 40) with (V t + 36 + Z.of_nat 4) by lia. replace (V t + 41) with (V t + 36 + Z.of_nat 4 + 1) by lia.
    replace (V t + 42) with (V t + 36 + Z.of_nat 4 + 1 + 1) by lia.
    replace (V t + 44) with (V t + 36 + Z.of_nat 4 + Z.of_nat 4) by lia.
    rewrite H40, H41, H42, (holds_read64 _ _ _ Hd Hbs). destruct (space =? 0); cbn [negb andb]; [|done].
    rewrite !shl64_ok by lia. ostep. rewrite hpet_mask by done. by destruct (hpetBase _ _ _ =? 0).
  - by rewrite H.
Qed.

Lemma tablesLoop_spec xsdt l : forall fuel k acc, Forall (fun t => word64 (t_addr t)) l ->
  holds m (xsdt + 36 + 8 * k) (concat ((fun t => toLE 8 (t_addr t)) <$> l)) -> (length l <= fuel)%nat ->
  tablesLoop m fuel xsdt k (k + Z.of_nat (length l)) acc = Ok (acc ++ ((fun t => V t) <$> l)).
Proof.
  induction l as [|t l IH]; intros fuel k acc Ha H Hfuel; cbn [fmap list_fmap concat length] in *.
  - rewrite app_nil_r. destruct fuel; cbn [tablesLoop]; (destruct (Z.ltb_spec k (k + Z.of_nat 0)); [lia|done]).
  - apply Forall_cons_1 in Ha as [Hw Ha]. apply holds_app in H as [H Hrest]. rewrite length_toLE in Hrest.
    destruct fuel as [|fuel]; [lia|]. cbn [tablesLoop]. destruct (Z.ltb_spec k (k + Z.of_nat (S (length l)))); [|lia].
    unfold sizeofTableHeader. rewrite (holds_read64 _ _ _ H Hw).
    replace (k + Z.of_nat (S (length l))) with (k + 1 + Z.of_nat (length l)) by lia.
    rewrite IH; [by rewrite <- app_assoc | done | | lia].
    by replace (xsdt + 36 + 8 * (k + 1)) with (xsdt + 36 + 8 * k + Z.of_nat 8) by lia.
Qed.
End Layout.

Lemma length_addresses ts : length (concat ((fun t => toLE 8 (t_addr t)) <$> ts)) = (8 * length ts)%nat.
Proof. induction ts as [|t ts IH]; [done|]. cbn [fmap list_fmap concat length]. rewrite length_app, length_toLE, IH. lia. Qed.

Lemma table_addr_word ts : Forall table_ok ts -> Forall (fun t => word64 (t_addr t)) ts.
Proof.
  intros H. eapply Forall_impl; [exact H|]. intros t (_ & _ & [H0 H1] & _). unfold word64, KERNEL_VIRTUAL_BASE, RAM_VIRTUAL_BASE in *. lia.
Qed.

(** ** The claim *)

(** C20.  The kernel reads the firmware's tables as the firmware wrote them.  Take any
    list of well-formed tables in memory - interrupt controller tables with any entries,
    PCI tables, timer tables, and tables of other kinds - reached from the root pointer.
    Then the constructor returns; the tables are found in their order; the processors
    are the enabled ones of the first interrupt controller table in the order of the
    entries, the I/O controllers and the remappings of the ISA bus likewise, entries of
    unknown kinds or lengths being skipped; the PCI segments are those of the first PCI
    table up to the first that makes no sense, and none when there is no such table; and
    the timer is at the bits of its address that its width and offset leave.  It panics
    exactly when one of the two mandatory tables is missing, or the timer is not in
    memory or at address zero. *)
Theorem acpi_tables_read (m : mem) (rsdp : Z) (ts : list table) (fuel : nat) :
  firmware m rsdp ts -> (length ts <= fuel)%nat -> (length (default [] (first mcfgItems ts)) <= fuel)%nat ->
  createAcpiTables m fuel rsdp = specTables ts.
Proof.
  intros [Hok Hmem (xsdt & hd & rest & tl & Wx & Hhd & Hrest & Hn & [_ Hrsdp] & [Hram Hxsdt])] Hf Hf'.
  unfold createAcpiTables. apply holds_app in Hrsdp as [_ Hrsdp]. apply holds_app in Hrsdp as [Hrsdp _]. rewrite Hhd in Hrsdp.
  change (Z.of_nat 24) with 24 in Hrsdp. rewrite (holds_read64 _ _ _ Hrsdp Wx). apply holds_table in Hxsdt as (_ & -> & Hxsdt); [| done | done |];
    rewrite length_addresses in *; [|unfold word32; lia].
  unfold sizeofRsdp, sizeofTableHeader. destruct (Z.ltb_spec (36 + Z.of_nat (8 * length ts)) (36 - 4)); [lia|].
  replace (36 + Z.of_nat (8 * length ts) - 36) with (Z.of_nat (length ts) * 8) by lia.
  rewrite u64_small, Z.div_mul by lia.
  rewrite (tablesLoop_spec m _ ts fuel 0); [| by apply table_addr_word | by rewrite Z.add_0_r | done].
  ostep. cbn [app]. rewrite (parseApic_spec m ts) by done. unfold specTables.
  destruct (first madtEntries ts) as [es|]; [|done]. ostep.
  rewrite (parseMcfg_spec m ts) by done. ostep. rewrite (parseHpet_spec m ts) by done.
  destruct (first hpetAddress ts) as [[space base]|]; [|done].
  by destruct ((space =? 0) && negb (base =? 0)).
Qed.

Module Demo.

(** A firmware with two processors (one disabled), an I/O controller, an ISA and
    another remapping, an entry of unknown kind, one PCI segment and a timer. *)
Definition zeros (n : nat) : list Z := replicate n 0.
Definition madt : table := mkTable 0x2000 (zeros 28) (BMadt (zeros 8)
  [ELapic 0 0 1; ELapic 1 2 0; EOther 4 [255; 5; 0; 1]; EIoApic 0 0 0xFEC00000 24; ESource 0 9 20 13; ESource 1 3 4 0]).
Definition mcfg : table := mkTable 0x3000 (zeros 28) (BMcfg (zeros 8)
  [mkItem 0xE0000000 [0; 0] 0 255 (zeros 4); mkItem 0 [0; 0] 0 1 (zeros 4)]).
Definition hpet : table := mkTable 0x4000 (zeros 28) (BHpet (zeros 4) 0 64 0 0 0xFED00000 (zeros 4)).
Definition facp : table := mkTable 0x5000 (zeros 28) (BOther [70; 65; 67; 80] (zeros 10)).
Definition ts : list table := [facp; madt; mcfg; hpet].

Definition rsdpBytes : list Z := zeros 24 ++ toLE 8 0x1000 ++ zeros 4.
Definition xsdtBytes : list Z := tableBytes xsdtSignature (zeros 28) (concat ((fun t => toLE 8 (t_addr t)) <$> ts)).
(** The bytes [l] at physical address [a]. *)
Definition at_ (a : Z) (l : list Z) (m : mem) : mem := fun x =>
  let i := x - physToVirtualInt a in
  if (0 <=? i) && (i <? Z.of_nat (length l)) then default 0 (l !! Z.to_nat i) else m x.
Definition memory : mem :=
  foldr (fun t m => at_ (t_addr t) (encodeTable t) m)
    (at_ 0x500 rsdpBytes (at_ 0x1000 xsdtBytes (fun _ => 0))) ts.

Definition read : AcpiTables :=
  mkTables (physToVirtualInt <$> [0x5000; 0x2000; 0x3000; 0x4000]) [0] [(0xFEC00000, 24)] [mkRemap 9 20 1 3]
    [mkSeg 0xE0000000 0 255] 0xFED00000.

Lemma acpi_tables_read_witness :
  firmware memory 0x500 ts /\ createAcpiTables memory 4 0x500 = Ok read /\ specTables ts = Ok read.
Proof.
  assert (firmware memory 0x500 ts) as Hfw.
  { split.
    - apply (bool_decide_unpack _). vm_compute. exact I.
    - repeat constructor; vm_compute; tauto.
    - exists 0x1000, (zeros 24), (zeros 28), (zeros 4). split_and!; try done; try (vm_compute; split; congruence); vm_compute; tauto. }
  assert (specTables ts = Ok read) as Hs by (vm_compute; reflexivity).
  split; [exact Hfw|]. split; [|exact Hs]. rewrite <- Hs.
  apply acpi_tables_read; [exact Hfw | vm_compute; lia | vm_compute; lia].
Defined.

(** The check of the list's length admits 32 to 35, less than the header: the number of
    tables wraps around, and the loop leaves the list. *)
Example short_list_wraps (m : mem) (rsdp fuel : _) :
  tableLength m (physToVirtualInt (readLE 8 m (physToVirtualInt rsdp + 24))) = 35 -> (fuel < Z.to_nat (2 ^ 60))%nat ->
  createAcpiTables m fuel rsdp = NoFuel.
Proof.
  intros E Hf. unfold createAcpiTables. rewrite E. change (35 <? sizeofRsdp - 4) with false.
  replace (u64 (35 - sizeofTableHeader) / 8) with (2 ^ 61 - 1) by reflexivity. cbn beta iota zeta.
  assert (forall n k acc, 0 <= k -> k + Z.of_nat n < 2 ^ 61 - 1 ->
    tablesLoop m n (physToVirtualInt (readLE 8 m (physToVirtualInt rsdp + 24))) k (2 ^ 61 - 1) acc = NoFuel) as H.
  { induction n as [|n IH]; intros k acc Hk Hn; cbn [tablesLoop]; (destruct (Z.ltb_spec k (2 ^ 61 - 1)); [|lia]); [done|].
    apply IH; lia. }
  rewrite H by lia. done.
Qed.
End Demo.
