(* ===== verification/Interrupts.v ===== *)
(** * Device interrupts (kernel/ExternalInterrupts.cpp, kernel/idt.cpp)

    The I/O interrupt controllers route 64 interrupt lines to vectors of the boot CPU.  A
    line is masked in its controller until a driver installs a handler; the handlers of a
    line are kept in a list ([KList]) and called in order until one claims the interrupt.

    The controllers and remappings come from [AcpiTables].  Device accesses are a log in
    the order of the source's calls ([Access]); what a read returns, and the resources
    [AbstractDevice::io] makes, are parameters.  Handlers are code of the drivers: a
    function on the state.  A handler list holds the [m_id] of its entries, [m_proc] and
    [m_obj] are kept by id.  The calls are sequential: a mutex taken and released by one
    call leaves no trace, and waiting for a counter that is not zero does not end. *)

From S2P Require Import Prelude FreeList KList AcpiTables.

Inductive Access : Type :=
  | Out32 (mmio reg value : Z)
  | In32 (mmio reg : Z)
  | Outb (port value : Z)
  | Inb (port : Z)
  | Eoi
  | EnableInterrupts.

Record InterruptGate : Type := mkGate {
  m_offset0_15 : Z; m_cs : Z; m_ist : Z; m_type : Z; m_offset16_31 : Z; m_offset32_63 : Z; m_reserved : Z }.

Record InterruptData : Type := mkData {
  m_mmio : Z;
  m_loCache : Z;
  m_irqHandlers : KList;
  m_eoiCounter : Z;
  m_irqOffset : Z;
  m_lockCounter : Z;
  m_irqActiveCounter : Z }.

Record ExternalInterrupts : Type := mkInts {
  m_data : list InterruptData;
  m_remapTable : list Z;
  m_irqHasBeenRedirected : list bool;
  idCointer : Z;
  m_entries : gmap Z (Z * Z);      (* m_id to m_proc, m_obj *)
  g_idt : list InterruptGate;
  accesses : list Access }.

Definition MaxIrq : Z := 64.
Definition MaxIsaIrq : Z := 16.
Definition CPU_IRQ0_VECTOR : Z := 0xB0.
Definition BOOT_CPU_ID : Z := 0.
Definition SYSTEM_CODE_SEGMENT : Z := 0x10.
Definition IoApicVersionInternalReg : Z := 0x01.
Definition IoApicRedirectionTableBaseInternalReg : Z := 0x10.
Definition IoApicAddressReg : Z := 0x00.
Definition IoApicValueReg : Z := 0x10.
Definition IoApicActivLow : Z := Z.shiftl 1 13.
Definition IoApicLevelSv : Z := Z.shiftl 1 15.
Definition IoApicMaskIrq : Z := Z.shiftl 1 16.
Definition ActiveLow : Z := 0x03.
Definition LevelTriggered : Z := 0x03.

Definition irqRegBase (irq offset : Z) : Z := u32 (2 * u32 (irq - offset) + IoApicRedirectionTableBaseInternalReg).

(** ** State updates *)

Definition setData (d : list InterruptData) (s : ExternalInterrupts) : ExternalInterrupts :=
  mkInts d (m_remapTable s) (m_irqHasBeenRedirected s) (idCointer s) (m_entries s) (g_idt s) (accesses s).
Definition addAccess (a : Access) (s : ExternalInterrupts) : ExternalInterrupts :=
  mkInts (m_data s) (m_remapTable s) (m_irqHasBeenRedirected s) (idCointer s) (m_entries s) (g_idt s) (accesses s ++ [a]).
Definition setRemap (r : list Z) (s : ExternalInterrupts) : ExternalInterrupts :=
  mkInts (m_data s) r (m_irqHasBeenRedirected s) (idCointer s) (m_entries s) (g_idt s) (accesses s).
Definition setRedirected (r : list bool) (s : ExternalInterrupts) : ExternalInterrupts :=
  mkInts (m_data s) (m_remapTable s) r (idCointer s) (m_entries s) (g_idt s) (accesses s).
Definition setIdt (g : list InterruptGate) (s : ExternalInterrupts) : ExternalInterrupts :=
  mkInts (m_data s) (m_remapTable s) (m_irqHasBeenRedirected s) (idCointer s) (m_entries s) g (accesses s).
Definition newEntry (id proc obj : Z) (s : ExternalInterrupts) : ExternalInterrupts :=
  mkInts (m_data s) (m_remapTable s) (m_irqHasBeenRedirected s) id (<[id := (proc, obj)]> (m_entries s)) (g_idt s) (accesses s).

Definition setLo (v : Z) (d : InterruptData) : InterruptData :=
  mkData (m_mmio d) v (m_irqHandlers d) (m_eoiCounter d) (m_irqOffset d) (m_lockCounter d) (m_irqActiveCounter d).
Definition setHandlers (l : KList) (d : InterruptData) : InterruptData :=
  mkData (m_mmio d) (m_loCache d) l (m_eoiCounter d) (m_irqOffset d) (m_lockCounter d) (m_irqActiveCounter d).
Definition setEoi (v : Z) (d : InterruptData) : InterruptData :=
  mkData (m_mmio d) (m_loCache d) (m_irqHandlers d) v (m_irqOffset d) (m_lockCounter d) (m_irqActiveCounter d).
Definition setMmio (mmio offset : Z) (d : InterruptData) : InterruptData :=
  mkData mmio (m_loCache d) (m_irqHandlers d) (m_eoiCounter d) offset (m_lockCounter d) (m_irqActiveCounter d).
Definition setLock (v : Z) (d : InterruptData) : InterruptData :=
  mkData (m_mmio d) (m_loCache d) (m_irqHandlers d) (m_eoiCounter d) (m_irqOffset d) v (m_irqActiveCounter d).
Definition setActive (v : Z) (d : InterruptData) : InterruptData :=
  mkData (m_mmio d) (m_loCache d) (m_irqHandlers d) (m_eoiCounter d) (m_irqOffset d) (m_lockCounter d) v.

(** An array index of the source. *)
Definition idx (i : Z) : nat := Z.to_nat i.
Definition getData (irq : Z) (s : ExternalInterrupts) : outcome InterruptData := arr_get (m_data s) (idx irq).
Definition updData (irq : Z) (f : InterruptData -> InterruptData) (s : ExternalInterrupts) : outcome ExternalInterrupts :=
  d ← arr_get (m_data s) (idx irq); l ← arr_set (m_data s) (idx irq) (f d); Ok (setData l s).
Definition remapped (irq : Z) (s : ExternalInterrupts) : outcome Z := arr_get (m_remapTable s) (idx irq).

(** ** Gates (kernel/idt.cpp) *)

Definition setHandler (vector handler : Z) (disableInterrupts : bool) (s : ExternalInterrupts) : outcome ExternalInterrupts :=
  l ← arr_set (g_idt s) (idx (u8 vector))
        (mkGate (Z.land handler 0xFFFF) SYSTEM_CODE_SEGMENT 0 (if disableInterrupts then 0x8E else 0x8F)
           (Z.land (Z.shiftr handler 16) 0xFFFF) (Z.land (Z.shiftr handler 32) 0xFFFFFFFF) 0);
  Ok (setIdt l s).

Section Interrupts.
Context (sz : Z).                                            (* size of a list node *)
Context (in32 : list Access -> Z -> Z -> Z).                 (* what a register read returns *)
Context (io : nat -> Z -> Z).                                (* the resource of the i-th controller at a base *)
Context (SystemHandlerIRQ : Z -> Z).                         (* the addresses of the 64 entry points *)

(** [SystemIDT::setHandler(CPU_IRQ0_VECTOR + n, &SystemHandlerIRQ<n>, true)] for every line *)
Fixpoint setupFrom (n : nat) (irq : Z) (s : ExternalInterrupts) : outcome ExternalInterrupts :=
  match n with
  | O => Ok s
  | S n => s ← setHandler (CPU_IRQ0_VECTOR + irq) (SystemHandlerIRQ irq) true s; setupFrom n (irq + 1) s
  end.
Definition setupVectors (s : ExternalInterrupts) : outcome ExternalInterrupts := setupFrom 64 0 s.

(** ** Controller registers *)

(** A null resource is not a device. *)
Definition readData (mmio reg : Z) (s : ExternalInterrupts) : outcome (Z * ExternalInterrupts) :=
  if mmio =? nullptr then Fault
  else
    let s := addAccess (Out32 mmio IoApicAddressReg reg) s in
    let v := in32 (accesses s) mmio IoApicValueReg in
    Ok (v, addAccess (In32 mmio IoApicValueReg) s).
Definition writeData (mmio reg value : Z) (s : ExternalInterrupts) : outcome ExternalInterrupts :=
  if mmio =? nullptr then Fault
  else Ok (addAccess (Out32 mmio IoApicValueReg value) (addAccess (Out32 mmio IoApicAddressReg reg) s)).

(** ** Masking *)

Definition lockIrq (irq : Z) (s : ExternalInterrupts) : outcome ExternalInterrupts :=
  if MaxIrq <=? irq then Ok s
  else
    irq ← remapped irq s;
    s ← updData irq (fun d => setLock (u32 (m_lockCounter d + 1)) d) s;
    d ← getData irq s;
    if m_lockCounter d =? 1 then
      s ← updData irq (fun d => setLo (Z.lor (m_loCache d) IoApicMaskIrq) d) s;
      writeData (m_mmio d) (irqRegBase irq (m_irqOffset d)) (Z.lor (m_loCache d) IoApicMaskIrq) s
    else Ok s.

Definition unlockIrq (irq : Z) (s : ExternalInterrupts) : outcome ExternalInterrupts :=
  if MaxIrq <=? irq then Ok s
  else
    irq ← remapped irq s;
    s ← updData irq (fun d => setLock (u32 (m_lockCounter d - 1)) d) s;
    d ← getData irq s;
    if m_lockCounter d =? 0 then
      let lo := Z.land (m_loCache d) (u32 (Z.lnot IoApicMaskIrq)) in
      s ← updData irq (setLo lo) s;
      writeData (m_mmio d) (irqRegBase irq (m_irqOffset d)) lo s
    else Ok s.

(** [while (m_irqActiveCounter != 0) cpuPause();] *)
Definition waitIdle (irq : Z) (s : ExternalInterrupts) : outcome unit :=
  d ← getData irq s; if m_irqActiveCounter d =? 0 then Ok () else NoFuel.

(** ** Handlers *)

(** The end of [installHandler], while the line is locked. *)
Definition addHandler (ar : Area) (irq line proc obj : Z) (s : ExternalInterrupts) : outcome (Z * ExternalInterrupts) :=
  let id := u32 (idCointer s + 1) in
  d ← getData line s;
  '(_, l) ← push_back sz ar id (m_irqHandlers d);
  s ← updData line (setHandlers l) (newEntry id proc obj s);
  s ← unlockIrq irq s;
  Ok (id, s).
Definition installHandler (ar : Area) (irq proc obj : Z) (s : ExternalInterrupts) : outcome (Z * ExternalInterrupts) :=
  if MaxIrq <=? irq then Ok (0, s)
  else
    line ← remapped irq s;
    d ← getData line s;
    if m_mmio d =? nullptr then Ok (0, s)
    else
      s ← (if negb (KList.empty (m_irqHandlers d)) then s ← lockIrq irq s; _ ← waitIdle line s; Ok s else Ok s);
      addHandler ar irq line proc obj s.

Definition deleteHandler (irq id : Z) (s : ExternalInterrupts) : outcome (bool * ExternalInterrupts) :=
  if MaxIrq <=? irq then Ok (false, s)
  else
    line ← remapped irq s;
    d ← getData line s;
    if m_mmio d =? nullptr then Ok (false, s)
    else
      s ← lockIrq irq s;
      _ ← waitIdle line s;
      d ← getData line s;
      '(result, l) ← remove_first id (m_irqHandlers d);
      s ← updData line (setHandlers l) s;
      s ← (if negb (KList.empty l) then unlockIrq irq s else Ok s);
      Ok (result, s).

Definition eoiRaw (s : ExternalInterrupts) : ExternalInterrupts := addAccess Eoi s.
Definition eoi (irq : Z) (s : ExternalInterrupts) : outcome ExternalInterrupts :=
  if MaxIrq <=? irq then Ok s
  else
    irq ← remapped irq s;
    updData irq (fun d => setEoi (u32 (m_eoiCounter d + 1)) d) (eoiRaw s).

Definition chechRedirectIrq (oldIrq newIrq : Z) (s : ExternalInterrupts) : outcome bool :=
  if (newIrq =? 0) || (MaxIrq <=? newIrq) then Ok false
  else
    d ← getData newIrq s;
    if m_mmio d =? nullptr then Ok false
    else
      old ← (if oldIrq <? MaxIrq then arr_get (m_irqHasBeenRedirected s) (idx oldIrq) else Ok false);
      if old : bool then Ok false
      else
        new ← arr_get (m_irqHasBeenRedirected s) (idx newIrq);
        Ok (negb new).

(** ** Dispatch *)

(** [entry.m_proc(entry.m_obj)] *)
Context (call : Z -> Z -> ExternalInterrupts -> outcome (bool * ExternalInterrupts)).

Fixpoint callLoop (fuel : nat) (irq it : Z) (s : ExternalInterrupts) : outcome ExternalInterrupts :=
  if it =? nullptr then Ok s
  else
    match fuel with
    | O => NoFuel
    | S fuel =>
        d ← getData irq s;
        nd ← deref (nodes (m_irqHandlers d)) it;
        '(proc, obj) ← deref (m_entries s) (item nd);
        '(claimed, s) ← call proc obj s;
        if claimed : bool then Ok s
        else
          d ← getData irq s;
          nd ← deref (nodes (m_irqHandlers d)) it;
          callLoop fuel irq (next nd) s
    end.

(** The fuel is the number of nodes the list has when the interrupt arrives. *)
Definition allIrqHandler (irq : Z) (s : ExternalInterrupts) : outcome ExternalInterrupts :=
  s ← updData irq (fun d => setActive (u32 (m_irqActiveCounter d + 1)) d) s;
  d ← getData irq s;
  let eoiCnt := m_eoiCounter d in
  s ← callLoop (size (nodes (m_irqHandlers d))) irq (m_begin_item (m_irqHandlers d)) s;
  s ← updData irq (fun d => setActive (u32 (m_irqActiveCounter d - 1)) d) s;
  d ← getData irq s;
  if m_eoiCounter d =? eoiCnt then Ok (eoiRaw s) else Ok s.

(** ** Set-up *)

(** [for (irq = irqBase; irq < irqEnd; irq++)] *)
Fixpoint mapLines (n : nat) (irq mmio irqBase : Z) (s : ExternalInterrupts) : outcome ExternalInterrupts :=
  match n with
  | O => Ok s
  | S n => s ← updData irq (setMmio mmio irqBase) s; mapLines n (irq + 1) mmio irqBase s
  end.

Fixpoint apicsLoop (apicIdx : nat) (ioApics : list (Z * Z)) (maxIrq : Z) (s : ExternalInterrupts) : outcome (Z * ExternalInterrupts) :=
  match ioApics with
  | [] => Ok (maxIrq, s)
  | (mmioBase, irqBase) :: ioApics =>
      if mmioBase =? 0 then Panic
      else
        let mmio := io apicIdx mmioBase in
        '(verReg, s) ← readData mmio IoApicVersionInternalReg s;
        let numIrqs := Z.land (Z.shiftr verReg 16) 0xFF + 1 in
        let irqEnd := u32 (irqBase + numIrqs) in
        if (MaxIrq <? irqEnd) && (MaxIrq <=? irqBase) then apicsLoop (S apicIdx) ioApics maxIrq s
        else
          let irqEnd := if MaxIrq <? irqEnd then MaxIrq else irqEnd in
          s ← mapLines (Z.to_nat (irqEnd - irqBase)) irqBase mmio irqBase s;
          apicsLoop (S apicIdx) ioApics (Z.max maxIrq irqEnd) s
  end.

(** Vector, mask and, above the ISA lines, the polarity and trigger mode of PCI. *)
Definition loInit (irq : Z) : Z :=
  let v := Z.lor (CPU_IRQ0_VECTOR + irq) IoApicMaskIrq in
  if MaxIsaIrq <=? irq then Z.lor v (Z.lor IoApicActivLow IoApicLevelSv) else v.
Definition setupLine (irq : Z) (s : ExternalInterrupts) : outcome ExternalInterrupts :=
  d ← getData irq s;
  if negb (m_mmio d =? nullptr) then
    s ← updData irq (setLo (loInit irq)) s;
    writeData (m_mmio d) (irqRegBase irq (m_irqOffset d) + 1) (u32 (Z.shiftl BOOT_CPU_ID 24)) s
  else Ok s.
Fixpoint setupLines (n : nat) (irq : Z) (s : ExternalInterrupts) : outcome ExternalInterrupts :=
  match n with
  | O => Ok s
  | S n => s ← setupLine irq s; setupLines n (irq + 1) s
  end.

Definition disablePic (s : ExternalInterrupts) : ExternalInterrupts :=
  addAccess (Inb 0x64) (addAccess (Outb 0xA1 0xFF) (addAccess (Inb 0x64) (addAccess (Outb 0x21 0xFF) s))).

Definition remapBits (entry : ApicIsaRemappingEntry) (v : Z) : Z :=
  let v := if m_polarity entry =? ActiveLow then Z.lor v IoApicActivLow else v in
  if m_triggerMode entry =? LevelTriggered then Z.lor v IoApicLevelSv else v.
Definition remapEntry (entry : ApicIsaRemappingEntry) (s : ExternalInterrupts) : outcome ExternalInterrupts :=
  if (MaxIrq <=? m_sourceIrq entry) || (MaxIrq <=? m_apicIrq entry) then Ok s
  else
    intData ← getData (m_apicIrq entry) s;
    if m_mmio intData =? nullptr then Ok s
    else
      s ← updData (m_apicIrq entry) (fun d => setLo (remapBits entry (m_loCache d)) d) s;
      s ← (if negb (m_apicIrq entry =? m_sourceIrq entry) then
             r ← arr_set (m_remapTable s) (idx (m_sourceIrq entry)) (m_apicIrq entry);
             let s := setRemap r s in
             othIntData ← getData (m_sourceIrq entry) s;
             s ← updData (m_apicIrq entry) (setHandlers (m_irqHandlers othIntData)) s;
             updData (m_sourceIrq entry) (setHandlers (m_irqHandlers intData)) s
           else Ok s);
      r ← arr_set (m_irqHasBeenRedirected s) (idx (m_sourceIrq entry)) true;
      Ok (setRedirected r s).
Fixpoint remapLoop (entries : list ApicIsaRemappingEntry) (s : ExternalInterrupts) : outcome ExternalInterrupts :=
  match entries with
  | [] => Ok s
  | entry :: entries => s ← remapEntry entry s; remapLoop entries s
  end.

Fixpoint lockLines (n : nat) (irq : Z) (s : ExternalInterrupts) : outcome ExternalInterrupts :=
  match n with
  | O => Ok s
  | S n =>
      d ← getData irq s;
      s ← (if m_lockCounter d =? 0 then lockIrq irq s else Ok s);
      lockLines n (irq + 1) s
  end.

Definition initIoApic (t : AcpiTables) (s : ExternalInterrupts) : outcome ExternalInterrupts :=
  match m_ioApics t with
  | [] => Panic
  | ioApics =>
      '(maxIrq, s) ← apicsLoop 0 ioApics 0 s;
      if maxIrq <? 24 then Panic
      else
        s ← setupLines (Z.to_nat maxIrq) 0 s;
        s ← remapLoop (m_isaRemapping t) (disablePic s);
        lockLines (Z.to_nat maxIrq) 0 s
  end.

(** The object is static: what has no initial value is zero. *)
Definition initialData : InterruptData := mkData nullptr 0 newKList 0 0 0 0.
Definition createInterrupts (t : AcpiTables) (idt : list InterruptGate) : outcome ExternalInterrupts :=
  let s := mkInts (replicate 64 initialData) (Z.of_nat <$> seq 0 64) (replicate 64 false) 0 ∅ idt [] in
  s ← setupVectors s;
  s ← initIoApic t s;
  Ok (addAccess EnableInterrupts s).
End Interrupts.

(** ** A device's handler (kernel/AbstractDevice.cpp) *)

(** [m_irq] has no initial value. *)
Record AbstractDevicePrivate : Type := mkDevice { m_irq : Z; m_interruptHandlerId : Z }.

Definition installInterruptHandler (sz : Z) (ar : Area) (irq proc obj : Z) (dev : AbstractDevicePrivate) (s : ExternalInterrupts) :
    outcome (bool * AbstractDevicePrivate * ExternalInterrupts) :=
  if negb (m_interruptHandlerId dev =? 0) then Ok (false, dev, s)
  else
    '(id, s) ← installHandler sz ar irq proc obj s;
    if id =? 0 then Ok (false, dev, s) else Ok (true, mkDevice (m_irq dev) id, s).
Definition removeInterruptHandler (dev : AbstractDevicePrivate) (s : ExternalInterrupts) : outcome (AbstractDevicePrivate * ExternalInterrupts) :=
  if negb (m_interruptHandlerId dev =? 0) then
    '(_, s) ← deleteHandler (m_irq dev) (m_interruptHandlerId dev) s;
    Ok (mkDevice (m_irq dev) 0, s)
  else Ok (dev, s).
Definition deviceEoi (dev : AbstractDevicePrivate) (s : ExternalInterrupts) : outcome ExternalInterrupts := eoi (m_irq dev) s.

(** ** What the controllers were told *)

(** The register [reg] behind the index and value windows of the controller [mmio]: its
    selected register, and the value last written while [reg] was selected. *)
Definition regStep (mmio reg : Z) (st : option Z * option Z) (a : Access) : option Z * option Z :=
  match a with
  | Out32 m r v =>
      if m =? mmio then
        if r =? IoApicAddressReg then (Some v, snd st)
        else if r =? IoApicValueReg then (fst st, if decide (fst st = Some reg) then Some v else snd st)
        else st
      else st
  | _ => st
  end.
Definition ioReg (log : list Access) (mmio reg : Z) : option Z := snd (foldl (regStep mmio reg) (None, None) log).

Lemma ioReg_write log m r v mmio reg :
  ioReg ((log ++ [Out32 m IoApicAddressReg r]) ++ [Out32 m IoApicValueReg v]) mmio reg =
    if (m =? mmio) && (r =? reg) then Some v else ioReg log mmio reg.
Proof.
  unfold ioReg. rewrite !foldl_app. cbn [foldl]. set (st := foldl _ _ log).
  unfold regStep, IoApicAddressReg, IoApicValueReg. destruct (Z.eqb_spec m mmio); cbn [andb]; [|done].
  cbn. destruct (Z.eqb_spec r reg) as [->|Hne]; case_decide as Hd; try done; by injection Hd.
Qed.
Lemma ioReg_other log a mmio reg : (forall m r v, a <> Out32 m r v) -> ioReg (log ++ [a]) mmio reg = ioReg log mmio reg.
Proof. intros H. unfold ioReg. rewrite foldl_app. cbn [foldl]. destruct a; try done. by destruct (H mmio0 reg0 value). Qed.

(** ** Invariant *)

(** A line a driver can reach: it has a controller, and an interrupt number leads to it. *)
Definition live (s : ExternalInterrupts) (i : Z) (d : InterruptData) : Prop := m_mmio d <> nullptr /\ i ∈ m_remapTable s.

(** The state of line [i] with the handlers [ids]; [c] is its vector, polarity and trigger
    mode.  A line is masked exactly when it has no handler. *)
Record lineOk (s : ExternalInterrupts) (c : Z) (ids : list Z) (i : Z) (d : InterruptData) : Prop := mkLineOk {
  lo_list : LInv (m_irqHandlers d) ids;
  lo_idle : m_irqActiveCounter d = 0;
  lo_dead : ~ live s i d -> ids = [];
  lo_offset : m_mmio d <> nullptr -> 0 <= m_irqOffset d <= i;
  lo_lock : live s i d -> m_lockCounter d = if decide (ids = []) then 1 else 0;
  lo_cache : live s i d -> m_loCache d = if decide (ids = []) then Z.lor c IoApicMaskIrq else c;
  lo_reg : live s i d -> ioReg (accesses s) (m_mmio d) (irqRegBase i (m_irqOffset d)) = Some (m_loCache d) }.

Definition cfgOk (c : Z) : Prop := 0 <= c < 2 ^ 32 /\ Z.testbit c 16 = false.

(** [L] are the handlers of the lines, [cfg] their configurations. *)
Record IInv (s : ExternalInterrupts) (cfg : Z -> Z) (L : Z -> list Z) : Prop := mkIInv {
  iv_len : length (m_data s) = 64%nat;
  iv_rlen : length (m_remapTable s) = 64%nat;
  iv_remap : forall line, line ∈ m_remapTable s -> 0 <= line < 64;
  iv_cfg : forall i, 0 <= i < 64 -> cfgOk (cfg i);
  iv_line : forall i d, 0 <= i < 64 -> m_data s !! idx i = Some d -> lineOk s (cfg i) (L i) i d;
  iv_same : forall i j d e, m_data s !! i = Some d -> m_data s !! j = Some e -> m_mmio d = m_mmio e -> m_mmio d <> nullptr ->
    m_irqOffset d = m_irqOffset e;
  iv_entries : forall i id, id ∈ L i -> is_Some (m_entries s !! id);
  iv_ids : 0 <= idCointer s < 2 ^ 32 }.

Lemma idx_inj i j : 0 <= i -> 0 <= j -> idx i = idx j -> i = j.
Proof. unfold idx. lia. Qed.

(** Lines have registers of their own. *)
Lemma irqRegBase_inj i j o : 0 <= o <= i -> i < 64 -> o <= j < 64 -> irqRegBase i o = irqRegBase j o -> i = j.
Proof. unfold irqRegBase, u32, IoApicRedirectionTableBaseInternalReg. intros. rewrite !Z.mod_small in *; lia. Qed.

Lemma mask_clear c : cfgOk c -> Z.land (Z.lor c IoApicMaskIrq) (u32 (Z.lnot IoApicMaskIrq)) = c /\
  Z.land c (u32 (Z.lnot IoApicMaskIrq)) = c.
Proof.
  intros [Hr Hb]. change (u32 (Z.lnot IoApicMaskIrq)) with (Z.ldiff (Z.ones 32) (2 ^ 16)). change IoApicMaskIrq with (2 ^ 16).
  assert (forall n, 32 <= n -> Z.testbit c n = false) as Hhi.
  { intros n Hn. destruct (decide (c = 0)) as [->|]; [apply Z.testbit_0_l|]. apply Z.bits_above_log2; [lia|].
    apply Z.log2_lt_pow2; [lia|]. eapply Z.lt_le_trans; [apply Hr | apply Z.pow_le_mono_r; lia]. }
  split; apply Z.bits_inj'; intros n Hn; rewrite ?Z.land_spec, ?Z.lor_spec, Z.ldiff_spec, Z.testbit_ones_nonneg, ?Z.pow2_bits_eqb by lia;
    destruct (Z.eqb_spec 16 n) as [<-|]; rewrite ?Hb; cbn [negb andb orb]; rewrite ?andb_false_r, ?andb_true_r, ?orb_false_r; try done;
    destruct (Z.ltb_spec n 32); rewrite ?andb_true_r; try done; rewrite Hhi by lia; done.
Qed.

(** ** One line changes *)

(** Nothing but line [i] and its register differs. *)
Record Touched (i : Z) (d d' : InterruptData) (s s' : ExternalInterrupts) : Prop := mkTouched {
  to_data : m_data s' = <[idx i := d']> (m_data s);
  to_remap : m_remapTable s' = m_remapTable s;
  to_redir : m_irqHasBeenRedirected s' = m_irqHasBeenRedirected s;
  to_idt : g_idt s' = g_idt s;
  to_mmio : m_mmio d' = m_mmio d;
  to_offset : m_irqOffset d' = m_irqOffset d;
  to_regs : forall mmio reg, (mmio, reg) <> (m_mmio d, irqRegBase i (m_irqOffset d)) ->
    ioReg (accesses s') mmio reg = ioReg (accesses s) mmio reg }.

Lemma Touched_trans i d d' d'' s s' s'' : Touched i d d' s s' -> Touched i d' d'' s' s'' -> Touched i d d'' s s''.
Proof.
  intros [A1 A2 A3 A4 A5 A6 A7] [B1 B2 B3 B4 B5 B6 B7]. split; try congruence.
  - rewrite B1, A1. apply list_insert_insert_eq.
  - intros mmio reg Hne. rewrite B7, A7; congruence.
Qed.

Lemma updData_run i f s d : m_data s !! idx i = Some d -> updData i f s = Ok (setData (<[idx i := f d]> (m_data s)) s).
Proof. intros H. unfold updData. rewrite (arr_get_Some _ _ _ H). ostep. by rewrite (arr_set_Some _ _ _ _ H). Qed.

Lemma Touched_data i f s d : m_mmio (f d) = m_mmio d -> m_irqOffset (f d) = m_irqOffset d ->
  Touched i d (f d) s (setData (<[idx i := f d]> (m_data s)) s).
Proof. intros. by split. Qed.

Lemma Touched_write i d s v : Touched i d d (setData (<[idx i := d]> (m_data s)) s)
    (addAccess (Out32 (m_mmio d) IoApicValueReg v) (addAccess (Out32 (m_mmio d) IoApicAddressReg (irqRegBase i (m_irqOffset d)))
       (setData (<[idx i := d]> (m_data s)) s))).
Proof.
  split; try done.
  - cbn. by rewrite list_insert_insert_eq.
  - intros mmio reg Hne. cbn [addAccess setData accesses]. rewrite ioReg_write.
    destruct (Z.eqb_spec (m_mmio d) mmio), (Z.eqb_spec (irqRegBase i (m_irqOffset d)) reg); cbn [andb]; congruence.
Qed.

Lemma IInv_touched s s' cfg L i d d' ids' : IInv s cfg L -> 0 <= i < 64 -> m_data s !! idx i = Some d -> Touched i d d' s s' ->
  lineOk s' (cfg i) ids' i d' ->
  (forall j id, j <> i -> id ∈ L j -> is_Some (m_entries s' !! id)) -> (forall id, id ∈ ids' -> is_Some (m_entries s' !! id)) ->
  0 <= idCointer s' < 2 ^ 32 ->
  IInv s' cfg (fun j => if j =? i then ids' else L j).
Proof.
  intros [H1 H2 H3 H4 H5 H6 H7 H8] Hi Hd [T1 T2 T3 T4 T5 T6 T7] Hl He He' Hid.
  assert (idx i < length (m_data s))%nat as Hlt by (by apply lookup_lt_Some in Hd).
  split; rewrite ?T1, ?T2, ?length_insert; try done.
  - intros j e Hj. destruct (Z.eqb_spec j i) as [->|Hne].
    + rewrite list_lookup_insert_eq by done. by intros [= <-].
    + rewrite list_lookup_insert_ne by (intros E; by apply idx_inj in E; lia). intros Hje.
      destruct (H5 j e Hj Hje) as [A1 A2 A3 A4 A5 A6 A7]. unfold live in *. rewrite <- T2 in A3, A5, A6, A7. split; try done.
      intros Hv. rewrite T7; [by apply A7|]. intros [= Em Er]. destruct Hv as [Hv0 _].
      assert (m_irqOffset e = m_irqOffset d) as Eo by (eapply H6; [exact Hje | exact Hd | done | done]).
      pose proof (A4 Hv0) as Ho. pose proof (lo_offset _ _ _ _ _ Hl) as Ho'. rewrite T5, T6, <- Em in Ho'. specialize (Ho' Hv0).
      rewrite Eo in *. apply Hne. by apply (irqRegBase_inj j i (m_irqOffset d)); [lia | lia | lia |].
  - intros j k e f. rewrite !list_lookup_insert_Some.
    intros [(<- & <- & _)|[Hj Hje]] [(<- & <- & _)|[Hk Hkf]]; rewrite ?T5, ?T6; intros; try done; try (eapply H6; eauto; congruence).
  - intros j id. destruct (Z.eqb_spec j i); [intros; by apply He' | intros; by eapply He].
Qed.

Definition sameIds (s s' : ExternalInterrupts) : Prop := m_entries s' = m_entries s /\ idCointer s' = idCointer s.

(** Setting a line's register to what its data say. *)
Lemma write_spec i f s d v : m_data s !! idx i = Some d -> m_mmio (f d) = m_mmio d -> m_irqOffset (f d) = m_irqOffset d ->
  m_mmio d <> nullptr -> v = m_loCache (f d) ->
  exists s', (s ← updData i f s; writeData (m_mmio d) (irqRegBase i (m_irqOffset d)) v s) = Ok s' /\
    Touched i d (f d) s s' /\ sameIds s s' /\ m_data s' !! idx i = Some (f d) /\
    ioReg (accesses s') (m_mmio d) (irqRegBase i (m_irqOffset d)) = Some (m_loCache (f d)).
Proof.
  intros Hd Hm Ho Hn ->. rewrite (updData_run _ _ _ _ Hd). ostep. unfold writeData.
  destruct (Z.eqb_spec (m_mmio d) nullptr) as [|_]; [done|]. eexists. split; [done|].
  assert (idx i < length (m_data s))%nat by (by apply lookup_lt_Some in Hd). split_and!.
  - eapply Touched_trans; [by apply Touched_data|]. rewrite <- Hm, <- Ho. apply Touched_write.
  - done.
  - cbn. by apply list_lookup_insert_eq.
  - cbn [addAccess setData accesses]. by rewrite ioReg_write, !Z.eqb_refl.
Qed.

Section Lines.
Context (s : ExternalInterrupts) (irq line : Z) (d : InterruptData).
Hypothesis Hirq : 0 <= irq < 64.
Hypothesis Hline : 0 <= line < 64.
Hypothesis Hremap : m_remapTable s !! idx irq = Some line.
Hypothesis Hd : m_data s !! idx line = Some d.
Hypothesis Hmmio : m_mmio d <> nullptr.

Lemma lockIrq_first : m_lockCounter d = 0 -> exists s', lockIrq irq s = Ok s' /\
  let d' := setLo (Z.lor (m_loCache d) IoApicMaskIrq) (setLock 1 d) in
  Touched line d d' s s' /\ sameIds s s' /\ m_data s' !! idx line = Some d' /\
  ioReg (accesses s') (m_mmio d) (irqRegBase line (m_irqOffset d)) = Some (m_loCache d').
Proof.
  intros H0. unfold lockIrq, MaxIrq. destruct (Z.leb_spec 64 irq); [lia|]. unfold remapped. rewrite (arr_get_Some _ _ _ Hremap). ostep.
  rewrite (updData_run _ _ _ _ Hd). ostep. rewrite H0. change (u32 (0 + 1)) with 1.
  set (s1 := setData _ s). assert (m_data s1 !! idx line = Some (setLock 1 d)) as Hd1.
  { cbn. apply list_lookup_insert_eq. by apply lookup_lt_Some in Hd. }
  unfold getData. rewrite (arr_get_Some _ _ _ Hd1). ostep. cbn [setLock m_lockCounter m_mmio m_irqOffset m_loCache Z.eqb Pos.eqb].
  destruct (write_spec line (fun d => setLo (Z.lor (m_loCache d) IoApicMaskIrq) d) s1 (setLock 1 d) _ Hd1 eq_refl eq_refl Hmmio eq_refl)
    as (s' & E & Ht & Hids & Hd' & Hr). exists s'. split; [exact E|]. cbn zeta. split_and!; try done.
  eapply Touched_trans; [|exact Ht]. by apply (Touched_data line (setLock 1)).
Qed.

Lemma unlockIrq_last : m_lockCounter d = 1 -> exists s', unlockIrq irq s = Ok s' /\
  let d' := setLo (Z.land (m_loCache d) (u32 (Z.lnot IoApicMaskIrq))) (setLock 0 d) in
  Touched line d d' s s' /\ sameIds s s' /\ m_data s' !! idx line = Some d' /\
  ioReg (accesses s') (m_mmio d) (irqRegBase line (m_irqOffset d)) = Some (m_loCache d').
Proof.
  intros H0. unfold unlockIrq, MaxIrq. destruct (Z.leb_spec 64 irq); [lia|]. unfold remapped. rewrite (arr_get_Some _ _ _ Hremap). ostep.
  rewrite (updData_run _ _ _ _ Hd). ostep. rewrite H0. change (u32 (1 - 1)) with 0.
  set (s1 := setData _ s). assert (m_data s1 !! idx line = Some (setLock 0 d)) as Hd1.
  { cbn. apply list_lookup_insert_eq. by apply lookup_lt_Some in Hd. }
  unfold getData. rewrite (arr_get_Some _ _ _ Hd1). ostep. cbn [setLock m_lockCounter m_mmio m_irqOffset m_loCache Z.eqb].
  destruct (write_spec line (setLo (Z.land (m_loCache d) (u32 (Z.lnot IoApicMaskIrq)))) s1 (setLock 0 d) _ Hd1 eq_refl eq_refl Hmmio eq_refl)
    as (s' & E & Ht & Hids & Hd' & Hr). exists s'. split; [exact E|]. cbn zeta. split_and!; try done.
  eapply Touched_trans; [|exact Ht]. by apply (Touched_data line (setLock 0)).
Qed.
End Lines.

(** ** Installing and deleting *)

Section Handlers.
Context (sz : Z) (Hsz : 0 < sz).

(** The line of an interrupt number. *)
Definition lineOf (s : ExternalInterrupts) (irq : Z) : Z := default 0 (m_remapTable s !! idx irq).
Definition dataOf (s : ExternalInterrupts) (i : Z) : InterruptData := default initialData (m_data s !! idx i).

Lemma lineOf_run s cfg L irq : IInv s cfg L -> 0 <= irq < 64 ->
  m_remapTable s !! idx irq = Some (lineOf s irq) /\ 0 <= lineOf s irq < 64 /\
  m_data s !! idx (lineOf s irq) = Some (dataOf s (lineOf s irq)).
Proof.
  intros HI Hirq. destruct (lookup_lt_is_Some_2 (m_remapTable s) (idx irq)) as [line Hl].
  { rewrite (iv_rlen _ _ _ HI). unfold idx. lia. }
  unfold lineOf, dataOf. rewrite Hl. cbn [default id from_option].
  pose proof (iv_remap _ _ _ HI line ltac:(by eapply list_elem_of_lookup_2)) as Hr.
  destruct (lookup_lt_is_Some_2 (m_data s) (idx line)) as [d Hd].
  { rewrite (iv_len _ _ _ HI). unfold idx. lia. }
  by rewrite Hd.
Qed.

Lemma live_line s cfg L irq : IInv s cfg L -> 0 <= irq < 64 -> m_mmio (dataOf s (lineOf s irq)) <> nullptr ->
  live s (lineOf s irq) (dataOf s (lineOf s irq)).
Proof. intros HI Hirq Hm. split; [done|]. eapply list_elem_of_lookup_2. by apply (lineOf_run s cfg L). Qed.

(** A line that is open, or closed, with its handlers. *)
Lemma lineOk_intro s c ids i d : live s i d -> LInv (m_irqHandlers d) ids -> m_irqActiveCounter d = 0 -> 0 <= m_irqOffset d <= i ->
  m_lockCounter d = (if decide (ids = []) then 1 else 0) ->
  m_loCache d = (if decide (ids = []) then Z.lor c IoApicMaskIrq else c) ->
  ioReg (accesses s) (m_mmio d) (irqRegBase i (m_irqOffset d)) = Some (m_loCache d) -> lineOk s c ids i d.
Proof. by split. Qed.

Lemma addHandler_spec s irq line d c ids ar proc obj : 0 <= irq < 64 -> 0 <= line < 64 ->
  m_remapTable s !! idx irq = Some line -> m_data s !! idx line = Some d -> m_mmio d <> nullptr -> cfgOk c ->
  LInv (m_irqHandlers d) ids -> (m_free_list (m_irqHandlers d) = nullptr -> freshArea sz ar (m_irqHandlers d)) ->
  m_lockCounter d = 1 -> m_loCache d = Z.lor c IoApicMaskIrq -> 0 <= idCointer s < 2 ^ 32 - 1 ->
  exists s' d', addHandler sz ar irq line proc obj s = Ok (idCointer s + 1, s') /\
    Touched line d d' s s' /\ m_entries s' = <[idCointer s + 1 := (proc, obj)]> (m_entries s) /\ idCointer s' = idCointer s + 1 /\
    LInv (m_irqHandlers d') (ids ++ [idCointer s + 1]) /\ m_irqActiveCounter d' = m_irqActiveCounter d /\
    m_lockCounter d' = 0 /\ m_loCache d' = c /\ ioReg (accesses s') (m_mmio d) (irqRegBase line (m_irqOffset d)) = Some c.
Proof.
  intros Hirq Hline Hr Hd Hm Hc (ns & fs & HL) Hfr Hlock Hlo Hid. unfold addHandler, getData. rewrite (arr_get_Some _ _ _ Hd). ostep.
  replace (u32 (idCointer s + 1)) with (idCointer s + 1) by (unfold u32; rewrite Z.mod_small; lia).
  destruct (push_back_spec sz Hsz ar (idCointer s + 1) _ ns fs ids HL Hfr) as (p & l & fs' & E & HL'). rewrite E. ostep.
  rewrite (updData_run line (setHandlers l) (newEntry _ proc obj s) d Hd). ostep.
  set (s1 := setData _ (newEntry _ _ _ s)). assert (m_data s1 !! idx line = Some (setHandlers l d)) as Hd1.
  { cbn. apply list_lookup_insert_eq. by apply lookup_lt_Some in Hd. }
  destruct (unlockIrq_last s1 irq line (setHandlers l d) Hirq Hline Hr Hd1 Hm Hlock) as (s' & Eu & Ht & [Hent Hidc] & _ & Hreg).
  rewrite Eu. ostep. eexists s', _. split; [done|]. split_and!.
  - eapply Touched_trans; [|exact Ht]. split; try done.
  - rewrite Hent. done.
  - rewrite Hidc. done.
  - cbn. by exists (ns ++ [p]), fs'.
  - done.
  - done.
  - cbn. rewrite Hlo. by apply mask_clear.
  - cbn in Hreg. rewrite Hreg, Hlo. f_equal. by apply mask_clear.
Qed.

Lemma waitIdle_run s i d : m_data s !! idx i = Some d -> m_irqActiveCounter d = 0 -> waitIdle i s = Ok ().
Proof. intros Hd H0. unfold waitIdle, getData. rewrite (arr_get_Some _ _ _ Hd). ostep. by rewrite H0. Qed.

Lemma installHandler_spec s cfg L ar irq proc obj : IInv s cfg L -> 0 <= irq < 64 ->
  let line := lineOf s irq in let d := dataOf s line in
  m_mmio d <> nullptr -> idCointer s < 2 ^ 32 - 1 ->
  (m_free_list (m_irqHandlers d) = nullptr -> freshArea sz ar (m_irqHandlers d)) ->
  exists s', installHandler sz ar irq proc obj s = Ok (idCointer s + 1, s') /\
    IInv s' cfg (fun i => if i =? line then L line ++ [idCointer s + 1] else L i) /\
    m_entries s' = <[idCointer s + 1 := (proc, obj)]> (m_entries s) /\ m_remapTable s' = m_remapTable s.
Proof.
  intros HI Hirq line d Hm Hid Hfr. destruct (lineOf_run s cfg L irq HI Hirq) as (Hr & Hl & Hd). fold line in Hr, Hl, Hd. fold d in Hd.
  pose proof (live_line s cfg L irq HI Hirq Hm) as Hv. fold line in Hv. fold d in Hv.
  pose proof (iv_line _ _ _ HI line d Hl Hd) as HO. pose proof (iv_cfg _ _ _ HI line Hl) as Hc. pose proof (iv_ids _ _ _ HI) as Hi0.
  unfold installHandler, MaxIrq. destruct (Z.leb_spec 64 irq); [lia|]. unfold remapped. rewrite (arr_get_Some _ _ _ Hr). ostep.
  unfold getData. rewrite (arr_get_Some _ _ _ Hd). ostep. destruct (Z.eqb_spec (m_mmio d) nullptr) as [|_]; [done|].
  rewrite (empty_spec _ _ (lo_list _ _ _ _ _ HO)).
  assert (exists s1 d1, (if negb (bool_decide (L line = [])) then s ← lockIrq irq s; _ ← waitIdle line s; Ok s else Ok s) = Ok s1 /\
    Touched line d d1 s s1 /\ sameIds s s1 /\ m_data s1 !! idx line = Some d1 /\ m_irqHandlers d1 = m_irqHandlers d /\
    m_irqActiveCounter d1 = 0 /\ m_lockCounter d1 = 1 /\ m_loCache d1 = Z.lor (cfg line) IoApicMaskIrq) as (s1 & d1 & -> & Ht & [He1 Hi1] & Hd1 & Hh & Ha & Hlk & Hlo).
  { pose proof (lo_lock _ _ _ _ _ HO Hv) as Hlk. pose proof (lo_cache _ _ _ _ _ HO Hv) as Hlo. pose proof (lo_idle _ _ _ _ _ HO) as Ha.
    case_bool_decide as E0; cbn [negb]; [rewrite decide_True in Hlk, Hlo by done | rewrite decide_False in Hlk, Hlo by done].
    - exists s, d. split; [done|]. split; [|done]. split; try done. by rewrite list_insert_id.
    - destruct (lockIrq_first s irq line d Hirq Hl Hr Hd Hm Hlk) as (s1 & -> & Ht & Hids & Hd1 & _). ostep.
      rewrite (waitIdle_run _ _ _ Hd1 Ha). ostep. eexists s1, _. split; [done|]. split_and!; try done. cbn. by rewrite Hlo. }
  ostep. destruct (addHandler_spec s1 irq line d1 (cfg line) (L line) ar proc obj) as (s' & d' & E & Ht' & He & Hi' & HL' & Ha' & Hlk' & Hlo' & Hreg);
    rewrite ?(to_remap _ _ _ _ _ Ht), ?Hh, ?Hi1; try done; try (rewrite (to_mmio _ _ _ _ _ Ht); done); [by apply (lo_list _ _ _ _ _ HO) | lia |].
  rewrite Hi1 in *. exists s'. split; [done|]. pose proof (Touched_trans _ _ _ _ _ _ _ Ht Ht') as HT. rewrite He1 in He.
  split; [|split; [done | by rewrite (to_remap _ _ _ _ _ HT)]].
  eapply IInv_touched; [done | done | exact Hd | exact HT | | | | ].
  - assert (L line ++ [idCointer s + 1] <> []) as Hne by (by destruct (L line)).
    apply lineOk_intro; rewrite ?decide_False by done; try done.
    + unfold live. rewrite (to_mmio _ _ _ _ _ HT), (to_remap _ _ _ _ _ HT). exact Hv.
    + by rewrite Ha'.
    + rewrite (to_offset _ _ _ _ _ HT). by apply (lo_offset _ _ _ _ _ HO).
    + rewrite (to_mmio _ _ _ _ _ HT), (to_offset _ _ _ _ _ HT), Hlo', <- Hreg. by rewrite (to_mmio _ _ _ _ _ Ht), (to_offset _ _ _ _ _ Ht).
  - intros j id _ Hj. rewrite He. destruct (decide (id = idCointer s + 1)) as [->|Hne].
    + rewrite lookup_insert_eq. by eexists.
    + rewrite lookup_insert_ne by done. by apply (iv_entries _ _ _ HI j).
  - intros id. rewrite He, elem_of_app, list_elem_of_singleton. intros Hin. destruct (decide (id = idCointer s + 1)) as [->|Hne].
    + rewrite lookup_insert_eq. by eexists.
    + rewrite lookup_insert_ne by done. apply (iv_entries _ _ _ HI line). tauto.
  - rewrite Hi'. lia.
Qed.

(** A number without a line gets no handler. *)
Lemma installHandler_none s cfg L ar irq proc obj : IInv s cfg L -> 0 <= irq ->
  64 <= irq \/ m_mmio (dataOf s (lineOf s irq)) = nullptr -> installHandler sz ar irq proc obj s = Ok (0, s).
Proof.
  intros HI Hirq Hc. unfold installHandler, MaxIrq. destruct (Z.leb_spec 64 irq); [done|]. destruct Hc as [|Hm]; [lia|].
  destruct (lineOf_run s cfg L irq HI ltac:(lia)) as (Hr & Hl & Hd). unfold remapped, getData.
  rewrite (arr_get_Some _ _ _ Hr). ostep. rewrite (arr_get_Some _ _ _ Hd). ostep. by rewrite Hm.
Qed.

Lemma deleteHandler_none s cfg L irq id : IInv s cfg L -> 0 <= irq ->
  64 <= irq \/ m_mmio (dataOf s (lineOf s irq)) = nullptr -> deleteHandler irq id s = Ok (false, s).
Proof.
  intros HI Hirq Hc. unfold deleteHandler, MaxIrq. destruct (Z.leb_spec 64 irq); [done|]. destruct Hc as [|Hm]; [lia|].
  destruct (lineOf_run s cfg L irq HI ltac:(lia)) as (Hr & Hl & Hd). unfold remapped, getData.
  rewrite (arr_get_Some _ _ _ Hr). ostep. rewrite (arr_get_Some _ _ _ Hd). ostep. by rewrite Hm.
Qed.

Lemma removeFirst_sub x xs y : y ∈ snd (specRun (ORemove x) xs) -> y ∈ xs.
Proof.
  cbn. induction xs as [|z xs IH]; cbn; [done|]. destruct (z =? x); cbn.
  - by right.
  - destruct (removeFirst x xs) as [ys|]; cbn in *; [|done]. rewrite !elem_of_cons. tauto.
Qed.

Lemma deleteHandler_spec s cfg L irq id : IInv s cfg L -> 0 <= irq < 64 ->
  let line := lineOf s irq in let d := dataOf s line in let r := specRun (ORemove id) (L line) in
  m_mmio d <> nullptr -> L line <> [] ->
  (length (L line) = 1%nat -> prev <$> nodes (m_irqHandlers d) !! m_begin_item (m_irqHandlers d) = Some nullptr) ->
  exists s', deleteHandler irq id s = Ok (fst r, s') /\ IInv s' cfg (fun i => if i =? line then snd r else L i) /\
    m_entries s' = m_entries s /\ m_remapTable s' = m_remapTable s.
Proof.
  intros HI Hirq line d r Hm Hne Hal. destruct (lineOf_run s cfg L irq HI Hirq) as (Hr & Hl & Hd). fold line in Hr, Hl, Hd. fold d in Hd.
  pose proof (live_line s cfg L irq HI Hirq Hm) as Hv. fold line in Hv. fold d in Hv.
  pose proof (iv_line _ _ _ HI line d Hl Hd) as HO. pose proof (iv_cfg _ _ _ HI line Hl) as Hc.
  pose proof (lo_lock _ _ _ _ _ HO Hv) as Hlk. pose proof (lo_cache _ _ _ _ _ HO Hv) as Hlo. pose proof (lo_idle _ _ _ _ _ HO) as Ha.
  rewrite decide_False in Hlk, Hlo by done.
  unfold deleteHandler, MaxIrq. destruct (Z.leb_spec 64 irq); [lia|]. unfold remapped. rewrite (arr_get_Some _ _ _ Hr). ostep.
  unfold getData. rewrite (arr_get_Some _ _ _ Hd). ostep. destruct (Z.eqb_spec (m_mmio d) nullptr) as [|_]; [done|].
  destruct (lockIrq_first s irq line d Hirq Hl Hr Hd Hm Hlk) as (s1 & -> & Ht & [He1 Hi1] & Hd1 & Hreg1). cbn zeta in *. set (d1 := setLo _ _) in *.
  ostep. rewrite (waitIdle_run _ _ _ Hd1 Ha). ostep. rewrite (arr_get_Some _ _ _ Hd1). ostep.
  destruct (remove_first_spec sz Hsz id (m_irqHandlers d1) (L line) (lo_list _ _ _ _ _ HO) Hal) as (l & E & HL). rewrite E. ostep.
  fold r in HL. fold r. rewrite (updData_run line (setHandlers l) s1 d1 Hd1). ostep. rewrite (empty_spec _ _ HL).
  set (s2 := setData _ s1). assert (m_data s2 !! idx line = Some (setHandlers l d1)) as Hd2.
  { cbn. apply list_lookup_insert_eq. by apply lookup_lt_Some in Hd1. }
  assert (Touched line d (setHandlers l d1) s s2) as Ht2.
  { eapply Touched_trans; [exact Ht|]. by apply (Touched_data line (setHandlers l)). }
  assert (exists s3 d3, (if negb (bool_decide (snd r = [])) then unlockIrq irq s2 else Ok s2) = Ok s3 /\ Touched line d d3 s s3 /\ sameIds s s3 /\
    m_irqHandlers d3 = l /\ m_irqActiveCounter d3 = 0 /\ m_lockCounter d3 = (if decide (snd r = []) then 1 else 0) /\
    m_loCache d3 = (if decide (snd r = []) then Z.lor (cfg line) IoApicMaskIrq else cfg line) /\
    ioReg (accesses s3) (m_mmio d) (irqRegBase line (m_irqOffset d)) = Some (m_loCache d3)) as (s3 & d3 & -> & HT & [He3 Hi3] & Hh3 & Ha3 & Hlk3 & Hlo3 & Hreg3).
  { case_bool_decide as E0; cbn [negb].
    - rewrite !decide_True by done. eexists s2, (setHandlers l d1). split; [done|]. split_and!; try done. cbn. by rewrite Hlo.
    - rewrite !decide_False by done.
      destruct (unlockIrq_last s2 irq line (setHandlers l d1) Hirq Hl) as (s3 & Eu & Ht3 & [He3 Hi3] & _ & Hreg3); [|done|done|done|].
      { cbn. by rewrite (to_remap _ _ _ _ _ Ht). }
      exists s3, (setLo (Z.land (m_loCache (setHandlers l d1)) (u32 (Z.lnot IoApicMaskIrq))) (setLock 0 (setHandlers l d1))). split; [exact Eu|]. split_and!; try done.
      + eapply Touched_trans; [exact Ht2 | exact Ht3].
      + cbn in He3, Hi3. split; congruence.
      + cbn. rewrite Hlo. by apply mask_clear. }
  ostep. exists s3. split; [done|]. split; [|split; [done | by rewrite (to_remap _ _ _ _ _ HT)]].
  eapply IInv_touched; [done | done | exact Hd | exact HT | | | | ].
  - apply lineOk_intro; try done.
    + unfold live. rewrite (to_mmio _ _ _ _ _ HT), (to_remap _ _ _ _ _ HT). exact Hv.
    + by rewrite Hh3.
    + rewrite (to_offset _ _ _ _ _ HT). by apply (lo_offset _ _ _ _ _ HO).
    + by rewrite (to_mmio _ _ _ _ _ HT), (to_offset _ _ _ _ _ HT).
  - intros j x _ Hj. rewrite He3. by apply (iv_entries _ _ _ HI j).
  - intros x Hx. rewrite He3. apply (iv_entries _ _ _ HI line). by eapply removeFirst_sub.
  - rewrite Hi3. apply (iv_ids _ _ _ HI).
Qed.
End Handlers.

(** ** Dispatch *)

Section Dispatch.
Context (call : Z -> Z -> ExternalInterrupts -> outcome (bool * ExternalInterrupts)).

(** A handler may send the end of interrupt, and touches nothing else here. *)
Definition polite : Prop := forall proc obj s, exists b s', call proc obj s = Ok (b, s') /\
  (s' = s \/ exists n, 0 <= n /\ eoi n s = Ok s').

(** The handlers are called in order until one claims the interrupt. *)
Fixpoint specCalls (es : list (Z * Z)) (s : ExternalInterrupts) : outcome ExternalInterrupts :=
  match es with
  | [] => Ok s
  | (proc, obj) :: es => '(claimed, s) ← call proc obj s; if claimed : bool then Ok s else specCalls es s
  end.

Definition isEoi (a : Access) : bool := match a with Eoi => true | _ => false end.
Definition eois (s : ExternalInterrupts) : nat := length (filter isEoi (accesses s)).

(** What a polite handler keeps. *)
Record Frame (s s' : ExternalInterrupts) : Prop := mkFrame {
  fr_data : setEoi 0 <$> m_data s' = setEoi 0 <$> m_data s;
  fr_remap : m_remapTable s' = m_remapTable s;
  fr_entries : m_entries s' = m_entries s;
  fr_ids : idCointer s' = idCointer s;
  fr_regs : forall mmio reg, ioReg (accesses s') mmio reg = ioReg (accesses s) mmio reg;
  fr_eois : (eois s <= eois s')%nat;
  fr_same : eois s' = eois s -> m_data s' = m_data s }.

Lemma Frame_refl s : Frame s s.
Proof. by split. Qed.
Lemma Frame_trans s1 s2 s3 : Frame s1 s2 -> Frame s2 s3 -> Frame s1 s3.
Proof.
  intros [A1 A2 A3 A4 A5 A6 A7] [B1 B2 B3 B4 B5 B6 B7]. split; [congruence.. | | lia | ].
  - intros. by rewrite B5, A5.
  - intros E. rewrite B7, A7; [done | lia | lia].
Qed.

Lemma eois_eoi s : eois (eoiRaw s) = S (eois s).
Proof. unfold eois, eoiRaw, addAccess. cbn [accesses]. rewrite filter_app, length_app, filter_cons_True by done. cbn [length filter list_filter]. lia. Qed.

Lemma Frame_eoi n s s' : 0 <= n -> eoi n s = Ok s' -> Frame s s'.
Proof.
  intros Hn. unfold eoi. destruct (MaxIrq <=? n); [intros [= ->]; apply Frame_refl|]. intros E.
  bind_inv E. unfold updData in E. bind_inv E. bind_inv E. injection E as <-.
  match goal with H : arr_get _ _ = Ok ?x, H' : arr_set _ _ (setEoi _ ?x) = Ok _ |- _ =>
    unfold arr_get in H; unfold arr_set in H'; destruct (m_data (eoiRaw s) !! _) as [d|] eqn:Hd; [|done];
    injection H as <-; injection H' as <- end.
  match goal with |- Frame s ?s' => assert (eois s' = S (eois s)) as He by apply eois_eoi end.
  split; [ | done | done | done | | lia | lia].
  - change (m_data (eoiRaw s)) with (m_data s) in *. cbn [setData m_data]. rewrite list_fmap_insert. rewrite list_insert_id; [done|]. rewrite list_lookup_fmap, Hd. done.
  - intros mmio reg. by apply ioReg_other.
Qed.

Lemma irqFrame_lookup s s' i d : Frame s s' -> m_data s !! i = Some d -> exists d', m_data s' !! i = Some d' /\ setEoi 0 d' = setEoi 0 d.
Proof.
  intros HF Hd. pose proof (f_equal (fun l => l !! i) (fr_data _ _ HF)) as E. cbn in E. rewrite !list_lookup_fmap, Hd in E. cbn in E.
  destruct (m_data s' !! i) as [d'|]; [|done]. injection E as E. eexists. split; [done|]. unfold setEoi. congruence.
Qed.

Lemma specCalls_frame es s : polite -> exists s', specCalls es s = Ok s' /\ Frame s s'.
Proof.
  intros Hp. revert s. induction es as [|[proc obj] es IH]; intros s; cbn [specCalls]; [exists s; split; [done | apply Frame_refl]|].
  destruct (Hp proc obj s) as (b & s1 & E & Hs). rewrite E. ostep.
  assert (Frame s s1) as HF by (destruct Hs as [->|(n & Hn & He)]; [apply Frame_refl | by eapply Frame_eoi]).
  destruct b; [by exists s1|]. destruct (IH s1) as (s' & E' & HF'). exists s'. split; [done|]. by eapply Frame_trans.
Qed.

Lemma callLoop_spec s0 irq d0 l : polite -> m_data s0 !! idx irq = Some d0 -> m_irqHandlers d0 = l ->
  forall ns xs pr it fuel s, Frame s0 s -> seg (nodes l) pr it ns -> (fun p => item <$> nodes l !! p) <$> ns = Some <$> xs ->
  (forall x, x ∈ xs -> is_Some (m_entries s0 !! x)) -> (length ns <= fuel)%nat ->
  callLoop call fuel irq it s = specCalls ((fun x => default (0, 0) (m_entries s0 !! x)) <$> xs) s.
Proof.
  intros Hp Hd Hl. induction ns as [|p ns IH]; intros xs pr it fuel s HF Hs Hi He Hf.
  - destruct xs; [|done]. cbn in Hs. subst it. by destruct fuel.
  - destruct xs as [|x xs]; [done|]. cbn [fmap list_fmap] in Hi. injection Hi as Hx Hi. cbn in Hs.
    destruct Hs as (-> & Hp0 & nd & Hnd & _ & Hs). destruct fuel as [|fuel]; [cbn in Hf; lia|]. cbn [callLoop].
    destruct (Z.eqb_spec p nullptr) as [|_]; [done|]. rewrite Hnd in Hx. injection Hx as Hx.
    destruct (irqFrame_lookup _ _ _ _ HF Hd) as (d & Hd' & Ed). assert (m_irqHandlers d = l) as El by (unfold setEoi in Ed; congruence).
    unfold getData. rewrite (arr_get_Some _ _ _ Hd'). ostep. rewrite El, (deref_Some _ _ _ Hnd). ostep. rewrite Hx, (fr_entries _ _ HF).
    destruct (He x ltac:(left)) as [[proc obj] Ex]. rewrite (deref_Some _ _ _ Ex). ostep. cbn [fmap list_fmap specCalls]. rewrite Ex. cbn [default from_option id].
    destruct (Hp proc obj s) as (b & s1 & E & Hs1). rewrite E. ostep. destruct b; [done|].
    assert (Frame s0 s1) as HF1.
    { eapply Frame_trans; [exact HF|]. destruct Hs1 as [->|(n & Hn & He1)]; [apply Frame_refl | by eapply Frame_eoi]. }
    destruct (irqFrame_lookup _ _ _ _ HF1 Hd) as (d1 & Hd1 & Ed1). rewrite (arr_get_Some _ _ _ Hd1). ostep.
    assert (m_irqHandlers d1 = l) as El1 by (unfold setEoi in Ed1; congruence). rewrite El1, (deref_Some _ _ _ Hnd). ostep.
    eapply IH; [done | exact Hs | done | | cbn in Hf; lia]. intros y Hy. apply He. by right.
Qed.

Lemma lineOk_frame s s' c ids i d d' : m_remapTable s' = m_remapTable s ->
  (forall mmio reg, ioReg (accesses s') mmio reg = ioReg (accesses s) mmio reg) -> setEoi 0 d' = setEoi 0 d ->
  lineOk s c ids i d -> lineOk s' c ids i d'.
Proof.
  intros Er Hreg E [A1 A2 A3 A4 A5 A6 A7]. unfold setEoi in E. destruct d, d'. cbn in *. injection E as -> -> -> -> -> ->.
  unfold live in *. cbn in *. rewrite <- Er in *. split; try done. cbn. intros. rewrite Hreg. by apply A7.
Qed.

(** The state an interrupt's handlers see. *)
Definition entered (i : Z) (s : ExternalInterrupts) : ExternalInterrupts :=
  setData (<[idx i := setActive 1 (dataOf s i)]> (m_data s)) s.
Definition entriesOf (s : ExternalInterrupts) (ids : list Z) : list (Z * Z) := (fun x => default (0, 0) (m_entries s !! x)) <$> ids.

(** Up to the end-of-interrupt counters, [s'] has the lines of [s]. *)
Lemma IInv_same s s' cfg L : IInv s cfg L -> setEoi 0 <$> m_data s' = setEoi 0 <$> m_data s ->
  m_remapTable s' = m_remapTable s -> m_entries s' = m_entries s -> idCointer s' = idCointer s ->
  (forall mmio reg, ioReg (accesses s') mmio reg = ioReg (accesses s) mmio reg) -> IInv s' cfg L.
Proof.
  intros [H1 H2 H3 H4 H5 H6 H7 H8] Ed Er Ee Ei Hreg.
  assert (forall j e', m_data s' !! j = Some e' -> exists e, m_data s !! j = Some e /\ setEoi 0 e' = setEoi 0 e) as Hlk.
  { intros j e' He'. pose proof (f_equal (fun l => l !! j) Ed) as E. cbn beta in E. rewrite !list_lookup_fmap, He' in E.
    destruct (m_data s !! j) as [e|]; [|done]. exists e. split; [done|]. apply (inj Some). exact E. }
  split; rewrite ?Er, ?Ee, ?Ei; try done.
  - by rewrite <- (length_fmap (setEoi 0)), Ed, length_fmap.
  - intros j e' Hj He'. destruct (Hlk _ _ He') as (e & He & E). eapply lineOk_frame; [exact Er | exact Hreg | exact E | by apply H5].
  - intros j k e f He Hf. destruct (Hlk _ _ He) as (e0 & He0 & Ee0). destruct (Hlk _ _ Hf) as (f0 & Hf0 & Ef0).
    unfold setEoi in *. intros Em Hn. assert (m_irqOffset e0 = m_irqOffset f0) by (eapply H6; [done | done | congruence | congruence]). congruence.
Qed.

Lemma allIrqHandler_spec s cfg L i : IInv s cfg L -> polite -> 0 <= i < 64 ->
  exists s2 s', specCalls (entriesOf s (L i)) (entered i s) = Ok s2 /\ allIrqHandler call i s = Ok s' /\
    IInv s' cfg L /\ (eois s < eois s')%nat /\ (eois s2 = eois s -> eois s' = S (eois s)).
Proof.
  intros HI Hp Hi. destruct (lookup_lt_is_Some_2 (m_data s) (idx i)) as [d Hd].
  { rewrite (iv_len _ _ _ HI). unfold idx. lia. }
  assert (dataOf s i = d) as Edo by (unfold dataOf; by rewrite Hd). unfold entered. rewrite Edo.
  pose proof (iv_line _ _ _ HI i d Hi Hd) as HO. pose proof (lo_idle _ _ _ _ _ HO) as Ha.
  set (s1 := setData (<[idx i := setActive 1 d]> (m_data s)) s).
  assert (m_data s1 !! idx i = Some (setActive 1 d)) as Hd1 by (cbn; apply list_lookup_insert_eq; by apply lookup_lt_Some in Hd).
  destruct (specCalls_frame (entriesOf s (L i)) s1 Hp) as (s2 & E2 & HF). exists s2.
  unfold allIrqHandler. rewrite (updData_run _ _ _ _ Hd). ostep. rewrite Ha. change (u32 (0 + 1)) with 1. fold s1.
  unfold getData. rewrite (arr_get_Some _ _ _ Hd1). ostep. cbn [setActive m_irqHandlers m_eoiCounter].
  destruct (lo_list _ _ _ _ _ HO) as (ns & fs & HL).
  rewrite (callLoop_spec s1 i _ (m_irqHandlers d) Hp Hd1 eq_refl ns (L i) None);
    [| apply Frame_refl | apply (lr_seg _ _ _ _ HL) | apply (lr_items _ _ _ _ HL) | apply (iv_entries _ _ _ HI) | by eapply nodes_bound].
  change (specCalls _ s1) with (specCalls (entriesOf s (L i)) s1). rewrite E2. ostep.
  destruct (irqFrame_lookup _ _ _ _ HF Hd1) as (d2 & Hd2 & Ed2).
  rewrite (updData_run _ _ _ _ Hd2). ostep. replace (m_irqActiveCounter d2) with 1 by (unfold setEoi in Ed2; cbn in Ed2; congruence).
  change (u32 (1 - 1)) with 0. set (s3 := setData _ s2). assert (m_data s3 !! idx i = Some (setActive 0 d2)) as Hd3.
  { cbn. apply list_lookup_insert_eq. by apply lookup_lt_Some in Hd2. }
  rewrite (arr_get_Some _ _ _ Hd3). ostep. cbn [setActive m_eoiCounter].
  assert (setEoi 0 <$> m_data s3 = setEoi 0 <$> m_data s) as Edata.
  { cbn [s3 setData m_data]. rewrite list_fmap_insert, (fr_data _ _ HF). cbn [s1 setData m_data]. rewrite list_fmap_insert, list_insert_insert_eq.
    apply list_insert_id. rewrite list_lookup_fmap, Hd. cbn. f_equal. destruct d, d2. unfold setEoi, setActive in *. cbn in *. congruence. }
  assert (IInv s3 cfg L) as HI3.
  { eapply (IInv_same s); [done | exact Edata | exact (fr_remap _ _ HF) | exact (fr_entries _ _ HF) | exact (fr_ids _ _ HF) | exact (fr_regs _ _ HF)]. }
  pose proof (fr_eois _ _ HF) as Hle. change (eois s1) with (eois s) in Hle.
  destruct (Z.eqb_spec (m_eoiCounter d2) (m_eoiCounter d)) as [Ee|Ee].
  - exists (eoiRaw s3). rewrite eois_eoi. change (eois s3) with (eois s2). split_and!; try done; [|lia|lia].
    eapply (IInv_same s3); try done. intros. by apply ioReg_other.
  - exists s3. change (eois s3) with (eois s2). assert (eois s2 <> eois s) as Hne.
    { intros E. apply Ee. assert (m_data s2 !! idx i = m_data s1 !! idx i) as Em by (by rewrite (fr_same _ _ HF E)).
      rewrite Hd2, Hd1 in Em. by injection Em as ->. }
    split_and!; try done; lia.
Qed.
End Dispatch.
