(* ===== verification/InterruptInit.v ===== *)
(** * Setting up the device interrupts

    [ExternalInterrupts::initIoApic] from the tables [AcpiTables] read establishes the
    invariant of [Interrupts], for controllers without gaps and remappings that lead
    upwards and do not collide; and the claim on installing, deleting and dispatch. *)

From S2P Require Import Prelude FreeList KList AcpiTables Interrupts.

(** ** Gates *)

(** The entry point the processor reads from a gate. *)
Definition gateAddr (g : InterruptGate) : Z := m_offset0_15 g + 2 ^ 16 * m_offset16_31 g + 2 ^ 32 * m_offset32_63 g.

Lemma setHandler_spec v h s : 0 <= v < 256 -> word64 h -> length (g_idt s) = 256%nat ->
  exists g, setHandler v h true s = Ok (setIdt (<[idx v := g]> (g_idt s)) s) /\ gateAddr g = h.
Proof.
  intros Hv Hh Hl. unfold setHandler. assert (u8 v = v) as -> by (unfold u8; apply Z.mod_small; lia).
  destruct (lookup_lt_is_Some_2 (g_idt s) (idx v)) as [g0 Hg]; [rewrite Hl; unfold idx; lia|].
  rewrite (arr_set_Some _ _ _ _ Hg). ostep. eexists. split; [done|]. unfold gateAddr. cbn.
  change 0xFFFF with (Z.ones 16). change 0xFFFFFFFF with (Z.ones 32). rewrite !Z.land_ones, !Z.shiftr_div_pow2 by lia.
  unfold word64 in Hh. change (2 ^ 16) with 65536. change (2 ^ 32) with 4294967296. change (2 ^ 64) with 18446744073709551616 in Hh.
  rewrite (Z.mod_small (h / 4294967296)) by (split; [apply Z.div_pos; lia | apply Z.div_lt_upper_bound; lia]).
  change 4294967296 with (65536 * 65536). rewrite <- Z.div_div by lia. lia.
Qed.

Section Init.
Context (in32 : list Access -> Z -> Z -> Z) (io : nat -> Z -> Z) (SystemHandlerIRQ : Z -> Z).
(** The version register of a controller. *)
Context (ver : Z -> Z).
Hypothesis Hin : forall log mmio, in32 (log ++ [Out32 mmio IoApicAddressReg IoApicVersionInternalReg]) mmio IoApicValueReg = ver mmio.
Hypothesis Hio : forall k b, io k b <> nullptr.
Hypothesis Hinj : forall k k' b b', io k b = io k' b' -> k = k'.
Hypothesis Hent : forall irq, word64 (SystemHandlerIRQ irq).

(** Everything but the gates. *)
Lemma setupFrom_spec n : forall irq s, 0 <= irq -> irq + Z.of_nat n <= 64 -> length (g_idt s) = 256%nat ->
  exists idt, setupFrom SystemHandlerIRQ n irq s = Ok (setIdt idt s) /\ length idt = 256%nat /\
    (forall i, irq <= i < irq + Z.of_nat n -> gateAddr <$> idt !! idx (CPU_IRQ0_VECTOR + i) = Some (SystemHandlerIRQ i)) /\
    (forall v, 0 <= v -> v < CPU_IRQ0_VECTOR + irq \/ CPU_IRQ0_VECTOR + irq + Z.of_nat n <= v -> idt !! idx v = g_idt s !! idx v).
Proof.
  induction n as [|n IH]; intros irq s Hirq Hn Hl; cbn [setupFrom].
  - exists (g_idt s). split; [by destruct s|]. split; [done|]. split; [lia|done].
  - unfold CPU_IRQ0_VECTOR in *. destruct (setHandler_spec (176 + irq) (SystemHandlerIRQ irq) s) as (g & -> & Hg); [lia | done | done|]. ostep.
    destruct (IH (irq + 1) (setIdt (<[idx (176 + irq) := g]> (g_idt s)) s)) as (idt & -> & Hl' & H1 & H2); [lia | lia | cbn; by rewrite length_insert|].
    exists idt. split; [done|]. split; [done|]. split.
    + intros i Hi. destruct (decide (i = irq)) as [->|]; [|apply H1; lia]. rewrite H2 by lia. cbn [setIdt g_idt].
      rewrite list_lookup_insert_eq by (rewrite Hl; unfold idx; lia). cbn. by rewrite Hg.
    + intros v Hv Hc. rewrite H2 by lia. cbn [setIdt g_idt]. apply list_lookup_insert_ne. unfold idx. lia.
Qed.

(** ** The stages of the set-up *)

Section Stages.
Context (gates : list InterruptGate).

(** The lines have the controllers and offsets [ctl], the cached words [lo], the lock
    counters [lk] and no handlers; the remapping is [R]. *)
Record Stage (s : ExternalInterrupts) (ctl : Z -> Z * Z) (lo lk R : Z -> Z) : Prop := mkStage {
  st_data : forall i, 0 <= i < 64 -> m_data s !! idx i = Some (mkData (fst (ctl i)) (lo i) newKList 0 (snd (ctl i)) (lk i) 0);
  st_len : length (m_data s) = 64%nat;
  st_remap : forall i, 0 <= i < 64 -> m_remapTable s !! idx i = Some (R i);
  st_rlen : length (m_remapTable s) = 64%nat;
  st_flen : length (m_irqHasBeenRedirected s) = 64%nat;
  st_ids : idCointer s = 0;
  st_idt : g_idt s = gates }.

(** Every line below [max], and no other, has a controller; [apics] are the ones read. *)
Definition Controlled (apics : list (Z * Z)) (max : Z) (ctl : Z -> Z * Z) : Prop :=
  forall i, 0 <= i < 64 ->
    if i <? max then exists k b, apics !! k = Some (b, snd (ctl i)) /\ fst (ctl i) = io k b /\ 0 <= snd (ctl i) <= i
    else ctl i = (nullptr, 0).

Definition upd {A} (f : Z -> A) (i : Z) (x : A) : Z -> A := fun j => if j =? i then x else f j.

Lemma Stage_upd s ctl lo lk R i f ctl' lo' lk' : Stage s ctl lo lk R -> 0 <= i < 64 ->
  f (mkData (fst (ctl i)) (lo i) newKList 0 (snd (ctl i)) (lk i) 0) = mkData (fst ctl') lo' newKList 0 (snd ctl') lk' 0 ->
  exists s', updData i f s = Ok s' /\ Stage s' (upd ctl i ctl') (upd lo i lo') (upd lk i lk') R /\ accesses s' = accesses s /\
    m_remapTable s' = m_remapTable s.
Proof.
  intros [H1 H2 H3 H4 H5 H6 H7] Hi Hf. rewrite (updData_run _ _ _ _ (H1 i Hi)), Hf. eexists. split; [done|]. split; [|done].
  split; cbn [setData m_data m_remapTable m_irqHasBeenRedirected idCointer g_idt]; try done; [|by rewrite length_insert].
  intros j Hj. unfold upd. destruct (Z.eqb_spec j i) as [->|Hne].
  - apply list_lookup_insert_eq. rewrite H2. unfold idx. lia.
  - rewrite list_lookup_insert_ne by (intros E; apply idx_inj in E; lia). by apply H1.
Qed.

Lemma Stage_access s a ctl lo lk R : Stage s ctl lo lk R -> Stage (addAccess a s) ctl lo lk R.
Proof. intros []. by split. Qed.

Lemma Stage_ext s ctl lo lk R ctl' lo' lk' : Stage s ctl lo lk R ->
  (forall i, 0 <= i < 64 -> ctl' i = ctl i /\ lo' i = lo i /\ lk' i = lk i) -> Stage s ctl' lo' lk' R.
Proof. intros [] He. split; try done. intros i Hi. destruct (He i Hi) as (-> & -> & ->). auto. Qed.

(** ** Controllers *)

Definition numIrqs (v : Z) : Z := Z.land (Z.shiftr v 16) 0xFF + 1.
Lemma numIrqs_range v : 1 <= numIrqs v <= 256.
Proof. unfold numIrqs. change 0xFF with (Z.ones 8). rewrite Z.land_ones by lia. pose proof (Z.mod_pos_bound (Z.shiftr v 16) (2 ^ 8)). lia. Qed.

Lemma mapLines_spec n : forall irq mmio base s ctl lo lk R, 0 <= irq -> irq + Z.of_nat n <= 64 -> Stage s ctl lo lk R ->
  exists s', mapLines n irq mmio base s = Ok s' /\
    Stage s' (fun i => if (irq <=? i) && (i <? irq + Z.of_nat n) then (mmio, base) else ctl i) lo lk R.
Proof.
  induction n as [|n IH]; intros irq mmio base s ctl lo lk R Hirq Hn HS; cbn [mapLines].
  - exists s. split; [done|]. eapply Stage_ext; [exact HS|]. intros i Hi. split; [|done].
    destruct (Z.leb_spec irq i), (Z.ltb_spec i (irq + Z.of_nat 0)); (lia || done).
  - destruct (Stage_upd s ctl lo lk R irq (setMmio mmio base) (mmio, base) (lo irq) (lk irq) HS) as (s1 & -> & HS1 & _); [lia | done|].
    ostep. destruct (IH (irq + 1) mmio base s1 _ _ _ _ ltac:(lia) ltac:(lia) HS1) as (s' & -> & HS'). exists s'. split; [done|].
    eapply Stage_ext; [exact HS'|]. intros i Hi. unfold upd.
    destruct (Z.eqb_spec i irq) as [->|Hne]; split_and!; try done.
    + destruct (Z.leb_spec irq irq), (Z.ltb_spec irq (irq + Z.of_nat (S n))), (Z.leb_spec (irq + 1) irq); (lia || done).
    + destruct (Z.leb_spec irq i), (Z.ltb_spec i (irq + Z.of_nat (S n))), (Z.leb_spec (irq + 1) i), (Z.ltb_spec i (irq + 1 + Z.of_nat n)); (lia || done).
Qed.

(** The first line without a controller, after the controllers [apics]. *)
Fixpoint firmMax (k : nat) (apics : list (Z * Z)) (max : Z) : Z :=
  match apics with
  | [] => max
  | (b, irqBase) :: apics => firmMax (S k) apics (Z.max max (Z.min 64 (irqBase + numIrqs (ver (io k b)))))
  end.
(** Every controller starts where the ones before have lines, or right after them. *)
Fixpoint gapFree (k : nat) (apics : list (Z * Z)) (max : Z) : Prop :=
  match apics with
  | [] => True
  | (b, irqBase) :: apics =>
      b <> 0 /\ 0 <= irqBase <= max /\ gapFree (S k) apics (Z.max max (Z.min 64 (irqBase + numIrqs (ver (io k b)))))
  end.

Lemma readData_spec mmio s : mmio <> nullptr ->
  readData in32 mmio IoApicVersionInternalReg s =
    Ok (ver mmio, addAccess (In32 mmio IoApicValueReg) (addAccess (Out32 mmio IoApicAddressReg IoApicVersionInternalReg) s)).
Proof. intros Hm. unfold readData. destruct (Z.eqb_spec mmio nullptr); [done|]. cbn [addAccess accesses]. by rewrite Hin. Qed.

Lemma Controlled_add apics max b irqBase e ctl : 0 <= irqBase <= max -> irqBase <= e <= 64 ->
  Controlled apics max ctl ->
  Controlled (apics ++ [(b, irqBase)]) (Z.max max e)
    (fun i => if (irqBase <=? i) && (i <? e) then (io (length apics) b, irqBase) else ctl i).
Proof.
  intros Hb He HC i Hi. specialize (HC i Hi).
  destruct (Z.leb_spec irqBase i), (Z.ltb_spec i e); cbn [andb fst snd].
  - destruct (Z.ltb_spec i (Z.max max e)); [|lia]. exists (length apics), b. rewrite lookup_app_r, Nat.sub_diag by lia. split; [done|]. split; [done|lia].
  - destruct (Z.ltb_spec i max), (Z.ltb_spec i (Z.max max e)); try lia; [|done].
    destruct HC as (k & b' & Hk & ?). exists k, b'. by rewrite lookup_app_l by (by apply lookup_lt_Some in Hk).
  - destruct (Z.ltb_spec i max), (Z.ltb_spec i (Z.max max e)); try lia.
    destruct HC as (k & b' & Hk & ?). exists k, b'. by rewrite lookup_app_l by (by apply lookup_lt_Some in Hk).
  - lia.
Qed.

Lemma Controlled_grow apics x max ctl : Controlled apics max ctl -> Controlled (apics ++ [x]) max ctl.
Proof.
  intros HC i Hi. specialize (HC i Hi). destruct (i <? max); [|done]. destruct HC as (k & b' & Hk & ?).
  exists k, b'. by rewrite lookup_app_l by (by apply lookup_lt_Some in Hk).
Qed.

Lemma apicsLoop_spec apics : forall seen max s ctl lo lk R, 0 <= max <= 64 -> Stage s ctl lo lk R -> Controlled seen max ctl ->
  gapFree (length seen) apics max ->
  exists s' ctl', apicsLoop in32 io (length seen) apics max s = Ok (firmMax (length seen) apics max, s') /\
    Stage s' ctl' lo lk R /\ Controlled (seen ++ apics) (firmMax (length seen) apics max) ctl' /\ firmMax (length seen) apics max <= 64.
Proof.
  induction apics as [|[b irqBase] apics IH]; intros seen max s ctl lo lk R Hmax HS HC Hg; cbn [apicsLoop firmMax gapFree] in *.
  - exists s, ctl. rewrite app_nil_r. split_and!; (done || lia).
  - destruct Hg as (Hb & Hbase & Hg). destruct (Z.eqb_spec b 0) as [|_]; [done|]. rewrite readData_spec by done. ostep.
    change (Z.land (Z.shiftr (ver (io (length seen) b)) 16) 255 + 1) with (numIrqs (ver (io (length seen) b))).
    pose proof (numIrqs_range (ver (io (length seen) b))) as Hnum. set (num := numIrqs _) in *.
    apply (Stage_access _ (Out32 (io (length seen) b) IoApicAddressReg IoApicVersionInternalReg)) in HS.
    apply (Stage_access _ (In32 (io (length seen) b) IoApicValueReg)) in HS. set (s1 := addAccess _ _) in *.
    assert (u32 (irqBase + num) = irqBase + num) as -> by (unfold u32; apply Z.mod_small; lia).
    specialize (IH (seen ++ [(b, irqBase)])). rewrite length_app in IH. cbn [length] in IH. rewrite Nat.add_1_r in IH.
    setoid_rewrite <- app_assoc in IH. cbn [app] in IH. unfold MaxIrq.
    destruct (Z.ltb_spec 64 (irqBase + num)), (Z.leb_spec 64 irqBase); cbn [andb].
    + replace (Z.max max (Z.min 64 (irqBase + num))) with max in * by lia. by apply (IH max s1 ctl); [| |apply Controlled_grow|].
    + destruct (mapLines_spec (Z.to_nat (64 - irqBase)) irqBase (io (length seen) b) irqBase s1 ctl lo lk R) as (s2 & -> & HS2); [lia | lia | done|].
      ostep. rewrite Z2Nat.id in HS2 by lia. replace (irqBase + (64 - irqBase)) with 64 in HS2 by lia.
      replace (Z.min 64 (irqBase + num)) with 64 in * by lia. eapply IH; [lia | exact HS2 | | done]. by apply Controlled_add; [lia | lia |].
    + lia.
    + destruct (mapLines_spec (Z.to_nat (irqBase + num - irqBase)) irqBase (io (length seen) b) irqBase s1 ctl lo lk R) as (s2 & -> & HS2); [lia | lia | done|].
      ostep. rewrite Z2Nat.id in HS2 by lia. replace (irqBase + (irqBase + num - irqBase)) with (irqBase + num) in HS2 by lia.
      replace (Z.min 64 (irqBase + num)) with (irqBase + num) in * by lia. eapply IH; [lia | exact HS2 | | done]. by apply Controlled_add; [lia | lia |].
Qed.

(** ** The cached words *)

Lemma controlled_mmio apics max ctl i : Controlled apics max ctl -> 0 <= i < 64 -> fst (ctl i) = nullptr <-> max <= i.
Proof.
  intros HC Hi. specialize (HC i Hi). destruct (Z.ltb_spec i max).
  - destruct HC as (k & b & _ & E & _). rewrite E. split; [intros E'; by apply Hio in E' | lia].
  - rewrite HC. cbn. split; [lia|done].
Qed.

Lemma setupLines_spec n : forall apics max irq s ctl lo lk R, 0 <= irq -> irq + Z.of_nat n <= max -> max <= 64 -> Stage s ctl lo lk R ->
  Controlled apics max ctl ->
  exists s', setupLines n irq s = Ok s' /\ Stage s' ctl (fun i => if (irq <=? i) && (i <? irq + Z.of_nat n) then loInit i else lo i) lk R.
Proof.
  induction n as [|n IH]; intros apics max irq s ctl lo lk R Hirq Hn Hmax HS HC; cbn [setupLines].
  - exists s. split; [done|]. eapply Stage_ext; [exact HS|]. intros i Hi. split_and!; try done.
    destruct (Z.leb_spec irq i), (Z.ltb_spec i (irq + Z.of_nat 0)); (lia || done).
  - unfold setupLine, getData. rewrite (arr_get_Some _ _ _ (st_data _ _ _ _ _ HS irq ltac:(lia))). ostep. cbn [m_mmio m_irqOffset].
    pose proof (controlled_mmio _ _ _ irq HC ltac:(lia)) as Hm.
    destruct (Z.eqb_spec (fst (ctl irq)) nullptr) as [E|Hne]; [apply Hm in E; lia|]. cbn [negb].
    destruct (Stage_upd s ctl lo lk R irq (setLo (loInit irq)) (ctl irq) (loInit irq) (lk irq) HS) as (s1 & -> & HS1 & _); [lia | done|].
    ostep. unfold writeData. destruct (Z.eqb_spec (fst (ctl irq)) nullptr) as [|_]; [done|]. ostep. set (s2 := addAccess _ _).
    assert (Stage s2 ctl (upd lo irq (loInit irq)) lk R) as HS2.
    { do 2 apply Stage_access. eapply Stage_ext; [exact HS1|]. intros i Hi. unfold upd. destruct (Z.eqb_spec i irq) as [->|]; done. }
    destruct (IH apics max (irq + 1) s2 _ _ _ _ ltac:(lia) ltac:(lia) Hmax HS2 HC) as (s' & -> & HS'). exists s'. split; [done|].
    eapply Stage_ext; [exact HS'|]. intros i Hi. split_and!; try done. unfold upd.
    destruct (Z.eqb_spec i irq) as [->|Hni].
    + destruct (Z.leb_spec irq irq), (Z.ltb_spec irq (irq + Z.of_nat (S n))), (Z.leb_spec (irq + 1) irq); (lia || done).
    + destruct (Z.leb_spec irq i), (Z.ltb_spec i (irq + Z.of_nat (S n))), (Z.leb_spec (irq + 1) i), (Z.ltb_spec i (irq + 1 + Z.of_nat n)); (lia || done).
Qed.

(** ** Remappings *)

(** The entries the source uses: both lines exist, and the target has a controller. *)
Definition applies (max : Z) (e : ApicIsaRemappingEntry) : bool := (m_sourceIrq e <? 64) && (m_apicIrq e <? max).
Definition remapLo (max : Z) (e : ApicIsaRemappingEntry) (lo : Z -> Z) : Z -> Z :=
  if applies max e then upd lo (m_apicIrq e) (remapBits e (lo (m_apicIrq e))) else lo.
Definition remapR (max : Z) (e : ApicIsaRemappingEntry) (R : Z -> Z) : Z -> Z :=
  if applies max e then upd R (m_sourceIrq e) (if m_apicIrq e =? m_sourceIrq e then R (m_sourceIrq e) else m_apicIrq e) else R.
Definition remapsLo (max : Z) (es : list ApicIsaRemappingEntry) (lo : Z -> Z) : Z -> Z := foldl (fun lo e => remapLo max e lo) lo es.
Definition remapsR (max : Z) (es : list ApicIsaRemappingEntry) (R : Z -> Z) : Z -> Z := foldl (fun R e => remapR max e R) R es.
Definition remap_ok (e : ApicIsaRemappingEntry) : Prop := 0 <= m_sourceIrq e /\ 0 <= m_apicIrq e.

Lemma setRedirected_Stage s ctl lo lk R i : Stage s ctl lo lk R -> 0 <= i < 64 ->
  exists s', (r ← arr_set (m_irqHasBeenRedirected s) (idx i) true; Ok (setRedirected r s)) = Ok s' /\ Stage s' ctl lo lk R.
Proof.
  intros HS Hi. destruct (lookup_lt_is_Some_2 (m_irqHasBeenRedirected s) (idx i)) as [b Hb]; [rewrite (st_flen _ _ _ _ _ HS); unfold idx; lia|].
  rewrite (arr_set_Some _ _ _ _ Hb). ostep. eexists. split; [done|]. destruct HS. split; try done. cbn. by rewrite length_insert.
Qed.

Lemma remapEntry_spec apics max e s ctl lo lk R : max <= 64 -> remap_ok e -> Stage s ctl lo lk R -> Controlled apics max ctl ->
  exists s', remapEntry e s = Ok s' /\ Stage s' ctl (remapLo max e lo) lk (remapR max e R).
Proof.
  intros Hmax [Hs Ha] HS HC. unfold remapEntry, remapLo, remapR, applies, MaxIrq.
  destruct (Z.leb_spec 64 (m_sourceIrq e)), (Z.ltb_spec (m_sourceIrq e) 64); try lia; cbn [orb andb]; [by exists s|].
  destruct (Z.leb_spec 64 (m_apicIrq e)); [destruct (Z.ltb_spec (m_apicIrq e) max); [lia | by exists s]|].
  unfold getData. rewrite (arr_get_Some _ _ _ (st_data _ _ _ _ _ HS (m_apicIrq e) ltac:(lia))). ostep. cbn [m_mmio].
  pose proof (controlled_mmio _ _ _ (m_apicIrq e) HC ltac:(lia)) as Hm.
  destruct (Z.eqb_spec (fst (ctl (m_apicIrq e))) nullptr) as [E|Hne], (Z.ltb_spec (m_apicIrq e) max); try (apply Hm in E; lia);
    [by exists s | | destruct Hne; apply Hm; lia].
  destruct (Stage_upd s ctl lo lk R (m_apicIrq e) (fun d => setLo (remapBits e (m_loCache d)) d) (ctl (m_apicIrq e))
    (remapBits e (lo (m_apicIrq e))) (lk (m_apicIrq e)) HS) as (s1 & -> & HS1 & _); [lia | done|]. ostep.
  assert (Stage s1 ctl (upd lo (m_apicIrq e) (remapBits e (lo (m_apicIrq e)))) lk R) as HS2.
  { eapply Stage_ext; [exact HS1|]. intros i Hi. unfold upd. destruct (Z.eqb_spec i (m_apicIrq e)) as [->|]; done. }
  clear HS1. set (lo2 := upd lo _ _) in *. destruct (Z.eqb_spec (m_apicIrq e) (m_sourceIrq e)) as [Eas|Nas]; cbn [negb]; ostep.
  - destruct (setRedirected_Stage _ _ _ _ _ (m_sourceIrq e) HS2) as (s' & -> & HS'); [lia|]. exists s'. split; [done|].
    destruct HS'. split; try done. intros i Hi. unfold upd. destruct (Z.eqb_spec i (m_sourceIrq e)) as [->|]; auto.
  - rewrite (arr_set_Some _ _ _ _ (st_remap _ _ _ _ _ HS2 (m_sourceIrq e) ltac:(lia))). ostep. set (s3 := setRemap _ s1).
    assert (Stage s3 ctl lo2 lk (upd R (m_sourceIrq e) (m_apicIrq e))) as HS3.
    { destruct HS2 as [? ? Hr Hl ? ? ?]. split; try done; cbn [s3 setRemap m_remapTable]; [|by rewrite length_insert].
      intros i Hi. unfold upd. destruct (Z.eqb_spec i (m_sourceIrq e)) as [->|Hni].
      - apply list_lookup_insert_eq. rewrite Hl. unfold idx. lia.
      - rewrite list_lookup_insert_ne by (intros E; apply idx_inj in E; lia). by apply Hr. }
    rewrite (arr_get_Some _ _ _ (st_data _ _ _ _ _ HS3 (m_sourceIrq e) ltac:(lia))). ostep. cbn [m_irqHandlers].
    destruct (Stage_upd s3 _ _ _ _ (m_apicIrq e) (setHandlers newKList) (ctl (m_apicIrq e)) (lo2 (m_apicIrq e)) (lk (m_apicIrq e)) HS3)
      as (s4 & -> & HS4 & _); [lia | done|]. ostep.
    destruct (Stage_upd s4 _ _ _ _ (m_sourceIrq e) (setHandlers newKList) (upd ctl (m_apicIrq e) (ctl (m_apicIrq e)) (m_sourceIrq e))
      (upd lo2 (m_apicIrq e) (lo2 (m_apicIrq e)) (m_sourceIrq e)) (upd lk (m_apicIrq e) (lk (m_apicIrq e)) (m_sourceIrq e)) HS4)
      as (s5 & -> & HS5 & _); [lia | done|]. ostep.
    destruct (setRedirected_Stage _ _ _ _ _ (m_sourceIrq e) HS5) as (s' & -> & HS'); [lia|]. exists s'. split; [done|].
    eapply Stage_ext; [exact HS'|]. intros i Hi. unfold upd.
    destruct (Z.eqb_spec i (m_sourceIrq e)) as [->|].
    + destruct (Z.eqb_spec (m_sourceIrq e) (m_apicIrq e)); [congruence|done].
    + destruct (Z.eqb_spec i (m_apicIrq e)) as [->|]; done.
Qed.

Lemma remapLoop_spec apics max ctl es : forall s lo lk R, max <= 64 -> Forall remap_ok es -> Stage s ctl lo lk R -> Controlled apics max ctl ->
  exists s', remapLoop es s = Ok s' /\ Stage s' ctl (remapsLo max es lo) lk (remapsR max es R).
Proof.
  induction es as [|e es IH]; intros s lo lk R Hmax He HS HC; cbn [remapLoop remapsLo remapsR foldl]; [by exists s|].
  apply Forall_cons_1 in He as [He Hes]. destruct (remapEntry_spec apics max e s ctl lo lk R Hmax He HS HC) as (s1 & -> & HS1). ostep.
  by apply IH.
Qed.

(** The word without the mask: vector, polarity and trigger mode. *)
Definition baseConfig (i : Z) : Z :=
  if MaxIsaIrq <=? i then Z.lor (CPU_IRQ0_VECTOR + i) (Z.lor IoApicActivLow IoApicLevelSv) else CPU_IRQ0_VECTOR + i.

Lemma loInit_base i : loInit i = Z.lor (baseConfig i) IoApicMaskIrq.
Proof. unfold loInit, baseConfig. destruct (MaxIsaIrq <=? i); [|done]. rewrite <- !Z.lor_assoc. f_equal. Qed.
Lemma remapBits_mask e c : remapBits e (Z.lor c IoApicMaskIrq) = Z.lor (remapBits e c) IoApicMaskIrq.
Proof.
  unfold remapBits. destruct (m_polarity e =? ActiveLow), (m_triggerMode e =? LevelTriggered); try done;
    rewrite <- ?Z.lor_assoc; f_equal; done.
Qed.
Lemma remapsLo_mask max es : forall lo c, (forall i, 0 <= i < max -> lo i = Z.lor (c i) IoApicMaskIrq) -> Forall remap_ok es ->
  forall i, 0 <= i < max -> remapsLo max es lo i = Z.lor (remapsLo max es c i) IoApicMaskIrq.
Proof.
  unfold remapsLo. induction es as [|e es IH]; intros lo c H He i Hi; cbn [foldl]; [by apply H|]. apply Forall_cons_1 in He as [He Hes].
  apply IH; [|done|done]. intros j Hj. unfold remapLo, applies. destruct (Z.ltb_spec (m_apicIrq e) max); rewrite ?andb_false_r; [|by apply H].
  rewrite andb_true_r. destruct (m_sourceIrq e <? 64); [|by apply H]. unfold upd. destruct (Z.eqb_spec j (m_apicIrq e)) as [->|]; [|by apply H].
  rewrite H by (destruct He; lia). apply remapBits_mask.
Qed.

Lemma remapsLo_above max es i : forall lo, max <= i -> remapsLo max es lo i = lo i.
Proof.
  unfold remapsLo. induction es as [|e es IH]; intros lo Hi; cbn [foldl]; [done|]. rewrite IH by done. unfold remapLo, applies.
  destruct (Z.ltb_spec (m_apicIrq e) max); rewrite ?andb_false_r; [|done]. rewrite andb_true_r. destruct (m_sourceIrq e <? 64); [|done].
  unfold upd. by destruct (Z.eqb_spec i (m_apicIrq e)); [lia|].
Qed.

Lemma cfgOk_lor c b : cfgOk c -> cfgOk b -> cfgOk (Z.lor c b).
Proof.
  intros [Hc H1] [Hb H2]. split; [|by rewrite Z.lor_spec, H1, H2].
  rewrite <- (Z.mod_small c (2 ^ 32)), <- (Z.mod_small b (2 ^ 32)), <- !Z.land_ones, <- Z.land_lor_distr_l, Z.land_ones by lia.
  by apply Z.mod_pos_bound.
Qed.
Lemma cfgOk_base i : 0 <= i < 64 -> cfgOk (baseConfig i).
Proof.
  intros Hi. assert (cfgOk (CPU_IRQ0_VECTOR + i)) as H.
  { unfold CPU_IRQ0_VECTOR. split; [lia|]. destruct (Z.eq_dec (176 + i) 0); [lia|]. apply Z.bits_above_log2; [lia|].
    apply Z.log2_lt_pow2; lia. }
  unfold baseConfig. destruct (MaxIsaIrq <=? i); [|done]. apply cfgOk_lor; [done|]. split; [vm_compute; split; congruence | done].
Qed.
Lemma cfgOk_remap e c : cfgOk c -> cfgOk (remapBits e c).
Proof.
  intros Hc. unfold remapBits. assert (cfgOk IoApicActivLow /\ cfgOk IoApicLevelSv) as [H1 H2].
  { split; (split; [vm_compute; split; congruence | done]). }
  destruct (m_polarity e =? ActiveLow), (m_triggerMode e =? LevelTriggered); try done; repeat apply cfgOk_lor; done.
Qed.
Lemma cfgOk_remaps max es : forall c, max <= 64 -> Forall remap_ok es -> (forall i, 0 <= i < 64 -> cfgOk (c i)) -> forall i, 0 <= i < 64 -> cfgOk (remapsLo max es c i).
Proof.
  unfold remapsLo. induction es as [|e es IH]; intros c Hm He Hc i Hi; cbn [foldl]; [by apply Hc|]. apply Forall_cons_1 in He as [He Hes].
  apply IH; [done|done| |done]. intros j Hj. unfold remapLo, applies. destruct (Z.ltb_spec (m_apicIrq e) max); rewrite ?andb_false_r; [|by apply Hc].
  rewrite andb_true_r. destruct (m_sourceIrq e <? 64); [|by apply Hc]. unfold upd. destruct (Z.eqb_spec j (m_apicIrq e)) as [->|]; [|by apply Hc].
  apply cfgOk_remap, Hc. destruct He; lia.
Qed.

(** ** Locking the lines *)

(** Remappings lead upwards, to lines that are not remapped themselves, and no two of
    them to the same line. *)
Record remapsOk (max : Z) (R : Z -> Z) : Prop := mkRemapsOk {
  ro_up : forall i, 0 <= i < 64 -> i <= R i < 64;
  ro_max : forall i, 0 <= i < max -> R i < max;
  ro_idem : forall i, 0 <= i < 64 -> R (R i) = R i;
  ro_one : forall i j, 0 <= i < j -> j < 64 -> R i = R j -> R j = j }.

Definition hit (R : Z -> Z) (j l : Z) : Prop := exists i, 0 <= i < j /\ R i = l.
Definition lkOk (s : ExternalInterrupts) (ctl : Z -> Z * Z) (lo lk R : Z -> Z) (j : Z) : Prop :=
  forall l, 0 <= l < 64 -> (lk l = 0 /\ ~ hit R j l) \/
    (lk l = 1 /\ hit R j l /\ ioReg (accesses s) (fst (ctl l)) (irqRegBase l (snd (ctl l))) = Some (lo l)).

Lemma controlled_regs apics max ctl i j : Controlled apics max ctl -> 0 <= i < 64 -> 0 <= j < 64 -> fst (ctl i) <> nullptr -> i <> j ->
  (fst (ctl i), irqRegBase i (snd (ctl i))) <> (fst (ctl j), irqRegBase j (snd (ctl j))).
Proof.
  intros HC Hi Hj Hn Hne [= E1 E2]. apply Hne. pose proof (HC i Hi) as Ci. pose proof (HC j Hj) as Cj.
  destruct (i <? max); [|rewrite Ci in Hn; done]. destruct Ci as (k & b & Hk & Ek & Ho).
  destruct (j <? max); [|rewrite Cj in E1; by rewrite Ek in E1; apply Hio in E1]. destruct Cj as (k' & b' & Hk' & Ek' & Ho').
  rewrite Ek, Ek' in E1. apply Hinj in E1 as <-. rewrite Hk in Hk'. injection Hk' as <- Eo. rewrite <- Eo in *.
  by apply (irqRegBase_inj i j (snd (ctl i))); [lia | lia | lia |].
Qed.

Lemma lockStep apics max s ctl lo lk R irq : max <= 64 -> 0 <= irq < max -> Stage s ctl lo lk R -> Controlled apics max ctl -> remapsOk max R ->
  (forall l, 0 <= l < max -> Z.lor (lo l) IoApicMaskIrq = lo l) -> lkOk s ctl lo lk R irq -> lk (R irq) = 0 ->
  exists s', lockIrq irq s = Ok s' /\ Stage s' ctl lo (upd lk (R irq) 1) R /\ lkOk s' ctl lo (upd lk (R irq) 1) R (irq + 1).
Proof.
  intros Hmax Hirq HS HC HR Hmask Hlk H0. pose proof (ro_up _ _ HR irq ltac:(lia)) as Hup. pose proof (ro_max _ _ HR irq ltac:(lia)) as Hrm.
  pose proof (st_data _ _ _ _ _ HS (R irq) ltac:(lia)) as Hd.
  assert (fst (ctl (R irq)) <> nullptr) as Hm by (intros E; apply (controlled_mmio _ _ _ _ HC) in E; lia).
  destruct (lockIrq_first s irq (R irq) _ ltac:(lia) ltac:(lia) (st_remap _ _ _ _ _ HS irq ltac:(lia)) Hd Hm H0)
    as (s' & E & [T1 T2 T3 T4 _ _ T7] & [_ Hids] & _ & Hreg). exists s'. split; [done|]. cbn [m_loCache setLo setLock m_mmio m_irqOffset] in *.
  rewrite Hmask in * by lia. split.
  - destruct HS as [S1 S2 S3 S4 S5 S6 S7]. split; rewrite ?T1, ?T2, ?T3, ?T4, ?Hids, ?length_insert; try done. intros i Hi. unfold upd.
    destruct (Z.eqb_spec i (R irq)) as [->|Hne].
    + rewrite list_lookup_insert_eq by (rewrite S2; unfold idx; lia). done.
    + rewrite list_lookup_insert_ne by (intros Ei; apply idx_inj in Ei; lia). by apply S1.
  - intros l Hl. unfold upd. destruct (Z.eqb_spec l (R irq)) as [->|Hne].
    + right. split; [done|]. split; [by exists irq; split; [lia|] | done].
    + destruct (Hlk l Hl) as [[Hl0 Hnh]|(Hl1 & Hh & Hr)]; [left|right]; split; try done.
      * intros (i & Hi & Ei). destruct (decide (i = irq)) as [->|]; [congruence|]. apply Hnh. exists i. split; [lia|done].
      * split; [destruct Hh as (i & Hi & Ei); exists i; split; [lia|done]|]. rewrite T7; [done|]. intros Ep. symmetry in Ep.
        by eapply (controlled_regs apics max ctl (R irq) l); [done | lia | done | done | congruence |].
Qed.

Lemma lockLines_spec apics max ctl lo R n : forall irq s lk, max <= 64 -> 0 <= irq -> irq + Z.of_nat n = max -> Stage s ctl lo lk R ->
  Controlled apics max ctl -> remapsOk max R -> (forall l, 0 <= l < max -> Z.lor (lo l) IoApicMaskIrq = lo l) -> lkOk s ctl lo lk R irq ->
  exists s' lk', lockLines n irq s = Ok s' /\ Stage s' ctl lo lk' R /\ lkOk s' ctl lo lk' R max.
Proof.
  induction n as [|n IH]; intros irq s lk Hmax Hirq Hn HS HC HR Hmask Hlk; cbn [lockLines].
  - replace max with irq by lia. by exists s, lk.
  - unfold getData. rewrite (arr_get_Some _ _ _ (st_data _ _ _ _ _ HS irq ltac:(lia))). ostep. cbn [m_lockCounter].
    pose proof (ro_up _ _ HR irq ltac:(lia)) as Hup.
    destruct (Hlk irq ltac:(lia)) as [[H0 Hnh]|(H1 & (i & Hi & Ei) & Hr)].
    + rewrite H0, Z.eqb_refl. assert (lk (R irq) = 0) as Hz.
      { destruct (Hlk (R irq) ltac:(lia)) as [[]|(H1 & (i & Hi & Ei) & _)]; [done|]. exfalso.
        pose proof (ro_one _ _ HR i irq Hi ltac:(lia) Ei) as Eq. rewrite Eq in Ei. apply Hnh. by exists i. }
      destruct (lockStep apics max s ctl lo lk R irq) as (s1 & -> & HS1 & Hlk1); try done; [lia|]. ostep.
      by apply (IH _ s1 (upd lk (R irq) 1)); [lia | lia | lia | ..].
    + rewrite H1. change (1 =? 0) with false. ostep. apply (IH _ s lk); try done; [lia | lia |].
      assert (R irq = irq) as Eir by (rewrite <- Ei; apply (ro_idem _ _ HR); lia).
      intros l Hl. destruct (Hlk l Hl) as [[Hl0 Hnl]|(Hl1 & (x & Hx & Ex) & Hrl)]; [left|right]; (split; [done|]).
      * intros (x & Hx & Ex). destruct (decide (x = irq)) as [->|]; [apply Hnl; exists i; split; [lia|congruence] | apply Hnl; exists x; split; [lia|done]].
      * split; [exists x; split; [lia|done] | done].
Qed.

(** ** The invariant after the set-up *)

Definition identity (i : Z) : Z := i.
Lemma remapsR_max max es : forall R, Forall remap_ok es -> (forall i, 0 <= i < max -> R i < max) -> forall i, 0 <= i < max -> remapsR max es R i < max.
Proof.
  unfold remapsR. induction es as [|e es IH]; intros R He H i Hi; cbn [foldl]; [by apply H|]. apply Forall_cons_1 in He as [He Hes].
  apply IH; [done| |done]. intros j Hj. unfold remapR, applies. destruct (Z.ltb_spec (m_apicIrq e) max); rewrite ?andb_false_r; [|by apply H].
  rewrite andb_true_r. destruct (m_sourceIrq e <? 64); [|by apply H]. unfold upd. destruct (Z.eqb_spec j (m_sourceIrq e)) as [->|]; [|by apply H].
  destruct (m_apicIrq e =? m_sourceIrq e); [by apply H|done].
Qed.

Lemma Stage_IInv apics max s ctl c lk R : max <= 64 -> Stage s ctl (fun i => if (0 <=? i) && (i <? max) then Z.lor (c i) IoApicMaskIrq else 0) lk R ->
  Controlled apics max ctl -> remapsOk max R -> lkOk s ctl (fun i => if (0 <=? i) && (i <? max) then Z.lor (c i) IoApicMaskIrq else 0) lk R max ->
  (forall i, 0 <= i < 64 -> cfgOk (c i)) -> IInv s c (fun _ => []).
Proof.
  intros Hmax HS HC HR Hlk Hc. pose proof HS as [S1 S2 S3 S4 S5 S6 _].
  assert (forall line, line ∈ m_remapTable s -> exists i, 0 <= i < 64 /\ R i = line) as Hin'.
  { intros line (i & Hi)%list_elem_of_lookup_1. assert (i < 64)%nat by (rewrite <- S4; by apply lookup_lt_Some in Hi).
    exists (Z.of_nat i). split; [lia|]. specialize (S3 (Z.of_nat i) ltac:(lia)). unfold idx in S3. rewrite Nat2Z.id, Hi in S3. by injection S3. }
  split; try done.
  - intros line Hl. destruct (Hin' line Hl) as (i & Hi & <-). pose proof (ro_up _ _ HR i Hi). lia.
  - intros i d Hi Hd. rewrite (S1 i Hi) in Hd. injection Hd as <-.
    assert (live s i (mkData (fst (ctl i)) (if (0 <=? i) && (i <? max) then Z.lor (c i) IoApicMaskIrq else 0) newKList 0 (snd (ctl i)) (lk i) 0) -> i < max /\ lk i = 1 /\
      ioReg (accesses s) (fst (ctl i)) (irqRegBase i (snd (ctl i))) = Some (if (0 <=? i) && (i <? max) then Z.lor (c i) IoApicMaskIrq else 0)) as Hlive.
    { intros [Hm Hr]. cbn in Hm. assert (i < max) as Him by (destruct (Z.lt_ge_cases i max); [done|]; destruct Hm; by apply (controlled_mmio _ _ _ _ HC)).
      split; [done|]. destruct (Hin' i Hr) as (k & Hk & Ek). pose proof (ro_up _ _ HR k Hk).
      destruct (Hlk i Hi) as [[_ Hnh]|(Hl1 & _ & Hreg)]; [|done]. destruct Hnh. exists k. split; [lia|done]. }
    destruct (Z.leb_spec 0 i); [|lia]. cbn [andb] in *.
    split; cbn [m_irqHandlers m_irqActiveCounter m_mmio m_irqOffset m_lockCounter m_loCache]; try done.
    + apply newKList_LInv.
    + intros Hm. specialize (HC i Hi). destruct (Z.ltb_spec i max); [destruct HC as (_ & _ & _ & _ & Ho); lia | by rewrite HC in Hm].
    + intros Hv. by apply Hlive in Hv as (_ & -> & _).
    + intros Hv. apply Hlive in Hv as (Him & _ & _). rewrite decide_True by done. by destruct (Z.ltb_spec i max); [|lia].
    + intros Hv. by apply Hlive in Hv as (_ & _ & ->).
  - intros i j d e Hd He Em Hn. assert (i < 64 /\ j < 64)%nat as [Hi Hj] by (apply lookup_lt_Some in Hd, He; lia).
    pose proof (S1 (Z.of_nat i) ltac:(lia)) as Di. pose proof (S1 (Z.of_nat j) ltac:(lia)) as Dj. unfold idx in *. rewrite Nat2Z.id in Di, Dj.
    rewrite Di in Hd. rewrite Dj in He. injection Hd as <-. injection He as <-. cbn in *.
    pose proof (HC (Z.of_nat i) ltac:(lia)) as Ci. pose proof (HC (Z.of_nat j) ltac:(lia)) as Cj.
    destruct (Z.of_nat i <? max); [|by rewrite Ci in Hn]. destruct Ci as (k & b & Hk & Ek & _).
    destruct (Z.of_nat j <? max); [|rewrite Cj in Em; by rewrite Ek in Em; apply Hio in Em]. destruct Cj as (k' & b' & Hk' & Ek' & _).
    rewrite Ek, Ek' in Em. apply Hinj in Em as <-. rewrite Hk in Hk'. by injection Hk'.
  - intros i id Hid. by apply not_elem_of_nil in Hid.
  - rewrite S6. lia.
Qed.
End Stages.

(** What the firmware has to describe: controllers without gaps for 24 lines at least,
    and remappings that do not collide. *)
Record firmOk (t : AcpiTables) : Prop := mkFirmOk {
  fo_some : m_ioApics t <> [];
  fo_gaps : gapFree 0 (m_ioApics t) 0;
  fo_max : 24 <= firmMax 0 (m_ioApics t) 0;
  fo_remaps : Forall remap_ok (m_isaRemapping t);
  fo_up : let R := remapsR (firmMax 0 (m_ioApics t) 0) (m_isaRemapping t) identity in
    forall i, 0 <= i < 64 -> i <= R i < 64 /\ R (R i) = R i /\ forall j, i < j < 64 -> R i = R j -> R j = j }.

(** The line of an interrupt number, and the configuration of a line. *)
Definition firmLine (t : AcpiTables) : Z -> Z := remapsR (firmMax 0 (m_ioApics t) 0) (m_isaRemapping t) identity.
Definition firmConfig (t : AcpiTables) : Z -> Z := remapsLo (firmMax 0 (m_ioApics t) 0) (m_isaRemapping t) baseConfig.

Lemma firmOk_remaps t : firmOk t -> remapsOk (firmMax 0 (m_ioApics t) 0) (firmLine t).
Proof.
  intros [_ _ _ He H]. cbn zeta in H. split.
  - intros i Hi. by apply H.
  - intros i Hi. apply remapsR_max; [done | | done]. intros j Hj. unfold identity. lia.
  - intros i Hi. by apply H.
  - intros i j Hi Hj. by apply H; lia.
Qed.

Lemma seq_lookup_idx i : 0 <= i < 64 -> (Z.of_nat <$> seq 0 64) !! idx i = Some i.
Proof. intros Hi. rewrite list_lookup_fmap, lookup_seq_lt by (unfold idx; lia). cbn. f_equal. unfold idx. lia. Qed.

Lemma createInterrupts_spec t idt : firmOk t -> length idt = 256%nat ->
  exists s, createInterrupts in32 io SystemHandlerIRQ t idt = Ok s /\ IInv s (firmConfig t) (fun _ => []) /\
    (forall i, 0 <= i < 64 -> lineOf s i = firmLine t i /\
      gateAddr <$> g_idt s !! idx (CPU_IRQ0_VECTOR + i) = Some (SystemHandlerIRQ i)).
Proof.
  intros Ht Hl. pose proof Ht as [Hsome Hgap Hmax Hrem _]. unfold createInterrupts, setupVectors.
  destruct (setupFrom_spec 64 0 (mkInts (replicate 64 initialData) (Z.of_nat <$> seq 0 64) (replicate 64 false) 0 ∅ idt []))
    as (idt' & -> & Hl' & Hg & _); [lia | lia | done|]. ostep.
  set (s0 := setIdt idt' _). assert (Stage idt' s0 (fun _ => (nullptr, 0)) (fun _ => 0) (fun _ => 0) identity) as HS0.
  { split; try done; cbn [s0 setIdt m_data m_remapTable].
    - intros i Hi. rewrite lookup_replicate_2 by (unfold idx; lia). done.
    - intros i Hi. by apply seq_lookup_idx. }
  assert (Controlled [] 0 (fun _ => (nullptr, 0))) as HC0 by (intros i Hi; by destruct (Z.ltb_spec i 0); [lia|]).
  destruct (apicsLoop_spec idt' (m_ioApics t) [] 0 s0 _ _ _ _ ltac:(lia) HS0 HC0 Hgap) as (s1 & ctl & E1 & HS1 & HC1 & Hm64).
  cbn [length app] in *. set (max := firmMax 0 (m_ioApics t) 0) in *. unfold initIoApic. destruct (m_ioApics t) as [|a0 rest] eqn:Ea; [done|].
  rewrite E1. ostep. destruct (Z.ltb_spec max 24); [lia|].
  destruct (setupLines_spec idt' (Z.to_nat max) _ max 0 s1 _ _ _ _ ltac:(lia) ltac:(lia) Hm64 HS1 HC1) as (s2 & -> & HS2). ostep.
  rewrite Z2Nat.id, Z.add_0_l in HS2 by lia. unfold disablePic.
  do 4 match goal with HS : Stage _ ?s _ _ _ _ |- context [addAccess ?a ?s] => apply (Stage_access idt' s a) in HS end.
  destruct (remapLoop_spec idt' _ max ctl (m_isaRemapping t) _ _ _ _ Hm64 Hrem HS2 HC1) as (s3 & -> & HS3). ostep.
  assert (Stage idt' s3 ctl (fun i => if (0 <=? i) && (i <? max) then Z.lor (firmConfig t i) IoApicMaskIrq else 0) (fun _ => 0) (firmLine t)) as HS4.
  { unfold firmLine, firmConfig. rewrite Ea. fold max. eapply Stage_ext; [exact HS3|]. intros i Hi. split_and!; try done.
    destruct (Z.leb_spec 0 i); [|lia]. cbn [andb]. destruct (Z.ltb_spec i max).
    - symmetry. apply remapsLo_mask; [|done|lia]. intros j Hj. destruct (Z.leb_spec 0 j), (Z.ltb_spec j max); try lia. apply loInit_base.
    - rewrite remapsLo_above by done. by destruct (Z.leb_spec 0 i), (Z.ltb_spec i max); try lia. }
  pose proof (firmOk_remaps t Ht) as HR. rewrite Ea in HR. fold max in HR.
  destruct (lockLines_spec idt' _ max ctl _ (firmLine t) (Z.to_nat max) 0 s3 _ Hm64 ltac:(lia) ltac:(lia) HS4 HC1 HR) as (s4 & lk & -> & HS5 & Hlk).
  { intros l Hl0. destruct (Z.leb_spec 0 l), (Z.ltb_spec l max); try lia. cbn [andb]. by rewrite <- Z.lor_assoc, Z.lor_diag. }
  { intros l Hl0. left. split; [done|]. intros (x & Hx & _). lia. }
  ostep. eexists. split; [done|].
  assert (IInv s4 (firmConfig t) (fun _ => [])) as HI.
  { eapply Stage_IInv; [exact Hm64 | exact HS5 | exact HC1 | exact HR | exact Hlk |]. intros i Hi. unfold firmConfig. rewrite Ea. fold max.
    apply cfgOk_remaps; [done | done | | done]. apply cfgOk_base. }
  split; [by eapply IInv_same; [exact HI | .. | intros; apply ioReg_other]|].
  intros i Hi. split; [unfold lineOf; cbn [addAccess m_remapTable]; by rewrite (st_remap _ _ _ _ _ _ HS5 i Hi)|].
  cbn [addAccess g_idt]. rewrite (st_idt _ _ _ _ _ _ HS5). apply Hg. lia.
Qed.

(** ** The claim *)

Context (sz : Z) (Hsz : 0 < sz).
Context (call : Z -> Z -> ExternalInterrupts -> outcome (bool * ExternalInterrupts)) (Hcall : polite call).

Inductive IOp : Type :=
  | IInstall (ar : Area) (irq proc obj : Z)
  | IDelete (irq id : Z)
  | IArrives (line : Z).

Definition irun (op : IOp) (s : ExternalInterrupts) : outcome (Z * ExternalInterrupts) :=
  match op with
  | IInstall ar irq proc obj => installHandler sz ar irq proc obj s
  | IDelete irq id => '(b, s) ← deleteHandler irq id s; Ok (Z.b2z b, s)
  | IArrives line => s ← allIrqHandler call line s; Ok (0, s)
  end.

(** The number leads to a line with a controller. *)
Definition hasLine (s : ExternalInterrupts) (irq : Z) : bool := (irq <? 64) && negb (m_mmio (dataOf s (lineOf s irq)) =? nullptr).

(** The result, and the handlers of the lines afterwards. *)
Definition ispec (op : IOp) (s : ExternalInterrupts) (L : Z -> list Z) : Z * (Z -> list Z) :=
  match op with
  | IInstall _ irq _ _ =>
      if hasLine s irq then (idCointer s + 1, fun i => if i =? lineOf s irq then L (lineOf s irq) ++ [idCointer s + 1] else L i) else (0, L)
  | IDelete irq id =>
      let r := specRun (ORemove id) (L (lineOf s irq)) in
      if hasLine s irq then (Z.b2z (fst r), fun i => if i =? lineOf s irq then snd r else L i) else (0, L)
  | IArrives _ => (0, L)
  end.

(** The calls for which the source does what it means to do.  Ids are not used up and
    memory is new.  Two kinds of deletion that the source accepts are left out, because
    they damage the line: one from a line that has no handler locks it once more, so that
    the next handler does not open it ([Demo.delete_twice_masks]); and one of the last
    handler while the list's back link is stale leaves a list that swallows the next
    handler ([Demo.third_handler_lost]). *)
Definition iallowed (op : IOp) (s : ExternalInterrupts) (L : Z -> list Z) : Prop :=
  match op with
  | IInstall ar irq _ _ => 0 <= irq /\ idCointer s < 2 ^ 32 - 1 /\
      let l := m_irqHandlers (dataOf s (lineOf s irq)) in m_free_list l = nullptr -> freshArea sz ar l
  | IDelete irq _ => 0 <= irq /\ (hasLine s irq = true -> L (lineOf s irq) <> [] /\
      let l := m_irqHandlers (dataOf s (lineOf s irq)) in
      length (L (lineOf s irq)) = 1%nat -> prev <$> nodes l !! m_begin_item l = Some nullptr)
  | IArrives line => 0 <= line < 64
  end.

(** An arriving interrupt calls the line's handlers in order up to the first that claims
    it, and the end of interrupt is sent, once if no handler has sent it. *)
Definition arrived (op : IOp) (s : ExternalInterrupts) (L : Z -> list Z) (s' : ExternalInterrupts) : Prop :=
  match op with
  | IInstall _ irq proc obj => hasLine s irq = true -> m_entries s' !! (idCointer s + 1) = Some (proc, obj)
  | IDelete _ _ => m_entries s' = m_entries s
  | IArrives line => exists s2, specCalls call (entriesOf s (L line)) (entered line s) = Ok s2 /\
      (eois s < eois s')%nat /\ (eois s2 = eois s -> eois s' = S (eois s))
  end.

(** C33.  Device interrupts.  From tables that describe controllers without gaps and
    remappings that do not collide, the set-up returns: vector 0xB0 + i enters the code of
    line i, the remapping is the one described, and every line a driver can reach is
    masked.  From then on, in any order of installing, deleting and arriving interrupts
    in which nothing is deleted from a line that has no handler and no line's last handler
    is deleted while the back link of its list is stale ([iallowed]; the source accepts
    both and then breaks the line, [Demo.delete_twice_masks], [Demo.third_handler_lost]):
    every operation returns with the specified result; a line's handlers are the
    installed and not deleted ones in order of installation; the word last written to
    the line's register of its controller holds its vector, polarity and trigger mode, and the
    line is masked in it exactly when it has no handler; and an interrupt calls the
    handlers in order up to the first that claims it and is acknowledged. *)
Theorem device_interrupts (t : AcpiTables) (idt : list InterruptGate) : firmOk t -> length idt = 256%nat ->
  (exists s, createInterrupts in32 io SystemHandlerIRQ t idt = Ok s /\ IInv s (firmConfig t) (fun _ => []) /\
    forall i, 0 <= i < 64 -> lineOf s i = firmLine t i /\
      gateAddr <$> g_idt s !! idx (CPU_IRQ0_VECTOR + i) = Some (SystemHandlerIRQ i)) /\
  (forall s L op, IInv s (firmConfig t) L -> iallowed op s L ->
    exists s', irun op s = Ok (fst (ispec op s L), s') /\ IInv s' (firmConfig t) (snd (ispec op s L)) /\ arrived op s L s').
Proof.
  intros Ht Hl. split; [by apply createInterrupts_spec|]. intros s L op HI Ha.
  destruct op as [ar irq proc obj|irq id|line]; cbn [irun ispec iallowed arrived] in *.
  - destruct Ha as (Hirq & Hid & Hfr). unfold hasLine. destruct (Z.ltb_spec irq 64); cbn [andb].
    + destruct (Z.eqb_spec (m_mmio (dataOf s (lineOf s irq))) nullptr) as [E|Hm]; cbn [negb].
      * rewrite (installHandler_none sz s (firmConfig t) L) by (done || by right). by exists s.
      * destruct (installHandler_spec sz Hsz s (firmConfig t) L ar irq proc obj) as (s' & -> & HI' & He & _); try done; try lia.
        exists s'. split; [done|]. split; [done|]. intros _. rewrite He. apply lookup_insert_eq.
    + rewrite (installHandler_none sz s (firmConfig t) L) by (done || by left). by exists s.
  - destruct Ha as (Hirq & Hal). unfold hasLine in *. destruct (Z.ltb_spec irq 64); cbn [andb] in *.
    + destruct (Z.eqb_spec (m_mmio (dataOf s (lineOf s irq))) nullptr) as [E|Hm]; cbn [negb] in *.
      * rewrite (deleteHandler_none s (firmConfig t) L) by (done || by right). by exists s.
      * destruct (Hal eq_refl) as [Hne Hpr]. destruct (deleteHandler_spec sz Hsz s (firmConfig t) L irq id) as (s' & -> & HI' & He & _); try done; try lia.
        ostep. by exists s'.
    + rewrite (deleteHandler_none s (firmConfig t) L) by (done || by left). by exists s.
  - destruct (allIrqHandler_spec call s (firmConfig t) L line HI Hcall Ha) as (s2 & s' & E2 & -> & HI' & Hlt & Heq). ostep.
    exists s'. split; [done|]. split; [done|]. by exists s2.
Qed.
End Init.

(** ** A machine *)

Module Demo.

Definition in32 (log : list Access) (mmio reg : Z) : Z := Z.shiftl 23 16.
Definition io (k : nat) (b : Z) : Z := 0x1000 + Z.of_nat k.
Definition entryPoint (irq : Z) : Z := (0x100000 + irq) mod 2 ^ 64.
(** One controller of 24 lines; the timer's number 0 is line 2, and 9 is level triggered. *)
Definition tables : AcpiTables := mkTables [] [0] [(0xFEC00000, 0)] [mkRemap 0 2 0 0; mkRemap 9 9 1 3] [] 0xFED00000.
Definition idt : list InterruptGate := replicate 256 (mkGate 0 0 0 0 0 0 0).
Definition start : ExternalInterrupts :=
  match createInterrupts in32 io entryPoint tables idt with Ok s => s | _ => mkInts [] [] [] 0 ∅ [] [] end.

(** A handler claims the interrupt if its object is not null. *)
Definition call (proc obj : Z) (s : ExternalInterrupts) : outcome (bool * ExternalInterrupts) := Ok (negb (obj =? 0), s).
Definition area : Area := mkArea 0x8000 (fun _ => mkNode 0 0 0).

Lemma polite_call : polite call.
Proof. intros proc obj s. eexists _, s. split; [done|]. by left. Qed.

Lemma tables_ok : firmOk io (fun _ => Z.shiftl 23 16) tables.
Proof.
  split.
  - done.
  - cbn. unfold io, numIrqs. vm_compute. repeat split; congruence.
  - vm_compute. congruence.
  - repeat constructor; cbn; lia.
  - change (firmMax io (fun _ => Z.shiftl 23 16) 0 (m_ioApics tables) 0) with 24. intros R i Hi.
    assert (forall j, R j = if j =? 0 then 2 else j) as ER.
    { intros j. unfold R, remapsR, remapR, upd, identity. cbn. destruct (Z.eqb_spec j 9) as [->|]; [done|]. by destruct (Z.eqb_spec j 0) as [->|]. }
    rewrite !ER. destruct (Z.eqb_spec i 0); [|destruct (Z.eqb_spec i 0); [lia|]]; (split; [lia|]); (split; [done|]);
      intros j Hj; rewrite ER; destruct (Z.eqb_spec j 0); lia.
Qed.

(** The machine starts; a driver installs a handler for the timer, on line 2. *)
Lemma device_interrupts_witness :
  createInterrupts in32 io entryPoint tables idt = Ok start /\
  (forall op, iallowed 24 op start (fun _ => []) -> exists s', irun 24 call op start = Ok (fst (ispec op start (fun _ => [])), s')) /\
  iallowed 24 (IInstall area 0 7 1) start (fun _ => []) /\ lineOf start 0 = 2.
Proof.
  destruct (device_interrupts in32 io entryPoint (fun _ => Z.shiftl 23 16)) with (sz := 24) (call := call) (t := tables) (idt := idt)
    as [(s & E & HI & Hg) Hop].
  - done.
  - intros k b. unfold io, nullptr. lia.
  - intros k k' b b'. unfold io. lia.
  - intros irq. unfold entryPoint, word64. apply Z.mod_pos_bound. lia.
  - lia.
  - exact polite_call.
  - exact tables_ok.
  - done.
  - assert (start = s) as Es by (unfold start; by rewrite E). rewrite Es. split; [exact E|]. split.
    + intros op Ha. destruct (Hop s (fun _ => []) op HI Ha) as (s' & E' & _). by exists s'.
    + rewrite <- Es. split; [|vm_compute; reflexivity]. split; [lia|]. split; [vm_compute; reflexivity|].
      cbn zeta. intros _. split; [vm_compute; reflexivity|]. intros q _. vm_compute. reflexivity.
Defined.

(** ** What goes wrong outside the claim's conditions *)

Fixpoint iruns (ops : list IOp) (s : ExternalInterrupts) : outcome ExternalInterrupts :=
  match ops with
  | [] => Ok s
  | op :: ops => '(_, s) ← irun 24 call op s; iruns ops s
  end.
(** The lock counter of a line, and whether the mask bit was last written to its register. *)
Definition masked (i : Z) (s : ExternalInterrupts) : Z * option bool :=
  (m_lockCounter (dataOf s i), (fun v => Z.testbit v 16) <$> ioReg (accesses s) (m_mmio (dataOf s i)) (irqRegBase i (m_irqOffset (dataOf s i)))).
Definition after (s : outcome ExternalInterrupts) (ops : list IOp) (i : Z) : outcome (Z * option bool) :=
  s ← s; s ← iruns ops s; Ok (masked i s).

(** One handler: the line is open.  Deleting an id twice locks the line twice, and the
    next handler does not open it. *)
Example delete_twice_masks :
  after (Ok start) [IInstall area 4 7 1] 4 = Ok (0, Some false) /\
  after (Ok start) [IInstall area 4 7 1; IDelete 4 1; IDelete 4 1; IInstall area 4 7 1] 4 = Ok (1, Some true).
Proof. split; vm_compute; reflexivity. Qed.

(** A remapping to a lower line locks that line twice. *)
Definition downward : AcpiTables := mkTables [] [0] [(0xFEC00000, 0)] [mkRemap 9 5 0 0] [] 0xFED00000.
Example downward_remap_masks :
  after (createInterrupts in32 io entryPoint downward idt) [IInstall area 9 7 1] 5 = Ok (1, Some true).
Proof. vm_compute. reflexivity. Qed.

(** A gap between two controllers: the loop that locks the lines uses a null resource. *)
Definition gap : AcpiTables := mkTables [] [0] [(0xFEC00000, 0); (0xFEC01000, 32)] [] [] 0xFED00000.
Example gap_faults : createInterrupts in32 io entryPoint gap idt = Fault.
Proof. vm_compute. reflexivity. Qed.

(** A device does not record its interrupt number: removing its handler leaves it
    installed, whatever number the device holds instead, unless it is the right one. *)
Definition removed (garbage : Z) : outcome bool :=
  '(_, dev, s) ← installInterruptHandler 24 area 4 7 1 (mkDevice garbage 0) start;
  '(_, s) ← removeInterruptHandler dev s;
  Ok (KList.empty (m_irqHandlers (dataOf s 4))).
Example device_handler_stays : removed 4 = Ok true /\ removed 5 = Ok false /\ removed 0xCCCCCCCC = Ok false.
Proof. split_and!; vm_compute; reflexivity. Qed.

(** Two handlers deleted in order of installation, and a third installed: the list stays
    empty ([KList.Demo.erase_last_stale]), the line is open, and nobody is called. *)
Example third_handler_lost :
  let ops := [IInstall area 4 7 1; IInstall area 4 8 1; IDelete 4 1; IDelete 4 2; IInstall area 4 9 1] in
  after (Ok start) ops 4 = Ok (0, Some false) /\
  (s ← iruns ops start; Ok (KList.empty (m_irqHandlers (dataOf s 4)))) = Ok true.
Proof. split; vm_compute; reflexivity. Qed.
End Demo.
