(* ===== verification/KMap.v ===== *)
(** * The hash map (include/kunordered_map.h, include/ContainerAllocator.h)

    [kunordered_map] keeps its nodes in buckets, chained by [m_next], and all of them in a
    doubly linked list ([m_ext]) for iteration, newest first; free nodes are chained by
    [m_next] too.  Nodes live in a store, an iterator is the address of a node, the end is
    null.  The keys, the values and the hash are parameters; [operator new[]] gives the
    address of a new chunk and the old contents of its nodes.  Constructors and destructors
    of keys and values are not modelled. *)

From S2P Require Import Prelude.

Record MNode {K V : Type} : Type := mkMNode { m_first : K; m_second : V; m_prev : Z; m_ext_next : Z; m_next : Z }.
Arguments MNode : clear implicits.

Record KMap {K V : Type} : Type := mkKMap {
  m_nodes : gmap Z (MNode K V);
  m_tableSize : Z;
  m_rehashSize : Z;
  m_table : list Z;
  m_begin : Z;
  m_currentChunkSize : Z;
  m_freeList : Z;
  m_size : Z }.
Arguments KMap : clear implicits.

Definition m_maxChunkSize : Z := 0x100000.

(** [khash<kstring>]: [char] is signed. *)
Definition khashStep (h c : Z) : Z :=
  let h := Z.lxor h (u64 c) in
  let h := u64 (h * 0x5bd1e9955bd1e995) in
  Z.lxor h (Z.shiftr h 47).
Definition khashString (str : list Z) : Z := foldl khashStep 525201411107845655 str.
(** [khash] of the integer types and of pointers. *)
Definition khashInt (value : Z) : Z := u64 value.

Section KMap.
Context {K V : Type} `{EqDecision K}.
Context (m_hash : K -> Z).
(** [sizeof(Node)] *)
Context (sz : Z).

Record Chunk : Type := mkChunk { ch_ptr : Z; ch_junk : Z -> MNode K V }.

Definition setNodes (m : gmap Z (MNode K V)) (s : KMap K V) : KMap K V :=
  mkKMap _ _ m (m_tableSize s) (m_rehashSize s) (m_table s) (m_begin s) (m_currentChunkSize s) (m_freeList s) (m_size s).
Definition setTable (t : list Z) (s : KMap K V) : KMap K V :=
  mkKMap _ _ (m_nodes s) (m_tableSize s) (m_rehashSize s) t (m_begin s) (m_currentChunkSize s) (m_freeList s) (m_size s).
Definition setSizes (t r : Z) (s : KMap K V) : KMap K V :=
  mkKMap _ _ (m_nodes s) t r (m_table s) (m_begin s) (m_currentChunkSize s) (m_freeList s) (m_size s).
Definition setBegin (p : Z) (s : KMap K V) : KMap K V :=
  mkKMap _ _ (m_nodes s) (m_tableSize s) (m_rehashSize s) (m_table s) p (m_currentChunkSize s) (m_freeList s) (m_size s).
Definition setAlloc (c f n : Z) (s : KMap K V) : KMap K V :=
  mkKMap _ _ (m_nodes s) (m_tableSize s) (m_rehashSize s) (m_table s) (m_begin s) c f n.

Definition setNext (p : Z) (n : MNode K V) : MNode K V := mkMNode _ _ (m_first n) (m_second n) (m_prev n) (m_ext_next n) p.
Definition setPrev (p : Z) (n : MNode K V) : MNode K V := mkMNode _ _ (m_first n) (m_second n) p (m_ext_next n) (m_next n).
Definition setExtNext (p : Z) (n : MNode K V) : MNode K V := mkMNode _ _ (m_first n) (m_second n) (m_prev n) p (m_next n).
Definition setSecond (v : V) (n : MNode K V) : MNode K V := mkMNode _ _ (m_first n) v (m_prev n) (m_ext_next n) (m_next n).

Definition getNode (p : Z) (s : KMap K V) : outcome (MNode K V) := deref (m_nodes s) p.
Definition updNode (p : Z) (f : MNode K V -> MNode K V) (s : KMap K V) : outcome (KMap K V) :=
  nd ← deref (m_nodes s) p; Ok (setNodes (<[p := f nd]> (m_nodes s)) s).

(** ** The allocator *)

(** The nodes of a new chunk, linked: [m_freeList[i - 1].m_next = &m_freeList[i]], the last to null. *)
Fixpoint chunkNodes (n : nat) (it : Z) (junk : Z -> MNode K V) (m : gmap Z (MNode K V)) : gmap Z (MNode K V) :=
  match n with
  | O => m
  | S n => <[it := setNext (match n with O => nullptr | S _ => it + sz end) (junk it)]> (chunkNodes n (it + sz) junk m)
  end.

(** The chunk [add] gets when no node is free. *)
Definition grow (ch : Chunk) (s : KMap K V) : KMap K V :=
  if m_freeList s =? nullptr then
    let s := setNodes (chunkNodes (Z.to_nat (m_currentChunkSize s)) (ch_ptr ch) (ch_junk ch) (m_nodes s)) s in
    setAlloc (if m_currentChunkSize s <? m_maxChunkSize then m_currentChunkSize s * 2 else m_currentChunkSize s) (ch_ptr ch) (m_size s) s
  else s.
Definition add (ch : Chunk) (s : KMap K V) : outcome (Z * KMap K V) :=
  let s := grow ch s in
  let ret := m_freeList s in
  nd ← getNode ret s;
  Ok (ret, setAlloc (m_currentChunkSize s) (m_next nd) (u64 (m_size s + 1)) s).

Definition remove (node : Z) (s : KMap K V) : outcome (KMap K V) :=
  s ← updNode node (setNext (m_freeList s)) s;
  Ok (setAlloc (m_currentChunkSize s) node (u64 (m_size s - 1)) s).

(** ** The map *)

Definition tableInit (size : Z) : list Z := replicate (Z.to_nat size) nullptr.
Definition newMap : KMap K V := mkKMap _ _ ∅ 16 8 (tableInit 16) nullptr 0x10 nullptr 0.

Definition hashOf (key : K) (s : KMap K V) : nat := Z.to_nat (m_hash key mod m_tableSize s).

(** The loop over the chain of a bucket from [node] on. *)
Fixpoint findLoop (fuel : nat) (key : K) (node : Z) (s : KMap K V) : outcome Z :=
  if node =? nullptr then Ok nullptr
  else
    match fuel with
    | O => NoFuel
    | S fuel =>
        nd ← getNode node s;
        if decide (m_first nd = key) then Ok node else findLoop fuel key (m_next nd) s
    end.
Definition find (key : K) (s : KMap K V) : outcome Z :=
  h ← arr_get (m_table s) (hashOf key s); findLoop (size (m_nodes s)) key h s.

(** [rehash] follows [m_next] from [m_begin]. *)
Fixpoint rehashLoop (fuel : nat) (node : Z) (table : list Z) (s : KMap K V) : outcome (list Z) :=
  if node =? nullptr then Ok table
  else
    match fuel with
    | O => NoFuel
    | S fuel =>
        nd ← getNode node s;
        table ← arr_set table (hashOf (m_first nd) s) node;
        rehashLoop fuel (m_next nd) table s
    end.
Definition rehash (s : KMap K V) : outcome (KMap K V) :=
  table ← rehashLoop (size (m_nodes s)) (m_begin s) (tableInit (m_tableSize s)) s;
  Ok (setTable table s).

(** The bucket is computed before [rehash]. *)
Definition emplace (ch : Chunk) (key : K) (value : V) (s : KMap K V) : outcome (Z * bool * KMap K V) :=
  let hash := hashOf key s in
  h ← arr_get (m_table s) hash;
  curNode ← findLoop (size (m_nodes s)) key h s;
  if negb (curNode =? nullptr) then
    s ← updNode curNode (setSecond value) s;
    Ok (curNode, false, s)
  else
    s ← (if m_rehashSize s <=? m_size s then rehash (setSizes (u64 (m_tableSize s * 2)) (m_tableSize s) s) else Ok s);
    '(newNode, s) ← add ch s;
    h ← arr_get (m_table s) hash;
    s ← updNode newNode (fun n => mkMNode _ _ key value nullptr (m_begin s) h) s;
    t ← arr_set (m_table s) hash newNode;
    let s := setTable t s in
    s ← (if negb (m_begin s =? nullptr) then updNode (m_begin s) (setPrev newNode) s else Ok s);
    Ok (newNode, true, setBegin newNode s).

(** [operator[]]: [dflt] is [T()]. *)
Definition index (ch : Chunk) (dflt : V) (key : K) (s : KMap K V) : outcome (Z * KMap K V) :=
  it ← find key s;
  if negb (it =? nullptr) then Ok (it, s)
  else '(it, _, s) ← emplace ch key dflt s; Ok (it, s).

Definition removeFromExtList (node : Z) (s : KMap K V) : outcome (KMap K V) :=
  if node =? m_begin s then
    nd ← getNode node s;
    let s := setBegin (m_ext_next nd) s in
    updNode (m_begin s) (setPrev nullptr) s
  else
    nd ← getNode node s;
    s ← updNode (m_prev nd) (setExtNext (m_ext_next nd)) s;
    updNode (m_ext_next nd) (setPrev (m_prev nd)) s.

(** The loop of [erase(iterator)] from [node] on, after [oldNode]. *)
Fixpoint unlinkLoop (fuel : nat) (it oldNode node : Z) (s : KMap K V) : outcome (KMap K V) :=
  if node =? nullptr then Ok s
  else
    match fuel with
    | O => NoFuel
    | S fuel =>
        nd ← getNode node s;
        if node =? it then updNode oldNode (setNext (m_next nd)) s
        else unlinkLoop fuel it node (m_next nd) s
    end.
(** The key of the erased pair is read after its destructor: it is still there for integers. *)
Definition eraseIt (it : Z) (s : KMap K V) : outcome (Z * KMap K V) :=
  nd ← getNode it s;
  let ret := m_ext_next nd in
  s ← removeFromExtList it s;
  let h := hashOf (m_first nd) s in
  firstNode ← arr_get (m_table s) h;
  s ← (if firstNode =? it then t ← arr_set (m_table s) h nullptr; Ok (setTable t s)
       else fn ← getNode firstNode s; unlinkLoop (size (m_nodes s)) it firstNode (m_next fn) s);
  s ← remove it s;
  Ok (ret, s).

(** The loop of [erase(key)]. *)
Fixpoint eraseLoop (fuel : nat) (key : K) (h : nat) (oldNode node : Z) (s : KMap K V) : outcome (Z * KMap K V) :=
  if node =? nullptr then Ok (0, s)
  else
    match fuel with
    | O => NoFuel
    | S fuel =>
        nd ← getNode node s;
        if decide (m_first nd = key) then
          s ← removeFromExtList node s;
          s ← (if oldNode =? nullptr then t ← arr_set (m_table s) h nullptr; Ok (setTable t s)
               else updNode oldNode (setNext (m_next nd)) s);
          s ← remove node s;
          Ok (1, s)
        else eraseLoop fuel key h node (m_next nd) s
    end.
Definition eraseKey (key : K) (s : KMap K V) : outcome (Z * KMap K V) :=
  let h := hashOf key s in
  firstNode ← arr_get (m_table s) h;
  eraseLoop (size (m_nodes s)) key h nullptr firstNode s.

(** The constructor from a list; [chs] are the chunks the calls may need. *)
Fixpoint emplaceAll (chs : nat -> Chunk) (i : nat) (lst : list (K * V)) (s : KMap K V) : outcome (KMap K V) :=
  match lst with
  | [] => Ok s
  | (k, v) :: lst => '(_, _, s) ← emplace (chs i) k v s; emplaceAll chs (S i) lst s
  end.
Definition fromList (chs : nat -> Chunk) (lst : list (K * V)) : outcome (KMap K V) :=
  let t := (Z.of_nat (length lst) + 1) * 2 in
  emplaceAll chs 0 lst (mkKMap _ _ ∅ t (t / 2) (tableInit t) nullptr 0x10 nullptr 0).

(** Iteration from [node] on. *)
Fixpoint iterate (fuel : nat) (node : Z) (s : KMap K V) : outcome (list (K * V)) :=
  if node =? nullptr then Ok []
  else
    match fuel with
    | O => NoFuel
    | S fuel => nd ← getNode node s; l ← iterate fuel (m_ext_next nd) s; Ok ((m_first nd, m_second nd) :: l)
    end.
Definition items (s : KMap K V) : outcome (list (K * V)) := iterate (size (m_nodes s)) (m_begin s) s.
End KMap.

(** ** Invariant *)

(** The nodes chained by [nx] from [h] to null. *)
Fixpoint chainBy {K V} (nx : MNode K V -> Z) (m : gmap Z (MNode K V)) (h : Z) (ns : list Z) : Prop :=
  match ns with
  | [] => h = nullptr
  | p :: ns => h = p /\ p <> nullptr /\ exists n, m !! p = Some n /\ chainBy nx m (nx n) ns
  end.

(** Every node's back link is the node before it. *)
Fixpoint prevs {K V} (m : gmap Z (MNode K V)) (pr : Z) (ns : list Z) : Prop :=
  match ns with
  | [] => True
  | p :: ns => m_prev <$> m !! p = Some pr /\ prevs m p ns
  end.

Lemma chainBy_ext {K V} (nx : MNode K V -> Z) m m' ns : forall h, (forall p, p ∈ ns -> nx <$> m' !! p = nx <$> m !! p) -> chainBy nx m h ns -> chainBy nx m' h ns.
Proof.
  induction ns as [|p ns IH]; intros h He; cbn [chainBy]; [done|]. intros (-> & Hp & n & Hn & Hc).
  pose proof (He p ltac:(left)) as E. rewrite Hn in E. destruct (m' !! p) as [n'|] eqn:Hn'; [|done]. cbn in E. injection E as E.
  split; [done|]. split; [done|]. exists n'. split; [done|]. rewrite E. apply IH; [|done]. intros q Hq. apply He. by right.
Qed.
Lemma prevs_ext {K V} (m m' : gmap Z (MNode K V)) ns : forall pr, (forall p, p ∈ ns -> m_prev <$> m' !! p = m_prev <$> m !! p) -> prevs m pr ns -> prevs m' pr ns.
Proof.
  induction ns as [|p ns IH]; intros pr He; cbn [prevs]; [done|]. intros [Hp Hs]. split.
  - by rewrite He by left.
  - apply IH; [|done]. intros q Hq. apply He. by right.
Qed.
Lemma chainBy_in {K V} (nx : MNode K V -> Z) m ns : forall h p, chainBy nx m h ns -> p ∈ ns -> p <> nullptr /\ is_Some (m !! p).
Proof.
  induction ns as [|q ns IH]; intros h p; cbn [chainBy]; [by intros _ ?%not_elem_of_nil|]. intros (-> & Hq & n & Hn & Hc) [->|Hp]%elem_of_cons.
  - split; [done|]. by eexists.
  - by eapply IH.
Qed.
Section MInv.
Context {K V : Type} `{EqDecision K}.
Context (m_hash : K -> Z) (sz : Z).

(** The entries, newest first, with their nodes. *)
Local Notation ents := (list (Z * (K * V))).
(** The nodes of a bucket, in the order of the entries. *)
Definition inBucket (t : Z) (b : nat) (x : Z * (K * V)) : Prop := Z.to_nat (m_hash (x.2.1) mod t) = b.
#[global] Instance inBucket_dec t b x : Decision (inBucket t b x).
Proof. unfold inBucket. apply _. Defined.
Definition bucket (t : Z) (b : nat) (ps : ents) : list Z := fst <$> filter (inBucket t b) ps.

Record MRel (s : KMap K V) (ps : ents) (fs : list Z) : Prop := mkMRel {
  mr_ext : chainBy m_ext_next (m_nodes s) (m_begin s) (fst <$> ps);
  mr_prev : prevs (m_nodes s) nullptr (fst <$> ps);
  mr_free : chainBy m_next (m_nodes s) (m_freeList s) fs;
  mr_nodup : NoDup ((fst <$> ps) ++ fs);
  mr_pos : 0 < m_tableSize s;
  mr_len : length (m_table s) = Z.to_nat (m_tableSize s);
  mr_bucket : forall b h, m_table s !! b = Some h -> chainBy m_next (m_nodes s) h (bucket (m_tableSize s) b ps);
  mr_data : forall p k v, (p, (k, v)) ∈ ps -> exists n : MNode K V, m_nodes s !! p = Some n /\ m_first n = k /\ m_second n = v;
  mr_keys : NoDup ((fun x : Z * (K * V) => x.2.1) <$> ps);
  mr_size : m_size s = Z.of_nat (length ps);
  mr_chunk : 1 <= m_currentChunkSize s }.
Definition MInv (s : KMap K V) (l : list (K * V)) : Prop := exists ps fs, MRel s ps fs /\ snd <$> ps = l.

Lemma hashOf_lookup s ps fs k : MRel s ps fs -> exists h, m_table s !! hashOf m_hash k s = Some h.
Proof.
  intros HR. apply lookup_lt_is_Some_2. rewrite (mr_len _ _ _ HR). unfold hashOf. pose proof (mr_pos _ _ _ HR).
  pose proof (Z.mod_pos_bound (m_hash k) (m_tableSize s)). lia.
Qed.

Lemma ents_bound s ps fs : MRel s ps fs -> (length ps <= size (m_nodes s))%nat.
Proof.
  intros HR. rewrite <- (length_fmap fst ps), <- size_dom. rewrite <- (size_list_to_set (C := gset Z)).
  - apply subseteq_size. intros p Hp%elem_of_list_to_set. apply elem_of_dom. by eapply chainBy_in; [apply (mr_ext _ _ _ HR)|].
  - pose proof (mr_nodup _ _ _ HR) as H. by apply NoDup_app in H as [H _].
Qed.
Lemma bucket_length t b (ps : ents) : (length (bucket t b ps) <= length ps)%nat.
Proof. unfold bucket. rewrite length_fmap. apply length_filter. Qed.
Lemma bucket_in t b (ps : ents) p : p ∈ bucket t b ps -> exists k v, (p, (k, v)) ∈ ps /\ inBucket t b (p, (k, v)).
Proof. unfold bucket. intros ([q [k v]] & -> & Hx)%list_elem_of_fmap. apply list_elem_of_filter in Hx as [Hb Hx]. by exists k, v. Qed.
Lemma bucket_sub t b (ps : ents) p : p ∈ bucket t b ps -> p ∈ fst <$> ps.
Proof. intros (k & v & H & _)%bucket_in. apply list_elem_of_fmap. by exists (p, (k, v)). Qed.

(** ** Lookup *)

(** The entry of a key, with its node. *)
Definition entry (key : K) (ps : ents) : option (Z * (K * V)) := snd <$> list_find (fun x : Z * (K * V) => x.2.1 = key) ps.

Lemma findLoop_spec s key : forall xs h fuel, chainBy m_next (m_nodes s) h (fst <$> xs) -> (length xs <= fuel)%nat ->
  (forall p k v, (p, (k, v)) ∈ xs -> exists n : MNode K V, m_nodes s !! p = Some n /\ m_first n = k) ->
  findLoop fuel key h s = Ok (from_option fst nullptr (entry key xs)).
Proof.
  induction xs as [|[p [k v]] xs IH]; intros h fuel Hc Hf Hd; cbn [fmap list_fmap chainBy] in Hc.
  - subst h. by destruct fuel.
  - cbn in Hc. destruct Hc as (-> & Hp & n & Hn & Hc). destruct fuel as [|fuel]; [cbn in Hf; lia|]. cbn [findLoop].
    destruct (Z.eqb_spec p nullptr) as [|_]; [done|]. unfold getNode. rewrite (deref_Some _ _ _ Hn). ostep.
    destruct (Hd p k v ltac:(left)) as (n' & Hn' & Hk). rewrite Hn in Hn'. injection Hn' as <-. unfold entry. cbn [list_find]. cbn [snd fst].
    rewrite Hk. case_decide as Hd'; [done|]. rewrite (IH _ fuel Hc); [| cbn in Hf; lia | intros q k' v' Hq; eapply Hd; by right].
    unfold entry. by destruct (list_find _ xs) as [[i x]|].
Qed.

Lemma entry_filter t key (ps : ents) : entry key (filter (inBucket t (Z.to_nat (m_hash key mod t))) ps) = entry key ps.
Proof.
  unfold entry. induction ps as [|[p [k v]] ps IH]; [done|]. rewrite filter_cons. case_decide as Hb; cbn [list_find].
  - cbn [snd fst]. case_decide; [done|]. destruct (list_find _ ps) as [[]|], (list_find _ (filter _ ps)) as [[]|]; cbn in *; congruence.
  - cbn [snd fst]. case_decide as Hk; [subst k; by destruct Hb|]. rewrite IH. by destruct (list_find _ ps) as [[]|].
Qed.

Lemma find_bucket s ps fs key h : MRel s ps fs -> m_table s !! hashOf m_hash key s = Some h ->
  findLoop (size (m_nodes s)) key h s = Ok (from_option fst nullptr (entry key ps)).
Proof.
  intros HR Hh. pose proof (mr_bucket _ _ _ HR _ _ Hh) as Hc. unfold bucket in Hc. rewrite (findLoop_spec s key _ _ _ Hc).
  - unfold hashOf. by rewrite entry_filter.
  - pose proof (ents_bound _ _ _ HR). pose proof (length_filter (inBucket (m_tableSize s) (hashOf m_hash key s)) ps). lia.
  - intros p k v Hx%list_elem_of_filter. destruct (mr_data _ _ _ HR p k v (proj2 Hx)) as (n & Hn & Hk & _). by exists n.
Qed.

(** ** The allocator *)

Context (Hsz : 0 < sz).

Fixpoint areaOf (n : nat) (it : Z) : list Z :=
  match n with
  | O => []
  | S n => it :: areaOf n (it + sz)
  end.
Lemma area_ge n : forall it q, q ∈ areaOf n it -> it <= q.
Proof.
  induction n as [|n IH]; intros it q; cbn [areaOf]; [by intros ?%not_elem_of_nil|]. intros [->|H]%elem_of_cons; [lia|]. apply IH in H. lia.
Qed.
Lemma area_NoDup n : forall it, NoDup (areaOf n it).
Proof.
  induction n as [|n IH]; intros it; cbn [areaOf]; [apply NoDup_nil_2|]. apply NoDup_cons_2; [|apply IH]. intros H%area_ge. lia.
Qed.

(** The memory [operator new[]] hands out is not in use. *)
Definition freshChunk (ch : @Chunk K V) (s : KMap K V) : Prop :=
  0 < ch_ptr ch /\ forall q, q ∈ areaOf (Z.to_nat (m_currentChunkSize s)) (ch_ptr ch) -> m_nodes s !! q = None.

Lemma chunkNodes_spec (junk : Z -> MNode K V) (m : gmap Z (MNode K V)) n : forall it, 0 < it ->
  (forall q, q ∉ areaOf n it -> chunkNodes sz n it junk m !! q = m !! q) /\
  chainBy m_next (chunkNodes sz n it junk m) (match n with O => nullptr | S _ => it end) (areaOf n it).
Proof.
  induction n as [|n IH]; intros it Hit; cbn [chunkNodes areaOf chainBy]; [done|].
  destruct (IH (it + sz) ltac:(lia)) as [Ho Hc]. split.
  - intros q Hq. rewrite lookup_insert_ne by set_solver. apply Ho. set_solver.
  - split; [done|]. split; [unfold nullptr; lia|]. eexists. rewrite lookup_insert_eq. split; [done|]. cbn [setNext m_next].
    eapply chainBy_ext; [|exact Hc]. intros q Hq%area_ge. by rewrite lookup_insert_ne by lia.
Qed.

(** The store may change where no entry and no free node is. *)
Lemma MRel_nodes s ps fs m' fr' fs' c' : MRel s ps fs -> (forall q, q ∈ fst <$> ps -> m' !! q = m_nodes s !! q) ->
  chainBy m_next m' fr' fs' -> NoDup ((fst <$> ps) ++ fs') -> 1 <= c' ->
  MRel (mkKMap _ _ m' (m_tableSize s) (m_rehashSize s) (m_table s) (m_begin s) c' fr' (m_size s)) ps fs'.
Proof.
  intros [H1 H2 H3 H4 H5 H6 H7 H8 H9 H10 H11] Hm Hf Hn Hc. split; cbn; try done.
  - eapply chainBy_ext; [|exact H1]. intros q Hq. by rewrite Hm.
  - eapply prevs_ext; [|exact H2]. intros q Hq. by rewrite Hm.
  - intros b h Hb. eapply chainBy_ext; [|exact (H7 b h Hb)]. intros q Hq. by rewrite Hm by (by eapply bucket_sub).
  - intros p k v Hp. rewrite Hm; [by apply H8|]. apply list_elem_of_fmap. by exists (p, (k, v)).
Qed.

Lemma add_spec ch s ps fs : MRel s ps fs -> (m_freeList s = nullptr -> freshChunk ch s) ->
  exists p m' c' f' fs', add sz ch s = Ok (p, mkKMap _ _ m' (m_tableSize s) (m_rehashSize s) (m_table s) (m_begin s) c' f' (u64 (m_size s + 1))) /\
    MRel (mkKMap _ _ m' (m_tableSize s) (m_rehashSize s) (m_table s) (m_begin s) c' f' (m_size s)) ps fs' /\
    p ∉ (fst <$> ps) ++ fs' /\ p <> nullptr /\ is_Some (m' !! p).
Proof.
  intros HR Hfr. unfold add.
  assert (exists m' c' p fs', p <> nullptr /\ grow sz ch s =
      mkKMap _ _ m' (m_tableSize s) (m_rehashSize s) (m_table s) (m_begin s) c' p (m_size s) /\
      MRel (mkKMap _ _ m' (m_tableSize s) (m_rehashSize s) (m_table s) (m_begin s) c' p (m_size s)) ps (p :: fs'))
    as (m' & c' & p & fs' & Hp0 & E & HR').
  { unfold grow. pose proof (mr_chunk _ _ _ HR) as Hc. destruct (Z.eqb_spec (m_freeList s) nullptr) as [Ef|Ef].
    - destruct (Hfr Ef) as [Hpos Hnew]. destruct (Z.to_nat (m_currentChunkSize s)) as [|n] eqn:En; [lia|].
      destruct (chunkNodes_spec (ch_junk ch) (m_nodes s) (S n) (ch_ptr ch) Hpos) as [Ho Hch].
      eexists _, _, (ch_ptr ch), (areaOf n (ch_ptr ch + sz)). split; [unfold nullptr; lia|]. split; [done|].
      assert (forall q, q ∈ fst <$> ps -> q ∉ areaOf (S n) (ch_ptr ch)) as Hdis.
      { intros q Hq Ha. apply Hnew in Ha. destruct (chainBy_in _ _ _ _ q (mr_ext _ _ _ HR) Hq) as [_ [x Hx]]. congruence. }
      apply (MRel_nodes s ps fs); [done | | exact Hch | | cbn; destruct (_ <? _); lia].
      + intros q Hq. by apply Ho, Hdis.
      + pose proof (mr_nodup _ _ _ HR) as Hn. apply NoDup_app in Hn as (Hn & _ & _). apply NoDup_app. split; [done|].
        split; [exact Hdis | apply (area_NoDup (S n))].
    - pose proof (mr_free _ _ _ HR) as Hf. destruct fs as [|q fs]; [by destruct Ef|]. pose proof Hf as (E & Hq & _).
      subst q. exists (m_nodes s), (m_currentChunkSize s), (m_freeList s), fs. split; [done|]. by destruct s. }
  rewrite E. pose proof (mr_free _ _ _ HR') as (_ & _ & n & Hn & Hc). cbn [m_freeList m_nodes] in Hn, Hc.
  unfold getNode. cbn [m_freeList m_nodes]. rewrite (deref_Some _ _ _ Hn). ostep. cbn [setAlloc m_nodes m_tableSize m_rehashSize m_table m_begin m_currentChunkSize m_size].
  exists p, m', c', (m_next n), fs'. split; [done|]. pose proof (mr_nodup _ _ _ HR') as Hnd. pose proof (mr_chunk _ _ _ HR') as Hch. cbn in Hch. split_and!.
  - apply (MRel_nodes _ ps (p :: fs') m' (m_next n) fs' c' HR'); [done | done | | done].
    clear - Hnd. rewrite NoDup_app, NoDup_cons in *. set_solver.
  - clear - Hnd. rewrite NoDup_app, NoDup_cons in Hnd. set_solver.
  - done.
  - by eexists.
Qed.

(** ** Insertion *)

Definition upsert (key : K) (value : V) (l : list (K * V)) : list (K * V) :=
  if decide (key ∈ l.*1) then (fun x => if decide (x.1 = key) then (key, value) else x) <$> l else (key, value) :: l.

Lemma entry_Some key (ps : ents) x : entry key ps = Some x -> x ∈ ps /\ x.2.1 = key.
Proof.
  unfold entry. destruct (list_find _ ps) as [[i y]|] eqn:E; [|done]. intros [= <-]. apply list_find_Some in E as (Hi & Hk & _).
  split; [by eapply list_elem_of_lookup_2 | done].
Qed.
Lemma entry_None key (ps : ents) : entry key ps = None -> key ∉ (fun x : Z * (K * V) => x.2.1) <$> ps.
Proof.
  unfold entry. destruct (list_find _ ps) as [[i y]|] eqn:E; [done|]. intros _. apply list_find_None in E. rewrite Forall_forall in E.
  intros (x & -> & Hx)%list_elem_of_fmap. by apply (E x).
Qed.
Lemma entry_keys key (ps : ents) : is_Some (entry key ps) <-> key ∈ (snd <$> ps).*1.
Proof.
  rewrite <- list_fmap_compose. split.
  - intros [x [Hx Hk]%entry_Some]. apply list_elem_of_fmap. by exists x.
  - intros Hk. destruct (entry key ps) as [x|] eqn:E; [by eexists|]. by apply entry_None in E.
Qed.

Lemma key_unique (ps : ents) x y : NoDup ((fun x : Z * (K * V) => x.2.1) <$> ps) -> x ∈ ps -> y ∈ ps -> x.2.1 = y.2.1 -> x = y.
Proof.
  intros Hn (i & Hi)%list_elem_of_lookup_1 (j & Hj)%list_elem_of_lookup_1 E.
  assert (i = j) as ->; [|congruence]. eapply (NoDup_lookup _ i j (x.2.1)); [exact Hn | |].
  - by rewrite list_lookup_fmap, Hi.
  - rewrite list_lookup_fmap, Hj. cbn. by rewrite E.
Qed.

Definition setEntry (key : K) (value : V) (x : Z * (K * V)) : Z * (K * V) := if decide (x.2.1 = key) then (x.1, (key, value)) else x.
Lemma setEntry_fst key value (ps : ents) : fst <$> (setEntry key value <$> ps) = fst <$> ps.
Proof. rewrite <- list_fmap_compose. apply list_fmap_ext. intros i x _. unfold setEntry. cbn. by case_decide. Qed.
Lemma setEntry_key key value (x : Z * (K * V)) : (setEntry key value x).2.1 = x.2.1.
Proof. unfold setEntry. by case_decide. Qed.
Lemma setEntry_bucket t b key value (ps : ents) : bucket t b (setEntry key value <$> ps) = bucket t b ps.
Proof.
  unfold bucket. induction ps as [|x ps IH]; [done|]. rewrite fmap_cons, !filter_cons.
  assert (inBucket t b (setEntry key value x) <-> inBucket t b x) as Hx by (unfold inBucket; by rewrite setEntry_key).
  do 2 case_decide; try tauto. rewrite !fmap_cons, IH. f_equal. unfold setEntry. by case_decide.
Qed.

(** A store that agrees on every field but the values of some nodes. *)
Lemma update_spec s ps fs p k v value : MRel s ps fs -> (p, (k, v)) ∈ ps ->
  exists s', updNode p (setSecond value) s = Ok s' /\ MRel s' (setEntry k value <$> ps) fs.
Proof.
  intros HR Hp. destruct (mr_data _ _ _ HR p k v Hp) as (n & Hn & Hk & _). unfold updNode. rewrite (deref_Some _ _ _ Hn). ostep.
  eexists. split; [done|]. destruct HR as [H1 H2 H3 H4 H5 H6 H7 H8 H9 H10 H11].
  assert (forall {A} (nx : MNode K V -> A) q, nx (setSecond value n) = nx n -> nx <$> <[p := setSecond value n]> (m_nodes s) !! q = nx <$> m_nodes s !! q) as Hag.
  { intros A nx q E. destruct (decide (q = p)) as [->|]; [rewrite lookup_insert_eq, Hn; cbn; by rewrite E | by rewrite lookup_insert_ne by congruence]. }
  split; cbn [setNodes m_nodes m_tableSize m_rehashSize m_table m_begin m_currentChunkSize m_freeList m_size]; rewrite ?setEntry_fst; try done.
  - eapply chainBy_ext; [|exact H1]. intros q _. by apply Hag.
  - eapply prevs_ext; [|exact H2]. intros q _. by apply Hag.
  - eapply chainBy_ext; [|exact H3]. intros q _. by apply Hag.
  - intros b h Hb. rewrite setEntry_bucket. eapply chainBy_ext; [|exact (H7 b h Hb)]. intros q _. by apply Hag.
  - intros q k' v' ([q0 [k0 v0]] & E & Hq)%list_elem_of_fmap. unfold setEntry in E. cbn in E. destruct (H8 _ _ _ Hq) as (n0 & Hn0 & Hk0 & Hv0).
    case_decide as Hd; injection E as -> -> ->.
    + subst k0. assert ((q0, (k, v0)) = (p, (k, v))) as [= -> _] by (by eapply key_unique).
      rewrite lookup_insert_eq. by eexists.
    + rewrite lookup_insert_ne; [by exists n0|]. intros ->. rewrite Hn in Hn0. injection Hn0 as <-. congruence.
  - rewrite <- list_fmap_compose. erewrite list_fmap_ext; [exact H9|]. intros i x _. cbn. apply setEntry_key.
  - by rewrite length_fmap.
Qed.

(** Linking a new node in front of its bucket and of the list. *)
Lemma linkNode_spec s ps fs p n0 key value h : MRel s ps fs -> m_nodes s !! p = Some n0 -> p ∉ (fst <$> ps) ++ fs -> p <> nullptr ->
  m_table s !! hashOf m_hash key s = Some h -> key ∉ (fun x : Z * (K * V) => x.2.1) <$> ps ->
  let n := mkMNode _ _ key value nullptr (m_begin s) h in
  let m1 := <[p := n]> (m_nodes s) in
  exists m2, (if negb (m_begin s =? nullptr) then nd ← deref m1 (m_begin s); Ok (<[m_begin s := setPrev p nd]> m1) else Ok m1) = Ok m2 /\
    MRel (mkKMap _ _ m2 (m_tableSize s) (m_rehashSize s) (<[hashOf m_hash key s := p]> (m_table s)) p (m_currentChunkSize s) (m_freeList s) (m_size s + 1))
      ((p, (key, value)) :: ps) fs.
Proof.
  intros HR Hp Hnp Hp0 Hh Hk n m1. pose proof HR as [H1 H2 H3 H4 H5 H6 H7 H8 H9 H10 H11]. rewrite not_elem_of_app in Hnp. destruct Hnp as [Hnp Hnf].
  assert (exists m2, (if negb (m_begin s =? nullptr) then nd ← deref m1 (m_begin s); Ok (<[m_begin s := setPrev p nd]> m1) else Ok m1) = Ok m2 /\
    m2 !! p = Some n /\ (forall A (f : MNode K V -> A) q, q <> p -> (forall r nd, f (setPrev r nd) = f nd) -> f <$> m2 !! q = f <$> m_nodes s !! q) /\
    prevs m2 p (fst <$> ps)) as (m2 & E & Hp2 & Hag & Hpr).
  { destruct ps as [|[b [k v]] ps]; cbn in H1.
    - rewrite H1. exists m1. split; [done|]. split; [apply lookup_insert_eq|]. split; [|done]. intros A f q Hq _. unfold m1. by rewrite lookup_insert_ne by congruence.
    - destruct H1 as (Eb & Hb & nb & Hnb & Hc). rewrite Eb. destruct (Z.eqb_spec b nullptr) as [|_]; [done|]. cbn [negb].
      assert (b <> p) as Hbp by (intros ->; apply Hnp; left).
      assert (m1 !! b = Some nb) as Hm1 by (unfold m1; by rewrite lookup_insert_ne by congruence).
      rewrite (deref_Some _ _ _ Hm1). ostep. eexists. split; [done|]. split; [rewrite lookup_insert_ne by congruence; apply lookup_insert_eq|].
      assert (forall A (f : MNode K V -> A) q, q <> p -> (q = b -> forall r nd, f (setPrev r nd) = f nd) -> f <$> <[b := setPrev p nb]> m1 !! q = f <$> m_nodes s !! q) as Hag.
      { intros A f q Hq Hf. destruct (decide (q = b)) as [->|Hqb]; [rewrite lookup_insert_eq, Hnb; cbn; by rewrite (Hf eq_refl)|].
        rewrite lookup_insert_ne by congruence. unfold m1. by rewrite lookup_insert_ne by congruence. }
      split; [intros A f q Hq Hf; by apply Hag|]. cbn. split; [by rewrite lookup_insert_eq|]. destruct H2 as [_ H2].
      eapply prevs_ext; [|exact H2]. intros q Hq. apply Hag; [intros ->; apply Hnp; by right|]. intros ->.
      apply NoDup_app in H4 as [H4 _]. apply NoDup_cons in H4 as [H4 _]. done. }
  exists m2. split; [exact E|].
  assert (forall q, q ∈ fst <$> ps -> q <> p) as Hne by (intros q Hq ->; done).
  split; cbn [m_nodes m_tableSize m_rehashSize m_table m_begin m_currentChunkSize m_freeList m_size fmap list_fmap fst]; try done.
  - split; [done|]. split; [done|]. exists n. split; [done|]. cbn [n m_ext_next]. eapply chainBy_ext; [|exact H1]. intros q Hq. apply Hag; [by apply Hne | done].
  - cbn [prevs]. split; [by rewrite Hp2 | exact Hpr].
  - eapply chainBy_ext; [|exact H3]. intros q Hq. apply Hag; [intros ->; done | done].
  - cbn [app]. apply NoDup_cons. split; [rewrite not_elem_of_app; by split | done].
  - by rewrite length_insert.
  - intros b h' Hb. apply list_lookup_insert_Some in Hb as [(<- & <- & _)|[Hnb Hb]]; unfold bucket; rewrite filter_cons.
    + rewrite decide_True by done. cbn. split; [done|]. split; [done|]. exists n. split; [done|]. cbn [n m_next].
      eapply chainBy_ext; [|exact (H7 _ _ Hh)]. intros q Hq%bucket_sub. apply Hag; [by apply Hne | done].
    + rewrite decide_False by (intros E'; apply Hnb; exact E'). eapply chainBy_ext; [|exact (H7 _ _ Hb)]. intros q Hq%bucket_sub. apply Hag; [by apply Hne | done].
  - intros q k v [[= -> -> ->]|Hq]%elem_of_cons; [by exists n|]. assert (q <> p) as Hqp by (apply Hne, list_elem_of_fmap; by exists (q, (k, v))).
    destruct (H8 _ _ _ Hq) as (nq & Hnq & Hkq & Hvq).
    pose proof (Hag _ (fun x => (m_first x, m_second x)) q Hqp ltac:(done)) as Eq. rewrite Hnq in Eq. destruct (m2 !! q) as [nq'|]; [|done].
    exists nq'. split; [done|]. cbn in Eq. injection Eq as E1 E2. split; congruence.
  - cbn. by apply NoDup_cons.
  - cbn [length]. lia.
Qed.

Lemma emplace_spec ch key value s ps fs : MRel s ps fs ->
  (key ∉ (fun x : Z * (K * V) => x.2.1) <$> ps -> m_size s < m_rehashSize s /\ m_size s < 2 ^ 64 - 1 /\ (m_freeList s = nullptr -> freshChunk ch s)) ->
  exists p s' ps' fs', emplace m_hash sz ch key value s = Ok (p, bool_decide (key ∉ (snd <$> ps).*1), s') /\
    MRel s' ps' fs' /\ snd <$> ps' = upsert key value (snd <$> ps) /\ (p, (key, value)) ∈ ps' /\
    m_rehashSize s' = m_rehashSize s /\ m_tableSize s' = m_tableSize s.
Proof.
  intros HR Hal. unfold emplace. destruct (hashOf_lookup s ps fs key HR) as [h Hh]. rewrite (arr_get_Some _ _ _ Hh). ostep.
  rewrite (find_bucket s ps fs key h HR Hh). ostep. unfold upsert. pose proof (entry_keys key ps) as Hke.
  destruct (entry key ps) as [[p [k v]]|] eqn:Ee; cbn [from_option fst].
  - apply entry_Some in Ee as [Hp Hk]. cbn in Hk. subst k. rewrite decide_True by (by apply Hke).
    assert (p <> nullptr) as Hp0.
    { eapply chainBy_in; [apply (mr_ext _ _ _ HR)|]. apply list_elem_of_fmap. by exists (p, (key, v)). }
    destruct (Z.eqb_spec p nullptr) as [|_]; [done|]. cbn [negb]. destruct (update_spec s ps fs p key v value HR Hp) as (s' & E & HR'). rewrite E. ostep.
    rewrite bool_decide_eq_false_2 by (intros H; apply H, Hke; by eexists). exists p, s', (setEntry key value <$> ps), fs.
    split; [done|]. split; [done|]. split_and!.
    + rewrite <- !list_fmap_compose. apply list_fmap_ext. intros i x _. unfold setEntry. cbn. by case_decide.
    + apply list_elem_of_fmap. exists (p, (key, v)). split; [|done]. unfold setEntry. cbn. by rewrite decide_True by done.
    + unfold updNode in E. bind_inv E. by injection E as <-.
    + unfold updNode in E. bind_inv E. by injection E as <-.
  - assert (key ∉ (snd <$> ps).*1) as Hnk by (intros [x ?]%Hke; done). rewrite decide_False, bool_decide_eq_true_2 by done.
    apply entry_None in Ee as Hnk'. destruct (Hal Hnk') as (Hre & H64 & Hfr). change (nullptr =? nullptr) with true. cbn [negb].
    destruct (Z.leb_spec (m_rehashSize s) (m_size s)); [lia|]. ostep.
    destruct (add_spec ch s ps fs HR Hfr) as (p & m' & c' & f' & fs' & -> & HR' & Hnp & Hp0 & [n0 Hn0]). ostep. cbn [m_table].
    rewrite (arr_get_Some _ _ _ Hh). ostep. set (s1 := mkKMap _ _ _ _ _ _ _ _ _ _) in *.
    assert (hashOf m_hash key s1 = hashOf m_hash key s) as Eh by done.
    destruct (linkNode_spec s1 ps fs' p n0 key value h HR' Hn0 Hnp Hp0 ltac:(by rewrite Eh) Hnk') as (m2 & E2 & HR2).
    unfold updNode. cbn [m_nodes m_begin setNodes m_table]. rewrite (deref_Some _ _ _ Hn0). ostep. cbn [m_nodes m_begin setNodes m_table].
    rewrite (arr_set_Some _ _ _ _ Hh). ostep. cbn [setTable m_begin m_nodes setNodes]. cbn [s1 m_begin m_nodes] in E2.
    pose proof (mr_size _ _ _ HR) as Hs.
    assert (u64 (m_size s + 1) = m_size s + 1) as Eu by (apply u64_small; lia).
    exists p. destruct (negb (m_begin s =? nullptr)).
    + bind_inv E2. match goal with H : deref _ _ = Ok _ |- _ => rewrite H end. ostep. injection E2 as <-. cbn [setBegin setNodes setTable]. rewrite Eu.
      eexists _, ((p, (key, value)) :: ps), fs'. split; [done|]. split; [exact HR2|]. split_and!; try done. left.
    + injection E2 as <-. ostep. cbn [setBegin setNodes setTable]. rewrite Eu.
      eexists _, ((p, (key, value)) :: ps), fs'. split; [done|]. split; [exact HR2|]. split_and!; try done. left.
Qed.

(** ** Refinement *)

Inductive MOp : Type :=
  | MEmplace (ch : @Chunk K V) (key : K) (value : V)
  | MFind (key : K)
  | MIndex (ch : @Chunk K V) (dflt : V) (key : K).

(** The value an iterator names. *)
Definition valueAt (p : Z) (s : KMap K V) : option V := if p =? nullptr then None else m_second <$> m_nodes s !! p.

Definition mrun (op : MOp) (s : KMap K V) : outcome (bool * option V * KMap K V) :=
  match op with
  | MEmplace ch key value => '(it, b, s) ← emplace m_hash sz ch key value s; Ok (b, valueAt it s, s)
  | MFind key => it ← find m_hash key s; Ok (negb (it =? nullptr), valueAt it s, s)
  | MIndex ch dflt key => '(it, s) ← index m_hash sz ch dflt key s; Ok (true, valueAt it s, s)
  end.

Definition lookupKey (key : K) (l : list (K * V)) : option V := (fun x => x.2.2) <$> list_find (fun x : K * V => x.1 = key) l.
Definition mspec (op : MOp) (l : list (K * V)) : bool * option V * list (K * V) :=
  match op with
  | MEmplace _ key value => (bool_decide (key ∉ l.*1), Some value, upsert key value l)
  | MFind key => (bool_decide (key ∈ l.*1), lookupKey key l, l)
  | MIndex _ dflt key => (true, Some (default dflt (lookupKey key l)), if decide (key ∈ l.*1) then l else upsert key dflt l)
  end.

(** A new key does not make the table grow, and its memory is new. *)
Definition mallowed (op : MOp) (s : KMap K V) (l : list (K * V)) : Prop :=
  match op with
  | MEmplace ch key _ | MIndex ch _ key =>
      key ∉ l.*1 -> m_size s < m_rehashSize s < 2 ^ 64 /\ (m_freeList s = nullptr -> freshChunk ch s)
  | MFind _ => True
  end.

Lemma iterate_spec s : forall (ps : ents) h fuel, chainBy m_ext_next (m_nodes s) h (fst <$> ps) -> (length ps <= fuel)%nat ->
  (forall p k v, (p, (k, v)) ∈ ps -> exists n : MNode K V, m_nodes s !! p = Some n /\ m_first n = k /\ m_second n = v) ->
  iterate fuel h s = Ok (snd <$> ps).
Proof.
  induction ps as [|[p [k v]] ps IH]; intros h fuel Hc Hf Hd; cbn [fmap list_fmap chainBy] in Hc.
  - subst h. by destruct fuel.
  - cbn in Hc. destruct Hc as (-> & Hp & n & Hn & Hc). destruct fuel as [|fuel]; [cbn in Hf; lia|]. cbn [iterate].
    destruct (Z.eqb_spec p nullptr) as [|_]; [done|]. unfold getNode. rewrite (deref_Some _ _ _ Hn). ostep.
    rewrite (IH _ fuel Hc); [| cbn in Hf; lia | intros q k' v' Hq; eapply Hd; by right]. ostep.
    destruct (Hd p k v ltac:(left)) as (n' & Hn' & Hk & Hv). rewrite Hn in Hn'. injection Hn' as <-. cbn. by rewrite Hk, Hv.
Qed.
Lemma items_spec s ps fs : MRel s ps fs -> items s = Ok (snd <$> ps).
Proof. intros HR. unfold items. apply iterate_spec; [apply (mr_ext _ _ _ HR) | by eapply ents_bound | apply (mr_data _ _ _ HR)]. Qed.

Lemma valueAt_entry s ps fs p k v : MRel s ps fs -> (p, (k, v)) ∈ ps -> p <> nullptr /\ valueAt p s = Some v.
Proof.
  intros HR Hp. assert (p <> nullptr) as Hp0.
  { eapply chainBy_in; [apply (mr_ext _ _ _ HR)|]. apply list_elem_of_fmap. by exists (p, (k, v)). }
  split; [done|]. unfold valueAt. destruct (Z.eqb_spec p nullptr); [done|]. destruct (mr_data _ _ _ HR _ _ _ Hp) as (nd & -> & _ & <-). done.
Qed.

Lemma lookup_entry key (ps : ents) : lookupKey key (snd <$> ps) = (fun x => x.2.2) <$> entry key ps.
Proof.
  unfold lookupKey, entry. induction ps as [|x ps IH]; [done|]. rewrite fmap_cons. cbn [list_find]. case_decide; [done|].
  destruct (list_find _ (snd <$> ps)) as [[]|], (list_find _ ps) as [[]|]; cbn in *; congruence.
Qed.

Lemma find_spec key s ps fs : MRel s ps fs -> find m_hash key s = Ok (from_option fst nullptr (entry key ps)).
Proof.
  intros HR. unfold find. destruct (hashOf_lookup s ps fs key HR) as [h Hh]. rewrite (arr_get_Some _ _ _ Hh). ostep. by eapply find_bucket.
Qed.

Lemma keys_eq (ps : ents) key : key ∉ (fun x : Z * (K * V) => x.2.1) <$> ps <-> key ∉ (snd <$> ps).*1.
Proof. by rewrite <- list_fmap_compose. Qed.

Lemma newMap_MInv : MInv newMap [].
Proof.
  exists [], []. split; [|done]. split; try done; try apply NoDup_nil_2; [|by intros p k v Hp%not_elem_of_nil].
  intros b h Hb. apply lookup_replicate in Hb as [-> _]. done.
Qed.

(** The hash map refines a list of entries with different keys, newest first, as long as
    its table does not have to grow (a ninth key makes it grow, and the old ones are lost,
    [Demo.growing_loses_keys]) and nothing is erased ([Demo.erase_faults],
    [Demo.erase_drops_bucket]).  From an empty map on: [emplace] replaces the value of
    a key that is there and puts a new one in front, [find] gives the entry of the key or the end,
    [operator[]] does the one or the other; every call returns, says whether it inserted
    or found, and gives an iterator to the key's value; iteration then yields exactly the
    entries, and [size] is their number. *)
Theorem kmap_refines : MInv newMap [] /\
  forall (op : MOp) (s : KMap K V) (l : list (K * V)), MInv s l -> mallowed op s l ->
  exists s', mrun op s = Ok (fst (mspec op l), s') /\ MInv s' (snd (mspec op l)) /\
    items s' = Ok (snd (mspec op l)) /\ m_size s' = Z.of_nat (length (snd (mspec op l))).
Proof.
  split; [apply newMap_MInv|]. intros op s l (ps & fs & HR & <-) Ha.
  assert (forall (s' : KMap K V) ps' fs' l', MRel s' ps' fs' -> snd <$> ps' = l' -> MInv s' l' /\ items s' = Ok l' /\ m_size s' = Z.of_nat (length l')) as Hfin.
  { intros s' ps' fs' l' HR' <-. split; [by exists ps', fs'|]. split; [by eapply items_spec|]. by rewrite length_fmap, (mr_size _ _ _ HR'). }
  assert (forall ch key value, mallowed (MEmplace ch key value) s (snd <$> ps) -> exists p s' ps' fs', emplace m_hash sz ch key value s = Ok (p, bool_decide (key ∉ (snd <$> ps).*1), s') /\
    MRel s' ps' fs' /\ snd <$> ps' = upsert key value (snd <$> ps) /\ p <> nullptr /\ valueAt p s' = Some value) as Hemp.
  { intros ch key value Hal. destruct (emplace_spec ch key value s ps fs HR) as (p & s' & ps' & fs' & E & HR' & El & Hp & _).
    { intros Hk. destruct (Hal (proj1 (keys_eq ps key) Hk)) as [? ?]. split; [lia|]. split; [lia|done]. }
    exists p, s', ps', fs'. split_and!; try done; by eapply valueAt_entry. }
  destruct op as [ch key value|key|ch dflt key]; cbn [mrun mspec fst snd].
  - destruct (Hemp ch key value Ha) as (p & s' & ps' & fs' & -> & HR' & El & Hp & Hv). ostep. rewrite Hv. exists s'. split; [done|]. by eapply Hfin.
  - rewrite (find_spec key s ps fs HR). ostep. exists s. split; [|by eapply Hfin]. rewrite lookup_entry. pose proof (entry_keys key ps) as Hke.
    destruct (entry key ps) as [[p [k v]]|] eqn:Ee; cbn [from_option fst].
    + apply entry_Some in Ee as [Hp _]. destruct (valueAt_entry s ps fs p k v HR Hp) as [Hp0 ->].
      destruct (Z.eqb_spec p nullptr); [done|]. rewrite bool_decide_eq_true_2 by (apply Hke; by eexists). done.
    + rewrite bool_decide_eq_false_2 by (by intros [? ?]%Hke). done.
  - unfold index. rewrite (find_spec key s ps fs HR). ostep. rewrite lookup_entry. pose proof (entry_keys key ps) as Hke.
    destruct (entry key ps) as [[p [k v]]|] eqn:Ee; cbn [from_option fst].
    + apply entry_Some in Ee as [Hp _]. destruct (valueAt_entry s ps fs p k v HR Hp) as [Hp0 Hv].
      destruct (Z.eqb_spec p nullptr); [done|]. cbn [negb]. ostep. rewrite Hv. exists s.
      destruct (decide (key ∈ (snd <$> ps).*1)) as [_|Hn]; [|by destruct Hn; apply Hke; eexists]. split; [done|]. by eapply Hfin.
    + change (nullptr =? nullptr) with true. cbn [negb]. destruct (Hemp ch key dflt Ha) as (p & s' & ps' & fs' & -> & HR' & El & Hp & Hv). ostep.
      rewrite Hv. exists s'. destruct (decide (key ∈ (snd <$> ps).*1)) as [Hin|_]; [by apply Hke in Hin as [? ?]|]. split; [done|]. by eapply Hfin.
Qed.
End MInv.

(** ** Small maps *)

Module Demo.

Definition junk : MNode Z Z := mkMNode _ _ 0 0 0 0 0.
Definition chunk : @Chunk Z Z := mkChunk 0x1000 (fun _ => junk).
Definition later : @Chunk Z Z := mkChunk 0x9000 (fun _ => junk).

Fixpoint mruns (ops : list (@MOp Z Z)) (s : KMap Z Z) : outcome (KMap Z Z) :=
  match ops with
  | [] => Ok s
  | op :: ops => '(_, s) ← mrun khashInt 64 op s; mruns ops s
  end.
Definition state (ops : list (@MOp Z Z)) : KMap Z Z := match mruns ops newMap with Ok s => s | _ => newMap end.
(** The keys [ks], each with ten times itself. *)
Definition fill (ks : list Z) : list (@MOp Z Z) := (fun k => MEmplace chunk k (10 * k)) <$> ks.

Lemma kmap_refines_witness :
  freshChunk 64 chunk newMap /\
  exists s', mrun khashInt 64 (MEmplace chunk 5 50) newMap = Ok (true, Some 50, s') /\ MInv khashInt s' [(5, 50)] /\ items s' = Ok [(5, 50)].
Proof.
  assert (freshChunk 64 chunk newMap) as Hf by (split; [vm_compute; reflexivity | intros q _; apply lookup_empty]).
  split; [exact Hf|]. destruct (kmap_refines (V := Z) khashInt 64 ltac:(lia)) as [H0 H].
  destruct (H (MEmplace chunk 5 50) newMap [] H0) as (s' & E & HI & Hit & _).
  - intros _. split; [vm_compute; split; congruence | intros _; exact Hf].
  - exists s'. exact (conj E (conj HI Hit)).
Defined.

Definition lookup (key : Z) (s : outcome (KMap Z Z)) : outcome (option Z) :=
  s ← s; it ← find khashInt key s; Ok (valueAt it s).
Definition keys (s : outcome (KMap Z Z)) : outcome (list Z) := s ← s; l ← items s; Ok (l.*1).
Definition erased (key : Z) (s : KMap Z Z) : outcome (KMap Z Z) := '(_, s) ← eraseKey khashInt key s; Ok s.

(** Eight keys are found; the ninth makes the table grow, and the old ones are lost for
    [find], although iteration still lists them. *)
Example growing_loses_keys :
  lookup 3 (mruns (fill [1; 2; 3; 4; 5; 6; 7; 8]) newMap) = Ok (Some 30) /\
  lookup 3 (mruns (fill [1; 2; 3; 4; 5; 6; 7; 8; 9]) newMap) = Ok None /\
  keys (mruns (fill [1; 2; 3; 4; 5; 6; 7; 8; 9]) newMap) = Ok [9; 8; 7; 6; 5; 4; 3; 2; 1].
Proof. split_and!; vm_compute; reflexivity. Qed.

(** The ninth key itself goes into the bucket of the old table. *)
Example growing_misplaces_key : lookup 20 (mruns (fill [1; 2; 3; 4; 5; 6; 7; 8; 20]) newMap) = Ok None.
Proof. vm_compute. reflexivity. Qed.

(** Erasing the only entry, or the oldest one, goes through a null pointer. *)
Example erase_faults : erased 1 (state (fill [1])) = Fault /\ erased 1 (state (fill [1; 2])) = Fault.
Proof. split; vm_compute; reflexivity. Qed.

(** Erasing the first entry of a bucket drops the others: 1 and 17 share one. *)
Example erase_drops_bucket :
  lookup 1 (Ok (state (fill [1; 17; 2]))) = Ok (Some 10) /\ lookup 1 (erased 17 (state (fill [1; 17; 2]))) = Ok None.
Proof. split; vm_compute; reflexivity. Qed.
End Demo.
