(* ===== verification/PciBus.v ===== *)
(** * PCI devices (pcidev/PciBus.cpp, pci/IrqRouting.cpp)

    [PciBusEnumerator::search] walks the buses behind the bridges, starting at bus 0, and
    files every device it finds under its class in a hash map ([KMap]); the interrupt of a
    device comes from the routing tables and is checked against the interrupt lines
    ([Interrupts]).  Configuration space is a parameter: what its reads return, and for
    which functions [makePciSpaceIoResource] makes a resource; writes are a log.  The
    lists of devices of a class are only appended to and are lists here. *)

From S2P Require Import Prelude Interrupts KMap.

Record PciAddress : Type := mkAddr { m_bus : Z; m_device : Z; m_function : Z }.
#[export] Instance PciAddress_eq_dec : EqDecision PciAddress.
Proof. solve_decision. Defined.

Record PciDeviceInfo : Type := mkInfo {
  m_pciAddress : PciAddress;
  m_vendorId : Z; m_deviceId : Z;
  m_classCode : Z; m_subclassCode : Z; m_progInterface : Z;
  m_irq : Z; m_pin : Z;
  m_bar : list Z }.

Definition Functions : nat := 8.
Definition Devices : nat := 32.
Definition Buses : nat := 256.
Definition Pins : Z := 4.
Definition PciConfSpaceVendorAndDeviceId : Z := 0x00.
Definition PciConfComplexClassId : Z := 0x08.
Definition PciConfHeaderType : Z := 0x0E.
Definition PciHeaderTypeDevice : Z := 0x00.
Definition PciHeaderTypePciToPciBridge : Z := 0x01.
Definition PciConfSecondaryBusNumber : Z := 0x19.
Definition PciConfBar0 : Z := 0x10.
Definition PciConfIrqPin : Z := 0x3C.
Definition PciConfIrq : Z := 0x3C.

(** ** Interrupt routing *)

Record PciBusRounting : Type := mkRouting { r_parent : Z; r_device : Z; r_irq : list (list Z) }.
Notation routingTable := (list (option PciBusRounting)).

(** A null entry is not to be dereferenced. *)
Definition routingAt (t : routingTable) (bus : Z) : outcome PciBusRounting :=
  r ← arr_get t (Z.to_nat bus); match r with Some r => Ok r | None => Fault end.
Definition irqAt (r : PciBusRounting) (device pin : Z) : outcome Z :=
  l ← arr_get (r_irq r) (Z.to_nat device); arr_get l (Z.to_nat pin).

Fixpoint irqLoop (fuel : nat) (t : routingTable) (irq bus offset : Z) : outcome Z :=
  if irq =? 0 then
    match fuel with
    | O => NoFuel
    | S fuel =>
        r ← routingAt t bus;
        if bus =? r_parent r then Ok irq
        else
          let offset := u32 (offset + r_device r) in
          let bus := r_parent r in
          r ← routingAt t bus;
          irq ← irqAt r 0 (offset mod Pins);
          irqLoop fuel t irq bus offset
    end
  else Ok irq.

Definition getPciDeviceIrq (fuel : nat) (t : routingTable) (bus device pin : Z) : outcome Z :=
  let pin := u32 (pin - 1) in
  if (Pins <=? pin) || (Z.of_nat Buses <=? bus) || (Z.of_nat Devices <=? device) then Ok 0
  else
    r ← arr_get t (Z.to_nat bus);
    match r with
    | None => Ok 0
    | Some r => irq ← irqAt r device pin; irqLoop fuel t irq bus (u32 (device + pin))
    end.

Definition registerPciRoutingBus (bus parentBus device : Z) (t : routingTable) : outcome (bool * routingTable) :=
  if (Z.of_nat Buses <=? bus) || (Z.of_nat Buses <=? parentBus) || (Z.of_nat Devices <=? device) then Ok (false, t)
  else
    t ← arr_set t (Z.to_nat bus) (Some (mkRouting parentBus device (replicate Devices (replicate (Z.to_nat Pins) 0))));
    Ok (true, t).

Definition addPciDeviceRouting (bus device pin irq : Z) (t : routingTable) : outcome (bool * routingTable) :=
  let pin := u32 (pin - 1) in
  if (Pins <=? pin) || (Z.of_nat Buses <=? bus) || (Z.of_nat Devices <=? device) then Ok (false, t)
  else
    r ← arr_get t (Z.to_nat bus);
    match r with
    | None => Ok (false, t)
    | Some r =>
        l ← arr_get (r_irq r) (Z.to_nat device);
        l ← arr_set l (Z.to_nat pin) irq;
        irqs ← arr_set (r_irq r) (Z.to_nat device) l;
        t ← arr_set t (Z.to_nat bus) (Some (mkRouting (r_parent r) (r_device r) irqs));
        Ok (true, t)
    end.

(** ** The devices of a class *)

Definition classKey (classCode subclassCode : Z) : Z := Z.lor (u32 (Z.shiftl classCode 8)) subclassCode.

Record PciState : Type := mkPci {
  m_devs : KMap Z (list PciDeviceInfo);
  confWrites : list (PciAddress * Z * Z) }.

Section Pci.
Context (in8 in16 in32 : PciAddress -> Z -> Z).
Context (hasConf : PciAddress -> bool).
Context (routing : routingTable) (ints : ExternalInterrupts).
(** [sizeof] a node of the map, and what [operator new[]] returns. *)
Context (sz : Z) (newChunk : KMap Z (list PciDeviceInfo) -> @Chunk Z (list PciDeviceInfo)).

(** The interrupt a device is given, and whether it is written back. *)
Definition deviceIrq (pciAddr : PciAddress) (irq pin : Z) : outcome (Z * bool) :=
  if negb (pin =? 0xFF) && negb (pin =? 0) then
    newIrq ← getPciDeviceIrq Buses routing (m_bus pciAddr) (m_device pciAddr) pin;
    ok ← chechRedirectIrq irq newIrq ints;
    Ok (if ok : bool then (newIrq, true) else (irq, false))
  else Ok (irq, false).

Definition readInfo (pciAddr : PciAddress) (devVenId : Z) : outcome (PciDeviceInfo * bool) :=
  let complexClassId := in32 pciAddr PciConfComplexClassId in
  let irqPin := in16 pciAddr PciConfIrqPin in
  let irq := Z.land irqPin 0xFF in
  let pin := Z.shiftr irqPin 8 in
  let irq := if irq =? 0xFF then 0 else irq in
  '(irq, written) ← deviceIrq pciAddr irq pin;
  Ok (mkInfo pciAddr (Z.land devVenId 0xFFFF) (Z.shiftr devVenId 16)
        (Z.land (Z.shiftr complexClassId 24) 0xFF) (Z.land (Z.shiftr complexClassId 16) 0xFF)
        (Z.land (Z.shiftr complexClassId 8) 0xFF) irq pin
        ((fun barIdx => in32 pciAddr (PciConfBar0 + Z.of_nat barIdx * 4)) <$> seq 0 6), written).

(** [m_devs[key].emplace_back(dev)] *)
Definition fileDevice (info : PciDeviceInfo) (devs : KMap Z (list PciDeviceInfo)) : outcome (KMap Z (list PciDeviceInfo)) :=
  '(it, devs) ← index khashInt sz (newChunk devs) [] (classKey (m_classCode info) (m_subclassCode info)) devs;
  updNode it (fun n => setSecond (m_second n ++ [info]) n) devs.

Definition processDevice (pciAddr : PciAddress) (devVenId : Z) (s : PciState) : outcome PciState :=
  '(info, written) ← readInfo pciAddr devVenId;
  devs ← fileDevice info (m_devs s);
  Ok (mkPci devs (confWrites s ++ (if written : bool then [(pciAddr, PciConfIrq, u8 (m_irq info))] else []))).

(** ** Search *)

(** The stack of buses has its back first. *)
Record Scan : Type := mkScan { busStack : list Z; scannedBus : list bool; found : PciState }.

Definition scanFunction (curBus dev func : Z) (x : Scan) : outcome (bool * Scan) :=
  let pciAddr := mkAddr curBus dev func in
  if negb (hasConf pciAddr) then Ok (false, x)
  else
    let devVenId := in32 pciAddr PciConfSpaceVendorAndDeviceId in
    if devVenId =? 0xFFFFFFFF then Ok (false, x)
    else
      let headerType := in8 pciAddr PciConfHeaderType in
      x ← (if Z.land headerType 0x7F =? PciHeaderTypeDevice then
             s ← processDevice pciAddr devVenId (found x); Ok (mkScan (busStack x) (scannedBus x) s)
           else if Z.land headerType 0x7F =? PciHeaderTypePciToPciBridge then
             let bus := in8 pciAddr PciConfSecondaryBusNumber in
             scanned ← arr_get (scannedBus x) (Z.to_nat bus);
             if negb (scanned : bool) then
               l ← arr_set (scannedBus x) (Z.to_nat bus) true;
               Ok (mkScan (bus :: busStack x) l (found x))
             else Ok x
           else Ok x);
      Ok ((func =? 0) && (Z.land headerType 0x80 =? 0), x).

Fixpoint scanFunctions (n : nat) (curBus dev func : Z) (x : Scan) : outcome Scan :=
  match n with
  | O => Ok x
  | S n => '(stop, x) ← scanFunction curBus dev func x; if stop : bool then Ok x else scanFunctions n curBus dev (func + 1) x
  end.
Fixpoint scanDevices (n : nat) (curBus dev : Z) (x : Scan) : outcome Scan :=
  match n with
  | O => Ok x
  | S n => x ← scanFunctions Functions curBus dev 0 x; scanDevices n curBus (dev + 1) x
  end.
Fixpoint searchLoop (fuel : nat) (x : Scan) : outcome Scan :=
  match busStack x with
  | [] => Ok x
  | curBus :: rest =>
      match fuel with
      | O => NoFuel
      | S fuel => x ← scanDevices Devices curBus 0 (mkScan rest (scannedBus x) (found x)); searchLoop fuel x
      end
  end.

(** Every bus is put on the stack once. *)
Definition search : outcome PciState :=
  x ← searchLoop Buses (mkScan [0] (true :: replicate 255 false) (mkPci newMap []));
  Ok (found x).
End Pci.

(** ** Specification: what is there *)

Section Spec.
Context (in8 in32 : PciAddress -> Z -> Z).
Context (hasConf : PciAddress -> bool).

Definition present (a : PciAddress) : bool := hasConf a && negb (in32 a PciConfSpaceVendorAndDeviceId =? 0xFFFFFFFF).
Definition headerOf (a : PciAddress) : Z := in8 a PciConfHeaderType.
Definition isDev (a : PciAddress) : bool := present a && (Z.land (headerOf a) 0x7F =? PciHeaderTypeDevice).
Definition isBridge (a : PciAddress) : bool :=
  present a && negb (Z.land (headerOf a) 0x7F =? PciHeaderTypeDevice) && (Z.land (headerOf a) 0x7F =? PciHeaderTypePciToPciBridge).
(** A device with function 0 only: its other functions are not looked at. *)
Definition single (b d : Z) : bool := present (mkAddr b d 0) && (Z.land (headerOf (mkAddr b d 0)) 0x80 =? 0).

(** The functions of a bus that are looked at. *)
Fixpoint funcsFrom (n : nat) (b d f : Z) : list PciAddress :=
  match n with
  | O => []
  | S n => mkAddr b d f :: if (f =? 0) && single b d then [] else funcsFrom n b d (f + 1)
  end.
Fixpoint devsFrom (n : nat) (b d : Z) : list PciAddress :=
  match n with
  | O => []
  | S n => funcsFrom Functions b d 0 ++ devsFrom n b (d + 1)
  end.
Definition visited (b : Z) : list PciAddress := devsFrom Devices b 0.
Definition devicesOn (b : Z) : list PciAddress := filter isDev (visited b).
Definition bridgesOf (l : list PciAddress) : list Z := (fun a => in8 a PciConfSecondaryBusNumber) <$> filter isBridge l.

(** The buses behind the bridges, from bus 0 on. *)
Inductive reach : Z -> Prop :=
  | reach_root : reach 0
  | reach_step b b' : reach b -> b' ∈ bridgesOf (visited b) -> reach b'.

(** A device function the machine has. *)
Definition isDevice (a : PciAddress) : Prop :=
  0 <= m_device a < 32 /\ 0 <= m_function a < 8 /\ isDev a = true /\
  (m_function a = 0 \/ single (m_bus a) (m_device a) = false).

Lemma funcsFrom_in n b d : forall f a, 0 <= f -> a ∈ funcsFrom n b d f <->
  exists g, a = mkAddr b d g /\ f <= g < f + Z.of_nat n /\ (g = f \/ f <> 0 \/ single b d = false).
Proof.
  induction n as [|n IH]; intros f a Hf; cbn [funcsFrom].
  - split; [by intros ?%not_elem_of_nil | intros (g & _ & ? & _); lia].
  - rewrite elem_of_cons. destruct (Z.eqb_spec f 0) as [->|Hf0]; cbn [andb].
    + destruct (single b d) eqn:Es.
      * rewrite elem_of_nil. split; [intros [->|[]]; exists 0; split; [done|]; split; [lia|by left] | intros (g & -> & ? & [->|[?|?]]); [by left|lia|done]].
      * rewrite IH by lia. split.
        -- intros [->|(g & -> & ? & _)]; eexists; (split; [done|]); (split; [lia|]); by right; right.
        -- intros (g & -> & ? & _). destruct (decide (g = 0)) as [->|]; [by left|]. right. exists g. split; [done|]. split; [lia|]. by right; right.
    + rewrite IH by lia. split.
      * intros [->|(g & -> & ? & _)]; eexists; (split; [done|]); (split; [lia|]); by right; left.
      * intros (g & -> & ? & _). destruct (decide (g = f)) as [->|]; [by left|]. right. exists g. split; [done|]. split; [lia|]. right. left. lia.
Qed.
Lemma devsFrom_in n b : forall d a, 0 <= d -> a ∈ devsFrom n b d <-> exists e, d <= e < d + Z.of_nat n /\ a ∈ funcsFrom Functions b e 0.
Proof.
  induction n as [|n IH]; intros d a Hd; cbn [devsFrom].
  - split; [by intros ?%not_elem_of_nil | intros (e & ? & _); lia].
  - rewrite elem_of_app, IH by lia. split.
    + intros [H|(e & ? & H)]; [exists d | exists e]; (split; [lia|done]).
    + intros (e & ? & H). destruct (decide (e = d)) as [->|]; [by left|]. right. exists e. split; [lia|done].
Qed.
Lemma visited_bus b a : a ∈ visited b -> m_bus a = b.
Proof. unfold visited. rewrite devsFrom_in by lia. intros (e & _ & H). apply funcsFrom_in in H as (g & -> & _); [done|lia]. Qed.
Lemma devicesOn_in b a : a ∈ devicesOn b <-> m_bus a = b /\ isDevice a.
Proof.
  unfold devicesOn, isDevice, visited. rewrite list_elem_of_filter, devsFrom_in by lia. unfold Devices, Functions. split.
  - intros [Hd (e & He & H)]. apply funcsFrom_in in H as (g & -> & Hg & Hs); [|lia]. cbn. apply Is_true_true in Hd. split_and!; (done || lia).
  - intros (<- & Hd & Hf & Hi & Hs). split; [by apply Is_true_true|]. exists (m_device a). split; [lia|]. apply funcsFrom_in; [lia|].
    exists (m_function a). split; [by destruct a|]. split; [lia|]. destruct Hs as [->|?]; [by left | by right; right].
Qed.

Lemma funcsFrom_NoDup n b d : forall f, 0 <= f -> NoDup (funcsFrom n b d f).
Proof.
  induction n as [|n IH]; intros f Hf; cbn [funcsFrom]; [apply NoDup_nil_2|]. destruct ((f =? 0) && single b d).
  - apply NoDup_singleton.
  - apply NoDup_cons. split; [|apply IH; lia]. rewrite funcsFrom_in by lia. intros (g & [= ->] & ? & _). lia.
Qed.
Lemma devsFrom_NoDup n b : forall d, 0 <= d -> NoDup (devsFrom n b d).
Proof.
  induction n as [|n IH]; intros d Hd; cbn [devsFrom]; [apply NoDup_nil_2|]. apply NoDup_app. split; [apply funcsFrom_NoDup; lia|].
  split; [|apply IH; lia]. intros a Ha. apply funcsFrom_in in Ha as (g & -> & _); [|lia]. rewrite devsFrom_in by lia.
  intros (e & ? & H). apply funcsFrom_in in H as (g' & [= -> _] & _); lia.
Qed.
Lemma devicesOn_NoDup b : NoDup (devicesOn b).
Proof. apply NoDup_filter, devsFrom_NoDup. lia. Qed.
End Spec.

(** ** The search is a walk *)

Section Walk.
Context (in8 in16 in32 : PciAddress -> Z -> Z).
Context (hasConf : PciAddress -> bool).
Context (routing : routingTable) (ints : ExternalInterrupts).
Context (sz : Z) (newChunk : KMap Z (list PciDeviceInfo) -> @Chunk Z (list PciDeviceInfo)).
Hypothesis H8 : forall a r, 0 <= in8 a r < 256.

Notation isDev := (isDev in8 in32 hasConf).
Notation isBridge := (isBridge in8 in32 hasConf).
Notation single := (single in8 in32 hasConf).
Notation visited := (visited in8 in32 hasConf).
Notation devicesOn := (devicesOn in8 in32 hasConf).
Notation bridgesOf := (bridgesOf in8 in32 hasConf).
Notation reach := (reach in8 in32 hasConf).
Notation process := (processDevice in16 in32 routing ints sz newChunk).

(** The calls of [processDevice], in order. *)
Fixpoint foldProc (l : list PciAddress) (s : PciState) : outcome PciState :=
  match l with
  | [] => Ok s
  | a :: l => s ← process a (in32 a PciConfSpaceVendorAndDeviceId) s; foldProc l s
  end.
Lemma foldProc_app l1 l2 s : foldProc (l1 ++ l2) s = (s ← foldProc l1 s; foldProc l2 s).
Proof. revert s. induction l1 as [|a l1 IH]; intros s; [done|]. cbn [app foldProc]. rewrite bind_assoc. apply bind_ext. intros s'. apply IH. Qed.

(** The buses put on the stack. *)
Definition pushBus (x : list Z * list bool) (bus : Z) : list Z * list bool :=
  if default true (x.2 !! Z.to_nat bus) then x else (bus :: x.1, <[Z.to_nat bus := true]> x.2).
Definition pushAll (x : list Z * list bool) (l : list Z) : list Z * list bool := foldl pushBus x l.

Lemma pushBus_length x b : length (pushBus x b).2 = length x.2.
Proof. unfold pushBus. destruct (default _ _); [done|]. cbn. by rewrite length_insert. Qed.
Lemma pushAll_length l : forall x, length (pushAll x l).2 = length x.2.
Proof. induction l as [|b l IH]; intros x; cbn [pushAll foldl]; [done|]. fold (pushAll (pushBus x b) l). by rewrite IH, pushBus_length. Qed.

(** What a list of functions does to the scan. *)
Definition after (l : list PciAddress) (x : Scan) : outcome Scan :=
  s ← foldProc (filter isDev l) (found x);
  let p := pushAll (busStack x, scannedBus x) (bridgesOf l) in
  Ok (mkScan p.1 p.2 s).

Lemma after_app l1 l2 x : (x ← after l1 x; after l2 x) = after (l1 ++ l2) x.
Proof.
  unfold after. rewrite filter_app, foldProc_app, bind_assoc. rewrite !bind_assoc. apply bind_ext. intros s. ostep. cbn [found busStack scannedBus].
  unfold bridgesOf, PciBus.bridgesOf, pushAll. rewrite filter_app, fmap_app, foldl_app. apply bind_ext. intros s'.
  by destruct (foldl pushBus (busStack x, scannedBus x) _) as [].
Qed.

Lemma scanFunction_spec b d f x : length (scannedBus x) = 256%nat ->
  scanFunction in8 in16 in32 hasConf routing ints sz newChunk b d f x =
    (x ← after [mkAddr b d f] x; Ok ((f =? 0) && present in32 hasConf (mkAddr b d f) && (Z.land (headerOf in8 (mkAddr b d f)) 0x80 =? 0), x)).
Proof.
  intros Hl. unfold scanFunction, after, bridgesOf, PciBus.bridgesOf. set (a := mkAddr b d f). rewrite !filter_cons, !filter_nil.
  unfold PciBus.isDev, PciBus.isBridge, present, headerOf. destruct (hasConf a); cbn [negb andb]; [|by destruct x; rewrite andb_false_r].
  destruct (in32 a PciConfSpaceVendorAndDeviceId =? 0xFFFFFFFF); cbn [negb andb]; [by destruct x; rewrite andb_false_r|]. rewrite !andb_true_r.
  destruct (Z.land (in8 a PciConfHeaderType) 0x7F =? PciHeaderTypeDevice); cbn [negb andb].
  - do 2 (case_decide as Hx; cbn in Hx; try tauto; clear Hx). cbn [foldProc fmap list_fmap pushAll foldl fst snd]. rewrite !bind_assoc. apply bind_ext. intros s. done.
  - destruct (Z.land (in8 a PciConfHeaderType) 0x7F =? PciHeaderTypePciToPciBridge);
      repeat (case_decide as Hx; cbn in Hx; try tauto; clear Hx); cbn [foldProc fmap list_fmap pushAll foldl]; ostep; [|by destruct x].
    unfold pushBus. cbn [fst snd].
    destruct (lookup_lt_is_Some_2 (scannedBus x) (Z.to_nat (in8 a PciConfSecondaryBusNumber))) as [v Hv].
    { rewrite Hl. pose proof (H8 a PciConfSecondaryBusNumber). lia. }
    rewrite (arr_get_Some _ _ _ Hv), Hv. ostep. cbn [default from_option id]. destruct v; cbn [negb]; ostep; [by destruct x|].
    by rewrite (arr_set_Some _ _ _ _ Hv).
Qed.

Lemma after_length l x x' : after l x = Ok x' -> length (scannedBus x') = length (scannedBus x).
Proof. unfold after. intros E. bind_inv E. injection E as <-. cbn [scannedBus]. by rewrite pushAll_length. Qed.

Lemma bind_ext_Ok {A B} (m : outcome A) (f g : A -> outcome B) : (forall a, m = Ok a -> f a = g a) -> mbind f m = mbind g m.
Proof. intros H. destruct m; try done. by apply H. Qed.

Lemma scanFunctions_spec n b d : forall f x, 0 <= f -> length (scannedBus x) = 256%nat ->
  scanFunctions in8 in16 in32 hasConf routing ints sz newChunk n b d f x = after (funcsFrom in8 in32 hasConf n b d f) x.
Proof.
  induction n as [|n IH]; intros f x Hf Hl; cbn [scanFunctions funcsFrom]; [by destruct x|].
  rewrite scanFunction_spec, bind_assoc by done.
  match goal with |- _ = after (_ :: ?l) _ => rewrite (eq_sym (after_app [mkAddr b d f] l x) : after (mkAddr b d f :: l) x = _) end.
  refine (bind_ext_Ok (after [mkAddr b d f] x) _ _ _). intros y Hy. ostep.
  apply after_length in Hy as Hl'. unfold PciBus.single. destruct (Z.eqb_spec f 0) as [->|]; cbn [andb].
  - destruct (present in32 hasConf (mkAddr b d 0) && _); [by destruct y|]. apply IH; [lia|congruence].
  - apply IH; [lia|congruence].
Qed.
Lemma scanDevices_spec n b : forall d x, 0 <= d -> length (scannedBus x) = 256%nat ->
  scanDevices in8 in16 in32 hasConf routing ints sz newChunk n b d x = after (devsFrom in8 in32 hasConf n b d) x.
Proof.
  induction n as [|n IH]; intros d x Hd Hl; cbn [scanDevices devsFrom]; [by destruct x|].
  rewrite scanFunctions_spec, <- after_app by (done || lia). refine (bind_ext_Ok (after _ x) _ _ _). intros y Hy. apply after_length in Hy. apply IH; [lia|congruence].
Qed.

(** The buses on the stack and the ones done are those marked, and can be reached. *)
Record DI (stack : list Z) (scanned : list bool) (D : list Z) : Prop := mkDI {
  di_len : length scanned = 256%nat;
  di_nodup : NoDup (stack ++ D);
  di_in : forall b, b ∈ stack ++ D <-> 0 <= b < 256 /\ scanned !! Z.to_nat b = Some true;
  di_reach : forall b, b ∈ stack ++ D -> reach b }.

Lemma pushBus_DI stack scanned D b : DI stack scanned D -> 0 <= b < 256 -> reach b ->
  let p := pushBus (stack, scanned) b in DI p.1 p.2 D /\ (forall x, x ∈ stack ++ D -> x ∈ p.1 ++ D) /\ b ∈ p.1 ++ D.
Proof.
  intros HD Hb Hr. pose proof HD as [Hl Hn Hi Hre]. cbn zeta. unfold pushBus. cbn [fst snd].
  destruct (lookup_lt_is_Some_2 scanned (Z.to_nat b)) as [v Hv]; [lia|]. rewrite Hv. cbn [default from_option id]. destruct v; cbn [fst snd].
  - split; [done|]. split; [done|]. by apply Hi.
  - assert (b ∉ stack ++ D) as Hnb by (intros [_ ?]%Hi; congruence). split; [|split; [set_solver | set_solver]]. split.
    + by rewrite length_insert.
    + cbn. by apply NoDup_cons.
    + intros x. cbn [app]. rewrite elem_of_cons, Hi. split.
      * intros [->|[Hx Hs]]; [split; [done|]; apply list_lookup_insert_eq; lia|]. split; [done|].
        rewrite list_lookup_insert_ne; [done|]. intros E. assert (x = b) as -> by lia. congruence.
      * intros [Hx Hs]. destruct (decide (x = b)) as [->|Hne]; [by left|]. right. split; [done|]. rewrite list_lookup_insert_ne in Hs; [done | lia].
    + intros x. cbn [app]. rewrite elem_of_cons. intros [->|Hx]; [done | by apply Hre].
Qed.

Lemma pushAll_DI l : forall stack scanned D, DI stack scanned D -> (forall b, b ∈ l -> 0 <= b < 256 /\ reach b) ->
  let p := pushAll (stack, scanned) l in DI p.1 p.2 D /\ (forall x, x ∈ stack ++ D -> x ∈ p.1 ++ D) /\ (forall b, b ∈ l -> b ∈ p.1 ++ D).
Proof.
  induction l as [|b l IH]; intros stack scanned D HD Hl; cbn zeta; cbn [pushAll foldl fst snd].
  - split; [done|]. split; [done|]. by intros b Hb%not_elem_of_nil.
  - destruct (Hl b ltac:(left)) as [Hb Hr]. destruct (pushBus_DI stack scanned D b HD Hb Hr) as (HD1 & Hm & Hin). cbn zeta in *.
    destruct (pushBus (stack, scanned) b) as [st sc] eqn:E. cbn [fst snd] in *.
    destruct (IH st sc D HD1) as (HD2 & Hm2 & Hin2); [intros y Hy; apply Hl; by right|]. cbn zeta in *.
    split; [exact HD2|]. split; [intros y Hy; by apply Hm2, Hm|]. intros y [->|Hy]%elem_of_cons; [by apply Hm2 | by apply Hin2].
Qed.

Lemma DI_bound stack scanned D : DI stack scanned D -> (length (stack ++ D) <= 256)%nat.
Proof.
  intros HD. change 256%nat with (length (Z.of_nat <$> seq 0 256)). apply submseteq_length, NoDup_submseteq; [apply (di_nodup _ _ _ HD)|].
  intros b [Hb _]%(di_in _ _ _ HD). apply list_elem_of_fmap. exists (Z.to_nat b). split; [lia|]. apply elem_of_seq. lia.
Qed.

Definition Closed (D W : list Z) : Prop := forall b b', b ∈ D -> b' ∈ bridgesOf (visited b) -> b' ∈ W.

Lemma bridgesOf_range l b : b ∈ bridgesOf l -> 0 <= b < 256.
Proof. unfold bridgesOf, PciBus.bridgesOf. intros (a & -> & _)%list_elem_of_fmap. apply H8. Qed.

Lemma searchLoop_spec fuel : forall stack scanned D, DI stack scanned D -> Closed D (stack ++ D) -> (256 <= fuel + length D)%nat ->
  exists D' sc, (forall s, searchLoop in8 in16 in32 hasConf routing ints sz newChunk fuel (mkScan stack scanned s) =
      (s ← foldProc (concat (devicesOn <$> D')) s; Ok (mkScan [] sc s))) /\
    DI [] sc (D ++ D') /\ Closed (D ++ D') (D ++ D') /\ (forall b, b ∈ stack ++ D -> b ∈ D ++ D').
Proof.
  induction fuel as [|fuel IH]; intros stack scanned D HD HC Hf; pose proof (DI_bound _ _ _ HD) as Hb;
    (destruct stack as [|cur rest]; [exists [], scanned; rewrite app_nil_r; cbn [app] in *; split; [done|]; split; [done|]; by split|]);
    rewrite length_app in Hb; cbn [length] in Hb; [lia|].
  assert (DI rest scanned (D ++ [cur])) as HD1.
  { destruct HD as [Hl Hn Hi Hr]. assert (forall b, b ∈ rest ++ D ++ [cur] <-> b ∈ (cur :: rest) ++ D) as Hperm by (intros b; set_solver).
    split; [done | | intros b; rewrite Hperm; apply Hi | intros b Hb'; apply Hr; by apply Hperm].
    eapply NoDup_Permutation_proper; [|exact Hn]. cbn [app]. rewrite app_assoc. by rewrite <- Permutation_cons_append. }
  assert (reach cur) as Hrc by (apply (di_reach _ _ _ HD); left).
  destruct (pushAll_DI (bridgesOf (visited cur)) rest scanned (D ++ [cur]) HD1) as (HD2 & Hm & Hin).
  { intros b Hb'. split; [by eapply bridgesOf_range | by eapply reach_step]. }
  cbn zeta in *. destruct (pushAll (rest, scanned) (bridgesOf (visited cur))) as [st sc] eqn:Ep. cbn [fst snd] in *.
  destruct (IH st sc (D ++ [cur]) HD2) as (D' & sc' & E & HD3 & HC3 & HM3).
  - intros b b' Hb1 Hb2. apply elem_of_app in Hb1 as [Hb1| ->%list_elem_of_singleton]; [|by apply Hin].
    apply Hm. pose proof (HC b b' Hb1 Hb2) as Hx. set_solver.
  - rewrite length_app. cbn [length]. lia.
  - exists (cur :: D'), sc'. rewrite <- app_assoc in HD3, HC3, HM3.
    assert (forall b, b ∈ (cur :: rest) ++ D -> b ∈ D ++ cur :: D') as HM4.
    { intros b Hb'. apply HM3. apply Hm. set_solver. }
    split; [|done]. intros s. cbn [searchLoop busStack scannedBus found].
    rewrite scanDevices_spec; [| lia | apply (di_len _ _ _ HD)]. fold (visited cur). unfold after. cbn [found busStack scannedBus].
    rewrite Ep. cbn [fst snd fmap list_fmap concat]. rewrite foldProc_app, !bind_assoc. apply bind_ext. intros s'. ostep. apply E.
Qed.

Lemma elem_concat {A} (x : A) (ls : list (list A)) : x ∈ concat ls <-> exists l, x ∈ l /\ l ∈ ls.
Proof.
  induction ls as [|l ls IH]; cbn [concat].
  - split; [by intros ?%not_elem_of_nil | by intros (l & _ & ?%not_elem_of_nil)].
  - rewrite elem_of_app, IH. setoid_rewrite elem_of_cons. naive_solver.
Qed.
Lemma devices_NoDup D : NoDup D -> NoDup (concat (devicesOn <$> D)).
Proof.
  induction 1 as [|b D Hb _ IH]; cbn [fmap list_fmap concat]; [apply NoDup_nil_2|]. apply NoDup_app. split_and!; [apply devicesOn_NoDup | | exact IH].
  intros a Ha (l & Hl & Hin)%elem_concat. apply list_elem_of_fmap in Hin as (b' & -> & Hb'). apply devicesOn_in in Ha as [<- _], Hl as [<- _]. done.
Qed.

(** The devices of the machine are found, each once. *)
Lemma search_trace : exists trace, NoDup trace /\
  (forall a, a ∈ trace <-> reach (m_bus a) /\ isDevice in8 in32 hasConf a) /\
  search in8 in16 in32 hasConf routing ints sz newChunk = foldProc trace (mkPci newMap []).
Proof.
  destruct (searchLoop_spec 256 [0] (true :: replicate 255 false) []) as (D & sc & E & HD & HC & HM).
  - split.
    + done.
    + apply NoDup_singleton.
    + intros b. rewrite app_nil_r, list_elem_of_singleton. split; [by intros ->|]. intros [Hb Hs].
      destruct (decide (b = 0)) as [|Hne]; [done|]. rewrite lookup_cons_ne_0 in Hs by lia. apply lookup_replicate in Hs as [? _]. done.
    + intros b. rewrite app_nil_r, list_elem_of_singleton. intros ->. apply reach_root.
  - by intros b b' Hb%not_elem_of_nil.
  - cbn. lia.
  - cbn [app] in *. exists (concat (devicesOn <$> D)). assert (forall b, b ∈ D <-> reach b) as HDr.
    { intros b. split; [apply (di_reach _ _ _ HD)|]. induction 1 as [|b b' _ IHb Hb']; [|by eapply HC]. apply HM. left. }
    split_and!.
    + apply devices_NoDup. apply (di_nodup _ _ _ HD).
    + intros a. rewrite elem_concat. setoid_rewrite list_elem_of_fmap. split.
      * intros (l & Ha & b & -> & Hb). apply devicesOn_in in Ha as [<- Hd]. by split; [apply HDr|].
      * intros [Hr Hd]. exists (devicesOn (m_bus a)). split; [by apply devicesOn_in|]. exists (m_bus a). split; [done | by apply HDr].
    + unfold search. rewrite E, bind_assoc. ostep. by destruct (foldProc _ _).
Qed.

(** ** Reading and filing a device *)

(** Every registered bus has a registered parent with a number not above its own. *)
Record routingOk (t : routingTable) : Prop := mkRoutingOk {
  ro_len : length t = 256%nat;
  ro_parent : forall bus r, 0 <= bus -> t !! Z.to_nat bus = Some (Some r) ->
    0 <= r_parent r <= bus /\ exists r', t !! Z.to_nat (r_parent r) = Some (Some r');
  ro_dims : forall bus r, t !! bus = Some (Some r) -> length (r_irq r) = 32%nat /\ Forall (fun l => length l = 4%nat) (r_irq r) }.

Lemma irqAt_ok t bus r d p : routingOk t -> t !! bus = Some (Some r) -> 0 <= d < 32 -> 0 <= p < 4 -> exists irq, irqAt r d p = Ok irq.
Proof.
  intros Ht Hr Hd Hp. destruct (ro_dims _ Ht _ _ Hr) as [H1 H2]. unfold irqAt.
  destruct (lookup_lt_is_Some_2 (r_irq r) (Z.to_nat d)) as [l Hl]; [lia|]. rewrite (arr_get_Some _ _ _ Hl). ostep.
  pose proof (Forall_lookup_1 _ _ _ _ H2 Hl) as Hll. cbn in Hll. destruct (lookup_lt_is_Some_2 l (Z.to_nat p)) as [x Hx]; [lia|].
  exists x. by apply arr_get_Some.
Qed.

Lemma irqLoop_ok t : routingOk t -> forall fuel irq bus offset r, 0 <= bus < Z.of_nat fuel -> t !! Z.to_nat bus = Some (Some r) ->
  exists x, irqLoop fuel t irq bus offset = Ok x.
Proof.
  intros Ht. induction fuel as [|fuel IH]; intros irq bus offset r Hb Hr; [lia|]. cbn [irqLoop]. destruct (irq =? 0); [|by eexists].
  unfold routingAt. rewrite (arr_get_Some _ _ _ Hr). ostep. destruct (Z.eqb_spec bus (r_parent r)) as [|Hne]; [by eexists|].
  destruct (ro_parent _ Ht bus r ltac:(lia) Hr) as (Hp & r' & Hr'). rewrite (arr_get_Some _ _ _ Hr'). ostep.
  destruct (irqAt_ok t _ r' 0 (u32 (offset + r_device r) mod Pins) Ht Hr') as [x Ex]; [lia | apply Z.mod_pos_bound; unfold Pins; lia|].
  rewrite Ex. ostep. eapply IH; [|exact Hr']. lia.
Qed.

Lemma getPciDeviceIrq_ok t bus device pin : routingOk t -> 0 <= bus < 256 -> 0 <= device ->
  exists irq, getPciDeviceIrq Buses t bus device pin = Ok irq.
Proof.
  intros Ht Hb Hd. unfold getPciDeviceIrq. destruct (_ || _ || _) eqn:E; [by eexists|]. apply orb_false_elim in E as [E Ed]. apply orb_false_elim in E as [Ep _].
  apply Z.leb_gt in Ep, Ed. unfold Pins, Devices in *.
  destruct (lookup_lt_is_Some_2 t (Z.to_nat bus)) as [[r|] Hr]; [rewrite (ro_len _ Ht); lia | | rewrite (arr_get_Some _ _ _ Hr); by eexists].
  rewrite (arr_get_Some _ _ _ Hr). ostep.
  destruct (irqAt_ok t _ r device (u32 (pin - 1)) Ht Hr) as [x Ex]; [lia | split; [apply Z.mod_pos_bound; lia|lia]|]. rewrite Ex. ostep.
  eapply irqLoop_ok; [done | unfold Buses; lia | exact Hr].
Qed.

Hypothesis Hrouting : routingOk routing.
Hypothesis Hdata : length (Interrupts.m_data ints) = 64%nat.
Hypothesis Hredir : length (m_irqHasBeenRedirected ints) = 64%nat.

Lemma chechRedirectIrq_ok old new : exists b, chechRedirectIrq old new ints = Ok b.
Proof.
  unfold chechRedirectIrq, MaxIrq, getData, idx. destruct (_ || _) eqn:E; [by eexists|]. apply orb_false_elim in E as [_ E]. apply Z.leb_gt in E.
  destruct (lookup_lt_is_Some_2 (Interrupts.m_data ints) (Z.to_nat new)) as [d Hd]; [lia|]. rewrite (arr_get_Some _ _ _ Hd). ostep.
  destruct (m_mmio d =? nullptr); [by eexists|].
  destruct (lookup_lt_is_Some_2 (m_irqHasBeenRedirected ints) (Z.to_nat new)) as [b Hb]; [lia|].
  destruct (Z.ltb_spec old 64).
  - destruct (lookup_lt_is_Some_2 (m_irqHasBeenRedirected ints) (Z.to_nat old)) as [o Ho]; [lia|].
    rewrite (arr_get_Some _ _ _ Ho). ostep. destruct o; [by eexists|]. rewrite (arr_get_Some _ _ _ Hb). by eexists.
  - ostep. rewrite (arr_get_Some _ _ _ Hb). by eexists.
Qed.

Lemma readInfo_ok a id : 0 <= m_bus a < 256 -> 0 <= m_device a -> exists info w, readInfo in16 in32 routing ints a id = Ok (info, w) /\
  m_pciAddress info = a /\ classKey (m_classCode info) (m_subclassCode info) =
    classKey (Z.land (Z.shiftr (in32 a PciConfComplexClassId) 24) 0xFF) (Z.land (Z.shiftr (in32 a PciConfComplexClassId) 16) 0xFF).
Proof.
  intros Hb Hd. unfold readInfo. assert (forall irq pin, exists p, deviceIrq routing ints a irq pin = Ok p) as Hirq.
  { intros irq pin. unfold deviceIrq. destruct (negb _ && negb _); [|by eexists].
    destruct (getPciDeviceIrq_ok routing (m_bus a) (m_device a) pin Hrouting Hb Hd) as [x ->]. ostep.
    destruct (chechRedirectIrq_ok irq x) as [b ->]. by eexists. }
  match goal with |- context [deviceIrq _ _ _ ?i ?p] => destruct (Hirq i p) as [[irq w] E] end. rewrite E. ostep. by eexists _, _.
Qed.

Context (Hsz : 0 < sz) (Hnew : forall s, freshChunk sz (newChunk s) s).

Definition keyOf (i : PciDeviceInfo) : Z := classKey (m_classCode i) (m_subclassCode i).
(** A device joins the others of its class. *)
Definition group (l : list (Z * list PciDeviceInfo)) (i : PciDeviceInfo) : list (Z * list PciDeviceInfo) :=
  upsert (keyOf i) (default [] (lookupKey (keyOf i) l) ++ [i]) l.

Lemma upsert_upsert {V} (k : Z) (v w : V) l : upsert k v (upsert k w l) = upsert k v l.
Proof.
  unfold upsert. destruct (decide (k ∈ l.*1)) as [Hk|Hk].
  - rewrite decide_True; [|].
    + rewrite <- list_fmap_compose. apply list_fmap_ext. intros i x _. cbn.
      destruct (decide (x.1 = k)) as [E|E]; cbn; [by rewrite decide_True by done | by rewrite decide_False by done].
    + rewrite <- list_fmap_compose. erewrite list_fmap_ext; [exact Hk|]. intros i x _. cbn. by case_decide.
  - rewrite decide_True by left. cbn. rewrite decide_True by done. f_equal. rewrite <- (list_fmap_id l) at 2. apply list_fmap_ext.
    intros i x Hx. cbn. rewrite decide_False; [done|]. intros <-. apply Hk. apply list_elem_of_fmap. exists x. split; [done | by eapply list_elem_of_lookup_2].
Qed.

Lemma updSecond_run (s : KMap Z (list PciDeviceInfo)) ps fs p k v f : MRel khashInt s ps fs -> (p, (k, v)) ∈ ps ->
  updNode p (fun n => setSecond (f (m_second n)) n) s = updNode p (setSecond (f v)) s.
Proof.
  intros HR Hp. destruct (mr_data _ _ _ _ HR p k v Hp) as (n & Hn & _ & Hv). unfold updNode. rewrite (deref_Some _ _ _ Hn). ostep. by rewrite Hv.
Qed.

Lemma setEntry_upsert {V} (k : Z) (v : V) (ps : list (Z * (Z * V))) : k ∈ (snd <$> ps).*1 -> snd <$> (setEntry k v <$> ps) = upsert k v (snd <$> ps).
Proof.
  intros Hk. unfold upsert. rewrite decide_True by done. rewrite <- !list_fmap_compose. apply list_fmap_ext. intros i x _. unfold setEntry. cbn. by case_decide.
Qed.

Lemma fileDevice_spec info s ps fs : MRel khashInt s ps fs -> m_rehashSize s = 8 ->
  (keyOf info ∉ (snd <$> ps).*1 -> (length ps < 8)%nat) ->
  exists s' ps' fs', fileDevice sz newChunk info s = Ok s' /\ MRel khashInt s' ps' fs' /\ snd <$> ps' = group (snd <$> ps) info /\ m_rehashSize s' = 8.
Proof.
  intros HR Hre Hfew. unfold fileDevice, index. fold (keyOf info). rewrite (find_spec khashInt (keyOf info) s ps fs HR). ostep.
  unfold group. rewrite lookup_entry. pose proof (entry_keys (keyOf info) ps) as Hke.
  assert (forall s1 ps1 fs1 p v, MRel khashInt s1 ps1 fs1 -> m_rehashSize s1 = 8 -> (p, (keyOf info, v)) ∈ ps1 ->
    exists s' ps' fs', updNode p (fun n => setSecond (m_second n ++ [info]) n) s1 = Ok s' /\ MRel khashInt s' ps' fs' /\
      snd <$> ps' = upsert (keyOf info) (v ++ [info]) (snd <$> ps1) /\ m_rehashSize s' = 8) as Hupd.
  { intros s1 ps1 fs1 p v HR1 Hre1 Hp. rewrite (updSecond_run s1 ps1 fs1 p (keyOf info) v (fun l => l ++ [info]) HR1 Hp).
    destruct (update_spec khashInt s1 ps1 fs1 p (keyOf info) v (v ++ [info]) HR1 Hp) as (s' & E & HR'). exists s', (setEntry (keyOf info) (v ++ [info]) <$> ps1), fs1.
    split; [done|]. split; [done|]. split; [apply setEntry_upsert, list_elem_of_fmap; exists (keyOf info, v); split; [done|]; apply list_elem_of_fmap; by exists (p, (keyOf info, v))|].
    unfold updNode in E. bind_inv E. by injection E as <-. }
  destruct (entry (keyOf info) ps) as [[p [k v]]|] eqn:Ee; cbn [from_option fst].
  - apply entry_Some in Ee as [Hp Hk]. cbn in Hk. subst k. destruct (valueAt_entry khashInt s ps fs p (keyOf info) v HR Hp) as [Hp0 _].
    destruct (Z.eqb_spec p nullptr); [done|]. cbn [negb]. ostep. by apply (Hupd s ps fs p v).
  - change (nullptr =? nullptr) with true. cbn [negb].
    destruct (emplace_spec khashInt sz Hsz (newChunk s) (keyOf info) [] s ps fs HR) as (p & s1 & ps1 & fs1 & -> & HR1 & El & Hp & Hre1 & _).
    { intros Hk%keys_eq. specialize (Hfew Hk). rewrite Hre, (mr_size _ _ _ _ HR). split; [lia|]. split; [lia|]. intros _. apply Hnew. }
    ostep. destruct (Hupd s1 ps1 fs1 p [] HR1 ltac:(congruence) Hp) as (s' & ps' & fs' & E & HR' & El' & Hre').
    exists s', ps', fs'. split; [done|]. split; [done|]. split; [|done]. by rewrite El', El, upsert_upsert.
Qed.

(** ** All of them *)

Context (classes : list Z).
Hypothesis Hclasses : (length classes <= 8)%nat.
(** The class of the device at an address. *)
Definition classOf (a : PciAddress) : Z :=
  classKey (Z.land (Z.shiftr (in32 a PciConfComplexClassId) 24) 0xFF) (Z.land (Z.shiftr (in32 a PciConfComplexClassId) 16) 0xFF).

Lemma group_keys l i : forall k, k ∈ (group l i).*1 -> k = keyOf i \/ k ∈ l.*1.
Proof.
  intros k. unfold group, upsert. destruct (decide _).
  - rewrite <- list_fmap_compose. intros (x & -> & Hx)%list_elem_of_fmap. cbn. case_decide; [by left|]. right. apply list_elem_of_fmap. by exists x.
  - cbn. rewrite elem_of_cons. tauto.
Qed.

(** What is written back to configuration space. *)
Definition writtenOf (iw : PciDeviceInfo * bool) : list (PciAddress * Z * Z) :=
  if iw.2 then [(m_pciAddress iw.1, PciConfIrq, u8 (m_irq iw.1))] else [].

Lemma foldProc_spec trace : forall s ps fs, (forall a, a ∈ trace -> 0 <= m_bus a < 256 /\ 0 <= m_device a /\ classOf a ∈ classes) ->
  MRel khashInt (m_devs s) ps fs -> m_rehashSize (m_devs s) = 8 -> (forall k, k ∈ (snd <$> ps).*1 -> k ∈ classes) ->
  exists s' infos, foldProc trace s = Ok s' /\
    Forall2 (fun a iw => readInfo in16 in32 routing ints a (in32 a PciConfSpaceVendorAndDeviceId) = Ok iw) trace infos /\
    MInv khashInt (m_devs s') (foldl group (snd <$> ps) infos.*1) /\ confWrites s' = confWrites s ++ concat (writtenOf <$> infos).
Proof.
  induction trace as [|a trace IH]; intros s ps fs Ht HR Hre Hk; cbn [foldProc].
  - exists s, []. split; [done|]. split; [constructor|]. split; [by exists ps, fs | by rewrite app_nil_r].
  - destruct (Ht a ltac:(left)) as (Hb & Hd & Hc). destruct (readInfo_ok a (in32 a PciConfSpaceVendorAndDeviceId) Hb Hd) as (info & w & E & Ha & Ek).
    unfold processDevice. rewrite E. ostep. fold (keyOf info) (classOf a) in Ek.
    destruct (fileDevice_spec info (m_devs s) ps fs HR Hre) as (d' & ps' & fs' & -> & HR' & El & Hre').
    { intros Hn. assert (length (keyOf info :: (snd <$> ps).*1) <= length classes)%nat as Hle.
      { apply submseteq_length, NoDup_submseteq.
        - apply NoDup_cons. split; [done|]. rewrite <- list_fmap_compose. apply (mr_keys _ _ _ _ HR).
        - intros k [->|Hin]%elem_of_cons; [by rewrite Ek | by apply Hk]. }
      cbn [length] in Hle. rewrite !length_fmap in Hle. lia. }
    ostep. match goal with |- context [foldProc trace ?s1] => destruct (IH s1 ps' fs') as (s' & infos & E' & HF & HI & HW) end.
    + intros a' Ha'. apply Ht. by right.
    + exact HR'.
    + exact Hre'.
    + intros k Hin. rewrite El in Hin. apply group_keys in Hin as [->|Hin]; [by rewrite Ek | by apply Hk].
    + exists s', ((info, w) :: infos). split; [exact E'|]. split; [by constructor|]. cbn [foldl fmap list_fmap fst concat].
      split; [by rewrite <- El|]. rewrite HW. cbn [confWrites]. unfold writtenOf at 2. cbn [fst snd]. by rewrite Ha, <- app_assoc.
Qed.

Lemma lookupKey_cons {V} (k x : Z) (y : V) l : lookupKey k ((x, y) :: l) = if decide (x = k) then Some y else lookupKey k l.
Proof. unfold lookupKey. cbn [list_find fst]. destruct (decide (x = k)); [done|]. by destruct (list_find _ l) as [[]|]. Qed.

Lemma lookup_set {V} (k k' : Z) (v : V) l :
  lookupKey k ((fun x => if decide (x.1 = k') then (k', v) else x) <$> l) =
  if decide (k = k') then (if decide (k' ∈ l.*1) then Some v else None) else lookupKey k l.
Proof.
  induction l as [|[x y] l IH]; [cbn; destruct (decide (k = k')); [|done]; by rewrite decide_False by apply not_elem_of_nil|]. rewrite !fmap_cons. cbn [fst].
  destruct (decide (x = k')) as [->|Hx]; rewrite !lookupKey_cons, IH.
  - destruct (decide (k = k')) as [->|Hk]; [by rewrite !decide_True by set_solver|]. by rewrite !(decide_False (P := k' = k)) by congruence.
  - destruct (decide (k = k')) as [->|Hk]; [|done]. rewrite decide_False by done. apply decide_ext. set_solver.
Qed.

Lemma lookup_upsert {V} (k k' : Z) (v : V) l : lookupKey k (upsert k' v l) = if decide (k = k') then Some v else lookupKey k l.
Proof.
  unfold upsert. destruct (decide (k' ∈ l.*1)) as [Hin|Hin].
  - rewrite lookup_set. by rewrite (decide_True (P := k' ∈ l.*1)) by done.
  - rewrite lookupKey_cons. destruct (decide (k = k')); [by rewrite decide_True by congruence | by rewrite decide_False by congruence].
Qed.

Lemma lookup_groups k infos : forall l, lookupKey k (foldl group l infos) =
  match filter (fun i => keyOf i = k) infos with [] => lookupKey k l | f => Some (default [] (lookupKey k l) ++ f) end.
Proof.
  induction infos as [|i infos IH]; intros l; cbn [foldl]; [done|]. rewrite IH, filter_cons. unfold group at 1 2. rewrite lookup_upsert.
  destruct (decide (keyOf i = k)) as [<-|Hne].
  - rewrite decide_True by done. destruct (filter _ infos); cbn; [done|]. by rewrite <- app_assoc.
  - rewrite decide_False by congruence. done.
Qed.

Lemma find_value s (l : list (Z * list PciDeviceInfo)) key : MInv khashInt s l ->
  exists it, find khashInt key s = Ok it /\ valueAt it s = lookupKey key l.
Proof.
  intros (ps & fs & HR & <-). rewrite (find_spec khashInt key s ps fs HR), lookup_entry. eexists. split; [done|].
  destruct (entry key ps) as [[p [k v]]|] eqn:Ee; [|done]. apply entry_Some in Ee as [Hp _]. apply (valueAt_entry khashInt s ps fs p k v HR Hp).
Qed.

Lemma reach_range b : reach b -> 0 <= b < 256.
Proof. destruct 1 as [|b b' _ Hb]; [lia | by eapply bridgesOf_range]. Qed.

(** The devices of a class, in the order they were found. *)
Definition ofClass (key : Z) (infos : list PciDeviceInfo) : option (list PciDeviceInfo) :=
  match filter (fun i => keyOf i = key) infos with [] => None | l => Some l end.

Hypothesis Hall : forall a, reach (m_bus a) -> isDevice in8 in32 hasConf a -> classOf a ∈ classes.

(** C27: the PCI search terminates and finds every device.  When the routing table has a
    registered parent for every registered bus, numbered no higher than the bus itself
    (otherwise a null entry is followed or the walk does not end,
    [Demo.parent_not_registered], [Demo.parents_in_circle]), and the machine's devices are
    of at most eight classes (a ninth makes the hash map grow, which loses entries,
    [KMap.Demo.growing_loses_keys]), [search] finishes without
    looking at a bus twice; the device functions it reads are exactly those on bus 0 and
    on the buses behind the bridges, each once; a device whose class has been seen is
    appended to the list of that class and any other starts one, so that looking a class
    up in the hash map gives its devices in the order they were found; and configuration
    space is written only for the devices whose interrupt was rerouted. *)
Theorem pci_search_correct :
  exists trace infos s, search in8 in16 in32 hasConf routing ints sz newChunk = Ok s /\
    NoDup trace /\ (forall a, a ∈ trace <-> reach (m_bus a) /\ isDevice in8 in32 hasConf a) /\
    Forall2 (fun a iw => readInfo in16 in32 routing ints a (in32 a PciConfSpaceVendorAndDeviceId) = Ok iw) trace infos /\
    (forall key, exists it, find khashInt key (m_devs s) = Ok it /\ valueAt it (m_devs s) = ofClass key infos.*1) /\
    confWrites s = concat (writtenOf <$> infos).
Proof.
  destruct search_trace as (trace & Hnd & Hin & E).
  destruct (newMap_MInv (K := Z) (V := list PciDeviceInfo) khashInt) as (ps & fs & HR & E0).
  destruct (foldProc_spec trace (mkPci newMap []) ps fs) as (s & infos & Es & HF & HI & HW).
  - intros a [Hr Hd]%Hin. split; [by apply reach_range|]. split; [apply Hd | by apply Hall].
  - exact HR.
  - done.
  - rewrite E0. intros k []%not_elem_of_nil.
  - rewrite E0 in HI. exists trace, infos, s. rewrite E. split_and!; [done..| |done]. intros key. destruct (find_value (m_devs s) _ key HI) as (it & Ef & Ev).
    exists it. split; [done|]. rewrite Ev, lookup_groups. unfold ofClass. by destruct (filter _ _).
Qed.
End Walk.

(** ** Building the routing table *)

Lemma insert_cases {A} (l : list A) i j x y : <[i := x]> l !! j = Some y -> i = j /\ y = x \/ i <> j /\ l !! j = Some y.
Proof. destruct (decide (i = j)) as [->|Hne]; [|rewrite list_lookup_insert_ne by done; by right]. intros [(_ & E & _)|[? _]]%list_lookup_insert_Some; [by left|done]. Qed.

Lemma arr_set_lt {A} (l : list A) i x : (i < length l)%nat -> arr_set l i x = Ok (<[i := x]> l).
Proof. intros [y Hy]%lookup_lt_is_Some_2. by eapply arr_set_Some. Qed.

(** A bus whose parent is itself, or registered before with a lower number, may be registered. *)
Lemma registerPciRoutingBus_ok bus parent device t : routingOk t -> 0 <= bus < 256 -> 0 <= device < 32 ->
  parent = bus \/ 0 <= parent < bus /\ (exists r, t !! Z.to_nat parent = Some (Some r)) ->
  exists t', registerPciRoutingBus bus parent device t = Ok (true, t') /\ routingOk t' /\
    (exists r, t' !! Z.to_nat bus = Some (Some r)) /\ forall b r, t !! b = Some (Some r) -> exists r', t' !! b = Some (Some r').
Proof.
  intros Ht Hb Hd Hp. unfold registerPciRoutingBus, Buses, Devices.
  destruct (Z.leb_spec (Z.of_nat 256) bus), (Z.leb_spec (Z.of_nat 256) parent), (Z.leb_spec (Z.of_nat 32) device); try lia. cbn [orb].
  pose proof (ro_len _ Ht) as Hl. rewrite arr_set_lt by lia. ostep. eexists. split; [done|]. set (r0 := mkRouting _ _ _).
  assert (forall b r, t !! b = Some (Some r) -> exists r', <[Z.to_nat bus := Some r0]> t !! b = Some (Some r')) as Hmono.
  { intros b r Hr. destruct (decide (Z.to_nat bus = b)) as [<-|]; [exists r0; apply list_lookup_insert_eq; lia | exists r; by rewrite list_lookup_insert_ne]. }
  assert (<[Z.to_nat bus := Some r0]> t !! Z.to_nat bus = Some (Some r0)) as Hself by (apply list_lookup_insert_eq; lia).
  split_and!; [|by exists r0|exact Hmono]. split.
  - by rewrite length_insert.
  - intros b r Hb0 [[E [= ->]]|[_ Hr]]%insert_cases.
    + cbn [r0 r_parent]. assert (b = bus) as -> by lia. destruct Hp as [->|[? [r1 Hr1]]]; (split; [lia|]); [by exists r0 | by eapply Hmono].
    + destruct (ro_parent _ Ht b r Hb0 Hr) as [? [r1 Hr1]]. split; [done | by eapply Hmono].
  - intros b r [[_ [= ->]]|[_ Hr]]%insert_cases; [|by apply (ro_dims _ Ht b)]. split; [done|]. apply Forall_replicate. done.
Qed.

Lemma addPciDeviceRouting_ok bus device pin irq t r : routingOk t -> 0 <= bus < 256 -> 0 <= device < 32 -> 1 <= pin <= 4 -> t !! Z.to_nat bus = Some (Some r) ->
  exists t', addPciDeviceRouting bus device pin irq t = Ok (true, t') /\ routingOk t' /\
    exists r', t' !! Z.to_nat bus = Some (Some r') /\ irqAt r' device (pin - 1) = Ok irq.
Proof.
  intros Ht Hb Hd Hp Hr. unfold addPciDeviceRouting, Buses, Devices, Pins. rewrite u32_small by lia.
  destruct (Z.leb_spec 4 (pin - 1)), (Z.leb_spec (Z.of_nat 256) bus), (Z.leb_spec (Z.of_nat 32) device); try lia. cbn [orb].
  rewrite (arr_get_Some _ _ _ Hr). ostep. destruct (ro_dims _ Ht _ _ Hr) as [Hd1 Hd2]. destruct (lookup_lt_is_Some_2 (r_irq r) (Z.to_nat device)) as [l Hll]; [lia|].
  pose proof (Forall_lookup_1 _ _ _ _ Hd2 Hll) as Hd4. cbn in Hd4. pose proof (ro_len _ Ht) as Hl.
  rewrite (arr_get_Some _ _ _ Hll). ostep. rewrite arr_set_lt by lia. ostep. rewrite arr_set_lt by lia. ostep. rewrite arr_set_lt by lia. ostep.
  eexists. split; [done|]. set (r0 := mkRouting _ _ _).
  assert (<[Z.to_nat bus := Some r0]> t !! Z.to_nat bus = Some (Some r0)) as Hself by (apply list_lookup_insert_eq; lia). split.
  - split; [by rewrite length_insert| |].
    + intros b r1 Hb0 Hr1. assert (exists r2, t !! Z.to_nat b = Some (Some r2) /\ r_parent r2 = r_parent r1) as (r2 & Hr2 & Ep).
      { apply insert_cases in Hr1 as [[E [= ->]]|[_ Hr1]]; [exists r; rewrite <- E; done | by exists r1]. }
      rewrite <- Ep. destruct (ro_parent _ Ht b r2 Hb0 Hr2) as [? [r3 Hr3]]. split; [done|].
      destruct (decide (Z.to_nat bus = Z.to_nat (r_parent r2))) as [<-|]; [by exists r0 | exists r3; by rewrite list_lookup_insert_ne].
    + intros b r1 [[_ [= ->]]|[_ Hr1]]%insert_cases; [|by apply (ro_dims _ Ht b)]. cbn [r0 r_irq]. rewrite length_insert. split; [done|].
      apply Forall_insert; [done|]. by rewrite length_insert.
  - exists r0. split; [done|]. unfold irqAt. cbn [r0 r_irq]. rewrite (arr_get_Some _ _ (<[Z.to_nat (pin - 1) := irq]> l)) by (apply list_lookup_insert_eq; lia).
    ostep. apply arr_get_Some, list_lookup_insert_eq. lia.
Qed.

(** ** A machine with a bridge *)

Module Demo.

(** Bus 0 has a bridge to bus 1 and a network card; bus 1 has a disk controller with two functions. *)
Definition machine (a : PciAddress) : option (Z * Z * Z) :=   (* id, class, header *)
  if decide (a = mkAddr 0 1 0) then Some (0x12348086, 0x06040000, 0x01)
  else if decide (a = mkAddr 0 2 0) then Some (0x100E8086, 0x02000000, 0x00)
  else if decide (a = mkAddr 1 0 0) then Some (0x29228086, 0x01060100, 0x80)
  else if decide (a = mkAddr 1 0 3) then Some (0x29238086, 0x02000000, 0x80)
  else None.
Definition in8 (a : PciAddress) (r : Z) : Z :=
  match machine a with
  | Some (_, _, h) => if r =? PciConfHeaderType then h else if r =? PciConfSecondaryBusNumber then 1 else 0
  | None => 0xFF
  end.
(** The network card has pin A, with interrupt 11; the others have no pin. *)
Definition in16 (a : PciAddress) (r : Z) : Z := if decide (a = mkAddr 0 2 0) then 0x010B else 0.
Definition in32 (a : PciAddress) (r : Z) : Z :=
  match machine a with
  | Some (v, c, _) => if r =? PciConfSpaceVendorAndDeviceId then v else if r =? PciConfComplexClassId then c else 0
  | None => 0xFFFFFFFF
  end.
Definition hasConf (a : PciAddress) : bool := true.
(** Bus 0 is its own parent, and pin A of device 2 goes to interrupt 20. *)
Definition routing : routingTable :=
  match ('(_, t) ← registerPciRoutingBus 0 0 0 (replicate 256 None); '(_, t) ← addPciDeviceRouting 0 2 1 20 t; Ok t) with Ok t => t | _ => [] end.
Definition ints : ExternalInterrupts :=
  mkInts (replicate 64 (mkData 1 0 KList.newKList 0 0 0 0)) [] (replicate 64 false) 0 ∅ [] [].
Definition junk : MNode Z (list PciDeviceInfo) := mkMNode _ _ 0 [] 0 0 0.
(** An address above every node. *)
Definition above (s : KMap Z (list PciDeviceInfo)) : Z := foldr Z.max 0 (elements (dom (m_nodes s))) + 1.
Definition newChunk (s : KMap Z (list PciDeviceInfo)) : @Chunk Z (list PciDeviceInfo) := mkChunk (above s) (fun _ => junk).

Lemma above_all (l : list Z) x : x ∈ l -> x <= foldr Z.max 0 l.
Proof. induction l as [|y l IH]; [by intros ?%not_elem_of_nil|]. cbn [foldr]. intros [->|H%IH]%elem_of_cons; lia. Qed.
Lemma newChunk_fresh s : freshChunk 64 (newChunk s) s.
Proof.
  assert (0 <= foldr Z.max 0 (elements (dom (m_nodes s)))) as H0 by (induction (elements _); cbn [foldr]; lia).
  split; [cbn; unfold above; lia|]. intros q Hq%area_ge; [|lia]. cbn in Hq. apply not_elem_of_dom. intros Hin%elem_of_elements%above_all. unfold above in Hq. lia.
Qed.

Lemma empty_ok : routingOk (replicate 256 None).
Proof. split; [done|..]; intros b r; [intros _|]; by intros [? _]%lookup_replicate. Qed.
Lemma routing_ok : routingOk routing.
Proof.
  destruct (registerPciRoutingBus_ok 0 0 0 (replicate 256 None) empty_ok) as (t & E & Ht & [r Hr] & _); [lia|lia|by left|].
  destruct (addPciDeviceRouting_ok 0 2 1 20 t r Ht) as (t' & E' & Ht' & _); [lia|lia|lia|done|].
  unfold routing. rewrite E. ostep. rewrite E'. done.
Qed.

Lemma in8_range a r : 0 <= in8 a r < 256.
Proof. unfold in8, machine. repeat case_decide; repeat (destruct (r =? _)); lia. Qed.

Lemma classes_ok a : reach in8 in32 hasConf (m_bus a) -> isDevice in8 in32 hasConf a -> classOf in32 a ∈ [0x0200; 0x0106].
Proof.
  intros _ (_ & _ & Hd & _). destruct (decide (a ∈ [mkAddr 0 1 0; mkAddr 0 2 0; mkAddr 1 0 0; mkAddr 1 0 3])) as [Hin|Hn].
  - revert Hd. rewrite !elem_of_cons, elem_of_nil in Hin. destruct Hin as [->|[->|[->|[->|[]]]]]; intros Hd; vm_compute in Hd; try discriminate;
      vm_compute; (by left) || (by right; left).
  - exfalso. revert Hd. unfold isDev, present, in32, machine. rewrite !elem_of_cons in Hn.
    repeat (rewrite decide_False by tauto). done.
Qed.

Lemma pci_search_correct_witness :
  exists trace infos s, search in8 in16 in32 hasConf routing ints 64 newChunk = Ok s /\
    NoDup trace /\ Forall2 (fun a iw => readInfo in16 in32 routing ints a (in32 a PciConfSpaceVendorAndDeviceId) = Ok iw) trace infos /\
    confWrites s = concat (writtenOf <$> infos).
Proof.
  destruct (pci_search_correct in8 in16 in32 hasConf routing ints 64 newChunk in8_range routing_ok eq_refl eq_refl
    ltac:(lia) newChunk_fresh [0x0200; 0x0106] ltac:(cbn; lia) classes_ok) as (trace & infos & s & E & Hn & _ & HF & _ & HW).
  exists trace, infos, s. exact (conj E (conj Hn (conj HF HW))).
Defined.

(** What is found, and the interrupt written back to the card. *)
Definition report (r : outcome PciState) : outcome (list (Z * list PciAddress) * list (PciAddress * Z * Z)) :=
  s ← r; l ← items (m_devs s); Ok ((fun x : Z * list PciDeviceInfo => (x.1, m_pciAddress <$> x.2)) <$> (l : list _), confWrites s).
Example bridge_is_searched : report (search in8 in16 in32 hasConf routing ints 64 newChunk) =
  Ok ([(0x0106, [mkAddr 1 0 0]); (0x0200, [mkAddr 0 2 0; mkAddr 1 0 3])], [(mkAddr 0 2 0, PciConfIrq, 20)]).
Proof. vm_compute. reflexivity. Qed.

Lemma circle_loops t : ('(_, t) ← registerPciRoutingBus 1 2 0 (replicate 256 None); '(_, t) ← registerPciRoutingBus 2 1 0 t; Ok t) = Ok t ->
  forall fuel, irqLoop fuel t 0 1 0 = NoFuel /\ irqLoop fuel t 0 2 0 = NoFuel.
Proof. vm_compute registerPciRoutingBus. intros [= <-]. induction fuel as [|fuel [IH1 IH2]]; [done|]. split; [exact IH2 | exact IH1]. Qed.

(** A parent that was never registered is dereferenced, and a circle of parents is walked forever. *)
Example parent_not_registered :
  ('(_, t) ← registerPciRoutingBus 1 0 2 (replicate 256 None); getPciDeviceIrq Buses t 1 0 1) = Fault.
Proof. vm_compute. reflexivity. Qed.
Lemma parents_in_circle fuel :
  ('(_, t) ← registerPciRoutingBus 1 2 0 (replicate 256 None); '(_, t) ← registerPciRoutingBus 2 1 0 t; getPciDeviceIrq fuel t 1 0 1) = NoFuel.
Proof.
  destruct ('(_, t) ← registerPciRoutingBus 1 2 0 (replicate 256 None); '(_, t) ← registerPciRoutingBus 2 1 0 t; Ok t) as [t| | |] eqn:E; [|vm_compute in E; discriminate..].
  destruct (circle_loops t E fuel) as [H _]. revert E H. vm_compute registerPciRoutingBus. intros [= <-] H. exact H.
Qed.
End Demo.
